(* ===== verification/_CoqProject ===== *)
-Q . S2P
Prelude.v
Float.v
Sdnv.v
Segment.v
Tracker.v
Timers.v
Engine.v
EngineLogic.v
Segmentation.v
EngineInvariant.v
EngineRetry.v
Delivery.v
Transfer.v
Recovery.v
Fec.v
Viterbi.v
Frames.v
Modem.v
Spsc.v
Framing.v
Egress.v
Descriptors.v
Listeners.v
Process.v
Waiting.v
Text.v
Json.v
LtpConfig.v
Daemon.v
LtpMain.v
EndToEnd.v
Dsp.v
Codec.v
Radio.v
QpskConfig.v
Servers.v
Pipeline.v
Link.v
Device.v
ModemSockets.v
ModemMain.v
