(* ===== verification/Prelude.v ===== *)
(** * A verification of the QPSK modem and LTP daemon

    The repository holds two programs. The modem ([src/src/*.cpp],
    [src/include/qpsk_b200]) turns payloads into bursts of QPSK symbols and
    back: a frame is built bit by bit, encoded by a convolutional code, mapped
    to symbols, filtered and handed to a radio; the way back undoes each step.
    The daemon ([src/src/ltp_cla], [src/include/ltp_cla]) runs the Licklider
    transmission protocol (RFC 5326) over such a link: blocks from TCP clients
    are cut into segments, sent with retransmission, reassembled and delivered
    to TCP clients on the other side.

    ** The daemon, from the wire upwards

    - [Sdnv] : numbers of the wire format ([sdnv.cpp]).
    - [Segment] : segments, encoder and decoder ([ltp_segment.cpp]). The
      decoder's result is a segment, [nullopt] or a failure that its [catch]
      does not cover.
    - [Tracker] : the receiver's byte ranges ([reception_tracker.cpp]),
      specified by the set of positions they cover.
    - [Timers] : the timer manager ([timer_manager.cpp]): one definition per
      critical section, its thread as a step relation, the callback it calls
      with the mutex released, and the class [TimerService] with its laws,
      through which the engine uses it.
    - [Engine] : the protocol ([ltp_engine.cpp]), one definition per handler in
      a state monad that can fail. The transport and the two callbacks of the
      code are the engine's outputs. [EngineLogic] is a weakest-precondition
      calculus for it with a rule per handler; [Segmentation] what the cutting
      loops produce; [EngineInvariant] the session table's invariant and the
      absence of faults; [EngineRetry] retransmission, completion and
      cancellation; [Delivery] what may be delivered on an arbitrary network;
      [Transfer] two engines and a block that arrives in spite of losses;
      [Recovery] the same two under any losses, repetitions and timeouts, and
      that one good round is always enough.
    - [Framing] : length-prefixed messages, the adapter's two threads over
      partial reads and writes and reconnections
      ([convergence_layer_adapter.cpp]), that its two ends agree, and the
      ingress server's clients ([tcp_ingress.cpp]).
    - [Egress] : delivery to downstream clients, write by write
      ([tcp_egress.cpp]).
    - [LtpConfig] : validation, command line and JSON text ([config.cpp] of
      [ltp_cla]).

    - [Daemon] : the components wired together and started from the arguments
      ([main.cpp] of [ltp_cla]). Its threads are steps that a schedule orders;
      a call into the engine is entered and returned from, and a run in which
      two threads are inside the engine is undefined, as the code has no lock
      there. What holds of the engine and of the servers holds of every other
      run, and of that one until then, up to what an egress client is written.
    - [Descriptors] : system calls on file descriptors, when a sequence of them
      is legal, and the class [Owner] of components that hold descriptors, with
      its laws and its products. [Listeners] has the two servers and the
      adapter from [start] to the end of [stop], their threads interleaved with
      the main thread ([tcp_ingress.cpp], [tcp_egress.cpp],
      [convergence_layer_adapter.cpp]); [Process] the three as one process:
      nothing is leaked or used after it was closed, and once every [stop] has
      returned everything is closed.
    - [LtpMain] : all of [main], from the arguments to the exit code, with every
      schedule of the threads of the sockets and of those that call the engine
      until the last of them is joined. A join of a thread that does not get to
      its end does not return, and a failing call of the engine ends the run.
    - [Waiting] : a condition variable, the timer thread's wait, which misses no
      timer and no [stop], and the adapter's, which can miss the [stop].
    - [EndToEnd] : two daemons in alternate turns, and a block that crosses
      from a client of one's ingress to a client of the other's egress.

    ** The modem

    - [Fec] : the convolutional encoder, puncturing and the Viterbi decoder
      ([fec_encoder.cpp], [fec_decoder.cpp]); [Viterbi] that the decoder is
      maximum-likelihood, and what it corrects.
    - [Frames] : CRC-32, the frame builder and parser ([frame_builder.cpp],
      [frame_parser.cpp]).
    - [Modem] : the symbol mapper, the encoder up to the pulse shaper and the
      decoder from the detected preamble on ([symbol_mapper.cpp],
      [encoder.cpp], [decoder.cpp]).
    - [Dsp] : the pulse shaper, the carrier and timing loops and the preamble
      search ([pulse_shaper.cpp], [carrier_sync.cpp], [timing_recovery.cpp],
      [frame_sync.cpp]), in IEEE arithmetic.
    - [Codec] : the encoder and the decoder from samples to samples
      ([encoder.cpp], [decoder.cpp]), and that every call is accounted for.
    - [Spsc] : the queue between the threads ([spsc_queue.h]), as functions and
      as interleaved atomic actions.
    - [Radio] : the loops over the driver's streamers ([b200_interface.cpp]),
      the bursts of the transmit thread and the buffer of the receive thread
      ([main.cpp]). [Device] : the calls that find, open and configure the
      device, the build without UHD, and what [main] does when they throw.
    - [Servers] : the TCP servers, the UDP sockets and their threads
      ([tcp_input_server.cpp], [tcp_output_server.cpp], [udp_input.cpp],
      [udp_output.cpp], [main.cpp]).
    - [QpskConfig] : settings, validation, configuration file and command line
      ([config.cpp], [main.cpp]).
    - [Pipeline] : the transmit and the receive direction, each an input, a
      queue and an output under every interleaving of their two threads
      ([main.cpp]): what a client sends is what is burst, and what is decoded
      is what the clients are sent. The radio's [send] is part of the transmit
      thread's round, with the driver's answers. The transmit direction is
      proved against the class [Source] of [Servers], the receive direction
      against the class [Sink], each of which the TCP server's thread and the
      UDP socket's implement.
    - [ModemSockets] : the four sockets with their descriptors, and the classes
      [Socket], [Reader] and [Writer] that they implement. [ModemMain] : the
      whole of [main] over them: the radio, the codec, the sockets of either
      transport, the threads of the mode under every schedule, the calls that
      keep one of them from ending, the shutdown, and the exit code
      ([main.cpp]).
    - [Link] : two daemons' adapters over two modems, as far as it depends on
      the radio only by the payloads that come through.

    Both programs use [Float] (binary32 and binary64 on the Standard Library's
    [SpecFloat], and the class [Libm] of the mathematical library), [Text]
    ([std::to_string], [std::stoi], [std::stoull]) and [Json] (the class of the
    JSON library with its laws, and an instance).

    ** How the code is translated

    Integers are [Z] with each wrap-around written out ([u8] to [u64] below);
    a [std::vector<uint8_t>] is a list of [Z] ([bytes] says they are bytes).
    Code that can throw, read outside a buffer or not return has a result in
    [outcome] (below), whose errors tell exceptions, undefined behaviour and
    divergence apart. A mutable object is a record passed through; a reference
    to a session is the session's key in the map, so that aliasing is kept.
    What the operating system answers (a descriptor, the bytes of a [recv], the
    count of a [send], a failed connection, the time) is an argument of the
    definition that asks, and the theorems hold for every answer; of a new
    descriptor they assume that it was not open. [std::mutex] sections are
    single steps, and a thread's round between two looks at shared state is
    one; [Waiting] takes a wait on a condition variable apart, [Spsc] the
    queue's atomic accesses. A signal is the end of the schedule.

    Fuel: the loops with fuel are the SDNV loops (ten digits: the code's own
    bound), the segmentation loops (the block's length: each round with a
    positive segment size takes a byte), and the loops over received bytes
    (their number) and over the queue (its capacity). [Err Diverges] stands
    for a loop that does not end. The radio's loops retry as long as the list
    of the driver's answers lasts; one that outlasts it is still retrying, and
    the thread with it. The wrapping loops of the carrier
    synchroniser and the timing loop have a fuel argument that the theorems
    leave arbitrary: how often they turn depends on the samples, and for an
    infinite phase they do not end. A theorem about code that calls them has
    that as an explicit case ([Codec.synchroniser_fails]) and no other failure.

    ** What is not modelled

    Whether the synchronisers converge on a noisy signal: their definitions are
    those of the code, but that is a statistical statement. The usage texts,
    logging, and the diagnostics printed at shutdown are output. The address
    family, the options and the back-log of a socket are not arguments of its
    calls here, a write to a closed connection is an error and not the signal
    SIGPIPE, and creating a thread does not fail. The mathematical functions,
    the JSON library, the radio driver, [std::stod] and the contents of files
    are arguments or classes. *)
From stdpp Require Export base numbers list gmap strings.
From Stdlib Require Export ZArith Lia.
#[global] Open Scope Z_scope.

(** ** Machine-width unsigned integers *)

Definition u8 (x : Z) : Z := x mod 2 ^ 8.
Definition u16 (x : Z) : Z := x mod 2 ^ 16.
Definition u32 (x : Z) : Z := x mod 2 ^ 32.
Definition u64 (x : Z) : Z := x mod 2 ^ 64.

(** A [uint8_t] value, and a [std::vector<uint8_t>] of them. *)
Definition is_byte (b : Z) : Prop := 0 <= b < 256.
Definition bytes (l : list Z) : Prop := Forall is_byte l.
Definition is_u64 (x : Z) : Prop := 0 <= x < 2 ^ 64.

#[export] Instance is_byte_dec b : Decision (is_byte b).
Proof. unfold is_byte. apply _. Defined.
#[export] Instance is_u64_dec b : Decision (is_u64 b).
Proof. unfold is_u64. apply _. Defined.

Ltac dlia := Z.to_euclidean_division_equations; lia.

Lemma u8_small x : 0 <= x < 256 -> u8 x = x.
Proof. intros. apply Z.mod_small. lia. Qed.
Lemma u16_small x : 0 <= x < 65536 -> u16 x = x.
Proof. intros. apply Z.mod_small. lia. Qed.
Lemma u32_small x : 0 <= x < 2 ^ 32 -> u32 x = x.
Proof. intros. by apply Z.mod_small. Qed.
Lemma u64_small x : 0 <= x < 2 ^ 64 -> u64 x = x.
Proof. intros. by apply Z.mod_small. Qed.
Lemma u8_range x : 0 <= u8 x < 256.
Proof. unfold u8. dlia. Qed.
Lemma u16_range x : 0 <= u16 x < 65536.
Proof. unfold u16. dlia. Qed.
Lemma u32_range x : 0 <= u32 x < 2 ^ 32.
Proof. unfold u32. dlia. Qed.
Lemma u64_range x : 0 <= u64 x < 2 ^ 64.
Proof. unfold u64. dlia. Qed.
Lemma u8_is_byte x : is_byte (u8 x).
Proof. apply u8_range. Qed.

Create HintDb cpp.
Create Rewrite HintDb cpp.
#[export] Hint Resolve u8_range u16_range u32_range u64_range u8_is_byte : cpp.
#[export] Hint Rewrite u8_small u16_small u32_small u64_small using lia : cpp.

(** ** Bit-level reasoning on [Z]

    [Z.lor] of two values whose bits do not meet is their sum: the form every
    shift-and-or of the code is reduced to before [lia] takes over. *)

Lemma lor_disjoint a b n : 0 <= n -> 0 <= b < 2 ^ n -> Z.lor (Z.shiftl a n) b = a * 2 ^ n + b.
Proof.
  intros Hn Hb. rewrite Z.shiftl_mul_pow2 by done.
  rewrite <- Z.add_nocarry_lor; [done|].
  apply Z.bits_inj'. intros i Hi. rewrite Z.land_spec, Z.bits_0.
  destruct (Z.lt_ge_cases i n).
  - rewrite Z.mul_pow2_bits_low by lia. done.
  - destruct (decide (b = 0)) as [->|]; [by rewrite Z.bits_0, andb_false_r|].
    rewrite (Z.bits_above_log2 b), andb_false_r; [done|lia|].
    apply Z.log2_lt_pow2; [lia|].
    eapply Z.lt_le_trans; [apply Hb|]. apply Z.pow_le_mono_r; lia.
Qed.

Lemma land_ones_mod a n : 0 <= n -> Z.land a (2 ^ n - 1) = a mod 2 ^ n.
Proof. intros. rewrite <- Z.land_ones by done. by rewrite Z.ones_equiv, Z.sub_1_r. Qed.

Lemma land_0x7F a : Z.land a 0x7F = a mod 128.
Proof. apply (land_ones_mod a 7). lia. Qed.
Lemma land_0xFF a : Z.land a 0xFF = a mod 256.
Proof. apply (land_ones_mod a 8). lia. Qed.
Lemma land_0x0F a : Z.land a 0x0F = a mod 16.
Proof. apply (land_ones_mod a 4). lia. Qed.
Lemma land_1 a : Z.land a 1 = a mod 2.
Proof. apply (land_ones_mod a 1). lia. Qed.

#[export] Hint Rewrite land_0x7F land_0xFF land_0x0F land_1 : cpp.

(** ** Outcomes of C++ code

    A call returns a value, throws an exception, or does something the
    language leaves undefined (a read outside a vector, an iterator range past
    its end). [Diverges] is a loop that never exits. *)

Inductive exn :=
  | RuntimeError      (* std::runtime_error *)
  | BadVariantAccess  (* std::get on another alternative *)
  | LengthError       (* std::length_error: larger than max_size() *)
  | BadAlloc          (* std::bad_alloc *)
  | InvalidArgument   (* std::invalid_argument *)
  | OutOfRange.       (* std::out_of_range *)

Inductive fault :=
  | Throw (e : exn)
  | Undefined
  | Diverges.

Inductive outcome (A : Type) :=
  | Ok (a : A)
  | Err (f : fault).
Arguments Ok {A} a.
Arguments Err {A} f.

#[export] Instance exn_eq_dec : EqDecision exn.
Proof. solve_decision. Defined.
#[export] Instance fault_eq_dec : EqDecision fault.
Proof. solve_decision. Defined.

#[export] Instance outcome_ret : MRet outcome := fun A a => Ok a.
#[export] Instance outcome_bind : MBind outcome := fun A B f m =>
  match m with Ok a => f a | Err e => Err e end.
#[export] Instance outcome_fmap : FMap outcome := fun A B f m =>
  match m with Ok a => Ok (f a) | Err e => Err e end.

Definition is_ok {A} (m : outcome A) : Prop := exists a, m = Ok a.

Lemma bind_ok {A B} (f : A -> outcome B) m b :
  (m ≫= f) = Ok b -> exists a, m = Ok a /\ f a = Ok b.
Proof. destruct m; [eauto|discriminate]. Qed.

Lemma bind_Ok {A B} (a : A) (f : A -> outcome B) : (Ok a ≫= f) = f a.
Proof. done. Qed.
#[export] Hint Rewrite @bind_Ok : cpp.

(** [inv_ok H] decomposes [H : (x ← m; k x) = Ok b] into the runs of [m] and
    of [k], repeatedly. *)
Ltac inv_ok H :=
  match type of H with
  | (_ ≫= _) = Ok _ =>
      let a := fresh "r" in let E := fresh "E" in
      apply bind_ok in H as (a & E & H); inv_ok H
  | _ => idtac
  end.

(** Code that throws nothing: what it fails in is undefined or does not end. *)
Definition no_throw {A} (m : outcome A) : Prop := match m with Err (Throw _) => False | _ => True end.

Lemma no_throw_bind {A B} (m : outcome A) (f : A -> outcome B) : no_throw m -> (forall a, m = Ok a -> no_throw (f a)) -> no_throw (m ≫= f).
Proof. destruct m as [a|e]; intros Hm Hf; [by apply Hf|exact Hm]. Qed.

Lemma no_throw_err {A} (m : outcome A) e : no_throw m -> m = Err e -> forall x, e <> Throw x.
Proof. intros Hm -> x ->. exact Hm. Qed.

(** ** Vectors and byte ranges *)

Abbreviation zlen l := (Z.of_nat (length l)).

(** [x.assign(p + off, p + off + n)] from a buffer of [length l] bytes: the
    range has to lie in the buffer, its end computed without wrapping. *)
Definition range {A} (l : list A) (off n : Z) : outcome (list A) :=
  if bool_decide (0 <= off /\ 0 <= n /\ off + n <= zlen l)
  then Ok (take (Z.to_nat n) (drop (Z.to_nat off) l))
  else Err Undefined.

Lemma range_ok {A} (l : list A) off n :
  0 <= off -> 0 <= n -> off + n <= zlen l ->
  range l off n = Ok (take (Z.to_nat n) (drop (Z.to_nat off) l)).
Proof. intros. unfold range. by rewrite bool_decide_eq_true_2. Qed.

Lemma range_app {A} (pre mid post : list A) off n :
  off = zlen pre -> n = zlen mid -> range (pre ++ mid ++ post) off n = Ok mid.
Proof.
  intros -> ->. rewrite range_ok; rewrite ?length_app; try lia.
  by rewrite !Nat2Z.id, drop_app_length, take_app_length.
Qed.

Lemma bytes_app l1 l2 : bytes (l1 ++ l2) <-> bytes l1 /\ bytes l2.
Proof. apply Forall_app. Qed.
Lemma bytes_take n l : bytes l -> bytes (take n l).
Proof. apply Forall_take. Qed.
Lemma bytes_drop n l : bytes l -> bytes (drop n l).
Proof. apply Forall_drop. Qed.
#[export] Hint Resolve bytes_take bytes_drop : cpp.

(** [p[off]] for a buffer of [length l] elements. *)
Definition read {A} (l : list A) (off : Z) : outcome A :=
  if bool_decide (0 <= off) then
    match l !! Z.to_nat off with Some b => Ok b | None => Err Undefined end
  else Err Undefined.

Lemma read_no_throw {A} (l : list A) off : no_throw (read l off).
Proof. unfold read. case_bool_decide; [|done]. by destruct (l !! _). Qed.

(** [std::copy(bs.begin(), bs.end(), l.begin() + off)]: the destination has to
    lie in the vector. *)
Definition store {A} (l : list A) (off : Z) (bs : list A) : outcome (list A) :=
  if bool_decide (0 <= off /\ off + zlen bs <= zlen l)
  then Ok (take (Z.to_nat off) l ++ bs ++ drop (Z.to_nat off + length bs) l)
  else Err Undefined.

(** What the allocator grants: a request of more than [alloc_limit] bytes makes
    [operator new] throw [std::bad_alloc]. Only the requests whose size the
    code takes from the network are checked against it. *)
Class Allocator := { alloc_limit : Z }.

(** A machine that grants a gibibyte, for the concrete runs. *)
Definition one_gib : Allocator := {| alloc_limit := 2 ^ 30 |}.

(** [v.reserve(n)] / [v.resize(n)] for elements of [size] bytes. *)
Definition allocate `{Allocator} (size n : Z) : outcome () :=
  if bool_decide ((2 ^ 63 - 1) / size < n) then Err (Throw LengthError)
  else if bool_decide (alloc_limit < n * size) then Err (Throw BadAlloc)
  else Ok ().

Lemma allocate_ok `{Allocator} size n :
  0 < size -> n * size <= alloc_limit -> n * size < 2 ^ 63 -> allocate size n = Ok ().
Proof.
  intros Hs Ha Hn. unfold allocate. rewrite !bool_decide_eq_false_2; [done|lia|].
  apply Z.nlt_ge, Z.div_le_lower_bound; lia.
Qed.

(** ** Cursors: [off] is the position in [data] at which [rest] begins *)

Definition cursor {A} (data : list A) (off : Z) (rest : list A) : Prop :=
  exists pre, data = pre ++ rest /\ off = zlen pre.

Section cursors.
Context {A : Type}.
Implicit Types data rest l : list A.

Lemma cursor_start data : cursor data 0 data.
Proof. by exists []. Qed.

Lemma cursor_len data off rest : cursor data off rest -> 0 <= off /\ off + zlen rest = zlen data.
Proof. intros (pre & -> & ->). rewrite length_app. lia. Qed.

Lemma cursor_app data off l rest :
  cursor data off (l ++ rest) -> cursor data (off + zlen l) rest.
Proof.
  intros (pre & -> & ->). exists (pre ++ l). rewrite length_app, app_assoc. split; [done|lia].
Qed.

Lemma cursor_read data off b rest :
  cursor data off (b :: rest) -> read data off = Ok b /\ cursor data (off + 1) rest.
Proof.
  intros Hc. split; [|by apply (cursor_app _ _ [b])].
  destruct Hc as (pre & -> & ->). unfold read. rewrite bool_decide_eq_true_2 by lia.
  by rewrite Nat2Z.id, list_lookup_middle.
Qed.

Lemma cursor_range data off l rest :
  cursor data off (l ++ rest) -> range data off (zlen l) = Ok l.
Proof. intros (pre & -> & ->). by apply range_app. Qed.
End cursors.

Lemma read_byte data off b : bytes data -> read data off = Ok b -> is_byte b.
Proof.
  intros Hb Hr. unfold read in Hr. case_bool_decide; [|discriminate].
  destruct (data !! _) eqn:E; [|discriminate]. injection Hr as ->. by eapply Forall_lookup_1.
Qed.

Lemma range_bytes data off n l : bytes data -> range data off n = Ok l -> bytes l.
Proof.
  intros Hb Hr. unfold range in Hr. case_bool_decide; [|discriminate].
  injection Hr as <-. auto with cpp.
Qed.

Lemma range_len {A} (data : list A) off n l : range data off n = Ok l -> zlen l = n.
Proof.
  intros Hr. unfold range in Hr. case_bool_decide; [|discriminate].
  injection Hr as <-. rewrite length_take, length_drop. lia.
Qed.
