(* ===== verification/Float.v ===== *)
(** * Binary floating point

    [float] and [double] are the binary32 and binary64 numbers of IEEE 754,
    with the standard library's operations, which round to nearest, ties to
    even, as the C++ operators do. *)
From Stdlib Require Export SpecFloat.
From S2P Require Import Prelude.

Module Float.

(** ** binary64 *)

Definition double := spec_float.

Definition valid64 (x : double) : Prop := valid_binary 53 1024 x = true.

(** The double nearest to an integer: [static_cast<double>(z)], and the
    literals that are integers. *)
Definition double_of_Z (z : Z) : double := binary_normalize 53 1024 z 0 false.

Definition dadd : double -> double -> double := SFadd 53 1024.
Definition dsub : double -> double -> double := SFsub 53 1024.
Definition dmul : double -> double -> double := SFmul 53 1024.
Definition ddiv : double -> double -> double := SFdiv 53 1024.
Definition dsqrt : double -> double := SFsqrt 53 1024.

Definition dlt (x y : double) : bool := SFltb x y.
Definition dle (x y : double) : bool := SFleb x y.

(** ** binary32, and conversions *)

Definition float := spec_float.

Definition fadd : float -> float -> float := SFadd 24 128.
Definition fsub : float -> float -> float := SFsub 24 128.
Definition fmul : float -> float -> float := SFmul 24 128.
Definition fdiv : float -> float -> float := SFdiv 24 128.
Definition fsqrt : float -> float := SFsqrt 24 128.

(** [static_cast<float>] of a double, and back, which is exact. *)
Definition narrow (x : double) : float :=
  match x with S754_finite s m e => binary_normalize 24 128 (cond_Zopp s (Z.pos m)) e s | _ => x end.
Definition widen (x : float) : double :=
  match x with S754_finite s m e => binary_normalize 53 1024 (cond_Zopp s (Z.pos m)) e s | _ => x end.

Definition float_of_Z (z : Z) : float := binary_normalize 24 128 z 0 false.

(** The integer part, toward zero; [None] for an infinity or a NaN. *)
Definition truncated (x : double) : option Z :=
  match x with
  | S754_zero _ => Some 0
  | S754_finite s m e => Some (cond_Zopp s (if 0 <=? e then Z.pos m * 2 ^ e else Z.pos m / 2 ^ (- e)))
  | _ => None
  end.

(** [static_cast] to an integer type: undefined unless the truncated value is
    one of its values. *)
Definition cast (lo hi : Z) (x : double) : outcome Z :=
  match truncated x with
  | Some v => if (lo <=? v) && (v <? hi) then Ok v else Err Undefined
  | None => Err Undefined
  end.

Lemma cast_no_throw lo hi x : no_throw (cast lo hi x).
Proof. unfold cast. destruct (truncated x) as [v|]; [|done]. by destruct (_ && _). Qed.

(** ** std::complex<float>

    The products are by the formula, which is what compilers compute but for
    products with an infinity or a NaN, where they differ. *)

Definition complex : Type := float * float.

Definition fzero : float := S754_zero false.
Definition czero : complex := (fzero, fzero).

Definition cadd (a b : complex) : complex := (fadd (fst a) (fst b), fadd (snd a) (snd b)).
Definition csub (a b : complex) : complex := (fsub (fst a) (fst b), fsub (snd a) (snd b)).
Definition cscale (a : complex) (t : float) : complex := (fmul (fst a) t, fmul (snd a) t).
Definition cunscale (a : complex) (t : float) : complex := (fdiv (fst a) t, fdiv (snd a) t).
Definition cmul (a b : complex) : complex :=
  (fsub (fmul (fst a) (fst b)) (fmul (snd a) (snd b)), fadd (fmul (fst a) (snd b)) (fmul (snd a) (fst b))).
Definition conj (a : complex) : complex := (fst a, SFopp (snd a)).
Definition norm (a : complex) : float := fadd (fmul (fst a) (fst a)) (fmul (snd a) (snd a)).

(** The functions of the mathematical library, whose last bit the standard
    leaves open. *)
Class Libm := { dsin : double -> double; dcos : double -> double; dpow : double -> double -> double; fhypot : float -> float -> float }.

(** [std::abs] *)
Definition cabs `{Libm} (a : complex) : float := fhypot (fst a) (snd a).

(** ** The numbers doubles stand for

    Every finite double is a whole multiple of 2^-1074; [scaled] counts how
    many, so that ranges are ranges of integers. *)

(** A double that is a number. *)
Definition real (x : double) : Prop := valid64 x /\ match x with S754_zero _ | S754_finite _ _ _ => True | _ => False end.

Definition scaled (x : double) : Z :=
  match x with S754_finite s m e => cond_Zopp s (Z.pos m * 2 ^ (e + 1074)) | _ => 0 end.

(** The integer [z] at that scale. *)
Definition units (z : Z) : Z := z * 2 ^ 1074.

Lemma digits_bound m : 2 ^ (Z.pos (digits2_pos m) - 1) <= Z.pos m < 2 ^ Z.pos (digits2_pos m).
Proof.
  induction m as [m IH|m IH|]; cbn [digits2_pos]; [| |cbn; lia].
  all: rewrite Pos2Z.inj_succ; rewrite Z.pow_succ_r by lia;
    replace (Z.succ (Z.pos (digits2_pos m)) - 1) with (Z.succ (Z.pos (digits2_pos m) - 1)) by lia; rewrite Z.pow_succ_r by lia; lia.
Qed.

(** A canonical mantissa: short only at the least exponent. *)
Lemma canonical s m e : valid64 (S754_finite s m e) -> -1074 <= e /\ Z.pos m < 2 ^ 53 /\ (-1074 < e -> 2 ^ 52 <= Z.pos m).
Proof.
  unfold valid64, valid_binary, bounded, canonical_mantissa, fexp, SpecFloat.emin. intros H. apply andb_prop in H as [H _].
  apply Z.eqb_eq in H. pose proof (digits_bound m) as Hd. split_and!; [lia| |].
  - eapply Z.lt_le_trans; [apply Hd|]. apply Z.pow_le_mono_r; lia.
  - intros He. assert (Z.pos (digits2_pos m) = 53) as E by lia. rewrite E in Hd. lia.
Qed.

Lemma pos_lt m1 e1 m2 e2 s1 s2 :
  valid64 (S754_finite s1 m1 e1) -> valid64 (S754_finite s2 m2 e2) -> e1 < e2 ->
  Z.pos m1 * 2 ^ (e1 + 1074) < Z.pos m2 * 2 ^ (e2 + 1074).
Proof.
  intros (H1 & H1' & _)%canonical (H2 & _ & H2')%canonical He. specialize (H2' ltac:(lia)).
  replace (e2 + 1074) with ((e1 + 1074) + 1 + (e2 - e1 - 1)) by lia. rewrite (Z.pow_add_r _ _ (e2 - e1 - 1)), (Z.pow_add_r _ _ 1) by lia.
  assert (0 < 2 ^ (e1 + 1074)) as HE by (apply Z.pow_pos_nonneg; lia). assert (0 < 2 ^ (e2 - e1 - 1)) as HK by (apply Z.pow_pos_nonneg; lia).
  assert (Z.pos m1 < 2 * Z.pos m2) as Hm by lia. revert HE HK Hm. generalize (2 ^ (e1 + 1074)) (2 ^ (e2 - e1 - 1)). intros E K HE HK Hm.
  apply Z.lt_le_trans with (2 * Z.pos m2 * E); [nia|]. change (2 ^ 1) with 2. nia.
Qed.

Lemma compare_pos m1 e1 m2 e2 s1 s2 :
  valid64 (S754_finite s1 m1 e1) -> valid64 (S754_finite s2 m2 e2) ->
  match e1 ?= e2 with Lt => Lt | Gt => Gt | Eq => PosDef.Pos.compare_cont Eq m1 m2 end =
  (Z.pos m1 * 2 ^ (e1 + 1074) ?= Z.pos m2 * 2 ^ (e2 + 1074)).
Proof.
  intros V1 V2. destruct (Z.compare_spec e1 e2) as [->|He|He]; symmetry.
  - pose proof (canonical _ _ _ V2) as (H & _). assert (0 < 2 ^ (e2 + 1074)) as HE by (apply Z.pow_pos_nonneg; lia).
    change (PosDef.Pos.compare_cont Eq m1 m2) with (Z.pos m1 ?= Z.pos m2). rewrite (Zmult_compare_compat_r (Z.pos m1) (Z.pos m2) (2 ^ (e2 + 1074))) by lia. done.
  - apply Z.compare_lt_iff. by eapply pos_lt.
  - apply Z.compare_gt_iff. by eapply pos_lt.
Qed.

(** Comparison of doubles is comparison of numbers. *)
Lemma compare_scaled x y : real x -> real y -> SFcompare x y = Some (scaled x ?= scaled y).
Proof.
  intros [Vx Hx] [Vy Hy].
  assert (forall s m e, valid64 (S754_finite s m e) -> 0 < Z.pos m * 2 ^ (e + 1074)) as Hpos.
  { intros s m e (H & _)%canonical. apply Z.mul_pos_pos; [lia|]. apply Z.pow_pos_nonneg; lia. }
  destruct x as [sx|sx| |sx mx ex], y as [sy|sy| |sy my ey]; try done; cbn [SFcompare scaled].
  - destruct sy; cbn [cond_Zopp]; f_equal; symmetry; [apply Z.compare_gt_iff|apply Z.compare_lt_iff]; specialize (Hpos _ _ _ Vy); lia.
  - destruct sx; cbn [cond_Zopp]; f_equal; symmetry; [apply Z.compare_lt_iff|apply Z.compare_gt_iff]; specialize (Hpos _ _ _ Vx); lia.
  - pose proof (compare_pos _ _ _ _ _ _ Vx Vy) as E. destruct sx, sy; cbn [cond_Zopp]; f_equal.
    + rewrite Z.compare_opp, (Z.compare_antisym (Z.pos mx * _)), <- E. by destruct (ex ?= ey).
    + symmetry. apply Z.compare_lt_iff. pose proof (Hpos _ _ _ Vx). pose proof (Hpos _ _ _ Vy). lia.
    + symmetry. apply Z.compare_gt_iff. pose proof (Hpos _ _ _ Vx). pose proof (Hpos _ _ _ Vy). lia.
    + rewrite <- E. by destruct (ex ?= ey).
Qed.

Lemma ltb_scaled x y : real x -> real y -> SFltb x y = (scaled x <? scaled y).
Proof. intros Hx Hy. unfold SFltb. rewrite compare_scaled by done. unfold Z.ltb. by destruct (_ ?= _). Qed.

Lemma leb_scaled x y : real x -> real y -> SFleb x y = (scaled x <=? scaled y).
Proof. intros Hx Hy. unfold SFleb. rewrite compare_scaled by done. unfold Z.leb. by destruct (_ ?= _). Qed.
End Float.
