(* ===== verification/Sdnv.v ===== *)
(** * Self-delimiting numeric values (src/src/ltp_cla/sdnv.cpp, RFC 5326)

    Big-endian base-128 digits, the top bit of every byte but the last set. *)
From S2P Require Import Prelude.

Module Sdnv.

Definition MAX_BYTES : Z := 10.

(** [struct Encoded]: a fixed array of ten bytes and the length in use. *)
Record Encoded := MkEncoded { enc_bytes : list Z; enc_length : Z }.

(** The [while (value > 0)] loop of [encode]: the digits, least significant
    first, as they are written to [tmp]. *)
Fixpoint encode_loop (fuel : nat) (value : Z) (first : bool) (tmp : list Z) : list Z :=
  match fuel with
  | O => tmp
  | S fuel' =>
      if bool_decide (0 < value) then
        let byte := u8 (Z.land value 0x7F) in
        let byte := if first then byte else Z.lor byte 0x80 in
        encode_loop fuel' (Z.shiftr value 7) false (tmp ++ [byte])
      else tmp
  end.

(** Iterations granted to the loop: one per bit of the value, enough for the
    seven bits each iteration removes (see [encode_fuel_enough]). *)
Definition loop_fuel (value : Z) : nat := S (Z.to_nat (Z.log2 value)).

Definition encode (value : Z) : Encoded :=
  if bool_decide (value = 0) then MkEncoded (replicate 10 0) 1
  else
    let tmp := encode_loop (loop_fuel value) value true [] in
    MkEncoded (rev tmp ++ replicate (10 - length tmp) 0) (zlen tmp).

Definition encode_into (value : Z) (out : list Z) : list Z :=
  out ++ take (Z.to_nat (enc_length (encode value))) (enc_bytes (encode value)).

(** The [while (offset < length)] loop of [decode], on the unread suffix. *)
Fixpoint decode_loop (rest : list Z) (offset bytes_consumed value : Z) : outcome (Z * Z) :=
  match rest with
  | [] => Err (Throw RuntimeError)
  | byte :: rest' =>
      let offset := offset + 1 in
      let bytes_consumed := bytes_consumed + 1 in
      if bool_decide (MAX_BYTES < bytes_consumed) then Err (Throw RuntimeError)
      else
        let value := Z.lor (u64 (Z.shiftl value 7)) (Z.land byte 0x7F) in
        if bool_decide (Z.land byte 0x80 = 0) then Ok (value, offset)
        else decode_loop rest' offset bytes_consumed value
  end.

(** [decode(data, length, offset)]: the value and the advanced offset. *)
Definition decode (data : list Z) (offset : Z) : outcome (Z * Z) :=
  if bool_decide (zlen data <= offset) then Err (Throw RuntimeError)
  else decode_loop (drop (Z.to_nat offset) data) offset 0 0.

Example encode_300 : encode_into 300 [] = [0x82; 0x2C].
Proof. reflexivity. Qed.
Example encode_max : enc_length (encode (2 ^ 64 - 1)) = 10.
Proof. reflexivity. Qed.
Example decode_300 : decode [0xAA; 0x82; 0x2C; 0x7] 1 = Ok (300, 3).
Proof. reflexivity. Qed.

(** ** The encoding loop *)

Lemma digit_byte b : 0 <= b < 128 -> u8 (Z.land b 0x7F) = b.
Proof. intros. rewrite land_0x7F, u8_small; dlia. Qed.

Lemma digit_step value : u8 (Z.land value 0x7F) = value mod 128.
Proof. rewrite land_0x7F, u8_small; dlia. Qed.

Lemma cont_digit d : 0 <= d < 128 -> Z.lor d 0x80 = d + 128.
Proof.
  intros. rewrite Z.lor_comm. change (Z.lor 0x80 d) with (Z.lor (Z.shiftl 1 7) d).
  rewrite (lor_disjoint 1 d 7); lia.
Qed.

Lemma cont_payload d : 0 <= d < 128 -> Z.land (d + 128) 0x7F = d.
Proof. intros. rewrite land_0x7F. dlia. Qed.

Lemma top_bit b : is_byte b -> Z.land b 0x80 = (b / 128) * 128.
Proof.
  intros Hb. unfold is_byte in Hb. revert b Hb.
  assert (forall n, (n < 256)%nat -> Z.land (Z.of_nat n) 0x80 = Z.of_nat n / 128 * 128) as H.
  { intros n Hn. do 256 (destruct n as [|n]; [done|]). lia. }
  intros b Hb. rewrite <- (Z2Nat.id b) by lia. apply H. lia.
Qed.

Lemma encode_loop_tmp fuel value first tmp :
  encode_loop fuel value first tmp = tmp ++ encode_loop fuel value first [].
Proof.
  revert value first tmp. induction fuel as [|fuel IH]; intros; simpl; [by rewrite app_nil_r|].
  case_bool_decide; [|by rewrite app_nil_r].
  rewrite IH. rewrite (IH _ _ [_]). by rewrite <- app_assoc.
Qed.

(** One iteration, with the bit operations as arithmetic. *)
Lemma encode_loop_S fuel value first :
  0 < value ->
  encode_loop (S fuel) value first [] =
    (if first then value mod 128 else value mod 128 + 128)
      :: encode_loop fuel (value / 128) false [].
Proof.
  intros Hv. simpl. rewrite bool_decide_eq_true_2 by done.
  rewrite encode_loop_tmp, digit_step, Z.shiftr_div_pow2 by lia.
  rewrite cont_digit by dlia. by destruct first.
Qed.

Lemma encode_loop_0 fuel value first : value <= 0 -> encode_loop fuel value first [] = [].
Proof. intros. destruct fuel; simpl; [done|]. by rewrite bool_decide_eq_false_2 by lia. Qed.

(** The loop exits by its own condition: more fuel changes nothing. *)
Lemma encode_fuel_enough fuel fuel' value first :
  value < 2 ^ Z.of_nat fuel -> (fuel <= fuel')%nat ->
  encode_loop fuel' value first [] = encode_loop fuel value first [].
Proof.
  revert fuel' value first. induction fuel as [|fuel IH]; intros fuel' value first Hv Hf.
  - rewrite !encode_loop_0; [done|simpl in Hv; lia..].
  - destruct (decide (0 < value)); [|by rewrite !encode_loop_0 by lia].
    destruct fuel' as [|fuel']; [lia|]. rewrite !encode_loop_S by done. f_equal.
    apply IH; [|lia]. rewrite Nat2Z.inj_succ, Z.pow_succ_r in Hv by lia. dlia.
Qed.

Lemma loop_fuel_enough value : value < 2 ^ Z.of_nat (loop_fuel value).
Proof.
  unfold loop_fuel. rewrite Nat2Z.inj_succ, Z2Nat.id by apply Z.log2_nonneg.
  destruct (decide (0 < value)); [by apply Z.log2_spec|].
  assert (0 < 2 ^ Z.succ (Z.log2 value)); [|lia].
  apply Z.pow_pos_nonneg; [lia|]. pose proof (Z.log2_nonneg value). lia.
Qed.

Lemma encode_loop_length fuel value first (n : nat) :
  value < 128 ^ Z.of_nat n -> (length (encode_loop fuel value first []) <= n)%nat.
Proof.
  revert value first n. induction fuel as [|fuel IH]; intros value first n Hv; [simpl; lia|].
  destruct (decide (0 < value)); [|rewrite encode_loop_0 by lia; simpl; lia].
  destruct n as [|n]; [simpl in Hv; lia|].
  rewrite encode_loop_S by done. simpl. apply le_n_S, IH.
  rewrite Nat2Z.inj_succ, Z.pow_succ_r in Hv by lia. dlia.
Qed.

Lemma encode_loop_bytes fuel value first : bytes (encode_loop fuel value first []).
Proof.
  revert value first. induction fuel as [|fuel IH]; intros; [constructor|].
  destruct (decide (0 < value)); [|rewrite encode_loop_0 by lia; constructor].
  rewrite encode_loop_S by done. constructor; [|apply IH].
  unfold is_byte. destruct first; dlia.
Qed.

(** ** The decoding loop *)

Lemma decode_loop_step byte rest off c v :
  is_byte byte -> c < MAX_BYTES -> 0 <= v ->
  decode_loop (byte :: rest) off c v =
    let v' := (v * 128) mod 2 ^ 64 + byte mod 128 in
    if decide (byte < 128) then Ok (v', off + 1) else decode_loop rest (off + 1) (c + 1) v'.
Proof.
  intros Hb Hc Hv. simpl. rewrite bool_decide_eq_false_2 by (unfold MAX_BYTES in *; lia).
  assert (Z.lor (u64 (Z.shiftl v 7)) (Z.land byte 0x7F) = (v * 128) mod 2 ^ 64 + byte mod 128) as ->.
  { rewrite land_0x7F, Z.shiftl_mul_pow2 by lia. unfold u64. change (2 ^ 7) with 128.
    replace ((v * 128) mod 2 ^ 64) with (Z.shiftl (v mod 2 ^ 57) 7).
    - rewrite (lor_disjoint _ _ 7) by dlia. rewrite Z.shiftl_mul_pow2 by lia. done.
    - rewrite Z.shiftl_mul_pow2 by lia. change (2 ^ 64) with (2 ^ 57 * 2 ^ 7).
      change 128 with (2 ^ 7). by rewrite Z.mul_mod_distr_r by lia. }
  rewrite top_bit by done. unfold is_byte in Hb.
  destruct (decide (byte < 128)) as [Hlt|Hge].
  - by rewrite bool_decide_eq_true_2 by dlia.
  - by rewrite bool_decide_eq_false_2 by dlia.
Qed.

(** Reading back the continuation digits of [value] leaves [value] in the
    accumulator. *)
Lemma decode_high fuel value rest off c :
  0 <= value < 2 ^ 64 -> value < 2 ^ Z.of_nat fuel -> 0 <= c ->
  c + zlen (encode_loop fuel value false []) < MAX_BYTES ->
  decode_loop (rev (encode_loop fuel value false []) ++ rest) off c 0 =
    decode_loop rest (off + zlen (encode_loop fuel value false []))
                     (c + zlen (encode_loop fuel value false [])) value.
Proof.
  revert value rest off c. induction fuel as [|fuel IH]; intros value rest off c Hv Hf Hc Hl.
  { simpl in Hf. assert (value = 0) as -> by lia. simpl. by rewrite !Z.add_0_r. }
  destruct (decide (value = 0)) as [->|].
  { rewrite encode_loop_0 by lia. simpl. by rewrite !Z.add_0_r. }
  rewrite encode_loop_S in * by lia. simpl length in *. simpl rev. rewrite <- app_assoc.
  rewrite Nat2Z.inj_succ, Z.pow_succ_r in Hf by lia.
  rewrite IH by (try lia; dlia). simpl app.
  rewrite decode_loop_step by (unfold is_byte; try lia; dlia). cbv zeta.
  rewrite decide_False by dlia. rewrite Z.mod_small by dlia.
  f_equal; [lia..|]. dlia.
Qed.

Lemma encode_into_nonzero value out :
  0 < value < 2 ^ 64 ->
  encode_into value out = out ++ rev (encode_loop (loop_fuel value) value true []).
Proof.
  intros Hv. unfold encode_into, encode. rewrite bool_decide_eq_false_2 by lia.
  simpl. f_equal. rewrite Nat2Z.id, <- length_rev. apply take_app_length.
Qed.

Definition encoded_length (value : Z) : Z := enc_length (encode value).

Lemma encoded_length_nonzero value :
  0 < value -> encoded_length value = zlen (encode_loop (loop_fuel value) value true []).
Proof. intros. unfold encoded_length, encode. by rewrite bool_decide_eq_false_2 by lia. Qed.

Lemma encoded_length_bounds value : 0 <= value < 2 ^ 64 -> 1 <= encoded_length value <= MAX_BYTES.
Proof.
  intros Hv. unfold MAX_BYTES. destruct (decide (value = 0)) as [->|]; [done|].
  rewrite encoded_length_nonzero by lia. split.
  - unfold loop_fuel. rewrite encode_loop_S by lia. rewrite length_cons. lia.
  - change 10 with (Z.of_nat 10). apply Nat2Z.inj_le, encode_loop_length.
    change (128 ^ Z.of_nat 10) with (2 ^ 70). lia.
Qed.

Lemma encode_into_length value out :
  0 <= value < 2 ^ 64 -> zlen (encode_into value out) = zlen out + encoded_length value.
Proof.
  intros Hv. pose proof (encoded_length_bounds value Hv) as Hb.
  unfold encode_into, encoded_length, encode, MAX_BYTES in *.
  rewrite length_app. case_bool_decide; simpl in *; [lia|].
  rewrite length_take, length_app, length_rev, length_replicate. lia.
Qed.

Lemma encode_into_bytes value out : bytes out -> bytes (encode_into value out).
Proof.
  intros Ho. unfold encode_into. apply bytes_app. split; [done|]. apply bytes_take.
  unfold encode. case_bool_decide; cbn [enc_bytes]; [repeat constructor; unfold is_byte; lia|].
  apply bytes_app. split; [apply Forall_rev, encode_loop_bytes|].
  apply Forall_replicate. unfold is_byte. lia.
Qed.

Lemma encode_into_out value out : encode_into value out = out ++ encode_into value [].
Proof. done. Qed.

(** The round trip, for any bytes before and after the encoding. *)
Lemma decode_encode_sdnv pre value post :
  0 <= value < 2 ^ 64 ->
  decode (pre ++ encode_into value [] ++ post) (zlen pre) =
    Ok (value, zlen pre + encoded_length value).
Proof.
  intros Hv. pose proof (encoded_length_bounds value Hv) as Hb.
  pose proof (encode_into_length value [] Hv) as Hl. simpl in Hl.
  unfold decode. rewrite bool_decide_eq_false_2 by (rewrite !length_app; lia).
  rewrite Nat2Z.id, drop_app_length.
  destruct (decide (value = 0)) as [->|]; [done|].
  rewrite encode_into_nonzero in * by lia. cbn [app] in *. clear Hl.
  pose proof (loop_fuel_enough value) as Hf. rewrite encoded_length_nonzero in * by lia.
  unfold loop_fuel in *. rewrite encode_loop_S in * by lia. cbn [rev length] in *.
  rewrite Nat2Z.inj_succ, Z.pow_succ_r in Hf by lia. rewrite <- app_assoc.
  unfold MAX_BYTES in Hb.
  rewrite decode_high by (unfold MAX_BYTES; try lia; dlia). cbn [app].
  rewrite decode_loop_step by (unfold is_byte, MAX_BYTES; try lia; dlia). cbv zeta.
  rewrite decide_True by dlia. rewrite Z.mod_small by dlia.
  f_equal. f_equal; [dlia|lia].
Qed.

(** ** What the decoder accepts *)

(** The number a digit string denotes, unbounded. *)
Definition sdnv_value (v : Z) (ds : list Z) : Z := foldl (fun v b => v * 128 + b mod 128) v ds.

(** [ds] are continuation bytes, [l] the final one. *)
Definition digit_string (ds : list Z) (l : Z) : Prop :=
  Forall (fun b => 128 <= b) ds /\ l < 128.

Lemma decode_loop_mod v v0 b :
  v = v0 mod 2 ^ 64 -> is_byte b ->
  (v * 128) mod 2 ^ 64 + b mod 128 = (v0 * 128 + b mod 128) mod 2 ^ 64.
Proof. intros -> Hb. unfold is_byte in Hb. dlia. Qed.

Lemma decode_loop_accepts ds l rest off c v v0 :
  digit_string ds l -> bytes (ds ++ l :: rest) -> v = v0 mod 2 ^ 64 ->
  c + zlen ds + 1 <= MAX_BYTES ->
  decode_loop (ds ++ l :: rest) off c v =
    Ok (sdnv_value v0 (ds ++ [l]) mod 2 ^ 64, off + zlen ds + 1).
Proof.
  intros [Hds Hl]. revert off c v v0. induction Hds as [|d ds Hd Hds IH]; intros off c v v0 Hb Hv Hc.
  - cbn [app] in *. apply Forall_cons in Hb as [Hb _].
    rewrite decode_loop_step by (simpl in *; try done; subst; try lia; dlia). cbv zeta.
    rewrite decide_True by done. simpl. rewrite (decode_loop_mod _ v0) by done.
    f_equal; f_equal; lia.
  - cbn [app] in *. apply Forall_cons in Hb as [Hb Hb']. rewrite length_cons in Hc.
    rewrite decode_loop_step by (try done; subst; try lia; dlia). cbv zeta.
    rewrite decide_False by lia. rewrite (decode_loop_mod _ v0) by done.
    erewrite IH; [|done|done|lia]. rewrite length_cons. f_equal. f_equal. lia.
Qed.

Lemma decode_loop_inv rest off c v v' off' :
  bytes rest -> 0 <= v -> decode_loop rest off c v = Ok (v', off') ->
  exists ds l rest', rest = ds ++ l :: rest' /\ digit_string ds l /\ c + zlen ds + 1 <= MAX_BYTES.
Proof.
  revert off c v. induction rest as [|b rest IH]; intros off c v Hb Hv H; [discriminate|].
  apply Forall_cons in Hb as [Hb Hb'].
  destruct (decide (c < MAX_BYTES)) as [Hc|Hc].
  - rewrite decode_loop_step in H by done. cbv zeta in H. case_decide as Hlt.
    + exists [], b, rest. unfold digit_string. simpl. split_and!; auto; lia.
    + apply IH in H as (ds & l & rest' & -> & [Hds Hl] & Hc'); [|done|unfold is_byte in Hb; dlia].
      exists (b :: ds), l, rest'. unfold digit_string. rewrite length_cons.
      split_and!; [done|constructor; [lia|done]|done|lia].
  - simpl in H. rewrite bool_decide_eq_true_2 in H by lia. discriminate.
Qed.

Lemma decode_loop_error rest off c v f : decode_loop rest off c v = Err f -> f = Throw RuntimeError.
Proof.
  revert off c v. induction rest as [|b rest IH]; intros off c v; simpl; [congruence|].
  repeat case_bool_decide; [congruence|discriminate|apply IH].
Qed.

(** [decode] succeeds exactly on a digit string of at most ten bytes. *)
Lemma decode_iff data off v off' :
  bytes data -> 0 <= off ->
  decode data off = Ok (v, off') <->
  exists ds l, range data off (off' - off) = Ok (ds ++ [l]) /\ digit_string ds l /\
    zlen ds + 1 <= MAX_BYTES /\ off' = off + zlen ds + 1 /\
    v = sdnv_value 0 (ds ++ [l]) mod 2 ^ 64.
Proof.
  intros Hb Hoff. unfold decode. split.
  - case_bool_decide as Hlen; [discriminate|]. intros H.
    destruct (decode_loop_inv _ _ _ _ _ _ (bytes_drop _ _ Hb) (Z.le_refl 0) H)
      as (ds & l & rest' & Hd & Hs & Hc).
    rewrite Hd in H. rewrite (decode_loop_accepts _ _ _ _ _ _ 0) in H; [|done| |done|done].
    2:{ rewrite <- Hd. by apply bytes_drop. }
    injection H as <- <-. exists ds, l. split_and!; try done.
    replace (off + zlen ds + 1 - off) with (zlen (ds ++ [l])) by (rewrite length_app; simpl; lia).
    assert (data = take (Z.to_nat off) data ++ (ds ++ [l]) ++ rest') as ->.
    { rewrite <- app_assoc. cbn [app]. by rewrite <- Hd, take_drop. }
    apply range_app; [|done]. rewrite length_take. lia.
  - intros (ds & l & Hr & Hs & Hc & -> & ->). unfold range in Hr.
    case_bool_decide as Hin; [|discriminate]. injection Hr as Hr.
    rewrite bool_decide_eq_false_2 by lia.
    assert (drop (Z.to_nat off) data = ds ++ l :: drop (length ds + 1) (drop (Z.to_nat off) data)) as Hd.
    { rewrite <- (take_drop (length ds + 1) (drop (Z.to_nat off) data)) at 1.
      replace (length ds + 1)%nat with (Z.to_nat (off + zlen ds + 1 - off)) at 1 by lia.
      rewrite Hr. by rewrite <- app_assoc. }
    rewrite Hd. apply decode_loop_accepts; [done| |done|lia]. rewrite <- Hd. by apply bytes_drop.
Qed.

Lemma decode_bounds data off v off' :
  bytes data -> 0 <= off -> decode data off = Ok (v, off') ->
  0 <= v < 2 ^ 64 /\ off < off' <= off + MAX_BYTES /\ off' <= zlen data.
Proof.
  intros Hb Hoff (ds & l & Hr & Hs & Hc & -> & ->)%decode_iff; [|done..].
  unfold range in Hr. case_bool_decide; [|discriminate].
  split_and!; try lia; dlia.
Qed.

Lemma decode_error data off f : decode data off = Err f -> f = Throw RuntimeError.
Proof. unfold decode. case_bool_decide; [congruence|apply decode_loop_error]. Qed.

Lemma cursor_decode data off value rest :
  0 <= value < 2 ^ 64 -> cursor data off (encode_into value [] ++ rest) ->
  exists off', decode data off = Ok (value, off') /\ cursor data off' rest.
Proof.
  intros Hv Hc. exists (off + encoded_length value). split.
  - destruct Hc as (pre & -> & ->). by apply decode_encode_sdnv.
  - replace (encoded_length value) with (zlen (encode_into value [])); [by apply cursor_app|].
    by rewrite encode_into_length.
Qed.

(** ** Properties *)

(** Round trip: for every 64-bit value, whatever bytes come before and
    after it, decoding at the start of the bytes [encode_into] appends gives
    the value back and moves the offset just past them. *)
Theorem sdnv_roundtrip pre value post (Hv : 0 <= value < 2 ^ 64) :
  decode (encode_into value pre ++ post) (zlen pre) =
    Ok (value, zlen (encode_into value pre)).
Proof.
  rewrite encode_into_length by done. rewrite encode_into_out, <- app_assoc. by apply decode_encode_sdnv.
Qed.

Lemma sdnv_roundtrip_witness :
  decode (encode_into (2 ^ 64 - 1) [0xAA] ++ [0x7]) (zlen [0xAA]) = Ok (2 ^ 64 - 1, 11).
Proof. apply (sdnv_roundtrip [0xAA] (2 ^ 64 - 1) [0x7]). lia. Defined.

(** What [decode] accepts: it returns [(v, off')] exactly when the bytes
    from the offset to [off'] are at most nine continuation bytes and one
    final byte, and then [v] is the base-128 number they denote reduced mod
    2^64; in every other case it throws [std::runtime_error] and nothing else.
    In particular it reads no byte outside the buffer, and a ten-byte string
    that denotes more than 2^64 - 1 is accepted with its high bits dropped. *)
Theorem sdnv_decode_exact data off (Hb : bytes data) (Hoff : 0 <= off) :
  match decode data off with
  | Ok (v, off') =>
      exists ds l, range data off (off' - off) = Ok (ds ++ [l]) /\ digit_string ds l /\
        zlen ds + 1 <= MAX_BYTES /\ v = sdnv_value 0 (ds ++ [l]) mod 2 ^ 64
  | Err f =>
      f = Throw RuntimeError /\
      forall ds l n, range data off n = Ok (ds ++ [l]) -> digit_string ds l ->
        MAX_BYTES < zlen ds + 1
  end.
Proof.
  destruct (decode data off) as [[v off']|f] eqn:E.
  - apply decode_iff in E as (ds & l & ?); [|done..]. exists ds, l. tauto.
  - split; [by eapply decode_error|]. intros ds l n Hr Hs.
    apply Z.nle_gt. intros Hc.
    assert (n = zlen ds + 1) as ->.
    { unfold range in Hr. case_bool_decide as Hin; [|discriminate]. injection Hr as Hr.
      apply (f_equal length) in Hr. rewrite length_app, length_take, length_drop in Hr. simpl in Hr. lia. }
    assert (decode data off = Ok (sdnv_value 0 (ds ++ [l]) mod 2 ^ 64, off + zlen ds + 1)) as Hk; [|congruence].
    apply decode_iff; [done..|]. exists ds, l. split_and!; try done.
    by replace (off + zlen ds + 1 - off) with (zlen ds + 1) by lia.
Qed.

Lemma sdnv_decode_exact_witness :
  decode (0x82 :: replicate 8 0x80 ++ [0x00]) 0 = Ok (0, 10) /\
  exists ds l, range (0x82 :: replicate 8 0x80 ++ [0x00]) 0 (10 - 0) = Ok (ds ++ [l]) /\
    digit_string ds l /\ zlen ds + 1 <= MAX_BYTES /\ 0 = sdnv_value 0 (ds ++ [l]) mod 2 ^ 64.
Proof.
  split; [reflexivity|].
  apply (sdnv_decode_exact (0x82 :: replicate 8 0x80 ++ [0x00]) 0); [|lia].
  by apply (bool_decide_unpack _ (dec := Forall_dec _ _)).
Defined.

End Sdnv.
