(* ===== verification/Segment.v ===== *)
(** * LTP segments (include/ltp_cla/ltp_segment.h, src/ltp_cla/ltp_segment.cpp)

    The segment types, the wire encoder and the decoder, with the decoder's
    three ways of ending: a segment, [nullopt], and the failures its
    [catch (const std::runtime_error&)] does not cover. *)
From S2P Require Import Prelude Sdnv.

(** ** Segment types: a 4-bit code, RFC 5326 section 3 *)
Module SegType.
Definition RED_DATA : Z := 0.
Definition RED_DATA_CP : Z := 1.
Definition RED_DATA_CP_EORP : Z := 2.
Definition RED_DATA_CP_EORP_EOB : Z := 3.
Definition GREEN_DATA : Z := 4.
Definition GREEN_DATA_EOB : Z := 5.
Definition REPORT_SEGMENT : Z := 6.
Definition REPORT_ACK : Z := 7.
Definition CANCEL_BY_SENDER : Z := 8.
Definition CANCEL_ACK_TO_SENDER : Z := 9.
Definition CANCEL_BY_RECEIVER : Z := 12.
Definition CANCEL_ACK_TO_RECEIVER : Z := 13.

Definition is_valid (type : Z) : bool :=
    bool_decide (type ∈ [0; 1; 2; 3; 4; 5; 6; 7; 8; 9; 12; 13]).
Definition is_data (type : Z) : bool := type <=? 5.
Definition is_red (type : Z) : bool := type <=? 3.
Definition is_green (type : Z) : bool := (4 <=? type) && (type <=? 5).
Definition has_checkpoint (type : Z) : bool := (1 <=? type) && (type <=? 3).
Definition has_eorp (type : Z) : bool := (type =? 2) || (type =? 3).
Definition has_eob (type : Z) : bool := (type =? 3) || (type =? 5).
End SegType.

Module Segment.
Import SegType.

Record LtpExtension := MkExtension { ext_tag : Z; ext_value : list Z }.

Record ReceptionClaim := MkClaim { claim_offset : Z; claim_length : Z }.

Record DataSegContent := MkData {
  client_service_id : Z;
  ds_offset : Z;
  ds_length : Z;
  ds_checkpoint_serial : option Z;
  ds_report_serial : option Z;
  ds_data : list Z }.

Record ReportSegContent := MkReport {
  rs_report_serial : Z;
  rs_checkpoint_serial : Z;
  rs_upper_bound : Z;
  rs_lower_bound : Z;
  rs_claims : list ReceptionClaim }.

Record RptAckContent := MkRptAck { ra_report_serial : Z }.
Record CancelContent := MkCancel { cc_reason_code : Z }.

(** [std::variant<DataSegContent, ReportSegContent, RptAckContent, CancelContent>] *)
Inductive SegmentContent :=
  | CData (ds : DataSegContent)
  | CReport (rs : ReportSegContent)
  | CRptAck (ra : RptAckContent)
  | CCancel (cc : CancelContent).

Record LtpSegment := MkSegment {
  version : Z;
  segment_type : Z;
  engine_id : Z;
  session_number : Z;
  header_ext_count : Z;
  trailer_ext_count : Z;
  header_extensions : list LtpExtension;
  trailer_extensions : list LtpExtension;
  content : SegmentContent }.

#[export] Instance LtpExtension_eq_dec : EqDecision LtpExtension.
Proof. solve_decision. Defined.
#[export] Instance ReceptionClaim_eq_dec : EqDecision ReceptionClaim.
Proof. solve_decision. Defined.
#[export] Instance DataSegContent_eq_dec : EqDecision DataSegContent.
Proof. solve_decision. Defined.
#[export] Instance ReportSegContent_eq_dec : EqDecision ReportSegContent.
Proof. solve_decision. Defined.
#[export] Instance RptAckContent_eq_dec : EqDecision RptAckContent.
Proof. solve_decision. Defined.
#[export] Instance CancelContent_eq_dec : EqDecision CancelContent.
Proof. solve_decision. Defined.
#[export] Instance SegmentContent_eq_dec : EqDecision SegmentContent.
Proof. solve_decision. Defined.
#[export] Instance LtpSegment_eq_dec : EqDecision LtpSegment.
Proof. solve_decision. Defined.

(** [std::get<T>(content)] *)
Definition get_data (c : SegmentContent) : outcome DataSegContent :=
  match c with CData ds => Ok ds | _ => Err (Throw BadVariantAccess) end.
Definition get_report (c : SegmentContent) : outcome ReportSegContent :=
  match c with CReport rs => Ok rs | _ => Err (Throw BadVariantAccess) end.
Definition get_rpt_ack (c : SegmentContent) : outcome RptAckContent :=
  match c with CRptAck ra => Ok ra | _ => Err (Throw BadVariantAccess) end.
Definition get_cancel (c : SegmentContent) : outcome CancelContent :=
  match c with CCancel cc => Ok cc | _ => Err (Throw BadVariantAccess) end.

(** ** Encoding *)

Definition append_sdnv (out : list Z) (value : Z) : list Z := Sdnv.encode_into value out.

Definition encode_extensions (out : list Z) (exts : list LtpExtension) : list Z :=
  foldl (fun out ext =>
           append_sdnv (out ++ [ext_tag ext]) (zlen (ext_value ext)) ++ ext_value ext) out exts.

Definition encode_claims (out : list Z) (claims : list ReceptionClaim) : list Z :=
  foldl (fun out c => append_sdnv (append_sdnv out (claim_offset c)) (claim_length c)) out claims.

Definition encode (seg : LtpSegment) : outcome (list Z) :=
  let type := segment_type seg in
  let out := [u8 (Z.lor (Z.shiftl (version seg) 4) (Z.land type 0x0F))] in
  let out := append_sdnv out (engine_id seg) in
  let out := append_sdnv out (session_number seg) in
  let out := out ++ [header_ext_count seg] in
  let out := out ++ [trailer_ext_count seg] in
  let out := encode_extensions out (header_extensions seg) in
  out ← (if is_data type then
    ds ← get_data (content seg);
    let out := append_sdnv out (client_service_id ds) in
    let out := append_sdnv out (ds_offset ds) in
    let out := append_sdnv out (ds_length ds) in
    let out :=
      if has_checkpoint type then
        append_sdnv (append_sdnv out (default 0 (ds_checkpoint_serial ds)))
                    (default 0 (ds_report_serial ds))
      else out in
    mret (out ++ ds_data ds)
  else if type =? REPORT_SEGMENT then
    rs ← get_report (content seg);
    let out := append_sdnv out (rs_report_serial rs) in
    let out := append_sdnv out (rs_checkpoint_serial rs) in
    let out := append_sdnv out (rs_upper_bound rs) in
    let out := append_sdnv out (rs_lower_bound rs) in
    let out := append_sdnv out (zlen (rs_claims rs)) in
    mret (encode_claims out (rs_claims rs))
  else if type =? REPORT_ACK then
    ra ← get_rpt_ack (content seg);
    mret (append_sdnv out (ra_report_serial ra))
  else if (type =? CANCEL_BY_SENDER) || (type =? CANCEL_BY_RECEIVER) then
    cc ← get_cancel (content seg);
    mret (out ++ [cc_reason_code cc])
  else mret out);
  mret (encode_extensions out (trailer_extensions seg)).

(** ** Decoding *)

(** [try { k (m) } catch (const std::runtime_error&) { return nullopt; }] for
    the steps of a body whose result is an optional segment. *)
Definition attempt {A B} (m : outcome A) (k : A -> outcome (option B)) : outcome (option B) :=
  match m with
  | Ok a => k a
  | Err (Throw RuntimeError) => Ok None
  | Err f => Err f
  end.

(** [if (!step) return nullopt;] for a step that reports success as an option. *)
Definition require {A B} (m : outcome (option A)) (k : A -> outcome (option B)) : outcome (option B) :=
  match m with
  | Ok (Some a) => k a
  | Ok None => Ok None
  | Err f => Err f
  end.

Notation "' p <-? m ; k" := (attempt m (fun x => let 'p := x in k))
  (at level 20, p pattern, m at level 100, k at level 200).
Notation "' p <-! m ; k" := (require m (fun x => let 'p := x in k))
  (at level 20, p pattern, m at level 100, k at level 200).

Section decoding.
Context `{Allocator}.
Variable data : list Z.
Abbreviation length := (zlen data).

(** The loop of [decode_extensions], [n] extensions still to read. A [false]
    return is [None]; the [catch (...)] around the SDNV turns its exception
    into one. *)
Fixpoint decode_extensions (n : nat) (offset : Z) (exts : list LtpExtension)
  : outcome (option (list LtpExtension * Z)) :=
  match n with
  | O => Ok (Some (exts, offset))
  | S n' =>
      if bool_decide (length <= offset) then Ok None
      else
        '(tag, offset) <-? (tag ← read data offset; mret (tag, offset + 1));
        '(val_len, offset) <-? Sdnv.decode data offset;
        if bool_decide (length < u64 (offset + val_len)) then Ok None
        else
          'value <-? range data offset val_len;
          decode_extensions n' (offset + val_len) (exts ++ [MkExtension tag value])
  end.

Definition decode_data_content (type offset : Z) : outcome (option (SegmentContent * Z)) :=
  '(client, offset) <-? Sdnv.decode data offset;
  '(ds_off, offset) <-? Sdnv.decode data offset;
  '(ds_len, offset) <-? Sdnv.decode data offset;
  '(cp, rpt, offset) <-?
    (if has_checkpoint type then
       '(cp, offset) ← Sdnv.decode data offset;
       '(rpt, offset) ← Sdnv.decode data offset;
       mret (Some cp, Some rpt, offset)
     else mret (None, None, offset));
  if bool_decide (length < u64 (offset + ds_len)) then Ok None
  else
    'bs <-? range data offset ds_len;
    Ok (Some (CData (MkData client ds_off ds_len cp rpt bs), offset + ds_len)).

(** [for (i = 0; i < claim_count; ++i)]: each iteration reads two SDNVs or
    throws, so the bytes that remain bound the iterations. *)
Fixpoint decode_claims (fuel : nat) (claim_count i offset : Z) (claims : list ReceptionClaim)
  : outcome (list ReceptionClaim * Z) :=
  if bool_decide (i < claim_count) then
    match fuel with
    | O => Err Diverges
    | S fuel' =>
        '(o, offset) ← Sdnv.decode data offset;
        '(l, offset) ← Sdnv.decode data offset;
        decode_claims fuel' claim_count (i + 1) offset (claims ++ [MkClaim o l])
    end
  else Ok (claims, offset).

Definition decode_report_content (offset : Z) : outcome (option (SegmentContent * Z)) :=
  '(rpt, offset) <-? Sdnv.decode data offset;
  '(cp, offset) <-? Sdnv.decode data offset;
  '(upper, offset) <-? Sdnv.decode data offset;
  '(lower, offset) <-? Sdnv.decode data offset;
  '(claim_count, offset) <-? Sdnv.decode data offset;
  '_ <-? allocate 16 claim_count;
  '(claims, offset) <-? decode_claims (S (List.length data)) claim_count 0 offset [];
  Ok (Some (CReport (MkReport rpt cp upper lower claims), offset)).

Definition decode_content (type offset : Z) : outcome (option (SegmentContent * Z)) :=
  if is_data type then decode_data_content type offset
  else if type =? REPORT_SEGMENT then decode_report_content offset
  else if type =? REPORT_ACK then
    '(rpt, offset) <-? Sdnv.decode data offset;
    Ok (Some (CRptAck (MkRptAck rpt), offset))
  else if (type =? CANCEL_BY_SENDER) || (type =? CANCEL_BY_RECEIVER) then
    if bool_decide (length <= offset) then Ok None
    else 'reason <-? read data offset; Ok (Some (CCancel (MkCancel reason), offset + 1))
  else if (type =? CANCEL_ACK_TO_SENDER) || (type =? CANCEL_ACK_TO_RECEIVER) then
    Ok (Some (CCancel (MkCancel 0), offset))
  else Ok None.

Definition decode : outcome (option LtpSegment) :=
  if bool_decide (length = 0) then Ok None
  else
    'control <-? read data 0;
    let offset := 1 in
    let version := Z.land (Z.shiftr control 4) 0x0F in
    let type := Z.land control 0x0F in
    if negb (version =? 0) then Ok None
    else if negb (is_valid type) then Ok None
    else
      '(engine, offset) <-? Sdnv.decode data offset;
      '(session, offset) <-? Sdnv.decode data offset;
      if bool_decide (length < offset + 2) then Ok None
      else
        'header_count <-? read data offset;
        'trailer_count <-? read data (offset + 1);
        let offset := offset + 2 in
        '(header_exts, offset) <-! decode_extensions (Z.to_nat header_count) offset [];
        '(c, offset) <-! decode_content type offset;
        '(trailer_exts, offset) <-! decode_extensions (Z.to_nat trailer_count) offset [];
        Ok (Some (MkSegment version type engine session header_count trailer_count
                            header_exts trailer_exts c)).
End decoding.

(** ** Well-formed segments: the encoder's contract *)

(** Extension values, as [uint8_t] tags and vectors that fit in memory. *)
Definition wf_extension (e : LtpExtension) : Prop :=
  is_byte (ext_tag e) /\ bytes (ext_value e) /\ zlen (ext_value e) < 2 ^ 63.

Definition wf_claim (c : ReceptionClaim) : Prop :=
  is_u64 (claim_offset c) /\ is_u64 (claim_length c).

(** The alternative of the variant the segment type asks for, with the fields
    that alternative puts on the wire. *)
Definition wf_content (type : Z) (c : SegmentContent) : Prop :=
  match c with
  | CData ds =>
      is_data type = true /\
      is_u64 (client_service_id ds) /\ is_u64 (ds_offset ds) /\
      ds_length ds = zlen (ds_data ds) /\ zlen (ds_data ds) < 2 ^ 63 /\ bytes (ds_data ds) /\
      (if has_checkpoint type then
         exists cp rpt, ds_checkpoint_serial ds = Some cp /\ ds_report_serial ds = Some rpt /\
                        is_u64 cp /\ is_u64 rpt
       else ds_checkpoint_serial ds = None /\ ds_report_serial ds = None)
  | CReport rs =>
      type = REPORT_SEGMENT /\
      is_u64 (rs_report_serial rs) /\ is_u64 (rs_checkpoint_serial rs) /\
      is_u64 (rs_upper_bound rs) /\ is_u64 (rs_lower_bound rs) /\
      zlen (rs_claims rs) * 16 < 2 ^ 63 /\ Forall wf_claim (rs_claims rs)
  | CRptAck ra => type = REPORT_ACK /\ is_u64 (ra_report_serial ra)
  | CCancel cc =>
      (type = CANCEL_BY_SENDER \/ type = CANCEL_BY_RECEIVER) /\ is_byte (cc_reason_code cc) \/
      (type = CANCEL_ACK_TO_SENDER \/ type = CANCEL_ACK_TO_RECEIVER) /\ cc_reason_code cc = 0
  end.

Record wf_segment (s : LtpSegment) : Prop := {
  wf_version : version s = 0;
  wf_type : is_valid (segment_type s) = true;
  wf_engine : is_u64 (engine_id s);
  wf_session : is_u64 (session_number s);
  wf_header_count : header_ext_count s = zlen (header_extensions s) /\ header_ext_count s < 256;
  wf_trailer_count : trailer_ext_count s = zlen (trailer_extensions s) /\ trailer_ext_count s < 256;
  wf_header : Forall wf_extension (header_extensions s);
  wf_trailer : Forall wf_extension (trailer_extensions s);
  wf_body : wf_content (segment_type s) (content s) }.

(** ** Encoding as concatenation *)

Abbreviation sdnv v := (Sdnv.encode_into v []).

Lemma append_sdnv_app out v : append_sdnv out v = out ++ sdnv v.
Proof. done. Qed.

#[local] Opaque append_sdnv Sdnv.encode_into.

Lemma encode_extensions_app out exts :
  encode_extensions out exts = out ++ encode_extensions [] exts.
Proof.
  revert out. induction exts as [|e exts IH]; intros out; unfold encode_extensions in *; cbn [foldl].
  - by rewrite app_nil_r.
  - rewrite (IH (append_sdnv (out ++ _) _ ++ _)), (IH (append_sdnv ([] ++ _) _ ++ _)).
    rewrite !append_sdnv_app, <- !app_assoc. done.
Qed.

Lemma encode_extensions_cons e exts :
  encode_extensions [] (e :: exts) =
    ext_tag e :: sdnv (zlen (ext_value e)) ++ ext_value e ++ encode_extensions [] exts.
Proof.
  change (encode_extensions [] (e :: exts)) with
    (encode_extensions (append_sdnv [ext_tag e] (zlen (ext_value e)) ++ ext_value e) exts).
  rewrite encode_extensions_app, append_sdnv_app, <- !app_assoc. done.
Qed.

Lemma encode_claims_app out claims : encode_claims out claims = out ++ encode_claims [] claims.
Proof.
  revert out. induction claims as [|c claims IH]; intros out; unfold encode_claims in *; cbn [foldl].
  - by rewrite app_nil_r.
  - rewrite (IH (append_sdnv (append_sdnv out _) _)), (IH (append_sdnv (append_sdnv [] _) _)).
    rewrite !append_sdnv_app, <- !app_assoc. done.
Qed.

Lemma encode_claims_cons c claims :
  encode_claims [] (c :: claims) =
    sdnv (claim_offset c) ++ sdnv (claim_length c) ++ encode_claims [] claims.
Proof.
  change (encode_claims [] (c :: claims)) with
    (encode_claims (append_sdnv (append_sdnv [] (claim_offset c)) (claim_length c)) claims).
  rewrite encode_claims_app, !append_sdnv_app, <- !app_assoc. done.
Qed.

(** The body the encoder puts between the header and the trailer extensions. *)
Definition content_bytes (type : Z) (c : SegmentContent) : list Z :=
  match c with
  | CData ds =>
      sdnv (client_service_id ds) ++ sdnv (ds_offset ds) ++ sdnv (ds_length ds) ++
      (if has_checkpoint type then
         sdnv (default 0 (ds_checkpoint_serial ds)) ++ sdnv (default 0 (ds_report_serial ds))
       else []) ++ ds_data ds
  | CReport rs =>
      sdnv (rs_report_serial rs) ++ sdnv (rs_checkpoint_serial rs) ++
      sdnv (rs_upper_bound rs) ++ sdnv (rs_lower_bound rs) ++
      sdnv (zlen (rs_claims rs)) ++ encode_claims [] (rs_claims rs)
  | CRptAck ra => sdnv (ra_report_serial ra)
  | CCancel cc =>
      if (type =? CANCEL_BY_SENDER) || (type =? CANCEL_BY_RECEIVER) then [cc_reason_code cc] else []
  end.

Definition header_bytes (s : LtpSegment) : list Z :=
  segment_type s :: sdnv (engine_id s) ++ sdnv (session_number s) ++
  header_ext_count s :: trailer_ext_count s :: encode_extensions [] (header_extensions s).

Lemma valid_cases type :
  is_valid type = true ->
  type = 0 \/ type = 1 \/ type = 2 \/ type = 3 \/ type = 4 \/ type = 5 \/ type = 6 \/
  type = 7 \/ type = 8 \/ type = 9 \/ type = 12 \/ type = 13.
Proof.
  unfold is_valid. intros H%bool_decide_eq_true. by rewrite !elem_of_cons, elem_of_nil in H; intuition.
Qed.

Lemma encode_wf s :
  wf_segment s ->
  encode s = Ok (header_bytes s ++ content_bytes (segment_type s) (content s) ++
                 encode_extensions [] (trailer_extensions s)).
Proof.
  intros [Hver Htype _ _ _ _ _ _ Hbody]. destruct s as [ver type e sn hc tc he te c]; simpl in *.
  subst ver. unfold encode, header_bytes; simpl. cbv zeta.
  assert (u8 (Z.lor (0 ≪ 4) (Z.land type 15)) = type) as ->.
  { apply valid_cases in Htype. destruct_or! Htype; by subst. }
  rewrite !append_sdnv_app, !(encode_extensions_app (_ ++ _)), <- !app_assoc. simpl.
  destruct c as [ds|rs|ra|cc]; simpl in *.
  - destruct Hbody as [-> _]. simpl. rewrite encode_extensions_app.
    destruct (has_checkpoint type); rewrite !append_sdnv_app, <- ?app_assoc; simpl;
      rewrite <- ?app_assoc; done.
  - destruct Hbody as [-> _]. simpl.
    rewrite encode_extensions_app, encode_claims_app, !append_sdnv_app. simpl.
    rewrite <- !app_assoc. done.
  - destruct Hbody as [-> _]. simpl.
    rewrite encode_extensions_app, !append_sdnv_app. simpl. rewrite <- !app_assoc. done.
  - destruct Hbody as [[[-> | ->] _]|[[-> | ->] _]]; simpl; rewrite encode_extensions_app; simpl;
      rewrite <- !app_assoc; done.
Qed.

(** ** Decoding what was encoded *)

(** Steps a cursor over one SDNV, rewriting the call that reads it. *)
Ltac step_sdnv Hc :=
  let off := fresh "off" in let E := fresh "E" in let Hc' := fresh "Hc" in
  apply Sdnv.cursor_decode in Hc as (off & E & Hc');
  [rewrite E; cbn [attempt mbind outcome_bind]; clear E; rename Hc' into Hc|].

Section roundtrip.
Context `{Allocator}.
Variable data : list Z.
Hypothesis Hsize : zlen data < 2 ^ 63.

Lemma decode_extensions_cursor exts off acc rest :
  Forall wf_extension exts -> cursor data off (encode_extensions [] exts ++ rest) ->
  exists off', decode_extensions data (length exts) off acc = Ok (Some (acc ++ exts, off')) /\
               cursor data off' rest.
Proof.
  intros Hwf. revert off acc. induction Hwf as [|e exts (Ht & Hb & Hl) Hwf IH]; intros off acc Hc.
  { exists off. by rewrite app_nil_r. }
  rewrite encode_extensions_cons in Hc. cbn [app] in Hc. rewrite <- app_assoc in Hc.
  pose proof (cursor_len _ _ _ Hc) as Hlen. rewrite length_cons in Hlen.
  apply cursor_read in Hc as [Hr Hc].
  cbn [decode_extensions length]. rewrite bool_decide_eq_false_2 by lia.
  rewrite Hr. cbn [attempt mbind outcome_bind mret outcome_ret].
  step_sdnv Hc; [|lia]. rewrite <- app_assoc in Hc.
  pose proof (cursor_len _ _ _ Hc) as Hlen'. rewrite length_app in Hlen'.
  rewrite u64_small, bool_decide_eq_false_2 by lia.
  rewrite (cursor_range _ _ _ _ Hc). cbn [attempt].
  apply cursor_app in Hc. apply (IH _ (acc ++ [MkExtension (ext_tag e) (ext_value e)])) in Hc
    as (off' & -> & Hc).
  exists off'. split; [|done]. rewrite <- app_assoc. by destruct e.
Qed.

Lemma decode_claims_cursor claims off count i fuel acc rest :
  Forall wf_claim claims -> cursor data off (encode_claims [] claims ++ rest) ->
  count = i + zlen claims -> (length claims < fuel)%nat ->
  exists off', decode_claims data fuel count i off acc = Ok (acc ++ claims, off') /\
               cursor data off' rest.
Proof.
  intros Hwf. revert off i fuel acc.
  induction Hwf as [|c claims (Ho & Hl) Hwf IH]; intros off i fuel acc Hc Hcount Hfuel;
    (destruct fuel as [|fuel]; [lia|]); cbn [decode_claims].
  { exists off. rewrite bool_decide_eq_false_2 by (simpl in *; lia). by rewrite app_nil_r. }
  rewrite length_cons in *. rewrite bool_decide_eq_true_2 by lia.
  rewrite encode_claims_cons in Hc. rewrite <- !app_assoc in Hc.
  step_sdnv Hc; [|done]. step_sdnv Hc; [|done].
  apply (IH _ (i + 1) fuel (acc ++ [MkClaim (claim_offset c) (claim_length c)])) in Hc
    as (off' & -> & Hc); [|lia..].
  exists off'. split; [|done]. rewrite <- app_assoc. by destruct c.
Qed.

Lemma encode_claims_length claims :
  Forall wf_claim claims -> (length claims <= length (encode_claims [] claims))%nat.
Proof.
  intros Hwf. induction Hwf as [|c claims (Ho & _) Hwf IH]; [done|].
  rewrite encode_claims_cons, !length_app, length_cons.
  pose proof (Sdnv.encode_into_length (claim_offset c) [] Ho) as Hl.
  pose proof (Sdnv.encoded_length_bounds _ Ho). rewrite length_nil in Hl. lia.
Qed.

Lemma decode_data_tail cl o cp rpt bs off rest :
  cursor data off (bs ++ rest) -> exists off',
    (if bool_decide (zlen data < u64 (off + zlen bs)) then Ok None
     else attempt (range data off (zlen bs)) (fun x =>
       Ok (Some (CData (MkData cl o (zlen bs) cp rpt x), off + zlen bs)))) =
    Ok (Some (CData (MkData cl o (zlen bs) cp rpt bs), off')) /\ cursor data off' rest.
Proof.
  intros Hc. pose proof (cursor_len _ _ _ Hc) as Hlen. rewrite length_app in Hlen.
  rewrite u64_small, bool_decide_eq_false_2 by lia. rewrite (cursor_range _ _ _ _ Hc).
  exists (off + zlen bs). split; [done|]. by eapply cursor_app.
Qed.

Lemma decode_content_cursor type c off rest :
  is_valid type = true -> wf_content type c -> cursor data off (content_bytes type c ++ rest) ->
  match c with CReport rs => zlen (rs_claims rs) * 16 <= alloc_limit | _ => True end ->
  exists off', decode_content data type off = Ok (Some (c, off')) /\ cursor data off' rest.
Proof.
  intros Hv Hwf Hc Ha. unfold decode_content. destruct c as [ds|rs|ra|cc]; simpl in Hwf, Hc.
  - destruct Hwf as (-> & Hcl & Ho & Hl & Hl' & Hb & Hcp). unfold decode_data_content.
    rewrite <- !app_assoc in Hc.
    step_sdnv Hc; [|done]. step_sdnv Hc; [|done]. step_sdnv Hc; [|rewrite Hl; lia].
    destruct ds as [cl o l cp rpt bs]; simpl in *. subst l. destruct (has_checkpoint type).
    + destruct Hcp as (cp' & rpt' & -> & -> & Hcp' & Hrpt'). simpl in Hc. rewrite <- app_assoc in Hc.
      step_sdnv Hc; [|done]. step_sdnv Hc; [|done]. cbn [mret outcome_ret]. by apply decode_data_tail.
    + destruct Hcp as [-> ->]. cbn [attempt mret outcome_ret app] in *. by apply decode_data_tail.
  - destruct Hwf as (-> & H1 & H2 & H3 & H4 & Hn & Hcl). simpl. unfold decode_report_content.
    rewrite <- !app_assoc in Hc.
    do 4 (step_sdnv Hc; [|done]). step_sdnv Hc; [|unfold is_u64; lia].
    rewrite allocate_ok by lia. cbn [attempt].
    pose proof (cursor_len _ _ _ Hc) as Hlen. rewrite length_app in Hlen.
    pose proof (encode_claims_length _ Hcl).
    apply (decode_claims_cursor _ _ (zlen (rs_claims rs)) 0 (S (length data)) []) in Hc
      as (off' & -> & Hc); [|done|lia|lia].
    exists off'. split; [|done]. by destruct rs.
  - destruct Hwf as (-> & Hr). simpl. step_sdnv Hc; [|done].
    eexists. split; [|done]. by destruct ra.
  - destruct cc as [r]. destruct Hwf as [[[-> | ->] Hb]|[[-> | ->] Hz]]; simpl in *.
    1-2: pose proof (cursor_len _ _ _ Hc) as Hlen; rewrite length_cons in Hlen;
      rewrite bool_decide_eq_false_2 by lia;
      apply cursor_read in Hc as [-> Hc]; by eexists.
    all: subst r; by exists off.
Qed.

Lemma decode_wf s rest :
  wf_segment s ->
  match content s with CReport rs => zlen (rs_claims rs) * 16 <= alloc_limit | _ => True end ->
  data = header_bytes s ++ content_bytes (segment_type s) (content s) ++
         encode_extensions [] (trailer_extensions s) ++ rest ->
  decode data = Ok (Some s).
Proof.
  intros [Hver Hty He Hsn [Hhc Hhc'] [Htc Htc'] Hhe Hte Hbody] Ha Hdata.
  assert (cursor data 0 (header_bytes s ++ content_bytes (segment_type s) (content s) ++
         encode_extensions [] (trailer_extensions s) ++ rest)) as Hc
    by (rewrite <- Hdata; apply cursor_start).
  destruct s as [ver type e sn hc tc hes tes c]; simpl in *. subst ver. clear Hdata.
  unfold header_bytes in Hc; simpl in Hc. rewrite <- !app_assoc in Hc. cbn [app] in Hc.
  pose proof (cursor_len _ _ _ Hc) as Hlen. rewrite length_cons in Hlen.
  unfold decode. rewrite bool_decide_eq_false_2 by lia.
  apply cursor_read in Hc as [-> Hc]. cbn [attempt]. cbv zeta.
  assert (Z.land (Z.shiftr type 4) 15 = 0 /\ Z.land type 15 = type) as [-> ->].
  { apply valid_cases in Hty. destruct_or! Hty; by subst. }
  rewrite Hty. cbn [negb Z.eqb]. change (0 + 1) with 1 in Hc.
  step_sdnv Hc; [|done]. step_sdnv Hc; [|done].
  pose proof (cursor_len _ _ _ Hc) as Hlen'. rewrite !length_cons in Hlen'.
  rewrite bool_decide_eq_false_2 by lia.
  apply cursor_read in Hc as [-> Hc]. cbn [attempt].
  apply cursor_read in Hc as [-> Hc]. cbn [attempt].
  rewrite <- Z.add_assoc in Hc. change (1 + 1) with 2 in Hc.
  rewrite Hhc at 1. rewrite Nat2Z.id.
  apply (decode_extensions_cursor _ _ []) in Hc as (off2 & -> & Hc); [|done]. cbn [require app].
  apply decode_content_cursor in Hc as (off3 & -> & Hc); [|done..]. cbn [require].
  rewrite Htc at 1. rewrite Nat2Z.id.
  apply (decode_extensions_cursor _ _ []) in Hc as (off4 & -> & Hc); [|done].
  done.
Qed.
End roundtrip.

(** ** What the decoder accepts, and how it can fail *)

Section soundness.
Context `{Allocator}.
Variable data : list Z.
Hypothesis Hsize : zlen data < 2 ^ 63.
Hypothesis Hbytes : bytes data.

(** A length field read at some offset, so large that an offset of the buffer
    plus the length wraps past 2^64. *)
Definition wrapping_length : Prop :=
  exists off n off', Sdnv.decode data off = Ok (n, off') /\ 2 ^ 64 <= zlen data + n.

(** A claim count for which [reserve] asks for more than the allocator, or
    [max_size()], grants. *)
Definition oversized_count : Prop :=
  exists off n off', Sdnv.decode data off = Ok (n, off') /\
    (alloc_limit < n * 16 \/ (2 ^ 63 - 1) / 16 < n).

(** The failures that leave [decode], with the field that causes each. *)
Definition decode_fault (f : fault) : Prop :=
  f = Undefined /\ wrapping_length \/
  (f = Throw LengthError \/ f = Throw BadAlloc) /\ oversized_count.

(** [m] ends in a value satisfying [P], in [nullopt], or in a decode fault. *)
Definition accepts {A} (P : A -> Prop) (m : outcome (option A)) : Prop :=
  match m with Ok (Some a) => P a | Ok None => True | Err f => decode_fault f end.

(** The same for a step inside the [try] block. *)
Definition steps {A} (P : A -> Prop) (m : outcome A) : Prop :=
  match m with Ok a => P a | Err f => f = Throw RuntimeError \/ decode_fault f end.

Lemma steps_bind {A B} (P : A -> Prop) (Q : B -> Prop) m k :
  steps P m -> (forall a, P a -> steps Q (k a)) -> steps Q (m ≫= k).
Proof. destruct m; simpl; auto. Qed.

Lemma accepts_attempt {A B} (P : A -> Prop) (Q : B -> Prop) m k :
  steps P m -> (forall a, P a -> accepts Q (k a)) -> accepts Q (attempt m k).
Proof. destruct m as [|[[]| |]]; simpl; auto; intros [|]; congruence || auto. Qed.

Lemma accepts_require {A B} (P : A -> Prop) (Q : B -> Prop) m k :
  accepts P m -> (forall a, P a -> accepts Q (k a)) -> accepts Q (require m k).
Proof. destruct m as [[]|]; simpl; auto. Qed.

(** The position reached after a step: inside the buffer. *)
Definition pos (off : Z) : Prop := 0 <= off <= zlen data.

Lemma steps_sdnv off :
  pos off -> steps (fun '(v, off') => is_u64 v /\ pos off' /\ Sdnv.decode data off = Ok (v, off'))
                   (Sdnv.decode data off).
Proof.
  intros Ho. destruct (Sdnv.decode data off) as [[v off']|f] eqn:E; simpl.
  - destruct (Sdnv.decode_bounds data off v off') as (Hv & Hlt & Hle); [done|apply Ho|done|].
    unfold pos, is_u64. unfold pos in Ho. split_and!; done || lia.
  - left. by eapply Sdnv.decode_error.
Qed.

Lemma steps_read off : pos off -> off < zlen data -> steps is_byte (read data off).
Proof.
  intros [Ho _] Hlt. destruct (read data off) as [b|f] eqn:E; simpl; [by eapply read_byte|].
  unfold read in E. rewrite bool_decide_eq_true_2 in E by done.
  destruct (lookup_lt_is_Some_2 data (Z.to_nat off)) as [b Hb]; [lia|]. by rewrite Hb in E.
Qed.

Lemma steps_range off0 off1 off n :
  pos off -> is_u64 n -> Sdnv.decode data off0 = Ok (n, off1) -> ~ zlen data < u64 (off + n) ->
  steps (fun l => bytes l /\ zlen l = n /\ off + n <= zlen data) (range data off n).
Proof.
  intros Ho Hn E Hu. unfold pos, is_u64 in *. destruct (decide (off + n < 2 ^ 64)).
  - rewrite u64_small in Hu by lia. rewrite range_ok by lia. simpl.
    split_and!; [auto with cpp| |lia]. rewrite length_take, length_drop. lia.
  - unfold range. rewrite bool_decide_eq_false_2 by lia. simpl. right; left.
    split; [done|]. exists off0, n, off1. split; [done|lia].
Qed.

Lemma accepts_extensions n off exts :
  pos off -> Forall wf_extension exts ->
  accepts (fun '(es, off') => pos off' /\ Forall wf_extension es /\
                              length es = (length exts + n)%nat)
          (decode_extensions data n off exts).
Proof.
  revert off exts. induction n as [|n IH]; intros off exts Ho Hes; cbn [decode_extensions].
  { simpl. split_and!; [done..|lia]. }
  case_bool_decide as Hlt; [done|].
  eapply (accepts_attempt (fun '(t, o) => is_byte t /\ pos o)).
  { eapply steps_bind; [apply steps_read; [done|lia]|]. intros t Ht. simpl.
    unfold pos in *. split; [done|lia]. }
  intros [tag off1] [Ht Ho1]. eapply accepts_attempt; [by apply steps_sdnv|].
  intros [len off2] (Hl & Ho2 & E). case_bool_decide as Hu; [done|].
  eapply accepts_attempt; [by eapply steps_range|]. intros value (Hb & Hlen & Hend).
  unfold is_u64, pos in *.
  specialize (IH (off2 + len) (exts ++ [MkExtension tag value])).
  rewrite length_app in IH. simpl in IH.
  replace (length exts + S n)%nat with (length exts + 1 + n)%nat by lia.
  apply IH; [lia|]. apply Forall_app. split; [done|]. apply Forall_singleton.
  split_and!; simpl; done || lia.
Qed.

Lemma accepts_data type off :
  is_data type = true -> pos off ->
  accepts (fun '(c, off') => pos off' /\ wf_content type c) (decode_data_content data type off).
Proof.
  intros Hty Ho. unfold decode_data_content.
  eapply accepts_attempt; [by apply steps_sdnv|]. intros [cl off1] (Hcl & Ho1 & _).
  eapply accepts_attempt; [by apply steps_sdnv|]. intros [o off2] (Hdo & Ho2 & _).
  eapply accepts_attempt; [by apply steps_sdnv|]. intros [len off3] (Hl & Ho3 & E).
  eapply (accepts_attempt (fun '(cp, rpt, o) => pos o /\
     if has_checkpoint type then exists c r, cp = Some c /\ rpt = Some r /\ is_u64 c /\ is_u64 r
     else cp = None /\ rpt = None)).
  { destruct (has_checkpoint type); [|by split].
    eapply steps_bind; [by apply steps_sdnv|]. intros [cp off4] (Hcp & Ho4 & _).
    eapply steps_bind; [by apply steps_sdnv|]. intros [rpt off5] (Hrpt & Ho5 & _).
    simpl. naive_solver. }
  intros [[cp rpt] off4] [Ho4 Hcp]. case_bool_decide as Hu; [done|].
  eapply accepts_attempt; [by eapply steps_range|]. intros bs (Hb & Hlen & Hend).
  unfold pos, is_u64 in *. simpl. subst len. split; [lia|]. split_and!; done || lia.
Qed.

Lemma steps_claims fuel count i off acc :
  pos off -> zlen data - off < Z.of_nat fuel -> Forall wf_claim acc -> zlen acc = i -> i <= count ->
  steps (fun '(cs, off') => pos off' /\ Forall wf_claim cs /\ zlen cs = count)
        (decode_claims data fuel count i off acc).
Proof.
  revert i off acc. induction fuel as [|fuel IH]; intros i off acc Ho Hf Hacc Hi Hc;
    cbn [decode_claims]; (case_bool_decide; [|simpl; split_and!; done || lia]).
  { unfold pos in Ho. lia. }
  assert (forall off v off', pos off -> Sdnv.decode data off = Ok (v, off') -> off < off') as Hadv.
  { intros o v o' [Hp _] E. by apply Sdnv.decode_bounds in E as (_ & [? _] & _). }
  eapply steps_bind; [by apply steps_sdnv|]. intros [o off1] (Hv & Ho1 & E1).
  eapply steps_bind; [by apply steps_sdnv|]. intros [l off2] (Hv' & Ho2 & E2).
  apply Hadv in E1; [|done]. apply Hadv in E2; [|done].
  apply IH; [done|lia| |rewrite length_app; simpl; lia|lia].
  apply Forall_app. split; [done|]. by apply Forall_singleton.
Qed.

Lemma accepts_report off :
  pos off ->
  accepts (fun '(c, off') => pos off' /\ wf_content REPORT_SEGMENT c) (decode_report_content data off).
Proof.
  intros Ho. unfold decode_report_content.
  eapply accepts_attempt; [by apply steps_sdnv|]. intros [rpt off1] (H1 & Ho1 & _).
  eapply accepts_attempt; [by apply steps_sdnv|]. intros [cp off2] (H2 & Ho2 & _).
  eapply accepts_attempt; [by apply steps_sdnv|]. intros [up off3] (H3 & Ho3 & _).
  eapply accepts_attempt; [by apply steps_sdnv|]. intros [lo off4] (H4 & Ho4 & _).
  eapply accepts_attempt; [by apply steps_sdnv|]. intros [count off5] (H5 & Ho5 & E).
  eapply (accepts_attempt (fun _ => count * 16 < 2 ^ 63)).
  { unfold allocate. repeat case_bool_decide; simpl.
    1-2: right; right; split; [auto|]; exists off4, count, off5; auto.
    unfold is_u64 in *. dlia. }
  intros [] Hcount. unfold pos, is_u64 in *.
  eapply accepts_attempt; [apply steps_claims; unfold pos; simpl; try done; try lia|].
  intros [claims off6] (Ho6 & Hcl & Hn). unfold pos in Ho6. simpl. subst count.
  split_and!; done || lia.
Qed.

Lemma accepts_content type off :
  is_valid type = true -> pos off ->
  accepts (fun '(c, off') => pos off' /\ wf_content type c) (decode_content data type off).
Proof.
  intros Hv Ho. unfold decode_content.
  destruct (is_data type) eqn:Hd; [by apply accepts_data|].
  destruct (Z.eqb_spec type REPORT_SEGMENT) as [->|]; [by apply accepts_report|].
  destruct (Z.eqb_spec type REPORT_ACK) as [->|].
  { eapply accepts_attempt; [by apply steps_sdnv|]. intros [v off'] (Hv' & Ho' & _). by split. }
  destruct ((type =? CANCEL_BY_SENDER) || (type =? CANCEL_BY_RECEIVER)) eqn:Hc.
  - case_bool_decide; [done|]. eapply accepts_attempt; [apply steps_read; [done|lia]|].
    intros b Hb. simpl. unfold pos in *. split; [lia|]. left. split; [lia|done].
  - destruct ((type =? CANCEL_ACK_TO_SENDER) || (type =? CANCEL_ACK_TO_RECEIVER)) eqn:Hc'; [|done].
    simpl. split; [done|]. right. split; [lia|done].
Qed.

Lemma decode_accepts : accepts wf_segment (decode data).
Proof.
  unfold decode. case_bool_decide; [done|].
  eapply (accepts_attempt is_byte); [apply steps_read; unfold pos; lia|]. intros control Hcontrol.
  destruct (Z.eqb_spec (Z.land (Z.shiftr control 4) 15) 0) as [Hver|]; [|done].
  destruct (is_valid _) eqn:Hty; [|done]. cbn [negb].
  eapply accepts_attempt; [apply steps_sdnv; unfold pos; lia|]. intros [e off1] (He & Ho1 & _).
  eapply accepts_attempt; [by apply steps_sdnv|]. intros [sn off2] (Hsn & Ho2 & _).
  case_bool_decide as Hcnt; [done|].
  eapply (accepts_attempt is_byte); [apply steps_read; [done|lia]|]. intros hc Hhc.
  eapply (accepts_attempt is_byte); [apply steps_read; unfold pos in *; lia|]. intros tc Htc.
  unfold is_byte in *.
  eapply accepts_require; [apply accepts_extensions; [unfold pos in *; lia|done]|].
  intros [hes off3] (Ho3 & Hhes & Hhl).
  eapply accepts_require; [by apply accepts_content|]. intros [c off4] (Ho4 & Hc).
  eapply accepts_require; [by apply accepts_extensions|]. intros [tes off5] (Ho5 & Htes & Htl).
  simpl in *. split; simpl; try done; lia.
Qed.
End soundness.

(** ** Properties *)

(** The memory a segment's claims take when it is decoded. *)
Definition claims_fit `{Allocator} (s : LtpSegment) : Prop :=
  match content s with CReport rs => zlen (rs_claims rs) * 16 <= alloc_limit | _ => True end.

(** A decoded buffer: the form every client of the decoder uses. *)
Lemma decode_encode `{Allocator} s rest :
  wf_segment s -> claims_fit s ->
  exists bs, encode s = Ok bs /\ (zlen (bs ++ rest) < 2 ^ 63 -> decode (bs ++ rest) = Ok (Some s)).
Proof.
  intros Hwf Hfit. eexists. split; [by apply encode_wf|]. intros Hsize.
  eapply (decode_wf _ Hsize s rest); [done..|]. by rewrite <- !app_assoc.
Qed.

(** [C27] Round trip: every well-formed segment of every type encodes, and the
    decoder, given the encoding followed by any bytes, returns that segment
    and ignores what follows. *)
Theorem segment_roundtrip `{Allocator} s rest (Hwf : wf_segment s) (Hfit : claims_fit s) :
  exists bs, encode s = Ok bs /\ (zlen (bs ++ rest) < 2 ^ 63 -> decode (bs ++ rest) = Ok (Some s)).
Proof. by apply decode_encode. Qed.

(** A report with one gap between two claims, and a header extension. *)
Definition sample_report : LtpSegment :=
  MkSegment 0 REPORT_SEGMENT 2 7 1 0 [MkExtension 0xE0 [1; 2; 3]] []
    (CReport (MkReport 1 300 4200 0 [MkClaim 0 1400; MkClaim 2800 1400])).

Lemma sample_report_wf : wf_segment sample_report.
Proof.
  split; simpl; try done; try apply Forall_nil_2.
  - apply Forall_singleton. split_and!; simpl; [unfold is_byte; lia| |lia].
    by apply (bool_decide_unpack _ (dec := Forall_dec _ _)).
  - split_and!; try done; repeat constructor; simpl; unfold is_u64; lia.
Defined.

#[local] Existing Instance one_gib.

Lemma segment_roundtrip_witness :
  exists bs, encode sample_report = Ok bs /\
    (zlen (bs ++ [0xFF]) < 2 ^ 63 -> decode (bs ++ [0xFF]) = Ok (Some sample_report)).
Proof. apply (segment_roundtrip sample_report [0xFF] sample_report_wf). unfold claims_fit. simpl. lia. Defined.

(** [C28] Soundness of the decoder on arbitrary bytes from the network: what it
    accepts is a well-formed segment (the variant alternative matches the
    type, every field fits its width, the data length is the number of data
    bytes), and every other outcome is [nullopt], except for two failures that
    escape the [catch (const std::runtime_error&)]: an undefined pointer range
    when a length field is so large that offset plus length wraps past 2^64,
    and [length_error] or [bad_alloc] when a report's claim count is more than
    [reserve] can grant. *)
Theorem segment_decode_sound `{Allocator} data (Hsize : zlen data < 2 ^ 63) (Hbytes : bytes data) :
  match decode data with
  | Ok (Some s) => wf_segment s
  | Ok None => True
  | Err f => decode_fault data f
  end.
Proof. by apply decode_accepts. Qed.

(** A 14-byte green data segment whose length field is 2^64 - 1. *)
Definition crash_segment : list Z :=
  [0x04; 0x01; 0x01; 0x00; 0x00; 0x01; 0x00] ++ Sdnv.encode_into (2 ^ 64 - 1) [].

Lemma segment_decode_sound_witness :
  decode crash_segment = Err Undefined /\ decode_fault crash_segment Undefined.
Proof.
  split; [by vm_compute|].
  assert (decode crash_segment = Err Undefined) as E by (by vm_compute).
  pose proof (segment_decode_sound crash_segment) as Hs. rewrite E in Hs.
  apply Hs; [by vm_compute|]. by apply (bool_decide_unpack _ (dec := Forall_dec _ _)).
Defined.

End Segment.
