(* ===== verification/Tracker.v ===== *)
(** * Reception tracking (src/src/ltp_cla/reception_tracker.cpp)

    The receiver's sorted list of byte ranges, specified by the set of byte
    positions it covers. *)
From S2P Require Import Prelude Sdnv Segment.
Import Segment.

Module Tracker.

(** [ranges_], the only state of a [ReceptionTracker]. *)
Abbreviation ranges := (list ReceptionClaim).

Definition claim_end (c : ReceptionClaim) : Z := u64 (claim_offset c + claim_length c).

(** First loop: the ranges skipped because they end strictly before
    [new_start], and the ranges from the iterator on. *)
Fixpoint skip_before (new_start : Z) (rs : ranges) : ranges * ranges :=
  match rs with
  | [] => ([], [])
  | it :: rs' =>
      if claim_end it <? new_start then
        let '(before, rest) := skip_before new_start rs' in (it :: before, rest)
      else ([], rs)
  end.

(** Second loop: absorb and erase the ranges that overlap or touch. *)
Fixpoint merge_touching (new_start new_end : Z) (rs : ranges) : Z * Z * ranges :=
  match rs with
  | [] => (new_start, new_end, [])
  | it :: rs' =>
      if claim_offset it <=? new_end then
        merge_touching (Z.min new_start (claim_offset it)) (Z.max new_end (claim_end it)) rs'
      else (new_start, new_end, rs)
  end.

Definition add_range (offset length : Z) (rs : ranges) : ranges :=
  if length =? 0 then rs
  else
    let '(before, rest) := skip_before offset rs in
    let '(new_start, new_end, after) := merge_touching offset (u64 (offset + length)) rest in
    before ++ MkClaim new_start (u64 (new_end - new_start)) :: after.

Definition is_complete (total_length : Z) (rs : ranges) : bool :=
  if total_length =? 0 then true
  else match rs with
       | [] => false
       | r :: rest => (List.length rs =? 1)%nat && (claim_offset r =? 0) && (total_length <=? claim_length r)
       end.

(** The [for] loop of [get_gaps], with its [break] and [continue]. *)
Fixpoint gaps_loop (rs : ranges) (cursor upper : Z) (gaps : ranges) : Z * ranges :=
  match rs with
  | [] => (cursor, gaps)
  | r :: rs' =>
      if upper <=? cursor then (cursor, gaps)
      else
        let r_end := claim_end r in
        if r_end <=? cursor then gaps_loop rs' cursor upper gaps
        else
          let gaps :=
            if cursor <? claim_offset r then
              gaps ++ [MkClaim cursor (u64 (Z.min (claim_offset r) upper - cursor))]
            else gaps in
          gaps_loop rs' (Z.max cursor r_end) upper gaps
  end.

Definition get_gaps (lower upper : Z) (rs : ranges) : ranges :=
  if upper <=? lower then []
  else
    let '(cursor, gaps) := gaps_loop rs lower upper [] in
    if cursor <? upper then gaps ++ [MkClaim cursor (u64 (upper - cursor))] else gaps.

Definition total_received (rs : ranges) : Z :=
  foldl (fun total r => u64 (total + claim_length r)) 0 rs.

Example add_out_of_order :
  foldl (fun rs '(o, l) => add_range o l rs) [] [(10, 5); (0, 5); (5, 5); (20, 1)] =
    [MkClaim 0 15; MkClaim 20 1].
Proof. reflexivity. Qed.
Example gaps_between : get_gaps 2 30 [MkClaim 0 5; MkClaim 10 5] = [MkClaim 5 5; MkClaim 15 15].
Proof. reflexivity. Qed.

(** ** Specification *)

(** Byte [x] has been received. *)
Definition covers (rs : ranges) (x : Z) : Prop :=
  exists c, c ∈ rs /\ claim_offset c <= x < claim_offset c + claim_length c.

(** Sorted, non-empty, non-overlapping, non-adjacent ranges from [lo] on whose
    ends fit in 64 bits: the comment on [ranges_]. *)
Fixpoint normal (lo : Z) (rs : ranges) : Prop :=
  match rs with
  | [] => True
  | c :: rs' =>
      lo <= claim_offset c /\ 0 < claim_length c /\ claim_offset c + claim_length c < 2 ^ 64 /\
      normal (claim_offset c + claim_length c + 1) rs'
  end.

(** The lowest offset at which a further range may start. *)
Fixpoint top (lo : Z) (rs : ranges) : Z :=
  match rs with [] => lo | c :: rs' => top (claim_offset c + claim_length c + 1) rs' end.

(** Bytes held by the ranges, as an unbounded sum. *)
Definition size (rs : ranges) : Z := foldr (fun c n => claim_length c + n) 0 rs.

Lemma covers_nil x : covers [] x <-> False.
Proof. split; [|done]. by intros (c & Hc%elem_of_nil & _). Qed.

Lemma covers_cons c rs x :
  covers (c :: rs) x <-> claim_offset c <= x < claim_offset c + claim_length c \/ covers rs x.
Proof. unfold covers. setoid_rewrite elem_of_cons. naive_solver. Qed.

Lemma covers_app rs1 rs2 x : covers (rs1 ++ rs2) x <-> covers rs1 x \/ covers rs2 x.
Proof. unfold covers. setoid_rewrite elem_of_app. naive_solver. Qed.

Lemma normal_weaken lo lo' rs : lo' <= lo -> normal lo rs -> normal lo' rs.
Proof. destruct rs; simpl; [done|]. intros ? (? & ? & ? & ?). split_and!; done || lia. Qed.

Lemma normal_covers lo rs x : normal lo rs -> covers rs x -> lo <= x.
Proof.
  revert lo. induction rs as [|c rs IH]; intros lo; [by rewrite covers_nil|].
  intros (? & ? & ? & Hrs) [?|Hc]%covers_cons; [lia|]. specialize (IH _ Hrs Hc). lia.
Qed.

Lemma claim_end_normal c :
  0 <= claim_offset c -> 0 < claim_length c -> claim_offset c + claim_length c < 2 ^ 64 ->
  claim_end c = claim_offset c + claim_length c.
Proof. intros. apply u64_small. lia. Qed.

(** ** Insertion *)

(** The ranges on which the second loop starts: the first one reaches
    [new_start]. *)
Definition reaches (s : Z) (rs : ranges) : Prop :=
  match rs with [] => True | c :: _ => s <= claim_offset c + claim_length c end.

Lemma skip_before_spec lo s rs :
  0 <= lo -> normal lo rs ->
  exists before rest,
    skip_before s rs = (before, rest) /\ rs = before ++ rest /\
    (forall c, c ∈ before -> claim_offset c + claim_length c < s) /\ reaches s rest.
Proof.
  revert lo. induction rs as [|c rs IH]; intros lo Hlo Hn; cbn [skip_before].
  { exists [], []. split_and!; try done. by intros c ?%elem_of_nil. }
  destruct Hn as (? & ? & ? & Hn). rewrite claim_end_normal by lia.
  destruct (Z.ltb_spec (claim_offset c + claim_length c) s).
  - destruct (IH (claim_offset c + claim_length c + 1) ltac:(lia) Hn) as (before & rest & -> & -> & Hb & Hr).
    exists (c :: before), rest. split_and!; try done. intros c' [->|]%elem_of_cons; auto.
  - exists [], (c :: rs). split_and!; try done. by intros c' ?%elem_of_nil.
Qed.

Lemma merge_touching_spec lo s e rs s' e' after :
  0 <= lo -> normal lo rs -> 0 <= s < e -> e < 2 ^ 64 -> reaches s rs ->
  merge_touching s e rs = (s', e', after) ->
  Z.min lo s <= s' <= s /\ e <= e' < 2 ^ 64 /\ normal (e' + 1) after /\
  forall x, s' <= x < e' \/ covers after x <-> s <= x < e \/ covers rs x.
Proof.
  revert lo s e. induction rs as [|c rs IH]; intros lo s e Hlo Hn Hse He Hr H; simpl in H.
  { injection H as <- <- <-. split_and!; try done; lia. }
  destruct Hn as (? & ? & ? & Hn). simpl in Hr. rewrite claim_end_normal in H by lia.
  destruct (Z.leb_spec (claim_offset c) e).
  - apply (IH (claim_offset c + claim_length c + 1)) in H as (Hs & He' & Ha & Hx);
      [|done || lia..|destruct rs; simpl in *; lia].
    split_and!; try done; try lia. intros x. rewrite Hx, covers_cons.
    assert (Z.min s (claim_offset c) <= x < Z.max e (claim_offset c + claim_length c) <->
            s <= x < e \/ claim_offset c <= x < claim_offset c + claim_length c) by lia.
    tauto.
  - injection H as <- <- <-. split_and!; try done; try lia. simpl. split_and!; done || lia.
Qed.

Lemma normal_app lo rs1 rs2 : normal lo (rs1 ++ rs2) <-> normal lo rs1 /\ normal (top lo rs1) rs2.
Proof.
  revert lo. induction rs1 as [|c rs1 IH]; intros lo; simpl; [tauto|]. rewrite IH. tauto.
Qed.

Lemma top_le lo s rs :
  (forall c, c ∈ rs -> claim_offset c + claim_length c < s) -> lo <= s -> top lo rs <= s.
Proof.
  revert lo. induction rs as [|c rs IH]; intros lo Hc Hlo; simpl; [done|].
  apply IH; [intros c' Hc'; apply Hc; by right|].
  specialize (Hc c ltac:(by left)). lia.
Qed.

Lemma top_ge lo rs : normal lo rs -> lo <= top lo rs.
Proof.
  revert lo. induction rs as [|c rs IH]; intros lo; simpl; [lia|].
  intros (? & ? & ? & Hn). specialize (IH _ Hn). lia.
Qed.

Lemma add_range_spec offset len rs :
  normal 0 rs -> 0 <= offset -> 0 <= len -> offset + len < 2 ^ 64 ->
  normal 0 (add_range offset len rs) /\
  forall x, covers (add_range offset len rs) x <-> offset <= x < offset + len \/ covers rs x.
Proof.
  intros Hn Ho Hl Hend. unfold add_range. destruct (Z.eqb_spec len 0) as [->|].
  { split; [done|]. intros x. split; [auto|]. intros [?|?]; [lia|done]. }
  destruct (skip_before_spec 0 offset rs) as (before & rest & -> & -> & Hb & Hr); [done..|].
  apply normal_app in Hn as [Hn1 Hn2]. pose proof (top_ge _ _ Hn1). pose proof (top_le 0 offset before Hb Ho).
  rewrite u64_small by lia.
  destruct (merge_touching offset (offset + len) rest) as [[s' e'] after] eqn:E.
  eapply (merge_touching_spec (top 0 before)) in E as (Hs & He & Ha & Hx); [|done || lia..].
  rewrite u64_small by lia. split.
  - apply normal_app. split; [done|]. simpl.
    replace (s' + (e' - s') + 1) with (e' + 1) by lia. split_and!; done || lia.
  - intros x. rewrite !covers_app, covers_cons. simpl. replace (s' + (e' - s')) with e' by lia.
    specialize (Hx x). tauto.
Qed.

(** ** Canonicity: the list is determined by the set it covers *)

Lemma normal_head_least lo c rs x : normal lo (c :: rs) -> covers (c :: rs) x -> claim_offset c <= x.
Proof.
  intros (? & ? & ? & Hn). apply normal_covers. simpl. split_and!; done || lia.
Qed.

Lemma normal_head_end lo c rs : normal lo (c :: rs) -> ~ covers (c :: rs) (claim_offset c + claim_length c).
Proof.
  intros (? & ? & ? & Hn) [?|Hc]%covers_cons; [lia|]. apply (normal_covers _ _ _ Hn) in Hc. lia.
Qed.

Lemma covers_head c rs x :
  claim_offset c <= x < claim_offset c + claim_length c -> covers (c :: rs) x.
Proof. rewrite covers_cons. auto. Qed.

Lemma normal_canonical lo rs1 rs2 :
  normal lo rs1 -> normal lo rs2 -> (forall x, covers rs1 x <-> covers rs2 x) -> rs1 = rs2.
Proof.
  revert lo rs2. induction rs1 as [|c1 rs1 IH]; intros lo [|c2 rs2] H1 H2 Hx; [done|..].
  - destruct H2 as (? & ? & ?). exfalso. apply (covers_nil (claim_offset c2)), Hx, covers_head. lia.
  - destruct H1 as (? & ? & ?). exfalso. apply (covers_nil (claim_offset c1)), Hx, covers_head. lia.
  - assert (claim_offset c1 = claim_offset c2) as Ho.
    { apply Z.le_antisymm.
      - eapply normal_head_least; [apply H1|]. apply Hx, covers_head. destruct H2; lia.
      - eapply normal_head_least; [apply H2|]. apply Hx, covers_head. destruct H1; lia. }
    assert (claim_length c1 = claim_length c2) as Hl.
    { destruct (Z.lt_trichotomy (claim_length c1) (claim_length c2)) as [Hlt|[?|Hlt]]; [|done|]; exfalso.
      - apply (normal_head_end _ _ _ H1), Hx, covers_head. destruct H1; lia.
      - apply (normal_head_end _ _ _ H2), Hx, covers_head. destruct H2; lia. }
    destruct c1 as [o1 l1], c2 as [o2 l2]; simpl in *; subst o2 l2.
    destruct H1 as (? & ? & ? & H1), H2 as (_ & _ & _ & H2). f_equal. eapply IH; [done..|].
    intros x. specialize (Hx x). rewrite !covers_cons in Hx. simpl in Hx.
    split; intros Hc.
    + pose proof (normal_covers _ _ _ H1 Hc). destruct Hx as [[?|?] _]; auto; lia.
    + pose proof (normal_covers _ _ _ H2 Hc). destruct Hx as [_ [?|?]]; auto; lia.
Qed.

(** A history of arrivals, oldest first. *)
Definition add_all (arrivals : list (Z * Z)) (rs : ranges) : ranges :=
  foldl (fun rs '(o, l) => add_range o l rs) rs arrivals.

Definition arrival_ok (a : Z * Z) : Prop := 0 <= a.1 /\ 0 <= a.2 /\ a.1 + a.2 < 2 ^ 64.

Lemma add_all_spec arrivals rs :
  Forall arrival_ok arrivals -> normal 0 rs ->
  normal 0 (add_all arrivals rs) /\
  forall x, covers (add_all arrivals rs) x <->
            (exists a, a ∈ arrivals /\ a.1 <= x < a.1 + a.2) \/ covers rs x.
Proof.
  intros Ha. revert rs. induction Ha as [|[o l] arrivals (? & ? & ?) Ha IH]; intros rs Hn; simpl in *.
  { split; [done|]. intros x. split; [auto|]. intros [(a & Hin%elem_of_nil & _)|]; done. }
  destruct (add_range_spec o l rs) as [Hn' Hx']; [done..|].
  destruct (IH _ Hn') as [Hn'' Hx]. split; [done|]. intros x. rewrite Hx, Hx'.
  setoid_rewrite elem_of_cons. split.
  - intros [(a & ? & ?)|[?|?]]; [left; exists a; auto|left; exists (o, l); auto|auto].
  - intros [(a & [->|?] & ?)|?]; [auto|left; eauto|auto].
Qed.

(** ** Gaps *)

Definition finish (upper : Z) (r : Z * ranges) : ranges :=
  let '(cursor, gaps) := r in
  if cursor <? upper then gaps ++ [MkClaim cursor (u64 (upper - cursor))] else gaps.

Lemma finish_acc rs cursor upper acc :
  finish upper (gaps_loop rs cursor upper acc) = acc ++ finish upper (gaps_loop rs cursor upper []).
Proof.
  revert cursor acc. induction rs as [|r rs IH]; intros cursor acc; cbn [gaps_loop].
  - simpl. destruct (_ <? _); [done|by rewrite app_nil_r].
  - destruct (upper <=? cursor) eqn:E; simpl.
    { destruct (Z.ltb_spec cursor upper); [lia|by rewrite app_nil_r]. }
    destruct (claim_end r <=? cursor); [apply IH|].
    destruct (cursor <? claim_offset r); [|apply IH].
    rewrite IH, (IH _ [_]). by rewrite app_assoc.
Qed.

Lemma finish_spec lo rs cursor upper :
  0 <= lo -> normal lo rs -> 0 <= cursor -> upper < 2 ^ 64 ->
  normal cursor (finish upper (gaps_loop rs cursor upper [])) /\
  forall x, covers (finish upper (gaps_loop rs cursor upper [])) x <->
            cursor <= x < upper /\ ~ covers rs x.
Proof.
  revert lo cursor. induction rs as [|r rs IH]; intros lo cursor Hlo Hn Hc Hu; cbn [gaps_loop].
  { simpl. setoid_rewrite covers_nil. destruct (Z.ltb_spec cursor upper); simpl.
    - rewrite u64_small by lia. split; [lia|]. intros x. rewrite covers_cons, covers_nil. simpl.
      split; [intros [?|[]]; split; [lia|tauto]|]. intros [? _]. left. lia.
    - split; [done|]. intros x. rewrite covers_nil. split; [done|]. intros [? _]. lia. }
  destruct Hn as (? & ? & ? & Hn). rewrite claim_end_normal by lia.
  destruct (Z.leb_spec upper cursor).
  { simpl. destruct (Z.ltb_spec cursor upper); [lia|]. split; [done|]. intros x. rewrite covers_nil.
    split; [done|]. intros [? _]. lia. }
  specialize (fun c Hc => IH (claim_offset r + claim_length r + 1) c ltac:(lia) Hn Hc Hu).
  destruct (Z.leb_spec (claim_offset r + claim_length r) cursor).
  { destruct (IH cursor) as [IHn IHx]; [done|]. split; [done|]. intros x. rewrite IHx, covers_cons.
    split; [intros [? ?]; split; [lia|intros [?|?]; [lia|tauto]]|tauto]. }
  rewrite Z.max_r by lia.
  destruct (IH (claim_offset r + claim_length r)) as [IHn IHx]; [lia|].
  destruct (Z.ltb_spec cursor (claim_offset r)).
  - rewrite u64_small, finish_acc by lia. cbn [app]. split.
    + simpl. split_and!; [lia..|]. eapply normal_weaken; [|exact IHn]. lia.
    + intros x. rewrite !covers_cons, IHx. simpl. split.
      * intros [?|[? ?]]; (split; [lia|]); (intros [?|Hcov]; [lia|]); [|tauto].
        apply (normal_covers _ _ _ Hn) in Hcov. lia.
      * intros [? Hnc]. destruct (decide (x < claim_offset r)); [left; lia|right].
        split; [|tauto]. assert (~ (claim_offset r <= x < claim_offset r + claim_length r)) by tauto. lia.
  - split; [eapply normal_weaken; [|exact IHn]; lia|].
    intros x. rewrite covers_cons, IHx. split.
    + intros [? ?]. split; [lia|]. intros [?|?]; [lia|tauto].
    + intros [? Hnc]. assert (~ (claim_offset r <= x < claim_offset r + claim_length r)) by tauto.
      split; [lia|tauto].
Qed.

Lemma get_gaps_finish lower upper rs :
  get_gaps lower upper rs = if upper <=? lower then [] else finish upper (gaps_loop rs lower upper []).
Proof. done. Qed.

Lemma get_gaps_spec rs lower upper :
  normal 0 rs -> 0 <= lower -> upper < 2 ^ 64 ->
  normal lower (get_gaps lower upper rs) /\
  forall x, covers (get_gaps lower upper rs) x <-> lower <= x < upper /\ ~ covers rs x.
Proof.
  intros. rewrite get_gaps_finish. destruct (Z.leb_spec upper lower).
  - split; [done|]. intros x. rewrite covers_nil. split; [done|]. lia.
  - by apply (finish_spec 0).
Qed.

(** ** Completeness and totals *)

Lemma is_complete_covers total rs :
  normal 0 rs -> is_complete total rs = true -> forall x, 0 <= x < total -> covers rs x.
Proof.
  intros Hn Hc x Hx. unfold is_complete in Hc. destruct (Z.eqb_spec total 0); [lia|].
  destruct rs as [|c rs]; [done|]. apply covers_head. lia.
Qed.

Lemma covers_is_complete total rs :
  normal 0 rs -> 0 <= total -> (forall x, 0 <= x < total -> covers rs x) ->
  (forall x, covers rs x -> x < total) -> is_complete total rs = true.
Proof.
  intros Hn Ht Hall Hin. unfold is_complete. destruct (Z.eqb_spec total 0); [done|].
  destruct rs as [|c rs]; [by destruct (proj1 (covers_nil 0) (Hall 0 ltac:(lia)))|].
  pose proof (normal_head_least _ _ _ 0 Hn (Hall 0 ltac:(lia))) as Hlo.
  pose proof (normal_head_end _ _ _ Hn) as Hend. destruct Hn as (? & ? & ? & Hn).
  assert (total <= claim_offset c + claim_length c) as Hge.
  { apply Z.nlt_ge. intros ?. apply Hend, Hall. lia. }
  destruct rs as [|c' rs]; [simpl; lia|]. exfalso. destruct Hn as (? & ? & ? & _).
  assert (claim_offset c' < total); [|lia]. apply Hin, covers_cons. right. apply covers_head. lia.
Qed.

Lemma total_received_size lo rs acc :
  0 <= lo -> normal lo rs -> 0 <= acc <= lo ->
  foldl (fun total r => u64 (total + claim_length r)) acc rs = acc + size rs.
Proof.
  revert lo acc. induction rs as [|c rs IH]; intros lo acc Hlo Hn Ha; simpl; [lia|].
  destruct Hn as (? & ? & ? & Hn). rewrite u64_small by lia.
  rewrite (IH (claim_offset c + claim_length c + 1)); [|done || lia..].
  unfold size. simpl. lia.
Qed.

Lemma size_app rs1 rs2 : size (rs1 ++ rs2) = size rs1 + size rs2.
Proof. induction rs1 as [|c rs1 IH]; simpl in *; [done|]. unfold size in *. simpl. lia. Qed.

Lemma size_gaps cursor rs upper :
  0 <= cursor <= upper -> normal cursor rs -> upper < 2 ^ 64 ->
  (forall x, covers rs x -> x < upper) ->
  size rs + size (finish upper (gaps_loop rs cursor upper [])) = upper - cursor.
Proof.
  revert cursor. induction rs as [|r rs IH]; intros cursor Hc Hn Hu Hin; cbn [gaps_loop].
  { simpl. destruct (Z.ltb_spec cursor upper); unfold size; simpl; rewrite ?u64_small by lia; lia. }
  destruct Hn as (? & ? & ? & Hn).
  assert (claim_offset r + claim_length r - 1 < upper) as Hend by (apply Hin, covers_head; lia).
  rewrite claim_end_normal by lia.
  destruct (Z.leb_spec upper cursor); [lia|].
  destruct (Z.leb_spec (claim_offset r + claim_length r) cursor); [lia|].
  rewrite Z.max_r by lia. specialize (IH (claim_offset r + claim_length r)).
  assert (size (r :: rs) = claim_length r + size rs) as -> by done.
  assert (normal (claim_offset r + claim_length r) rs) as Hn' by (eapply normal_weaken; [|exact Hn]; lia).
  specialize (IH ltac:(lia) Hn' Hu). assert (forall x, covers rs x -> x < upper) as Hin'.
  { intros x Hx. apply Hin, covers_cons. auto. }
  specialize (IH Hin'). destruct (Z.ltb_spec cursor (claim_offset r)).
  - rewrite finish_acc, size_app, u64_small by lia. unfold size at 2. simpl. lia.
  - lia.
Qed.

(** ** Properties *)

(** [add_range] keeps the ranges sorted, disjoint, non-adjacent and
    non-empty, and the bytes they cover become exactly the old ones and the
    inserted range, as long as the range's end does not wrap past 2^64. *)
Theorem tracker_add_range offset len rs
    (Hn : normal 0 rs) (Ho : 0 <= offset) (Hl : 0 <= len) (Hend : offset + len < 2 ^ 64) :
  normal 0 (add_range offset len rs) /\
  forall x, covers (add_range offset len rs) x <-> offset <= x < offset + len \/ covers rs x.
Proof. by apply add_range_spec. Qed.

Lemma tracker_add_range_witness :
  normal 0 (add_range 4 7 [MkClaim 0 5; MkClaim 10 5; MkClaim 20 1]) /\
  (forall x, covers (add_range 4 7 [MkClaim 0 5; MkClaim 10 5; MkClaim 20 1]) x <->
             4 <= x < 4 + 7 \/ covers [MkClaim 0 5; MkClaim 10 5; MkClaim 20 1] x).
Proof. apply (tracker_add_range 4 7 [MkClaim 0 5; MkClaim 10 5; MkClaim 20 1]); simpl; lia. Defined.

(** [C29] The tracker depends only on which bytes have arrived: two histories of
    arrivals, in any order, with any overlaps and repetitions, that bring the
    same bytes leave the same list of ranges, so the same report claims. *)
Theorem tracker_order_independent arrivals1 arrivals2
    (H1 : Forall arrival_ok arrivals1) (H2 : Forall arrival_ok arrivals2)
    (Hsame : forall x, (exists a, a ∈ arrivals1 /\ a.1 <= x < a.1 + a.2) <->
                       (exists a, a ∈ arrivals2 /\ a.1 <= x < a.1 + a.2)) :
  add_all arrivals1 [] = add_all arrivals2 [].
Proof.
  destruct (add_all_spec _ [] H1 I) as [Hn1 Hx1], (add_all_spec _ [] H2 I) as [Hn2 Hx2].
  apply (normal_canonical 0); [done..|]. intros x. by rewrite Hx1, Hx2, Hsame.
Qed.

Lemma tracker_order_independent_witness :
  add_all [(0, 5); (5, 5)] [] = add_all [(7, 3); (0, 8); (0, 5)] [].
Proof.
  apply (tracker_order_independent [(0, 5); (5, 5)] [(7, 3); (0, 8); (0, 5)]).
  - repeat constructor; simpl; lia.
  - repeat constructor; simpl; lia.
  - intros x. split; intros (a & Hin & Ha); rewrite !elem_of_cons, elem_of_nil in Hin.
    + destruct (decide (x < 8)).
      * exists (0, 8). split; [set_solver|]. destruct Hin as [->|[->|[]]]; simpl in *; lia.
      * exists (7, 3). split; [set_solver|]. destruct Hin as [->|[->|[]]]; simpl in *; lia.
    + destruct (decide (x < 5)).
      * exists (0, 5). split; [set_solver|]. destruct Hin as [->|[->|[->|[]]]]; simpl in *; lia.
      * exists (5, 5). split; [set_solver|]. destruct Hin as [->|[->|[->|[]]]]; simpl in *; lia.
Defined.

(** [C30] [get_gaps] is the exact complement of the received bytes inside
    [lower, upper), given as sorted, disjoint, non-empty, non-adjacent ranges. *)
Theorem tracker_gaps_complement rs lower upper
    (Hn : normal 0 rs) (Hl : 0 <= lower) (Hu : upper < 2 ^ 64) :
  normal lower (get_gaps lower upper rs) /\
  forall x, covers (get_gaps lower upper rs) x <-> lower <= x < upper /\ ~ covers rs x.
Proof. by apply get_gaps_spec. Qed.

Lemma tracker_gaps_complement_witness :
  normal 2 (get_gaps 2 30 [MkClaim 0 5; MkClaim 10 5]) /\
  (forall x, covers (get_gaps 2 30 [MkClaim 0 5; MkClaim 10 5]) x <->
             2 <= x < 30 /\ ~ covers [MkClaim 0 5; MkClaim 10 5] x).
Proof. apply (tracker_gaps_complement [MkClaim 0 5; MkClaim 10 5] 2 30); simpl; lia. Defined.

(** [is_complete total] never answers true with a byte below [total]
    missing, and while nothing past [total] has been received it answers true
    exactly when every byte below [total] has. *)
Theorem tracker_complete_iff rs total (Hn : normal 0 rs) (Ht : 0 <= total) :
  (is_complete total rs = true -> forall x, 0 <= x < total -> covers rs x) /\
  ((forall x, covers rs x -> x < total) ->
   (is_complete total rs = true <-> forall x, 0 <= x < total -> covers rs x)).
Proof.
  split; [by apply is_complete_covers|]. intros Hin. split; [by apply is_complete_covers|].
  intros Hall. by apply covers_is_complete.
Qed.

(** Past [total] the equivalence fails: a stray later range makes a fully
    received block look incomplete. *)
Example complete_with_stray_range :
  is_complete 10 [MkClaim 0 10; MkClaim 12 2] = false.
Proof. reflexivity. Qed.

Lemma tracker_complete_iff_witness :
  (is_complete 15 [MkClaim 0 15] = true -> forall x, 0 <= x < 15 -> covers [MkClaim 0 15] x) /\
  ((forall x, covers [MkClaim 0 15] x -> x < 15) ->
   (is_complete 15 [MkClaim 0 15] = true <-> forall x, 0 <= x < 15 -> covers [MkClaim 0 15] x)).
Proof. apply (tracker_complete_iff [MkClaim 0 15] 15); simpl; lia. Defined.

End Tracker.
