(* ===== verification/Timers.v ===== *)
(** * Timers (include/ltp_cla/timer_manager.h, src/ltp_cla/timer_manager.cpp)

    The timer manager's state under its mutex, one definition per critical
    section, the timer thread as a step relation over the histories of those
    sections, the callback it calls between them, and the interface the LTP
    engine uses. *)
From S2P Require Import Prelude.

Module Timers.

Inductive TimerType := CHECKPOINT | REPORT_SEGMENT | CANCEL_SEGMENT.

#[export] Instance TimerType_eq_dec : EqDecision TimerType.
Proof. solve_decision. Defined.

Record TimerEvent := MkEvent {
  evt_type : TimerType;
  evt_engine_id : Z;
  evt_session_number : Z;
  evt_serial_number : Z }.

Record TimerEntry := MkEntry { timer_id : Z; expiry : Z; entry_event : TimerEvent }.

#[export] Instance TimerEvent_eq_dec : EqDecision TimerEvent.
Proof. solve_decision. Defined.
#[export] Instance TimerEntry_eq_dec : EqDecision TimerEntry.
Proof. solve_decision. Defined.

(** ** What the engine needs of a timer service

    [svc_pending t id] is the event timer [id] would deliver, if it is still
    going to. *)
Class TimerService (T : Type) := {
  svc_start : Z -> TimerEvent -> T -> Z * T;   (* start_timer(timeout, event) *)
  svc_cancel : Z -> T -> T;                    (* cancel_timer(timer_id) *)
  svc_pending : T -> Z -> option TimerEvent;
  svc_ok : T -> Prop;
  svc_issued : T -> Z -> Prop;
  svc_room : T -> Prop }.

Class TimerServiceLaws (T : Type) `{TimerService T} := {
  svc_start_pending t timeout ev id t' :
    svc_ok t -> svc_room t -> svc_start timeout ev t = (id, t') ->
    svc_pending t id = None /\ svc_pending t' id = Some ev /\
    (forall id', id' <> id -> svc_pending t' id' = svc_pending t id');
  svc_start_ok t timeout ev id t' :
    svc_ok t -> svc_room t -> svc_start timeout ev t = (id, t') ->
    svc_ok t' /\ svc_issued t' id /\ (forall id', svc_issued t id' -> svc_issued t' id');
  svc_cancel_pending t id :
    svc_ok t -> svc_pending (svc_cancel id t) id = None /\
    (forall id', id' <> id -> svc_pending (svc_cancel id t) id' = svc_pending t id');
  svc_cancel_ok t id :
    svc_ok t -> svc_issued t id ->
    svc_ok (svc_cancel id t) /\ (forall id', svc_issued t id' -> svc_issued (svc_cancel id t) id') }.

(** ** The state the mutex protects

    [heap_] as the bag of its entries: only the least expiry is ever read from
    it. [now] is the steady clock. *)
Record TimerManager := MkTimers {
  running : bool;
  next_id : Z;
  heap : list TimerEntry;
  cancelled : gset Z;
  now : Z }.

Definition init : TimerManager := MkTimers false 0 [] ∅ 0.

(** [run]: marks the manager running and spawns the thread, once. *)
Definition run (t : TimerManager) : TimerManager :=
  if running t then t else MkTimers true (next_id t) (heap t) (cancelled t) (now t).

(** [stop]: clears [running_]; the join that follows waits for the thread. *)
Definition stop (t : TimerManager) : TimerManager :=
  if negb (running t) then t else MkTimers false (next_id t) (heap t) (cancelled t) (now t).

Definition start_timer (timeout : Z) (event : TimerEvent) (t : TimerManager) : Z * TimerManager :=
  let id := u64 (next_id t + 1) in
  (id, MkTimers (running t) id (heap t ++ [MkEntry id (now t + timeout) event]) (cancelled t) (now t)).

Definition cancel_timer (id : Z) (t : TimerManager) : TimerManager :=
  MkTimers (running t) (next_id t) (heap t) ({[id]} ∪ cancelled t) (now t).

Definition pending_count (t : TimerManager) : Z :=
  if (zlen (heap t) <=? Z.of_nat (size (cancelled t))) then 0
  else zlen (heap t) - Z.of_nat (size (cancelled t)).

(** ** The timer thread *)

(** [e] is an entry [heap_.top()] may return. *)
Definition is_top (e : TimerEntry) (h : list TimerEntry) : Prop :=
  e ∈ h /\ Forall (fun e' => expiry e <= expiry e') h.

#[global] Instance is_top_dec e h : Decision (is_top e h).
Proof. unfold is_top. apply _. Defined.

(** What a pass of the [while (running_)] loop can do while it holds the
    lock: wait, drop the expired top because it is cancelled, or take it off to
    call the callback once the lock is released ([moves], below).
    [heap_.pop()] removes the top; no two entries are equal, since their ids
    differ. *)
Inductive verdict := Waits | Drops (e : TimerEntry) | Takes (e : TimerEntry).

Definition thread_pass (e : TimerEntry) (t : TimerManager) : verdict * TimerManager :=
  if expiry e <=? now t then
    let h := list_difference (heap t) [e] in
    if bool_decide (timer_id e ∈ cancelled t)
    then (Drops e, MkTimers (running t) (next_id t) h (cancelled t ∖ {[timer_id e]}) (now t))
    else (Takes e, MkTimers (running t) (next_id t) h (cancelled t) (now t))
  else (Waits, t).

(** Everything that happens to the manager, in the order the mutex imposes. *)
Inductive action :=
  | ARun | AStop
  | AStart (id timeout expires : Z) (ev : TimerEvent)
  | ACancel (id : Z)
  | ATick (elapsed : Z)
  | ADrop (id : Z)
  | ATake (id : Z) (at_time : Z) (ev : TimerEvent).

Inductive step : TimerManager -> action -> TimerManager -> Prop :=
  | step_run t : step t ARun (run t)
  | step_stop t : step t AStop (stop t)
  | step_start t timeout ev id t' :
      next_id t + 1 < 2 ^ 64 -> start_timer timeout ev t = (id, t') ->
      step t (AStart id timeout (now t + timeout) ev) t'
  | step_cancel t id : step t (ACancel id) (cancel_timer id t)
  | step_tick t d : 0 <= d ->
      step t (ATick d) (MkTimers (running t) (next_id t) (heap t) (cancelled t) (now t + d))
  | step_drop t e t' :
      running t = true -> is_top e (heap t) -> thread_pass e t = (Drops e, t') ->
      step t (ADrop (timer_id e)) t'
  | step_take t e t' :
      running t = true -> is_top e (heap t) -> thread_pass e t = (Takes e, t') ->
      step t (ATake (timer_id e) (now t) (entry_event e)) t'.

(** Histories from the initial state, latest action last. *)
Inductive history : list action -> TimerManager -> Prop :=
  | history_nil : history [] init
  | history_snoc tr t a t' : history tr t -> step t a t' -> history (tr ++ [a]) t'.

Definition ids (h : list TimerEntry) : list Z := timer_id <$> h.

(** ** The invariant of every history *)
Record consistent (tr : list action) (t : TimerManager) : Prop := {
  con_next : 0 <= next_id t < 2 ^ 64;
  con_nodup : NoDup (ids (heap t));
  con_ids e : e ∈ heap t -> timer_id e <= next_id t;
  con_started e : e ∈ heap t -> exists timeout, AStart (timer_id e) timeout (expiry e) (entry_event e) ∈ tr;
  con_cancel id : ACancel id ∈ tr -> id ∈ cancelled t \/ (id <= next_id t /\ id ∉ ids (heap t));
  con_fired id at_time ev : ATake id at_time ev ∈ tr -> id <= next_id t /\ id ∉ ids (heap t) }.

Lemma elem_of_ids e h : e ∈ h -> timer_id e ∈ ids h.
Proof. intros. by apply list_elem_of_fmap_2. Qed.

Lemma ids_difference e h :
  NoDup (ids h) -> e ∈ h -> timer_id e ∉ ids (list_difference h [e]).
Proof.
  intros Hn He Hin. apply list_elem_of_fmap in Hin as (e' & Heq & [He' Hne]%list_elem_of_difference).
  apply Hne. rewrite list_elem_of_singleton.
  apply list_elem_of_lookup in He as [i Hi], He' as [j Hj].
  assert (i = j) as ->; [|congruence].
  eapply (NoDup_lookup (ids h)); [done| |]; unfold ids; rewrite list_lookup_fmap.
  - rewrite Hi. simpl. reflexivity.
  - rewrite Hj. simpl. by rewrite Heq.
Qed.

Lemma ids_difference_sub e h id : id ∈ ids (list_difference h [e]) -> id ∈ ids h.
Proof.
  intros (e' & -> & [He' _]%list_elem_of_difference)%list_elem_of_fmap. by apply elem_of_ids.
Qed.

Lemma nodup_difference e h : NoDup (ids h) -> NoDup (ids (list_difference h [e])).
Proof.
  induction h as [|e' h IH]; [done|]. intros [Hni Hn]%NoDup_cons. cbn [list_difference].
  destruct (decide_rel _ e' [e]); [auto|]. apply NoDup_cons. split; [|auto].
  intros Hin. by eapply Hni, ids_difference_sub.
Qed.

Ltac snoc_in H := apply elem_of_app in H as [H|H%list_elem_of_singleton]; [|try discriminate].

Lemma consistent_same_heap tr t a t' :
  consistent tr t -> heap t' = heap t -> next_id t' = next_id t -> cancelled t ⊆ cancelled t' ->
  (forall id, a = ACancel id -> id ∈ cancelled t') -> (forall id n ev, a <> ATake id n ev) ->
  consistent (tr ++ [a]) t'.
Proof.
  intros [H1 H2 H3 H4 H5 H6] Hh Hn Hc Ha Hf. split; rewrite ?Hh, ?Hn; try done.
  - intros e He. destruct (H4 e He) as [tm ?]. exists tm. apply elem_of_app. by left.
  - intros id Hin. snoc_in Hin; [destruct (H5 id Hin); [left; set_solver|by right]|left; auto].
  - intros id n ev Hin. snoc_in Hin; [eauto|by destruct (Hf id n ev)].
Qed.

Lemma consistent_pop tr t a e t' :
  consistent tr t -> e ∈ heap t -> heap t' = list_difference (heap t) [e] -> next_id t' = next_id t ->
  cancelled t ∖ {[timer_id e]} ⊆ cancelled t' -> (forall id, a <> ACancel id) ->
  (forall id n ev, a = ATake id n ev -> id = timer_id e) ->
  consistent (tr ++ [a]) t'.
Proof.
  intros [H1 H2 H3 H4 H5 H6] He Hh Hn Hc Ha Hf. split; rewrite ?Hh, ?Hn; try done.
  - by apply nodup_difference.
  - intros e' [? _]%list_elem_of_difference. by apply H3.
  - intros e' [He' _]%list_elem_of_difference. destruct (H4 e' He') as [tm ?].
    exists tm. apply elem_of_app. by left.
  - intros id Hin. snoc_in Hin; [|by destruct (Ha id)].
    destruct (decide (id = timer_id e)) as [->|]; [right; split; [by apply H3|by apply ids_difference]|].
    destruct (H5 id Hin) as [?|[? Hni]]; [left; set_solver|right; split; [done|]].
    by intros ?%ids_difference_sub.
  - intros id n ev Hin. snoc_in Hin.
    + destruct (H6 _ _ _ Hin) as [? Hni]. split; [done|]. by intros ?%ids_difference_sub.
    + rewrite (Hf id n ev) by done. split; [by apply H3|by apply ids_difference].
Qed.

Lemma history_consistent tr t : history tr t -> consistent tr t.
Proof.
  induction 1 as [|tr t a t' Hh IH Hs].
  { split; simpl; [lia|constructor|set_solver..]. }
  inversion Hs as [t0|t0|t0 timeout ev id t1 Hroom Hst|t0 id|t0 d Hd|t0 e t1 Hr [He _] Hp|t0 e t1 Hr [He _] Hp];
    subst; clear Hs.
  - unfold run. destruct (running t); by apply (consistent_same_heap _ t).
  - unfold stop. destruct (running t); simpl; by apply (consistent_same_heap _ t).
  - destruct IH as [H1 H2 H3 H4 H5 H6]. injection Hst as <- <-. rewrite u64_small by lia.
    split; simpl; [lia|..].
    + unfold ids. rewrite fmap_app. apply NoDup_app. split_and!; [done| |apply NoDup_singleton].
      intros x (e & -> & He)%list_elem_of_fmap Hin%list_elem_of_singleton. specialize (H3 e He). simpl in Hin. lia.
    + intros e [He| ->%list_elem_of_singleton]%elem_of_app; simpl; [specialize (H3 e He)|]; lia.
    + intros e [He| ->%list_elem_of_singleton]%elem_of_app; simpl.
      * destruct (H4 e He) as [tm ?]. exists tm. apply elem_of_app. by left.
      * exists timeout. apply elem_of_app. right. by apply list_elem_of_singleton.
    + intros id Hin. snoc_in Hin. destruct (H5 id Hin) as [?|[? Hni]]; [by left|right].
      split; [lia|]. unfold ids. rewrite fmap_app. intros [?|Hid%list_elem_of_singleton]%elem_of_app; [done|].
      simpl in Hid. lia.
    + intros id n ev' Hin. snoc_in Hin. destruct (H6 _ _ _ Hin) as [? Hni]. split; [lia|].
      unfold ids. rewrite fmap_app. intros [?|Hid%list_elem_of_singleton]%elem_of_app; [done|].
      simpl in Hid. lia.
  - apply (consistent_same_heap _ t); simpl; try done; set_solver.
  - by apply (consistent_same_heap _ t).
  - unfold thread_pass in Hp. destruct (expiry e <=? now t); [|done].
    case_bool_decide; [|done]. injection Hp as <-. by apply (consistent_pop _ t _ e).
  - unfold thread_pass in Hp. destruct (expiry e <=? now t); [|done].
    case_bool_decide; [done|]. injection Hp as <-. apply (consistent_pop _ t _ e); try done; simpl; [set_solver|].
    by intros id n ev [= <- _ _].
Qed.

(** ** The pending count *)

Definition live (t : TimerManager) : list TimerEntry :=
  filter (fun e => timer_id e ∉ cancelled t) (heap t).

(** Cancelled ids with no entry left in the heap: timers cancelled after they
    fired, whose ids nothing removes. *)
Definition stale (t : TimerManager) : gset Z := cancelled t ∖ list_to_set (ids (heap t)).

Lemma nodup_filter (P : TimerEntry -> Prop) `{forall e, Decision (P e)} h :
  NoDup (ids h) -> NoDup (ids (filter P h)).
Proof.
  induction h as [|e h IH]; [done|]. intros [Hni Hn]%NoDup_cons.
  rewrite filter_cons. case_decide; [|auto]. apply NoDup_cons. split; [|auto].
  intros (e' & Heq & [_ He']%list_elem_of_filter)%list_elem_of_fmap.
  apply Hni. rewrite Heq. by apply elem_of_ids.
Qed.

Lemma size_cancelled_split h (c : gset Z) :
  NoDup (ids h) ->
  (size c + length (filter (fun e => timer_id e ∉ c) h) =
   length h + size (c ∖ list_to_set (ids h)))%nat.
Proof.
  intros Hn.
  assert (list_to_set (ids (filter (fun e => timer_id e ∉ c) h)) =
          (list_to_set (ids h) : gset Z) ∖ c) as Hset.
  { apply set_eq. intros x. rewrite elem_of_difference, !elem_of_list_to_set.
    unfold ids. rewrite !list_elem_of_fmap. setoid_rewrite list_elem_of_filter. naive_solver. }
  assert (NoDup (ids (filter (fun e => timer_id e ∉ c) h))) as Hn'.
  { by apply nodup_filter. }
  assert (length (filter (fun e => timer_id e ∉ c) h) = size ((list_to_set (ids h) : gset Z) ∖ c)) as ->.
  { rewrite <- Hset, size_list_to_set by done. unfold ids. by rewrite length_fmap. }
  replace (length h) with (size (list_to_set (ids h) : gset Z))
    by (rewrite size_list_to_set by done; unfold ids; by rewrite length_fmap).
  generalize (list_to_set (ids h) : gset Z) as s. intros s.
  rewrite <- (size_union c (s ∖ c)), <- (size_union s (c ∖ s)) by set_solver.
  f_equal. apply set_eq. intros x. rewrite !elem_of_union, !elem_of_difference.
  destruct (decide (x ∈ c)), (decide (x ∈ s)); tauto.
Qed.

(** ** Draining the expired timers *)

Lemma exists_top h : h <> [] -> exists e, is_top e h.
Proof.
  unfold is_top. induction h as [|e h IH]; [done|]. intros _. destruct h as [|e' h].
  { exists e. split; [by left|]. by repeat constructor. }
  destruct IH as (m & Hm & Hall); [done|]. destruct (decide (expiry e <= expiry m)).
  - exists e. split; [by left|]. constructor; [lia|]. eapply Forall_impl; [exact Hall|]. simpl. lia.
  - exists m. split; [by right|]. constructor; [lia|done].
Qed.

Definition expired (t : TimerManager) : list TimerEntry := filter (fun e => expiry e <= now t) (heap t).

(** Sections of the timer thread alone, taking off the listed timers. *)
Inductive drains : TimerManager -> list Z -> TimerManager -> Prop :=
  | drains_done t : expired t = [] -> drains t [] t
  | drains_drop t e t' fired t'' :
      step t (ADrop (timer_id e)) t' -> drains t' fired t'' -> drains t fired t''
  | drains_fire t e t' fired t'' :
      step t (ATake (timer_id e) (now t) (entry_event e)) t' -> drains t' fired t'' ->
      drains t (timer_id e :: fired) t''.

Lemma length_difference_lt e (h : list TimerEntry) :
  e ∈ h -> (length (list_difference h [e]) < length h)%nat.
Proof.
  induction h as [|e' h IH]; [by intros ?%elem_of_nil|]. intros He. simpl.
  assert (length (list_difference h [e]) <= length h)%nat.
  { clear. induction h as [|x h IH]; simpl; [lia|]. destruct (decide_rel _ x [e]); simpl; lia. }
  destruct (decide_rel elem_of e' [e]) as [|Hne]; simpl; [lia|].
  apply elem_of_cons in He as [->|He]; [by destruct Hne; left|]. apply IH in He. lia.
Qed.

Lemma drain_exists n t :
  (length (heap t) <= n)%nat -> running t = true -> NoDup (ids (heap t)) ->
  exists fired t', drains t fired t' /\ expired t' = [] /\ running t' = true /\
    (forall e, e ∈ expired t -> timer_id e ∉ cancelled t -> timer_id e ∈ fired).
Proof.
  revert t. induction n as [|n IH]; intros t Hlen Hr Hn; (destruct (decide (expired t = [])) as [He|He];
    [exists [], t; split_and!; [by constructor|done|done|by rewrite He; intros e ?%elem_of_nil]|]).
  { unfold expired in He. destruct (heap t); [done|simpl in Hlen; lia]. }
  destruct (exists_top (heap t)) as (e & Htop).
  { intros Hh. apply He. unfold expired. by rewrite Hh. }
  assert (expiry e <= now t) as Hexp.
  { destruct (expired t) as [|e' l] eqn:E; [done|].
    assert (e' ∈ expired t) as Hin by (rewrite E; by left).
    unfold expired in Hin. apply list_elem_of_filter in Hin as [? Hin].
    destruct Htop as [_ Hall]. rewrite Forall_forall in Hall. specialize (Hall _ Hin). lia. }
  pose proof (length_difference_lt e (heap t) (proj1 Htop)) as Hlt.
  assert (forall e', e' ∈ expired t -> timer_id e' <> timer_id e ->
            e' ∈ filter (fun e => expiry e <= now t) (list_difference (heap t) [e])) as Hrest.
  { intros e' [Hx Hin]%list_elem_of_filter Hne. apply list_elem_of_filter. split; [done|].
    apply list_elem_of_difference. split; [done|]. by intros ->%list_elem_of_singleton. }
  assert (exists b t', thread_pass e t = (if b : bool then Drops e else Takes e, t') /\
            heap t' = list_difference (heap t) [e] /\ now t' = now t /\ running t' = running t /\
            cancelled t' ⊆ cancelled t /\ (b = true <-> timer_id e ∈ cancelled t)) as (b & t' & Hp & Hh & Hnow & Hrun & Hc & Hb).
  { unfold thread_pass. rewrite (proj2 (Z.leb_le _ _) Hexp). case_bool_decide.
    - exists true. eexists. split_and!; try reflexivity; simpl; [set_solver|done..].
    - exists false. eexists. split_and!; try reflexivity; simpl; done. }
  destruct (IH t') as (fired & t'' & Hd & Hx & Hr' & Hall);
    [rewrite Hh; lia|by rewrite Hrun|rewrite Hh; by apply nodup_difference|].
  assert (forall e', e' ∈ expired t -> timer_id e' ∉ cancelled t -> timer_id e' = timer_id e \/ timer_id e' ∈ fired) as Hall'.
  { intros e' Hin Hnc. destruct (decide (timer_id e' = timer_id e)); [by left|right].
    apply Hall; [|set_solver]. unfold expired. rewrite Hh, Hnow. by apply Hrest. }
  destruct b.
  - exists fired, t''. split_and!; try done; [by eapply drains_drop, Hd; eapply step_drop|].
    intros e' Hin Hnc. destruct (Hall' e' Hin Hnc) as [Heq|]; [|done]. rewrite Heq in Hnc. naive_solver.
  - exists (timer_id e :: fired), t''. split_and!; try done; [by eapply drains_fire, Hd; eapply step_take|].
    intros e' Hin Hnc. destruct (Hall' e' Hin Hnc) as [->|]; [by left|by right].
Qed.

(** ** The manager implements the interface *)

Definition pending (t : TimerManager) (id : Z) : option TimerEvent :=
  if bool_decide (id ∈ cancelled t) then None
  else entry_event <$> head (filter (fun e => timer_id e = id) (heap t)).

Record manager_ok (t : TimerManager) : Prop := {
  ok_next : 0 <= next_id t;
  ok_heap e : e ∈ heap t -> timer_id e <= next_id t;
  ok_cancelled id : id ∈ cancelled t -> id <= next_id t }.

#[export] Instance manager_service : TimerService TimerManager := {
  svc_start := start_timer;
  svc_cancel := cancel_timer;
  svc_pending := pending;
  svc_ok := manager_ok;
  svc_issued t id := id <= next_id t;
  svc_room t := next_id t + 1 < 2 ^ 64 }.

Lemma filter_id_none h id : (forall e, e ∈ h -> timer_id e <> id) -> filter (fun e => timer_id e = id) h = [].
Proof.
  induction h as [|e h IH]; intros Hne; [done|]. rewrite filter_cons.
  rewrite decide_False by (apply Hne; by left). apply IH. intros e' He'. apply Hne. by right.
Qed.

#[export] Instance manager_service_laws : TimerServiceLaws TimerManager.
Proof.
  split; simpl; unfold start_timer, pending.
  - intros t timeout ev id t' [H1 H2 H3] Hroom [= <- <-]. rewrite u64_small by lia. simpl.
    rewrite (filter_app _ (heap t)).
    assert (filter (fun e => timer_id e = next_id t + 1) (heap t) = []) as Hnil.
    { apply filter_id_none. intros e He. specialize (H2 e He). lia. }
    assert (next_id t + 1 ∉ cancelled t) as Hnc by (intros Hin; specialize (H3 _ Hin); lia).
    rewrite bool_decide_eq_false_2, Hnil by done. split_and!; [done| |].
    + simpl. rewrite filter_cons_True; done.
    + intros id' Hne. rewrite (filter_app _ (heap t)), filter_cons_False by (simpl; lia).
      by rewrite filter_nil, app_nil_r.
  - intros t timeout ev id t' [H1 H2 H3] Hroom [= <- <-]. rewrite u64_small by lia.
    split_and!; [split; simpl|simpl; lia..]; [lia| |].
    + intros e [He| ->%list_elem_of_singleton]%elem_of_app; simpl; [specialize (H2 e He)|]; lia.
    + intros id Hin. specialize (H3 _ Hin). lia.
  - intros t id _. simpl. rewrite bool_decide_eq_true_2 by set_solver. split; [done|].
    intros id' Hne. case_bool_decide; case_bool_decide; try done; set_solver.
  - intros t id [H1 H2 H3] Hid. split; [split; simpl; try done|done].
    intros id' [->%elem_of_singleton|Hin]%elem_of_union; auto.
Qed.

(** ** Properties *)

(** An entry that a pass takes off: it was started with that event, its expiry
    is reached, it is not cancelled, it was not taken off before, and no timer
    still in the heap expires earlier. *)
Lemma take_sound tr id at_time ev t' (H : history (tr ++ [ATake id at_time ev]) t') :
  (exists timeout expires, AStart id timeout expires ev ∈ tr /\ expires <= at_time /\
     Forall (fun e => expires <= expiry e) (heap t')) /\
  (ACancel id ∉ tr) /\
  (forall at_time' ev', ATake id at_time' ev' ∉ tr).
Proof.
  inversion H as [Hnil|tr0 t a t1 Hh Hs Htr Ht]; [by destruct tr|]. apply app_inj_tail in Htr as [-> ->]. subst t1.
  pose proof (history_consistent _ _ Hh) as [C1 C2 C3 C4 C5 C6].
  inversion Hs as [| | | | | |t0 e t1 Hr [He Hall] Hp]; subst. unfold thread_pass in Hp.
  destruct (Z.leb_spec (expiry e) (now t)) as [Hexp|]; [|done].
  case_bool_decide as Hc; [done|]. injection Hp as <-.
  pose proof (elem_of_ids _ _ He) as Hid. split_and!.
  - destruct (C4 e He) as [timeout ?]. exists timeout, (expiry e). split_and!; [done..|]. simpl.
    apply Forall_forall. intros e' [? _]%list_elem_of_difference. rewrite Forall_forall in Hall. auto.
  - intros Hin. destruct (C5 _ Hin) as [?|[_ ?]]; done.
  - intros n ev' Hin. by destruct (C6 _ _ _ Hin) as [_ ?].
Qed.

(** ** The callback

    It runs with the mutex released, so the other threads' sections fall
    between an entry's being taken off and its callback, and while that runs. *)

(** Where the timer thread is: in its loop, with an entry taken off whose
    callback is next, or in that callback. *)
Inductive duty := Free | Taken (id : Z) (ev : TimerEvent) | Calling (id : Z) (ev : TimerEvent).

Inductive moment := Locked (a : action) | Calls (id at_time : Z) (ev : TimerEvent) | Returns.

(** The sections of the timer thread itself. *)
Definition own (a : action) : bool := match a with ADrop _ | ATake _ _ _ => true | _ => false end.

Inductive moves : TimerManager -> duty -> moment -> TimerManager -> duty -> Prop :=
  | moves_other t d a t' : own a = false -> step t a t' -> moves t d (Locked a) t' d
  | moves_drop t id t' : step t (ADrop id) t' -> moves t Free (Locked (ADrop id)) t' Free
  | moves_take t id n ev t' : step t (ATake id n ev) t' -> moves t Free (Locked (ATake id n ev)) t' (Taken id ev)
  | moves_call t id ev : moves t (Taken id ev) (Calls id (now t) ev) t (Calling id ev)
  | moves_return t id ev : moves t (Calling id ev) Returns t Free.

(** Lives of the manager, the latest moment last. *)
Inductive life : list moment -> TimerManager -> duty -> Prop :=
  | life_nil : life [] init Free
  | life_snoc tr t d m t' d' : life tr t d -> moves t d m t' d' -> life (tr ++ [m]) t' d'.

Definition section_of (m : moment) : option action := match m with Locked a => Some a | _ => None end.
Definition sections (tr : list moment) : list action := omap section_of tr.

Lemma elem_of_sections a tr : a ∈ sections tr <-> Locked a ∈ tr.
Proof.
  unfold sections. rewrite list_elem_of_omap. split; [|by intros Hin; exists (Locked a)].
  intros ([b| |] & Hin & E); [by injection E as <-|done|done].
Qed.

Lemma sections_snoc tr a : sections (tr ++ [Locked a]) = sections tr ++ [a].
Proof. unfold sections. by rewrite omap_app. Qed.

Lemma life_history tr t d : life tr t d -> history (sections tr) t.
Proof.
  induction 1 as [|tr t d m t' d' Hl IH Hm]; [apply history_nil|]. inversion Hm; subst.
  - rewrite sections_snoc. by eapply history_snoc.
  - rewrite sections_snoc. by eapply history_snoc.
  - rewrite sections_snoc. by eapply history_snoc.
  - unfold sections. by rewrite omap_app, app_nil_r.
  - unfold sections. by rewrite omap_app, app_nil_r.
Qed.

Lemma pass_clock e t : now (snd (thread_pass e t)) = now t.
Proof. unfold thread_pass. by repeat case_match. Qed.

Lemma step_clock t a t' : step t a t' -> now t <= now t'.
Proof.
  inversion 1 as [t0|t0|t0 timeout ev id t1 Hroom Hst|t0 id|t0 d Hd|t0 e t1 Hr Ht Hp|t0 e t1 Hr Ht Hp]; subst; cbn; try lia.
  - unfold run. by case_match.
  - unfold stop. by case_match.
  - injection Hst as _ <-. cbn. lia.
  - pose proof (pass_clock e t) as E. rewrite Hp in E. cbn in E. lia.
  - pose proof (pass_clock e t) as E. rewrite Hp in E. cbn in E. lia.
Qed.

(** The others' moments. *)
Definition others (m : moment) : Prop := match m with Locked a => own a = false | _ => False end.

(** The entry whose callback is next was taken off last, and since then only
    the other threads came in. *)
Lemma life_taken tr t id ev :
  life tr t (Taken id ev) ->
  exists before n after t1, tr = before ++ Locked (ATake id n ev) :: after /\
    life (before ++ [Locked (ATake id n ev)]) t1 (Taken id ev) /\ n <= now t /\ Forall others after.
Proof.
  intros H. remember (Taken id ev) as d eqn:Ed. induction H as [|tr t d m t' d' Hl IH Hm]; [done|]. subst d'. inversion Hm; subst.
  - destruct (IH eq_refl) as (before & n & after & t1 & -> & Ht & Hn & Ho). exists before, n, (after ++ [Locked a]), t1.
    split; [by rewrite <- app_assoc|]. split; [done|]. split; [pose proof (step_clock _ _ _ ltac:(eassumption)); lia|].
    apply Forall_app. split; [done|]. by apply Forall_singleton.
  - exists tr, n, [], t'. split; [done|]. split; [by eapply life_snoc|]. split; [|by apply Forall_nil].
    match goal with E : step _ _ _ |- _ => pose proof (step_clock _ _ _ E); inversion E; subst end. done.
Qed.

Lemma life_called tr t d id n ev : life tr t d -> Calls id n ev ∈ tr -> exists n', Locked (ATake id n' ev) ∈ tr.
Proof.
  induction 1 as [|tr t d m t' d' Hl IH Hm]; [by intros ?%elem_of_nil|]. intros [Hin|Hin%list_elem_of_singleton]%elem_of_app.
  - destruct (IH Hin) as [n' ?]. exists n'. apply elem_of_app. by left.
  - subst m. inversion Hm; subst. destruct (life_taken _ _ _ _ Hl) as (before & n' & after & t1 & -> & _).
    exists n'. rewrite <- app_assoc. apply elem_of_app. right. by left.
Qed.

(** A prefix of a life is a life. *)
Lemma life_prefix tr1 tr2 : forall t d, life (tr1 ++ tr2) t d -> exists t' d', life tr1 t' d'.
Proof.
  induction tr2 as [|m tr2 IH] using rev_ind; intros t d H; [rewrite app_nil_r in H; by exists t, d|].
  rewrite app_assoc in H. inversion H as [Hn|tr0 t0 d0 m0 t' d' Hl Hm Htr]; [by destruct (tr1 ++ tr2)|].
  apply app_inj_tail in Htr as [-> _]. by eapply IH.
Qed.

(** [C33] A timer's callback is called only as promised: in every life, however
    starts, cancels, clock ticks and the timer thread's sections and callbacks
    interleave, a timer whose callback is called was taken off the heap before,
    and since then the timer thread did nothing else. When it was taken off it
    had been started with that event, its expiry was reached and no other timer
    in the heap expired earlier; and it had not been cancelled. (A cancel
    after that comes too late, though the callback has not begun:
    [cancelled_yet_called].) And its callback was not called before. *)
Theorem timer_fire_sound tr id at_time ev t' d' (H : life (tr ++ [Calls id at_time ev]) t' d') :
  exists before taken after t1,
    tr = before ++ Locked (ATake id taken ev) :: after /\ Forall others after /\ taken <= at_time /\
    life (before ++ [Locked (ATake id taken ev)]) t1 (Taken id ev) /\
    (exists timeout expires, Locked (AStart id timeout expires ev) ∈ before /\ expires <= taken /\
       Forall (fun e => expires <= expiry e) (heap t1)) /\
    (Locked (ACancel id) ∉ before) /\
    (forall n ev', Calls id n ev' ∉ tr).
Proof.
  inversion H as [Hn|tr0 t d m t2 d2 Hl Hm Htr]; [by destruct tr|]. apply app_inj_tail in Htr as [-> ->]. inversion Hm; subst.
  destruct (life_taken _ _ _ _ Hl) as (before & taken & after & t1 & -> & H1 & Hle & Ho). exists before, taken, after, t1.
  pose proof (life_history _ _ _ H1) as Hh. rewrite sections_snoc in Hh. apply take_sound in Hh as ((timeout & expires & Hs & Hx & Hheap) & Hc & Hf).
  split_and!; try done.
  - exists timeout, expires. by rewrite <- elem_of_sections.
  - by rewrite <- elem_of_sections.
  - intros n ev' [Hin|[Heq|Hin]%elem_of_cons]%elem_of_app; [|done|].
    + destruct (life_prefix _ _ _ _ Hl) as (t0 & d0 & Hb). destruct (life_called _ _ _ _ _ _ Hb Hin) as [n' Hin']. apply elem_of_sections in Hin'. by eapply Hf.
    + rewrite Forall_forall in Ho. exact (Ho _ Hin).
Qed.

Definition sample_event : TimerEvent := MkEvent CHECKPOINT 1 7 1.

(** Start two timers, cancel the later one, let the clock reach the first. *)
Lemma sample_history :
  history [ARun; AStart 1 30 30 sample_event; AStart 2 50 50 sample_event; ACancel 2; ATick 40]
          (MkTimers true 2 [MkEntry 1 30 sample_event; MkEntry 2 50 sample_event] {[2]} 40).
Proof.
  change [ARun; AStart 1 30 30 sample_event; AStart 2 50 50 sample_event; ACancel 2; ATick 40]
    with ((((([] ++ [ARun]) ++ [AStart 1 30 30 sample_event]) ++ [AStart 2 50 50 sample_event])
           ++ [ACancel 2]) ++ [ATick 40]).
  eapply history_snoc; [|refine (step_tick (MkTimers true 2 _ _ 0) 40 _); lia].
  replace ({[2]} : gset Z) with ({[2]} ∪ ∅ : gset Z) by set_solver.
  eapply history_snoc; [|refine (step_cancel (MkTimers true 2 _ _ 0) 2)].
  eapply history_snoc; [|refine (step_start (MkTimers true 1 [MkEntry 1 30 sample_event] ∅ 0) 50 _ _ _ _ _); [simpl; lia|done]].
  eapply history_snoc; [|refine (step_start (MkTimers true 0 [] ∅ 0) 30 _ _ _ _ _); [simpl; lia|done]].
  eapply history_snoc; [apply history_nil|]. apply (step_run init).
Defined.

(** The sections of the other threads, among the moments. *)
Lemma life_sections acts : forall t, history acts t -> Forall (fun a => own a = false) acts -> life (Locked <$> acts) t Free.
Proof.
  induction acts as [|a acts IH] using rev_ind; intros t H Ho.
  - inversion H as [|tr0 ? ? ? ? ? Htr]; [apply life_nil|by destruct tr0].
  - inversion H as [Hn|tr0 t0 a0 t' Hh Hs Htr]; [by destruct acts|]. apply app_inj_tail in Htr as [-> ->]. apply Forall_app in Ho as [Ho Ha].
    rewrite fmap_app. eapply life_snoc; [by apply IH|]. apply moves_other; [|exact Hs]. by inversion Ha.
Qed.

Definition sample_sections : list moment :=
  Locked <$> [ARun; AStart 1 30 30 sample_event; AStart 2 50 50 sample_event; ACancel 2; ATick 40].

Lemma sample_life :
  life (sample_sections ++ [Locked (ATake 1 40 sample_event)]) (MkTimers true 2 [MkEntry 2 50 sample_event] {[2]} 40) (Taken 1 sample_event).
Proof.
  eapply life_snoc; [apply life_sections; [apply sample_history|by repeat constructor]|]. apply moves_take.
  refine (step_take (MkTimers true 2 [MkEntry 1 30 sample_event; MkEntry 2 50 sample_event] {[2]} 40)
    (MkEntry 1 30 sample_event) _ _ _ _); [done| |by vm_compute].
  split; [by left|]. repeat constructor; simpl; lia.
Qed.

(** A timer is cancelled after it was taken off, and [cancel_timer] returns
    before its callback is called. *)
Lemma cancelled_yet_called :
  life (((sample_sections ++ [Locked (ATake 1 40 sample_event)]) ++ [Locked (ACancel 1)]) ++ [Calls 1 40 sample_event])
    (cancel_timer 1 (MkTimers true 2 [MkEntry 2 50 sample_event] {[2]} 40)) (Calling 1 sample_event).
Proof.
  eapply life_snoc; [|apply (moves_call (cancel_timer 1 (MkTimers true 2 [MkEntry 2 50 sample_event] {[2]} 40)))].
  eapply life_snoc; [apply sample_life|]. apply moves_other; [done|apply step_cancel].
Qed.

Lemma timer_fire_sound_witness :
  exists before taken after t1,
    (sample_sections ++ [Locked (ATake 1 40 sample_event)]) ++ [Locked (ACancel 1)] = before ++ Locked (ATake 1 taken sample_event) :: after /\
    Forall others after /\ taken <= 40 /\
    life (before ++ [Locked (ATake 1 taken sample_event)]) t1 (Taken 1 sample_event) /\
    (exists timeout expires, Locked (AStart 1 timeout expires sample_event) ∈ before /\ expires <= taken /\
       Forall (fun e => expires <= expiry e) (heap t1)) /\
    (Locked (ACancel 1) ∉ before) /\
    (forall n ev', Calls 1 n ev' ∉ (sample_sections ++ [Locked (ATake 1 40 sample_event)]) ++ [Locked (ACancel 1)]).
Proof.
  exact (timer_fire_sound ((sample_sections ++ [Locked (ATake 1 40 sample_event)]) ++ [Locked (ACancel 1)]) 1 40 sample_event _ _ cancelled_yet_called).
Defined.

(** [C34] The timer thread serves every expired timer: from any state a history
    reaches with the manager running, finitely many passes of the thread empty
    the heap of expired entries, and every one of them that was not cancelled
    has been taken off for its callback; the thread neither skips one nor stops early. *)
Theorem timer_thread_drains tr t (H : history tr t) (Hr : running t = true) :
  exists fired t', drains t fired t' /\ expired t' = [] /\ running t' = true /\
    (forall e, e ∈ expired t -> timer_id e ∉ cancelled t -> timer_id e ∈ fired).
Proof.
  eapply drain_exists; [reflexivity|done|]. by destruct (history_consistent _ _ H).
Qed.

Lemma timer_thread_drains_witness :
  let t := MkTimers true 2 [MkEntry 1 30 sample_event; MkEntry 2 50 sample_event] {[2]} 40 in
  exists fired t', drains t fired t' /\ expired t' = [] /\ running t' = true /\
    (forall e, e ∈ expired t -> timer_id e ∉ cancelled t -> timer_id e ∈ fired).
Proof. intros t. exact (timer_thread_drains _ t sample_history eq_refl). Defined.

(** [pending_count] counts the live timers, the entries not cancelled,
    less the stale ids: those of timers cancelled after they had fired, which
    stay in the cancelled set for good. It is exact while no id is stale and
    under-counts by their number afterwards, down to 0. *)
Theorem timer_pending_count_exact tr t (H : history tr t) :
  pending_count t = Z.max 0 (zlen (live t) - Z.of_nat (size (stale t))).
Proof.
  apply history_consistent in H as [_ Hn _ _ _ _]. unfold pending_count, live, stale.
  pose proof (size_cancelled_split (heap t) (cancelled t) Hn).
  destruct (Z.leb_spec (zlen (heap t)) (Z.of_nat (size (cancelled t)))); lia.
Qed.

(** Cancelling a timer that has fired is not a no-op: the next timer started is
    pending but not counted. *)
Example cancel_after_fire_undercounts :
  let fired := MkTimers true 1 [] ∅ 40 in
  let '(id, t) := start_timer 10 sample_event (cancel_timer 1 fired) in
  pending t id = Some sample_event /\ pending_count t = 0.
Proof. by vm_compute. Qed.

Lemma timer_pending_count_exact_witness :
  let t := MkTimers true 2 [MkEntry 1 30 sample_event; MkEntry 2 50 sample_event] {[2]} 40 in
  pending_count t = Z.max 0 (zlen (live t) - Z.of_nat (size (stale t))) /\ pending_count t = 1.
Proof. intros t. split; [exact (timer_pending_count_exact _ t sample_history)|by vm_compute]. Defined.

End Timers.
