(* ===== verification/Engine.v ===== *)
(** * The LTP engine (include/ltp_cla/ltp_engine.h, ltp_session.h,
    src/ltp_cla/ltp_engine.cpp)

    The engine's state, one definition per handler, in a state monad whose
    computations may fail. A [LtpSession&] of the code is the key of the
    session in the map: every access goes through the map, so that mutations
    through a reference are seen where the code sees them. *)
From S2P Require Import Prelude Sdnv Segment Tracker Timers.
Import SegType Segment.
Import Tracker(add_range, is_complete, claim_end).
Import Timers(TimerEvent, MkEvent, evt_type, evt_engine_id, evt_session_number, evt_serial_number,
  TimerService, svc_start, svc_cancel).

Module Engine.

Inductive SessionRole := ORIGINATOR | RECEIVER.
Inductive SessionState := ACTIVE | COMPLETED | CANCELLED.

#[export] Instance SessionRole_eq_dec : EqDecision SessionRole.
Proof. solve_decision. Defined.
#[export] Instance SessionState_eq_dec : EqDecision SessionState.
Proof. solve_decision. Defined.

Record LtpSession := MkSession {
  s_engine_id : Z;
  s_session_number : Z;
  s_role : SessionRole;
  s_state : SessionState;
  client_data : list Z;
  total_data_length : Z;
  s_is_red : bool;
  reception_tracker : list ReceptionClaim;
  checkpoint_serial_counter : Z;
  report_serial_counter : Z;
  retransmission_count : Z }.

(** Assignments to a session's fields. *)
Definition set_state (x : SessionState) (s : LtpSession) : LtpSession :=
  MkSession (s_engine_id s) (s_session_number s) (s_role s) x (client_data s) (total_data_length s)
    (s_is_red s) (reception_tracker s) (checkpoint_serial_counter s) (report_serial_counter s) (retransmission_count s).
Definition set_client_data (x : list Z) (s : LtpSession) : LtpSession :=
  MkSession (s_engine_id s) (s_session_number s) (s_role s) (s_state s) x (total_data_length s)
    (s_is_red s) (reception_tracker s) (checkpoint_serial_counter s) (report_serial_counter s) (retransmission_count s).
Definition set_total (x : Z) (s : LtpSession) : LtpSession :=
  MkSession (s_engine_id s) (s_session_number s) (s_role s) (s_state s) (client_data s) x
    (s_is_red s) (reception_tracker s) (checkpoint_serial_counter s) (report_serial_counter s) (retransmission_count s).
Definition set_tracker (x : list ReceptionClaim) (s : LtpSession) : LtpSession :=
  MkSession (s_engine_id s) (s_session_number s) (s_role s) (s_state s) (client_data s) (total_data_length s)
    (s_is_red s) x (checkpoint_serial_counter s) (report_serial_counter s) (retransmission_count s).
Definition set_checkpoint_counter (x : Z) (s : LtpSession) : LtpSession :=
  MkSession (s_engine_id s) (s_session_number s) (s_role s) (s_state s) (client_data s) (total_data_length s)
    (s_is_red s) (reception_tracker s) x (report_serial_counter s) (retransmission_count s).
Definition set_report_counter (x : Z) (s : LtpSession) : LtpSession :=
  MkSession (s_engine_id s) (s_session_number s) (s_role s) (s_state s) (client_data s) (total_data_length s)
    (s_is_red s) (reception_tracker s) (checkpoint_serial_counter s) x (retransmission_count s).
Definition set_retransmissions (x : Z) (s : LtpSession) : LtpSession :=
  MkSession (s_engine_id s) (s_session_number s) (s_role s) (s_state s) (client_data s) (total_data_length s)
    (s_is_red s) (reception_tracker s) (checkpoint_serial_counter s) (report_serial_counter s) x.

(** [SessionKey]: engine id and session number. *)
Abbreviation SessionKey := (Z * Z)%type.

Record LtpEngineConfig := MkConfig {
  local_engine_id : Z;
  remote_engine_id : Z;
  max_segment_size : Z;
  retransmission_timeout_ms : Z;
  max_retransmissions : Z;
  max_concurrent_sessions : Z }.

Record LtpDiagnostics := MkDiagnostics {
  sessions_originated : Z;
  sessions_received : Z;
  sessions_completed : Z;
  sessions_cancelled : Z;
  red_segments_sent : Z;
  red_segments_received : Z;
  green_segments_sent : Z;
  green_segments_received : Z;
  checkpoints_sent : Z;
  reports_received : Z;
  reports_sent : Z;
  report_acks_sent : Z;
  report_acks_received : Z;
  retransmissions : Z;
  cancel_segments_sent : Z;
  cancel_segments_received : Z }.

(** The counters, named so that [diagnostics_.x++] is one operation. *)
Inductive counter :=
  | SessionsOriginated | SessionsReceived | SessionsCompleted | SessionsCancelled
  | RedSent | RedReceived | GreenSent | GreenReceived | CheckpointsSent
  | ReportsReceived | ReportsSent | ReportAcksSent | ReportAcksReceived
  | Retransmissions | CancelsSent | CancelsReceived.

#[export] Instance counter_eq_dec : EqDecision counter.
Proof. solve_decision. Defined.

Definition incr (c : counter) (d : LtpDiagnostics) : LtpDiagnostics :=
  let bump k x := if decide (c = k) then u64 (x + 1) else x in
  {| sessions_originated := bump SessionsOriginated (sessions_originated d);
     sessions_received := bump SessionsReceived (sessions_received d);
     sessions_completed := bump SessionsCompleted (sessions_completed d);
     sessions_cancelled := bump SessionsCancelled (sessions_cancelled d);
     red_segments_sent := bump RedSent (red_segments_sent d);
     red_segments_received := bump RedReceived (red_segments_received d);
     green_segments_sent := bump GreenSent (green_segments_sent d);
     green_segments_received := bump GreenReceived (green_segments_received d);
     checkpoints_sent := bump CheckpointsSent (checkpoints_sent d);
     reports_received := bump ReportsReceived (reports_received d);
     reports_sent := bump ReportsSent (reports_sent d);
     report_acks_sent := bump ReportAcksSent (report_acks_sent d);
     report_acks_received := bump ReportAcksReceived (report_acks_received d);
     retransmissions := bump Retransmissions (retransmissions d);
     cancel_segments_sent := bump CancelsSent (cancel_segments_sent d);
     cancel_segments_received := bump CancelsReceived (cancel_segments_received d) |}.

(** ** Segmentation *)

Definition plain_segment (type engine session : Z) (c : SegmentContent) : LtpSegment :=
  MkSegment 0 type engine session 0 0 [] [] c.

(** The [while (remaining > 0)] loop of [segment_data_impl]. *)
Fixpoint segment_loop (fuel : nat) (session : LtpSession) (max_seg offset remaining cp_serial : Z)
    (segments : list LtpSegment) : outcome (list LtpSegment * Z) :=
  if 0 <? remaining then
    match fuel with
    | O => Err Diverges
    | S fuel' =>
        let chunk := Z.min max_seg remaining in
        let is_last := chunk =? remaining in
        bs ← range (client_data session) offset chunk;
        let '(type, cp, rpt, cp_serial) :=
          if s_is_red session then
            if is_last then
              (RED_DATA_CP_EORP_EOB, Some (u64 (cp_serial + 1)), Some 0, u64 (cp_serial + 1))
            else (RED_DATA, None, None, cp_serial)
          else (if is_last then GREEN_DATA_EOB else GREEN_DATA, None, None, cp_serial) in
        let seg := plain_segment type (s_engine_id session) (s_session_number session)
                     (CData (MkData 1 offset chunk cp rpt bs)) in
        segment_loop fuel' session max_seg (offset + chunk) (remaining - chunk) cp_serial
          (segments ++ [seg])
    end
  else Ok (segments, cp_serial).

(** The segments, and the value [cp_serial_out] ends with. One iteration per
    byte is enough when [max_seg] is positive ([segment_data_chunks]); with a
    zero [max_seg] the loop makes no progress. *)
Definition segment_data_impl (session : LtpSession) (max_seg cp_serial : Z) :
    outcome (list LtpSegment * Z) :=
  match client_data session with
  | [] =>
      let '(type, cp, rpt, cp_serial) :=
        if s_is_red session
        then (RED_DATA_CP_EORP_EOB, Some (u64 (cp_serial + 1)), Some 0, u64 (cp_serial + 1))
        else (GREEN_DATA_EOB, None, None, cp_serial) in
      Ok ([plain_segment type (s_engine_id session) (s_session_number session)
             (CData (MkData 1 0 0 cp rpt []))], cp_serial)
  | data => segment_loop (length data) session max_seg 0 (zlen data) cp_serial []
  end.

(** [compute_gaps]'s loop. *)
Fixpoint compute_gaps_loop (claims : list ReceptionClaim) (cursor upper : Z)
    (gaps : list ReceptionClaim) : Z * list ReceptionClaim :=
  match claims with
  | [] => (cursor, gaps)
  | c :: claims' =>
      if upper <=? cursor then (cursor, gaps)
      else
        let c_end := u64 (claim_offset c + claim_length c) in
        if c_end <=? cursor then compute_gaps_loop claims' cursor upper gaps
        else
          let gaps :=
            if cursor <? claim_offset c then
              let gap_end := Z.min (claim_offset c) upper in
              gaps ++ [MkClaim cursor (u64 (gap_end - cursor))]
            else gaps in
          compute_gaps_loop claims' (Z.max cursor c_end) upper gaps
  end.

Definition compute_gaps (claims : list ReceptionClaim) (lower upper : Z) : list ReceptionClaim :=
  let '(cursor, gaps) := compute_gaps_loop claims lower upper [] in
  if cursor <? upper then gaps ++ [MkClaim cursor (u64 (upper - cursor))] else gaps.

(** ** Engine state *)

(** What the engine tells the rest of the program, in order: the calls of its
    four callbacks. *)
Inductive output :=
  | SendSegment (encoded : list Z)
  | DataArrival (data : list Z)
  | SessionComplete (session_number : Z)
  | SessionFailure (session_number reason : Z).

#[export] Instance output_eq_dec : EqDecision output.
Proof. solve_decision. Defined.

(** [timer_key(session_number, serial)] *)
Definition timer_key (session_number serial : Z) : Z :=
  Z.lor (u64 (Z.shiftl session_number 32)) (Z.land serial 0xFFFFFFFF).

Section engine.
Context {T : Type} `{TimerService T} `{Allocator}.

(** [timer_manager] is the [TimerManager*], [None] for a null pointer. The
    four callbacks are installed before the engine runs (main.cpp:125-152). *)
Record LtpEngine := MkEngine {
  config : LtpEngineConfig;
  session_counter : Z;
  sessions : gmap SessionKey LtpSession;
  diagnostics : LtpDiagnostics;
  timer_manager : option T;
  checkpoint_timers : gmap Z Z;
  report_timers : gmap Z Z;
  outputs : list output }.

Definition init_engine (cfg : LtpEngineConfig) (tm : option T) : LtpEngine :=
  MkEngine cfg 0 ∅ (MkDiagnostics 0 0 0 0 0 0 0 0 0 0 0 0 0 0 0 0) tm ∅ ∅ [].

(** ** Computations on the engine *)

Definition M (A : Type) : Type := LtpEngine -> outcome (A * LtpEngine).

#[export] Instance M_ret : MRet M := fun A a e => Ok (a, e).
#[export] Instance M_bind : MBind M := fun A B f m e =>
  match m e with Ok (a, e') => f a e' | Err x => Err x end.

Definition lift {A} (m : outcome A) : M A := fun e => a ← m; Ok (a, e).
Definition get : M LtpEngine := fun e => Ok (e, e).
Definition modify (f : LtpEngine -> LtpEngine) : M () := fun e => Ok ((), f e).

(** Assignments to the engine's members. *)
Definition with_counter (x : Z) (e : LtpEngine) : LtpEngine :=
  MkEngine (config e) x (sessions e) (diagnostics e) (timer_manager e) (checkpoint_timers e)
    (report_timers e) (outputs e).
Definition with_sessions (f : gmap SessionKey LtpSession -> gmap SessionKey LtpSession) (e : LtpEngine) : LtpEngine :=
  MkEngine (config e) (session_counter e) (f (sessions e)) (diagnostics e) (timer_manager e)
    (checkpoint_timers e) (report_timers e) (outputs e).
Definition with_count (k : counter) (e : LtpEngine) : LtpEngine :=
  MkEngine (config e) (session_counter e) (sessions e) (incr k (diagnostics e)) (timer_manager e)
    (checkpoint_timers e) (report_timers e) (outputs e).
Definition with_timer_manager (t : T) (e : LtpEngine) : LtpEngine :=
  MkEngine (config e) (session_counter e) (sessions e) (diagnostics e) (Some t)
    (checkpoint_timers e) (report_timers e) (outputs e).
Definition with_checkpoint_timers (f : gmap Z Z -> gmap Z Z) (e : LtpEngine) : LtpEngine :=
  MkEngine (config e) (session_counter e) (sessions e) (diagnostics e) (timer_manager e)
    (f (checkpoint_timers e)) (report_timers e) (outputs e).
Definition with_report_timers (f : gmap Z Z -> gmap Z Z) (e : LtpEngine) : LtpEngine :=
  MkEngine (config e) (session_counter e) (sessions e) (diagnostics e) (timer_manager e)
    (checkpoint_timers e) (f (report_timers e)) (outputs e).
Definition with_output (x : output) (e : LtpEngine) : LtpEngine :=
  MkEngine (config e) (session_counter e) (sessions e) (diagnostics e) (timer_manager e)
    (checkpoint_timers e) (report_timers e) (outputs e ++ [x]).

Definition set_counter (x : Z) : M () := modify (with_counter x).
Definition set_sessions (f : gmap SessionKey LtpSession -> gmap SessionKey LtpSession) : M () :=
  modify (with_sessions f).
Definition count (k : counter) : M () := modify (with_count k).
Definition set_timer_manager (t : T) : M () := modify (with_timer_manager t).
Definition set_checkpoint_timers (f : gmap Z Z -> gmap Z Z) : M () := modify (with_checkpoint_timers f).
Definition set_report_timers (f : gmap Z Z -> gmap Z Z) : M () := modify (with_report_timers f).
Definition emit (x : output) : M () := modify (with_output x).

(** A [LtpSession&] is read and assigned through its key; a reference to a
    session no longer in the map dangles. *)
Definition deref (key : SessionKey) : M LtpSession := fun e =>
  match sessions e !! key with Some s => Ok (s, e) | None => Err Undefined end.
Definition assign (key : SessionKey) (f : LtpSession -> LtpSession) : M () :=
  s ← deref key; set_sessions <[key := f s]>.
Definition erase (key : SessionKey) : M () := set_sessions (delete key).
(** [sessions_.emplace(key, session)] leaves an existing session alone. *)
Definition emplace (key : SessionKey) (s : LtpSession) : M () :=
  set_sessions (fun m => match m !! key with Some _ => m | None => <[key := s]> m end).

Fixpoint for_each {A} (f : A -> M ()) (l : list A) : M () :=
  match l with
  | [] => mret tt
  | a :: l' => f a ;; for_each f l'
  end.

(** ** send_segment *)

Definition start_engine_timer (type : Timers.TimerType) (seg : LtpSegment) (serial : Z) : M (option Z) :=
  e ← get;
  match timer_manager e with
  | None => mret None
  | Some t =>
      let evt := MkEvent type (engine_id seg) (session_number seg) serial in
      let '(tid, t') := svc_start (retransmission_timeout_ms (config e)) evt t in
      set_timer_manager t' ;; mret (Some tid)
  end.

(** The checkpoint timer is only looked at when there is a timer manager. *)
Definition start_checkpoint_timer (seg : LtpSegment) : M () :=
  e ← get;
  match timer_manager e with
  | None => mret tt
  | Some _ =>
      ds ← lift (get_data (content seg));
      match ds_checkpoint_serial ds with
      | None => mret tt
      | Some serial =>
          tid ← start_engine_timer Timers.CHECKPOINT seg serial;
          match tid with
          | Some tid => set_checkpoint_timers <[timer_key (session_number seg) serial := tid]>
          | None => mret tt
          end
      end
  end.

Definition start_report_timer (seg : LtpSegment) : M () :=
  e ← get;
  match timer_manager e with
  | None => mret tt
  | Some _ =>
      rs ← lift (get_report (content seg));
      tid ← start_engine_timer Timers.REPORT_SEGMENT seg (rs_report_serial rs);
      match tid with
      | Some tid => set_report_timers <[timer_key (session_number seg) (rs_report_serial rs) := tid]>
      | None => mret tt
      end
  end.

Definition send_segment (seg : LtpSegment) : M () :=
  let type := segment_type seg in
  (if is_red type then
     count RedSent ;;
     if has_checkpoint type then count CheckpointsSent ;; start_checkpoint_timer seg
     else mret tt
   else if is_green type then count GreenSent
   else if type =? REPORT_SEGMENT then count ReportsSent ;; start_report_timer seg
   else if type =? REPORT_ACK then count ReportAcksSent
   else if (type =? CANCEL_BY_SENDER) || (type =? CANCEL_BY_RECEIVER) then count CancelsSent
   else mret tt) ;;
  encoded ← lift (Segment.encode seg);
  emit (SendSegment encoded).

(** ** Handlers *)

(** [segment_data(session)]: updates the session's checkpoint counter. *)
Definition segment_data (key : SessionKey) : M (list LtpSegment) :=
  e ← get;
  session ← deref key;
  '(segments, cp) ← lift (segment_data_impl session (max_segment_size (config e))
                            (checkpoint_serial_counter session));
  assign key (set_checkpoint_counter cp) ;;
  mret segments.

(** [segment_data_readonly(session)]: the counter is a local copy. *)
Definition segment_data_readonly (session : LtpSession) : M (list LtpSegment) :=
  e ← get;
  '(segments, _) ← lift (segment_data_impl session (max_segment_size (config e))
                           (checkpoint_serial_counter session));
  mret segments.

Definition start_session (data : list Z) (reliable : bool) : M Z :=
  e ← get;
  if max_concurrent_sessions (config e) <=? Z.of_nat (size (sessions e)) then mret 0
  else
    let sn := u64 (session_counter e + 1) in
    let key := (local_engine_id (config e), sn) in
    let session :=
      MkSession (local_engine_id (config e)) sn ORIGINATOR ACTIVE data (zlen data) reliable
        [] 0 0 0 in
    set_counter sn ;;
    emplace key session ;;
    count SessionsOriginated ;;
    segments ← segment_data key;
    for_each send_segment segments ;;
    (if negb reliable then erase key ;; count SessionsCompleted else mret tt) ;;
    mret sn.

Definition generate_report (key : SessionKey) (checkpoint_serial upper_bound : Z) : M () :=
  session ← deref key;
  let report_serial := u64 (report_serial_counter session + 1) in
  assign key (set_report_counter report_serial) ;;
  send_segment
    (plain_segment REPORT_SEGMENT (s_engine_id session) (s_session_number session)
       (CReport (MkReport report_serial checkpoint_serial upper_bound 0 (reception_tracker session)))).

(** [client_data.resize(seg_end)] when the segment ends past the buffer. *)
Definition grow_to (seg_end : Z) (data : list Z) : outcome (list Z) :=
  if zlen data <? seg_end then
    allocate 1 seg_end ;; Ok (data ++ replicate (Z.to_nat seg_end - length data) 0)
  else Ok data.

(** What the segment's arrival does to the session it belongs to. *)
Definition store_segment (key : SessionKey) (type : Z) (ds : DataSegContent) : M () :=
  let seg_end := u64 (ds_offset ds + ds_length ds) in
  session ← deref key;
  data ← lift (grow_to seg_end (client_data session));
  data ← lift (if 0 <? ds_length ds then store data (ds_offset ds) (ds_data ds) else Ok data);
  assign key (set_client_data data) ;;
  assign key (fun s => set_tracker (add_range (ds_offset ds) (ds_length ds) (reception_tracker s)) s) ;;
  if has_eob type then assign key (set_total seg_end) else mret tt.

(** The delivery of a completed receiver session. *)
Definition complete_receiver (key : SessionKey) : M () :=
  assign key (set_state COMPLETED) ;;
  count SessionsCompleted ;;
  session ← deref key;
  delivered ← lift (range (client_data session) 0 (total_data_length session));
  emit (DataArrival delivered) ;;
  erase key.

(** The body of [receive_data_segment] once the session exists. *)
Definition receive_in_session (key : SessionKey) (type : Z) (ds : DataSegContent) : M () :=
  session ← deref key;
  if negb (bool_decide (s_state session = ACTIVE)) then mret tt
  else
    count (if is_red type then RedReceived else GreenReceived) ;;
    store_segment key type ds ;;
    let seg_end := u64 (ds_offset ds + ds_length ds) in
    (match ds_checkpoint_serial ds with
     | Some serial => if has_checkpoint type then generate_report key serial seg_end else mret tt
     | None => mret tt
     end) ;;
    if is_green type && has_eob type then complete_receiver key else mret tt.

Definition receive_data_segment (segment : LtpSegment) : M () :=
  ds ← lift (get_data (content segment));
  let type := segment_type segment in
  let key := (engine_id segment, session_number segment) in
  e ← get;
  match sessions e !! key with
  | Some _ => receive_in_session key type ds
  | None =>
      if max_concurrent_sessions (config e) <=? Z.of_nat (size (sessions e)) then mret tt
      else
        emplace key (MkSession (engine_id segment) (session_number segment) RECEIVER ACTIVE
                       [] 0 (is_red type) [] 0 0 0) ;;
        count SessionsReceived ;;
        receive_in_session key type ds
  end.

Definition send_report_ack (engine session report_serial : Z) : M () :=
  send_segment (plain_segment REPORT_ACK engine session (CRptAck (MkRptAck report_serial))).

(** [timers.find(key)]; cancel and erase if found. *)
Definition cancel_engine_timer (timers : gmap Z Z)
    (set_timers : (gmap Z Z -> gmap Z Z) -> M ()) (key : Z) : M () :=
  match timers !! key with
  | None => mret tt
  | Some tid =>
      e ← get;
      (match timer_manager e with
       | Some t => set_timer_manager (svc_cancel tid t)
       | None => mret tt
       end) ;;
      set_timers (delete key)
  end.

Definition cancel_session (engine session reason : Z) : M () :=
  let key := (engine, session) in
  e ← get;
  match sessions e !! key with
  | None => mret tt
  | Some s =>
      send_segment
        (plain_segment (if decide (s_role s = ORIGINATOR) then CANCEL_BY_SENDER else CANCEL_BY_RECEIVER)
           engine session (CCancel (MkCancel reason))) ;;
      assign key (set_state CANCELLED) ;;
      count SessionsCancelled ;;
      emit (SessionFailure session reason) ;;
      erase key
  end.

(** [retransmit_gaps]: the inner [while (remaining > 0)] loop for one gap. *)
Fixpoint gap_loop (fuel : nat) (session : LtpSession) (max_seg offset remaining : Z)
    (segments : list LtpSegment) : outcome (list LtpSegment) :=
  if 0 <? remaining then
    match fuel with
    | O => Err Diverges
    | S fuel' =>
        let chunk := Z.min max_seg remaining in
        bs ← range (client_data session) offset chunk;
        let seg := plain_segment RED_DATA (s_engine_id session) (s_session_number session)
                     (CData (MkData 1 offset chunk None None bs)) in
        gap_loop fuel' session max_seg (u64 (offset + chunk)) (remaining - chunk) (segments ++ [seg])
    end
  else Ok segments.

(** Its outer loop. A chunk lies in [client_data] or the run has already ended
    in undefined behaviour, so one iteration per byte of the block, and one for
    the chunk that leaves it, is enough when [max_seg] is positive. *)
Fixpoint gaps_segments (session : LtpSession) (max_seg : Z) (gaps : list ReceptionClaim)
    (segments : list LtpSegment) : outcome (list LtpSegment) :=
  match gaps with
  | [] => Ok segments
  | gap :: gaps' =>
      segments ← gap_loop (S (length (client_data session))) session max_seg
                   (claim_offset gap) (claim_length gap) segments;
      gaps_segments session max_seg gaps' segments
  end.

(** The last segment becomes a checkpoint with the next serial. *)
Fixpoint mark_last (serial : Z) (segments : list LtpSegment) : outcome (list LtpSegment) :=
  match segments with
  | [] => Ok []
  | [last] =>
      ds ← get_data (content last);
      Ok [MkSegment (version last) RED_DATA_CP (engine_id last) (session_number last)
            (header_ext_count last) (trailer_ext_count last)
            (header_extensions last) (trailer_extensions last)
            (CData (MkData (client_service_id ds) (ds_offset ds) (ds_length ds)
                      (Some serial) (Some 0) (ds_data ds)))]
  | seg :: segments' => rest ← mark_last serial segments'; Ok (seg :: rest)
  end.

Definition retransmit_gaps (key : SessionKey) (gaps : list ReceptionClaim) : M () :=
  e ← get;
  session ← deref key;
  segments ← lift (gaps_segments session (max_segment_size (config e)) gaps []);
  match segments with
  | [] => mret tt
  | _ =>
      let serial := u64 (checkpoint_serial_counter session + 1) in
      assign key (set_checkpoint_counter serial) ;;
      segments ← lift (mark_last serial segments);
      for_each send_segment segments
  end.

Definition fully_received (session : LtpSession) (claims : list ReceptionClaim) : bool :=
  if total_data_length session =? 0 then true
  else match claims with
       | [c] => (claim_offset c =? 0) && (total_data_length session <=? claim_length c)
       | _ => false
       end.

(** [++session.retransmission_count > max_retransmissions], a [uint8_t]. *)
Definition count_retransmission (key : SessionKey) : M bool :=
  assign key (fun s => set_retransmissions (u8 (retransmission_count s + 1)) s) ;;
  session ← deref key;
  e ← get;
  mret (max_retransmissions (config e) <? retransmission_count session).

Definition receive_report_segment (segment : LtpSegment) : M () :=
  count ReportsReceived ;;
  rs ← lift (get_report (content segment));
  e ← get;
  let key := (local_engine_id (config e), session_number segment) in
  match sessions e !! key with
  | None => send_report_ack (engine_id segment) (session_number segment) (rs_report_serial rs)
  | Some session =>
      if negb (bool_decide (s_role session = ORIGINATOR)) then mret tt
      else if negb (bool_decide (s_state session = ACTIVE)) then mret tt
      else
        send_report_ack (engine_id segment) (session_number segment) (rs_report_serial rs) ;;
        e ← get;
        cancel_engine_timer (checkpoint_timers e) set_checkpoint_timers
          (timer_key (session_number segment) (rs_checkpoint_serial rs)) ;;
        if fully_received session (rs_claims rs) then
          assign key (set_state COMPLETED) ;;
          count SessionsCompleted ;;
          emit (SessionComplete (s_session_number session)) ;;
          erase key
        else
          match compute_gaps (rs_claims rs) (rs_lower_bound rs) (rs_upper_bound rs) with
          | [] => mret tt
          | gaps =>
              exhausted ← count_retransmission key;
              if exhausted : bool then cancel_session (s_engine_id session) (s_session_number session) 0x01
              else count Retransmissions ;; retransmit_gaps key gaps
          end
  end.

Definition receive_report_ack (segment : LtpSegment) : M () :=
  count ReportAcksReceived ;;
  ra ← lift (get_rpt_ack (content segment));
  let key := (engine_id segment, session_number segment) in
  e ← get;
  match sessions e !! key with
  | None => mret tt
  | Some session =>
      if negb (bool_decide (s_role session = RECEIVER)) then mret tt
      else
        cancel_engine_timer (report_timers e) set_report_timers
          (timer_key (session_number segment) (ra_report_serial ra)) ;;
        if is_complete (total_data_length session) (reception_tracker session)
        then complete_receiver key
        else mret tt
  end.

Definition receive_cancel_segment (segment : LtpSegment) : M () :=
  count CancelsReceived ;;
  cc ← lift (get_cancel (content segment));
  send_segment
    (plain_segment
       (if segment_type segment =? CANCEL_BY_SENDER then CANCEL_ACK_TO_SENDER else CANCEL_ACK_TO_RECEIVER)
       (engine_id segment) (session_number segment) (CCancel (MkCancel 0))) ;;
  let key := (engine_id segment, session_number segment) in
  e ← get;
  match sessions e !! key with
  | None => mret tt
  | Some session =>
      assign key (set_state CANCELLED) ;;
      count SessionsCancelled ;;
      emit (SessionFailure (s_session_number session) (cc_reason_code cc)) ;;
      erase key
  end.

Definition receive_cancel_ack (segment : LtpSegment) : M () :=
  let key := (engine_id segment, session_number segment) in
  e ← get;
  match sessions e !! key with
  | Some session => if decide (s_state session = CANCELLED) then erase key else mret tt
  | None => mret tt
  end.

Definition receive_segment (segment : LtpSegment) : M () :=
  let type := segment_type segment in
  if is_data type then receive_data_segment segment
  else if type =? REPORT_SEGMENT then receive_report_segment segment
  else if type =? REPORT_ACK then receive_report_ack segment
  else if (type =? CANCEL_BY_SENDER) || (type =? CANCEL_BY_RECEIVER) then receive_cancel_segment segment
  else if (type =? CANCEL_ACK_TO_SENDER) || (type =? CANCEL_ACK_TO_RECEIVER) then receive_cancel_ack segment
  else mret tt.

Definition handle_timer_expiry (event : TimerEvent) : M () :=
  e ← get;
  match evt_type event with
  | Timers.CHECKPOINT =>
      let key := (local_engine_id (config e), evt_session_number event) in
      match sessions e !! key with
      | None => mret tt
      | Some session =>
          if negb (bool_decide (s_state session = ACTIVE)) then mret tt
          else if negb (bool_decide (s_role session = ORIGINATOR)) then mret tt
          else
            exhausted ← count_retransmission key;
            if exhausted : bool then cancel_session (s_engine_id session) (s_session_number session) 0x01
            else
              count Retransmissions ;;
              segments ← segment_data key;
              for_each send_segment segments
      end
  | Timers.REPORT_SEGMENT =>
      let key := (evt_engine_id event, evt_session_number event) in
      match sessions e !! key with
      | None => mret tt
      | Some session =>
          if negb (bool_decide (s_state session = ACTIVE)) then mret tt
          else if negb (bool_decide (s_role session = RECEIVER)) then mret tt
          else
            count Retransmissions ;;
            if 0 <? total_data_length session
            then generate_report key (evt_serial_number event) (total_data_length session)
            else mret tt
      end
  | Timers.CANCEL_SEGMENT => mret tt
  end.

Definition get_session (engine session : Z) (e : LtpEngine) : option LtpSession :=
  sessions e !! (engine, session).

Definition active_session_count (e : LtpEngine) : Z := Z.of_nat (size (sessions e)).

(** ** The program's calls into the engine (main.cpp:113-158) *)

(** A call made by one of the engine's users: ingress data, a segment from the
    convergence layer, an expired timer, an explicit cancel. *)
Inductive call :=
  | CStart (data : list Z) (reliable : bool)
  | CReceive (data : list Z)
  | CExpire (event : TimerEvent)
  | CCancelSession (engine session reason : Z).

(** The convergence layer's segment callback: a segment that does not decode
    is logged and dropped. *)
Definition on_cla_segment (data : list Z) : M () :=
  seg ← lift (Segment.decode data);
  match seg with Some seg => receive_segment seg | None => mret tt end.

Definition perform (c : call) : M () :=
  match c with
  | CStart data reliable => start_session data reliable ;; mret tt
  | CReceive data => on_cla_segment data
  | CExpire event => handle_timer_expiry event
  | CCancelSession engine session reason => cancel_session engine session reason
  end.

Definition perform_all : list call -> M () := for_each perform.
End engine.

(** [perform]'s results are the next state alone. *)
Definition run {T} (m : M (T := T) ()) (e : LtpEngine) : outcome LtpEngine := snd <$> m e.

(** The bytes the engine hands to [send_segment], oldest first. *)
Definition sent_segments (l : list output) : list (list Z) :=
  omap (fun o => match o with SendSegment b => Some b | _ => None end) l.
Definition deliveries (l : list output) : list (list Z) :=
  omap (fun o => match o with DataArrival d => Some d | _ => None end) l.

(** What was output between two states. *)
Definition new_outputs {T} (before after : LtpEngine (T := T)) : list output :=
  drop (length (outputs before)) (outputs after).

(** A two-engine run without a timer manager: a 5-byte block in 2-byte
    segments, the second one lost, recovered after the report. *)
Section example.
#[local] Existing Instance one_gib.
#[local] Instance no_timer : TimerService () :=
  {| svc_start _ _ t := (0, t); svc_cancel _ t := t; Timers.svc_pending _ _ := None;
     Timers.svc_ok _ := True; Timers.svc_issued _ _ := True; Timers.svc_room _ := True |}.
Definition sample_config (local remote : Z) : LtpEngineConfig := MkConfig local remote 2 1000 3 10.

Definition exchange : outcome (list output) :=
  let a0 := init_engine (sample_config 1 2) (None : option ()) in
  let b0 := init_engine (sample_config 2 1) None in
  a1 ← run (perform (CStart [10; 11; 12; 13; 14] true)) a0;
  let arrive l := perform_all (CReceive <$> sent_segments l) in
  b1 ← run (arrive (take 1 (new_outputs a0 a1) ++ drop 2 (new_outputs a0 a1))) b0;
  a2 ← run (arrive (new_outputs b0 b1)) a1;
  b2 ← run (arrive (new_outputs a1 a2)) b1;
  a3 ← run (arrive (new_outputs b1 b2)) a2;
  b3 ← run (arrive (new_outputs a2 a3)) b2;
  Ok (drop 1 (new_outputs a2 a3) ++ new_outputs b2 b3).

Example exchange_delivers :
  exchange = Ok [SessionComplete 1; DataArrival [10; 11; 12; 13; 14]].
Proof. vm_compute. reflexivity. Qed.
End example.

(** ** Gaps *)

(** The gaps of [compute_gaps] are those of the tracker: the originator and the
    receiver compute the complement of the claims the same way. *)
Lemma compute_gaps_loop_tracker claims cursor upper acc :
  compute_gaps_loop claims cursor upper acc = Tracker.gaps_loop claims cursor upper acc.
Proof.
  revert cursor acc. induction claims as [|c claims IH]; intros; [done|].
  cbn [compute_gaps_loop Tracker.gaps_loop]. unfold Tracker.claim_end. by repeat case_match.
Qed.

Lemma compute_gaps_get_gaps claims lower upper : compute_gaps claims lower upper = Tracker.get_gaps lower upper claims.
Proof.
  rewrite Tracker.get_gaps_finish. unfold compute_gaps. rewrite compute_gaps_loop_tracker.
  destruct (Z.leb_spec upper lower); [|done].
  assert (Tracker.gaps_loop claims lower upper [] = (lower, [])) as ->.
  { destruct claims; [done|]. cbn [Tracker.gaps_loop]. by rewrite (proj2 (Z.leb_le _ _)). }
  by rewrite (proj2 (Z.ltb_ge _ _)).
Qed.

End Engine.
