(* ===== verification/EngineLogic.v ===== *)
(** * Reasoning about the engine's handlers

    A weakest precondition for the engine's computations, with one rule per
    operation, and for each handler what it does to the session table, the
    session counters and the outputs on every branch. *)
From S2P Require Import Prelude Sdnv Segment Tracker Timers Engine.
Import SegType Segment Engine.
Import Tracker(add_range, is_complete).
Import Timers(TimerService, TimerEvent, MkEvent, evt_type, evt_engine_id, evt_session_number, evt_serial_number).

Module EngineLogic.

Section logic.
Context {T : Type} `{TimerService T} `{Allocator}.
Implicit Types (e : LtpEngine (T := T)) (F : fault -> Prop).

(** ** Weakest preconditions: [Q] of the value and state, [F] of a fault *)

Definition wp {A} (m : M A) (Q : A -> LtpEngine -> Prop) F e : Prop :=
  match m e with Ok (a, e') => Q a e' | Err f => F f end.

Lemma wp_bind {A B} (m : M A) (f : A -> M B) Q F e :
  wp m (fun a e' => wp (f a) Q F e') F e -> wp (m ≫= f) Q F e.
Proof. unfold wp, mbind, M_bind. by destruct (m e) as [[a e']|]. Qed.

Lemma wp_ret {A} (a : A) Q F e : Q a e -> wp (mret a) Q F e.
Proof. done. Qed.

Lemma wp_get Q F e : Q e e -> wp get Q F e.
Proof. done. Qed.

Lemma wp_modify f Q F e : Q tt (f e) -> wp (modify f) Q F e.
Proof. done. Qed.

Lemma wp_lift {A} (m : outcome A) Q F e :
  match m with Ok a => Q a e | Err f => F f end -> wp (lift m) Q F e.
Proof. unfold wp, lift. by destruct m. Qed.

Lemma wp_lift_ok {A} (m : outcome A) a Q F e : m = Ok a -> Q a e -> wp (lift m) Q F e.
Proof. intros ->. done. Qed.

Lemma wp_deref key s Q F e : sessions e !! key = Some s -> Q s e -> wp (deref key) Q F e.
Proof. intros Hs HQ. unfold wp, deref. by rewrite Hs. Qed.

Lemma wp_assign key f s Q F e :
  sessions e !! key = Some s -> Q tt (with_sessions <[key := f s]> e) -> wp (assign key f) Q F e.
Proof. intros Hs HQ. unfold assign. by apply wp_bind, (wp_deref _ s). Qed.

Lemma wp_mono {A} (m : M A) (Q Q' : A -> LtpEngine -> Prop) F e :
  wp m Q F e -> (forall a e', Q a e' -> Q' a e') -> wp m Q' F e.
Proof. unfold wp. destruct (m e) as [[a e']|]; auto. Qed.

(** A run that succeeds satisfies what its weakest precondition says. *)
Lemma wp_run (m : M ()) Q F e :
  wp m Q F e -> match run m e with Ok e' => Q tt e' | Err f => F f end.
Proof. unfold wp, run. by destruct (m e) as [[[] e']|]. Qed.

(** ** What does not concern the session table *)

(** The four counters of sessions: originated, received, completed, cancelled. *)
Definition session_counters e : Z * Z * Z * Z :=
  (sessions_originated (diagnostics e), sessions_received (diagnostics e),
   sessions_completed (diagnostics e), sessions_cancelled (diagnostics e)).

Definition bump_session_counter (k : counter) (c : Z * Z * Z * Z) : Z * Z * Z * Z :=
  let '(o, r, d, x) := c in
  match k with
  | SessionsOriginated => (u64 (o + 1), r, d, x)
  | SessionsReceived => (o, u64 (r + 1), d, x)
  | SessionsCompleted => (o, r, u64 (d + 1), x)
  | SessionsCancelled => (o, r, d, u64 (x + 1))
  | _ => c
  end.

Lemma session_counters_count k e :
  session_counters (with_count k e) = bump_session_counter k (session_counters e).
Proof. by destruct k. Qed.

(** [changes n m c out e e']: from [e] to [e'], the session counter became [n],
    the session table [m], the counters [c], and [out] was output. *)
Record changes (n : Z) (m : gmap SessionKey LtpSession) (c : Z * Z * Z * Z) (out : list output)
    (e e' : LtpEngine (T := T)) : Prop := {
  changes_config : config e' = config e;
  changes_counter : session_counter e' = n;
  changes_sessions : sessions e' = m;
  changes_counters : session_counters e' = c;
  changes_outputs : outputs e' = outputs e ++ out }.

(** [out] was output and nothing else happened to the session table. *)
Definition sends (out : list output) e e' : Prop :=
  changes (session_counter e) (sessions e) (session_counters e) out e e'.

Lemma sends_refl e : sends [] e e.
Proof. split; try done. by rewrite app_nil_r. Qed.

Lemma changes_trans n1 m1 c1 o1 n2 m2 c2 o2 e1 e2 e3 :
  changes n1 m1 c1 o1 e1 e2 -> changes n2 m2 c2 o2 e2 e3 -> changes n2 m2 c2 (o1 ++ o2) e1 e3.
Proof. intros [] []. split; try congruence. by rewrite app_assoc; congruence. Qed.

Lemma sends_trans o1 o2 e1 e2 e3 : sends o1 e1 e2 -> sends o2 e2 e3 -> sends (o1 ++ o2) e1 e3.
Proof.
  intros H1 H2. pose proof (changes_trans _ _ _ _ _ _ _ _ _ _ _ H1 H2) as H3.
  destruct H1 as [? E2 E3 E4 ?]. unfold sends. by rewrite <- E2, <- E3, <- E4.
Qed.

(** ** Sending *)

(** The content is the alternative the type announces. *)
Definition content_fits (seg : LtpSegment) : bool :=
  let type := segment_type seg in
  match content seg with
  | CData _ => is_data type
  | CReport _ => type =? REPORT_SEGMENT
  | CRptAck _ => type =? REPORT_ACK
  | CCancel _ => negb (is_data type) && negb (type =? REPORT_SEGMENT) && negb (type =? REPORT_ACK)
  end.

(** What [encode] returns on a segment it can encode. *)
Definition wire (seg : LtpSegment) : list Z :=
  match Segment.encode seg with Ok b => b | Err _ => [] end.

Lemma encode_fits seg : content_fits seg = true -> Segment.encode seg = Ok (wire seg).
Proof.
  intros Hf. enough (exists b, Segment.encode seg = Ok b) as [b E] by (unfold wire; by rewrite E).
  unfold content_fits in Hf. unfold Segment.encode. destruct (content seg) eqn:Ec.
  - rewrite Hf. simpl. eauto.
  - apply Z.eqb_eq in Hf. rewrite Hf. simpl. eauto.
  - apply Z.eqb_eq in Hf. rewrite Hf. simpl. eauto.
  - rewrite !andb_true_iff, !negb_true_iff in Hf. destruct Hf as [[-> ->] ->].
    unfold mbind, outcome_bind. repeat case_match; simplify_eq; eauto.
Qed.

Lemma sends_nil_intro e e' :
  config e' = config e -> session_counter e' = session_counter e -> sessions e' = sessions e ->
  session_counters e' = session_counters e -> outputs e' = outputs e -> sends [] e e'.
Proof. intros. split; try done. by rewrite app_nil_r. Qed.

(** A step that only touches counters of segments and timers. *)
Definition silent (m : M (T := T) ()) : Prop :=
  forall (Q : () -> LtpEngine -> Prop) F e, (forall e', sends [] e e' -> Q tt e') -> wp m Q F e.

Lemma silent_ret : silent (mret tt).
Proof. intros Q F e HQ. apply HQ, sends_refl. Qed.

Lemma silent_bind m1 m2 : silent m1 -> silent m2 -> silent (m1 ;; m2).
Proof.
  intros H1 H2 Q F e HQ. apply wp_bind, H1. intros e1 He1. apply H2. intros e2 He2.
  apply HQ. by apply (sends_trans [] [] _ e1).
Qed.

Lemma silent_count k :
  match k with
  | SessionsOriginated | SessionsReceived | SessionsCompleted | SessionsCancelled => False
  | _ => True
  end -> silent (count k).
Proof.
  intros Hk Q F e HQ. apply wp_modify, HQ, sends_nil_intro; try done. by destruct k.
Qed.

Lemma silent_checkpoint_timer seg ds : content seg = CData ds -> silent (start_checkpoint_timer seg).
Proof.
  intros Hc Q F e HQ. unfold start_checkpoint_timer. apply wp_bind, wp_get.
  destruct (timer_manager e) as [t|] eqn:Ht; [|apply HQ, sends_refl].
  apply wp_bind, (wp_lift_ok _ ds); [by rewrite Hc|].
  destruct (ds_checkpoint_serial ds) as [serial|]; [|apply HQ, sends_refl].
  unfold start_engine_timer. do 2 apply wp_bind. apply wp_get. rewrite Ht.
  destruct (Timers.svc_start _ _ _) as [tid t'].
  apply wp_bind, wp_modify, wp_ret, wp_modify, HQ. by apply sends_nil_intro.
Qed.

Lemma silent_report_timer seg rs : content seg = CReport rs -> silent (start_report_timer seg).
Proof.
  intros Hc Q F e HQ. unfold start_report_timer. apply wp_bind, wp_get.
  destruct (timer_manager e) as [t|] eqn:Ht; [|apply HQ, sends_refl].
  apply wp_bind, (wp_lift_ok _ rs); [by rewrite Hc|].
  unfold start_engine_timer. do 2 apply wp_bind. apply wp_get. rewrite Ht.
  destruct (Timers.svc_start _ _ _) as [tid t'].
  apply wp_bind, wp_modify, wp_ret, wp_modify, HQ. by apply sends_nil_intro.
Qed.

#[local] Hint Resolve silent_ret silent_bind silent_count silent_checkpoint_timer silent_report_timer : core.

Lemma is_red_data type : is_red type = true -> is_data type = true.
Proof. unfold is_red, is_data. lia. Qed.

Lemma wp_send_segment seg Q F e :
  content_fits seg = true ->
  (forall e', sends [SendSegment (wire seg)] e e' -> Q tt e') ->
  wp (send_segment seg) Q F e.
Proof.
  intros Hf HQ. unfold send_segment. apply wp_bind.
  match goal with |- wp ?m _ _ _ => assert (silent m) as Hm end.
  { unfold content_fits in Hf. destruct (is_red _) eqn:Hr.
    - apply is_red_data in Hr. apply silent_bind; [by apply silent_count|].
      destruct (has_checkpoint _); [|done]. apply silent_bind; [by apply silent_count|].
      destruct (content seg) eqn:Ec; [eauto|..].
      1-2: apply Z.eqb_eq in Hf; by rewrite Hf in Hr.
      by rewrite Hr in Hf.
    - destruct (is_green _) eqn:Hg; [by apply silent_count|].
      destruct (_ =? REPORT_SEGMENT) eqn:Hrep.
      + apply silent_bind; [by apply silent_count|]. apply Z.eqb_eq in Hrep.
        destruct (content seg) eqn:Ec; [by rewrite Hrep in Hf|eauto|by rewrite Hrep in Hf|].
        by rewrite Hrep in Hf.
      + repeat case_match; by try apply silent_count. }
  apply Hm. intros e1 He1. apply wp_bind, (wp_lift_ok _ (wire seg)); [by apply encode_fits|].
  apply wp_modify, HQ, (sends_trans [] [_] _ e1); [done|]. by split.
Qed.

Lemma wp_send_all segs Q F e :
  forallb content_fits segs = true ->
  (forall e', sends (SendSegment ∘ wire <$> segs) e e' -> Q tt e') ->
  wp (for_each send_segment segs) Q F e.
Proof.
  revert Q e. induction segs as [|seg segs IH]; intros Q e Hf HQ.
  - apply wp_ret, HQ, sends_refl.
  - simpl in Hf. apply andb_true_iff in Hf as [Hf1 Hf2]. cbn [for_each].
    apply wp_bind, wp_send_segment; [done|]. intros e1 He1. apply IH; [done|].
    intros e2 He2. apply HQ. by apply (sends_trans [_] _ _ e1).
Qed.

(** ** The operations on the session table, as changes *)

Lemma changes_eq n m c o n' m' c' o' e e' :
  changes n m c o e e' -> n' = n -> m' = m -> c' = c -> o' = o -> changes n' m' c' o' e e'.
Proof. by intros ? -> -> -> ->. Qed.

Lemma wp_set_counter n Q F e :
  (forall e', changes n (sessions e) (session_counters e) [] e e' -> Q tt e') -> wp (set_counter n) Q F e.
Proof. intros HQ. apply wp_modify, HQ. split; try done. by rewrite app_nil_r. Qed.

Lemma wp_set_sessions f Q F e :
  (forall e', changes (session_counter e) (f (sessions e)) (session_counters e) [] e e' -> Q tt e') ->
  wp (set_sessions f) Q F e.
Proof. intros HQ. apply wp_modify, HQ. split; try done. by rewrite app_nil_r. Qed.

Lemma wp_count k Q F e :
  (forall e', changes (session_counter e) (sessions e) (bump_session_counter k (session_counters e)) [] e e' ->
              Q tt e') -> wp (count k) Q F e.
Proof.
  intros HQ. apply wp_modify, HQ. split; try done; [apply session_counters_count|by rewrite app_nil_r].
Qed.

Lemma wp_emit x Q F e : (forall e', sends [x] e e' -> Q tt e') -> wp (emit x) Q F e.
Proof. intros HQ. by apply wp_modify, HQ. Qed.

Lemma wp_update key f s Q F e :
  sessions e !! key = Some s ->
  (forall e', changes (session_counter e) (<[key := f s]> (sessions e)) (session_counters e) [] e e' -> Q tt e') ->
  wp (assign key f) Q F e.
Proof. intros Hs HQ. apply (wp_assign _ _ s), HQ; [done|]. split; try done. by rewrite app_nil_r. Qed.

Lemma silent_set_timer_manager t : silent (set_timer_manager t).
Proof. intros Q F e HQ. apply wp_modify, HQ. by apply sends_nil_intro. Qed.

Lemma silent_cancel_timer timers setter tid :
  (forall f, silent (setter f)) -> silent (cancel_engine_timer timers setter tid).
Proof.
  intros Hset. unfold cancel_engine_timer. destruct (timers !! tid) as [id|]; [|apply silent_ret].
  intros Q F e HQ. apply wp_bind, wp_get.
  assert (silent (match timer_manager e with
                  | Some t => set_timer_manager (Timers.svc_cancel id t) | None => mret tt end)) as Hc.
  { destruct (timer_manager e); [apply silent_set_timer_manager|apply silent_ret]. }
  by apply (silent_bind _ _ Hc (Hset _)).
Qed.

Lemma silent_set_checkpoint_timers f : silent (set_checkpoint_timers f).
Proof. intros Q F e HQ. apply wp_modify, HQ. by apply sends_nil_intro. Qed.
Lemma silent_set_report_timers f : silent (set_report_timers f).
Proof. intros Q F e HQ. apply wp_modify, HQ. by apply sends_nil_intro. Qed.

End logic.

(** [chain] closes [changes n m c o e e'] from a chain of recorded changes, up
    to equations on tables that need more than congruence. *)
Ltac back :=
  repeat match goal with
  | E : session_counter ?e = _ |- context [session_counter ?e] => rewrite E
  | E : sessions ?e = _ |- context [sessions ?e] => rewrite E
  | E : session_counters ?e = _ |- context [session_counters ?e] => rewrite E
  end; try done.
Ltac chain :=
  unfold sends in *;
  repeat match goal with
  | H1 : changes _ _ _ _ ?e1 ?e2, H2 : changes _ _ _ _ ?e2 ?e3 |- _ =>
      pose proof (changes_trans _ _ _ _ _ _ _ _ _ _ _ H1 H2);
      pose proof (changes_counter _ _ _ _ _ _ H1); pose proof (changes_sessions _ _ _ _ _ _ H1);
      pose proof (changes_counters _ _ _ _ _ _ H1); clear H1 H2
  end;
  eapply changes_eq; [eassumption|cbn [app] in *; back..].

Section handlers.
Context {T : Type} `{TimerService T} `{Allocator}.
Implicit Types (e : LtpEngine (T := T)) (F : fault -> Prop).

(** ** Handlers *)

Lemma generated_report_fits n m a b c d rs :
  content_fits (plain_segment REPORT_SEGMENT n m (CReport (MkReport a b c d rs))) = true.
Proof. done. Qed.

Definition report_of (s : LtpSession) (checkpoint_serial upper_bound : Z) : LtpSegment :=
  plain_segment REPORT_SEGMENT (s_engine_id s) (s_session_number s)
    (CReport (MkReport (u64 (report_serial_counter s + 1)) checkpoint_serial upper_bound 0
                (reception_tracker s))).

Definition after_report (s : LtpSession) : LtpSession := set_report_counter (u64 (report_serial_counter s + 1)) s.

Lemma wp_generate_report key cs ub s Q F e :
  sessions e !! key = Some s ->
  (forall e', changes (session_counter e) (<[key := after_report s]> (sessions e)) (session_counters e)
                [SendSegment (wire (report_of s cs ub))] e e' -> Q tt e') ->
  wp (generate_report key cs ub) Q F e.
Proof.
  intros Hs HQ. unfold generate_report. apply wp_bind, (wp_deref _ s); [done|].
  apply wp_bind, (wp_update _ _ s); [done|]. intros e1 He1.
  apply wp_send_segment; [done|]. intros e2 He2. apply HQ. chain.
Qed.

(** A segment's arrival, as a function of the session. *)
Definition stored (type : Z) (ds : DataSegContent) (s : LtpSession) : outcome LtpSession :=
  let seg_end := u64 (ds_offset ds + ds_length ds) in
  data ← grow_to seg_end (client_data s);
  data ← (if 0 <? ds_length ds then store data (ds_offset ds) (ds_data ds) else Ok data);
  let s := set_tracker (add_range (ds_offset ds) (ds_length ds) (reception_tracker s)) (set_client_data data s) in
  Ok (if has_eob type then set_total seg_end s else s).

Lemma wp_store_segment key type ds s Q F e :
  sessions e !! key = Some s ->
  match stored type ds s with
  | Ok s' => forall e', changes (session_counter e) (<[key := s']> (sessions e)) (session_counters e) [] e e' -> Q tt e'
  | Err f => F f
  end ->
  wp (store_segment key type ds) Q F e.
Proof.
  intros Hs HQ. unfold store_segment, stored in *. apply wp_bind, (wp_deref _ s); [done|].
  apply wp_bind, wp_lift. destruct (grow_to _ _) as [data|]; [|done].
  apply wp_bind, wp_lift. rewrite bind_Ok in HQ.
  destruct (if 0 <? ds_length ds then _ else _) as [data'|]; [|done]. rewrite bind_Ok in HQ.
  apply wp_bind, (wp_update _ _ s); [done|]. intros e1 He1.
  apply wp_bind, (wp_update _ _ (set_client_data data' s)).
  { rewrite (changes_sessions _ _ _ _ _ _ He1). apply lookup_insert_eq. }
  intros e2 He2. destruct (has_eob type).
  - eapply (wp_update _ _ (set_tracker _ (set_client_data data' s))).
    { rewrite (changes_sessions _ _ _ _ _ _ He2). apply lookup_insert_eq. }
    intros e3 He3. apply HQ. chain. by rewrite !insert_insert_eq.
  - apply wp_ret, HQ. chain. by rewrite insert_insert_eq.
Qed.

(** The delivery of a completed session is the last thing that happens to it. *)
Lemma wp_complete_receiver key s Q F e :
  sessions e !! key = Some s ->
  match range (client_data s) 0 (total_data_length s) with
  | Ok d => forall e', changes (session_counter e) (delete key (sessions e))
              (bump_session_counter SessionsCompleted (session_counters e)) [DataArrival d] e e' -> Q tt e'
  | Err f => F f
  end ->
  wp (complete_receiver key) Q F e.
Proof.
  intros Hs HQ. unfold complete_receiver. apply wp_bind, (wp_update _ _ s); [done|]. intros e1 He1.
  apply wp_bind, wp_count. intros e2 He2. apply wp_bind, (wp_deref _ (set_state COMPLETED s)).
  { rewrite (changes_sessions _ _ _ _ _ _ He2), (changes_sessions _ _ _ _ _ _ He1). apply lookup_insert_eq. }
  apply wp_bind, wp_lift. cbn [client_data total_data_length set_state].
  destruct (range _ _ _) as [d|]; [|done]. apply wp_bind, wp_emit. intros e3 He3.
  apply wp_set_sessions. intros e4 He4. apply HQ. chain. by rewrite delete_insert_eq.
Qed.

(** [put key o m]: the session at [key] becomes [o]. *)
Definition put (key : SessionKey) (o : option LtpSession) (m : gmap SessionKey LtpSession) :
    gmap SessionKey LtpSession :=
  match o with Some s => <[key := s]> m | None => delete key m end.

(** What the arrival of a data segment makes of an active session, and what is
    output: the report of a checkpoint, the delivery of a finished green block. *)
Definition arrival (type : Z) (ds : DataSegContent) (s : LtpSession) :
    outcome (option LtpSession * list output) :=
  s ← stored type ds s;
  let '(s, out) :=
    match ds_checkpoint_serial ds with
    | Some serial =>
        if has_checkpoint type then
          (after_report s, [SendSegment (wire (report_of s serial (u64 (ds_offset ds + ds_length ds))))])
        else (s, [])
    | None => (s, [])
    end in
  if is_green type && has_eob type then
    d ← range (client_data s) 0 (total_data_length s);
    Ok (None, out ++ [DataArrival d])
  else Ok (Some s, out).

(** The counters after a session was removed or kept. *)
Definition completed (o : option LtpSession) (c : Z * Z * Z * Z) : Z * Z * Z * Z :=
  match o with None => bump_session_counter SessionsCompleted c | Some _ => c end.

Lemma wp_receive_in_session key type ds s Q F e :
  sessions e !! key = Some s -> s_state s = ACTIVE ->
  match arrival type ds s with
  | Ok (o, out) => forall e', changes (session_counter e) (put key o (sessions e))
                     (completed o (session_counters e)) out e e' -> Q tt e'
  | Err f => F f
  end ->
  wp (receive_in_session key type ds) Q F e.
Proof.
  intros Hs Ha HQ. unfold receive_in_session, arrival in *.
  apply wp_bind, (wp_deref _ s); [done|]. rewrite Ha, bool_decide_eq_true_2 by done. cbn [negb].
  apply wp_bind, silent_count; [by destruct (is_red type)|]. intros e1 He1.
  assert (sessions e1 !! key = Some s) as Hs1 by (by rewrite (changes_sessions _ _ _ _ _ _ He1)).
  apply wp_bind, (wp_store_segment _ _ _ s); [done|].
  destruct (stored type ds s) as [s1|]; [|done]. intros e2 He2. rewrite bind_Ok in HQ.
  assert (sessions e2 !! key = Some s1) as Hs2.
  { rewrite (changes_sessions _ _ _ _ _ _ He2). apply lookup_insert_eq. }
  set (P := match ds_checkpoint_serial ds with
            | Some serial => if has_checkpoint type then _ else _ | None => _ end) in HQ.
  assert (forall Q', (forall e', changes (session_counter e2) (<[key := P.1]> (sessions e2)) (session_counters e2)
                              P.2 e2 e' -> Q' tt e') ->
    wp (match ds_checkpoint_serial ds with
        | Some serial => if has_checkpoint type
            then generate_report key serial (u64 (ds_offset ds + ds_length ds)) else mret tt
        | None => mret tt end) Q' F e2) as Hrep.
  { intros Q' HQ'. subst P.
    assert (changes (session_counter e2) (<[key := s1]> (sessions e2)) (session_counters e2) [] e2 e2) as Hnone.
    { eapply changes_eq; [apply sends_refl|done|by rewrite insert_id|done|done]. }
    destruct (ds_checkpoint_serial ds) as [serial|]; [|by apply wp_ret, HQ'].
    destruct (has_checkpoint type); [|by apply wp_ret, HQ'].
    by apply (wp_generate_report _ _ _ s1). }
  apply wp_bind, Hrep. intros e3 He3. destruct P as [s2 out]. cbn [fst snd] in *.
  assert (sessions e3 !! key = Some s2) as Hs3.
  { rewrite (changes_sessions _ _ _ _ _ _ He3). apply lookup_insert_eq. }
  destruct (is_green type && has_eob type).
  - apply (wp_complete_receiver _ s2); [done|]. destruct (range _ _ _) as [d|]; [|done].
    intros e4 He4. apply HQ. chain. by rewrite !delete_insert_eq.
  - apply wp_ret, HQ. chain. by rewrite insert_insert_eq.
Qed.

Definition new_receiver (engine session type : Z) : LtpSession :=
  MkSession engine session RECEIVER ACTIVE [] 0 (is_red type) [] 0 0 0.

(** A data segment belongs to the session of its key, created if there is room. *)
Lemma wp_receive_data seg ds Q F e :
  content seg = CData ds ->
  let key := (engine_id seg, session_number seg) in
  (forall s, sessions e !! key = Some s -> s_state s = ACTIVE) ->
  match sessions e !! key with
  | None => if max_concurrent_sessions (config e) <=? Z.of_nat (size (sessions e)) then Q tt e
      else match arrival (segment_type seg) ds (new_receiver (engine_id seg) (session_number seg) (segment_type seg)) with
           | Ok (o, out) => forall e', changes (session_counter e) (put key o (sessions e))
               (completed o (bump_session_counter SessionsReceived (session_counters e))) out e e' -> Q tt e'
           | Err f => F f
           end
  | Some s =>
      match arrival (segment_type seg) ds s with
      | Ok (o, out) => forall e', changes (session_counter e) (put key o (sessions e))
                         (completed o (session_counters e)) out e e' -> Q tt e'
      | Err f => F f
      end
  end ->
  wp (receive_data_segment seg) Q F e.
Proof.
  intros Hc key Hact HQ. unfold receive_data_segment. apply wp_bind, (wp_lift_ok _ ds); [by rewrite Hc|].
  apply wp_bind, wp_get. fold key. destruct (sessions e !! key) as [s|] eqn:Hs.
  - by apply (wp_receive_in_session _ _ _ s); [|apply Hact|].
  - destruct (_ <=? _); [by apply wp_ret|]. apply wp_bind, wp_set_sessions. rewrite Hs. intros e1 He1.
    apply wp_bind, wp_count. intros e2 He2.
    apply (wp_receive_in_session _ _ _ (new_receiver (engine_id seg) (session_number seg) (segment_type seg))); [|done|].
    { rewrite (changes_sessions _ _ _ _ _ _ He2), (changes_sessions _ _ _ _ _ _ He1). apply lookup_insert_eq. }
    destruct (arrival _ _ _) as [[o out]|]; [|done]. intros e3 He3. apply HQ. chain.
    destruct o; cbn [put]; [by rewrite insert_insert_eq|]. by rewrite delete_insert_eq.
Qed.

Lemma wp_segment_data key s Q F e :
  sessions e !! key = Some s ->
  match segment_data_impl s (max_segment_size (config e)) (checkpoint_serial_counter s) with
  | Ok (segs, cp) => forall e', changes (session_counter e) (<[key := set_checkpoint_counter cp s]> (sessions e))
                       (session_counters e) [] e e' -> Q segs e'
  | Err f => F f
  end ->
  wp (segment_data key) Q F e.
Proof.
  intros Hs HQ. unfold segment_data. apply wp_bind, wp_get, wp_bind, (wp_deref _ s); [done|].
  apply wp_bind, wp_lift. destruct (segment_data_impl _ _ _) as [[segs cp]|]; [|done].
  apply wp_bind, (wp_update _ _ s); [done|]. intros e1 He1. by apply wp_ret, HQ.
Qed.

(** ** The segments the engine builds can be encoded *)

Lemma segment_loop_fits fuel s max off n cp acc segs cp' :
  segment_loop fuel s max off n cp acc = Ok (segs, cp') ->
  forallb content_fits acc = true -> forallb content_fits segs = true.
Proof.
  revert off n cp acc. induction fuel as [|fuel IH]; intros off n cp acc Hl Ha; cbn [segment_loop] in Hl.
  - destruct (0 <? n); [done|]. by simplify_eq.
  - destruct (0 <? n); [|by simplify_eq]. apply bind_ok in Hl as (bs & _ & Hl).
    destruct (s_is_red s); [destruct (_ =? n)|]; apply IH in Hl; rewrite ?forallb_app, ?Ha; try done.
    by destruct (_ =? n).
Qed.

Lemma segment_data_fits s max cp segs cp' :
  segment_data_impl s max cp = Ok (segs, cp') -> forallb content_fits segs = true.
Proof.
  unfold segment_data_impl. intros Hl. destruct (client_data s).
  - destruct (s_is_red s); by simplify_eq.
  - by eapply segment_loop_fits.
Qed.

Lemma gap_loop_fits fuel s max off n acc segs :
  gap_loop fuel s max off n acc = Ok segs ->
  forallb content_fits acc = true -> forallb content_fits segs = true.
Proof.
  revert off n acc. induction fuel as [|fuel IH]; intros off n acc Hl Ha; cbn [gap_loop] in Hl.
  - destruct (0 <? n); [done|]. by simplify_eq.
  - destruct (0 <? n); [|by simplify_eq]. apply bind_ok in Hl as (bs & _ & Hl).
    apply IH in Hl; rewrite ?forallb_app, ?Ha; done.
Qed.

Lemma gaps_segments_fits s max gaps acc segs :
  gaps_segments s max gaps acc = Ok segs ->
  forallb content_fits acc = true -> forallb content_fits segs = true.
Proof.
  revert acc. induction gaps as [|g gaps IH]; intros acc Hl Ha; cbn [gaps_segments] in Hl; [by simplify_eq|].
  apply bind_ok in Hl as (segs1 & H1 & Hl). eapply IH; [exact Hl|]. by eapply gap_loop_fits.
Qed.

Lemma mark_last_fits serial segs segs' :
  mark_last serial segs = Ok segs' -> forallb content_fits segs = true -> forallb content_fits segs' = true.
Proof.
  revert segs'. induction segs as [|seg segs IH]; intros segs' Hm Hf; [by simplify_eq/=|].
  cbn [forallb] in Hf. apply andb_true_iff in Hf as [Hf1 Hf2]. cbn [mark_last] in Hm. destruct segs as [|seg2 segs].
  - apply bind_ok in Hm as (ds & _ & Hm). by simplify_eq.
  - apply bind_ok in Hm as (rest & Hr & Hm). simplify_eq. cbn [forallb]. by rewrite Hf1, (IH _ Hr Hf2).
Qed.

(** Sending a list of segments the engine built. *)
Definition sending (segs : list LtpSegment) : list output := SendSegment ∘ wire <$> segs.

Definition new_originator (local sn : Z) (data : list Z) (reliable : bool) : LtpSession :=
  MkSession local sn ORIGINATOR ACTIVE data (zlen data) reliable [] 0 0 0.

(** A new session gets the next number; a green one is over once sent. *)
Lemma wp_start_session data reliable Q F e :
  let sn := u64 (session_counter e + 1) in
  let key := (local_engine_id (config e), sn) in
  let s := new_originator (local_engine_id (config e)) sn data reliable in
  sessions e !! key = None ->
  (if max_concurrent_sessions (config e) <=? Z.of_nat (size (sessions e)) then Q 0 e
   else match segment_data_impl s (max_segment_size (config e)) 0 with
        | Ok (segs, cp) =>
            forall e', changes sn (put key (if reliable then Some (set_checkpoint_counter cp s) else None) (sessions e))
                        (let c := bump_session_counter SessionsOriginated (session_counters e) in
                         if reliable then c else bump_session_counter SessionsCompleted c)
                        (sending segs) e e' -> Q sn e'
        | Err f => F f
        end) ->
  wp (start_session data reliable) Q F e.
Proof.
  intros sn key s Hfresh HQ. unfold start_session. apply wp_bind, wp_get.
  destruct (_ <=? _); [by apply wp_ret|]. fold sn key.
  apply wp_bind, wp_set_counter. intros e1 He1.
  apply wp_bind, wp_set_sessions. rewrite (changes_sessions _ _ _ _ _ _ He1), Hfresh. intros e2 He2.
  apply wp_bind, wp_count. intros e3 He3.
  assert (sessions e3 !! key = Some s) as Hs3.
  { rewrite (changes_sessions _ _ _ _ _ _ He3), (changes_sessions _ _ _ _ _ _ He2). apply lookup_insert_eq. }
  apply wp_bind, (wp_segment_data _ s); [done|].
  rewrite (changes_config _ _ _ _ _ _ He3), (changes_config _ _ _ _ _ _ He2), (changes_config _ _ _ _ _ _ He1).
  change (checkpoint_serial_counter s) with 0.
  destruct (segment_data_impl _ _ _) as [[segs cp]|] eqn:Hseg; [|done]. intros e4 He4.
  apply wp_bind, wp_send_all; [by eapply segment_data_fits|]. intros e5 He5. apply wp_bind. destruct reliable; cbn [negb].
  - apply wp_ret, wp_ret, HQ. chain. cbn [put]. by rewrite insert_insert_eq.
  - apply wp_bind, wp_set_sessions. intros e6 He6. apply wp_count. intros e7 He7.
    apply wp_ret, HQ. chain; [|by rewrite app_nil_r]. cbn [put]. by rewrite !delete_insert_eq.
Qed.

(** ** Cancellation *)

Definition cancel_segment (engine session reason : Z) (s : LtpSession) : LtpSegment :=
  plain_segment (if decide (s_role s = ORIGINATOR) then CANCEL_BY_SENDER else CANCEL_BY_RECEIVER)
    engine session (CCancel (MkCancel reason)).

Lemma wp_cancel_session engine session reason Q F e :
  match sessions e !! (engine, session) with
  | None => Q tt e
  | Some s =>
      forall e', changes (session_counter e) (delete (engine, session) (sessions e))
        (bump_session_counter SessionsCancelled (session_counters e))
        [SendSegment (wire (cancel_segment engine session reason s)); SessionFailure session reason] e e' -> Q tt e'
  end ->
  wp (cancel_session engine session reason) Q F e.
Proof.
  intros HQ. unfold cancel_session. apply wp_bind, wp_get.
  destruct (sessions e !! _) as [s|] eqn:Hs; [|by apply wp_ret].
  apply wp_bind, wp_send_segment. { unfold content_fits. simpl. by case_decide. }
  intros e1 He1. apply wp_bind, (wp_update _ _ s); [by rewrite (changes_sessions _ _ _ _ _ _ He1)|].
  intros e2 He2. apply wp_bind, wp_count. intros e3 He3. apply wp_bind, wp_emit. intros e4 He4.
  apply wp_set_sessions. intros e5 He5. apply HQ. chain. by rewrite delete_insert_eq.
Qed.

Definition cancel_ack (seg : LtpSegment) : LtpSegment :=
  plain_segment (if segment_type seg =? CANCEL_BY_SENDER then CANCEL_ACK_TO_SENDER else CANCEL_ACK_TO_RECEIVER)
    (engine_id seg) (session_number seg) (CCancel (MkCancel 0)).

(** A cancel is acknowledged whether or not it names a session. *)
Lemma wp_receive_cancel seg cc Q F e :
  content seg = CCancel cc ->
  let key := (engine_id seg, session_number seg) in
  (forall e', changes (session_counter e) (delete key (sessions e))
     (match sessions e !! key with
      | Some _ => bump_session_counter SessionsCancelled (session_counters e)
      | None => session_counters e end)
     (SendSegment (wire (cancel_ack seg)) ::
      match sessions e !! key with Some s => [SessionFailure (s_session_number s) (cc_reason_code cc)] | None => [] end)
     e e' -> Q tt e') ->
  wp (receive_cancel_segment seg) Q F e.
Proof.
  intros Hc key HQ. unfold receive_cancel_segment. apply wp_bind, silent_count; [done|]. intros e1 He1.
  apply wp_bind, (wp_lift_ok _ cc); [by rewrite Hc|]. apply wp_bind, wp_send_segment.
  { unfold content_fits. simpl. by destruct (_ =? _). }
  intros e2 He2. apply wp_bind, wp_get.
  rewrite (changes_sessions _ _ _ _ _ _ He2), (changes_sessions _ _ _ _ _ _ He1). fold key.
  destruct (sessions e !! key) as [s|] eqn:Hs.
  - apply wp_bind, (wp_update _ _ s).
    { by rewrite (changes_sessions _ _ _ _ _ _ He2), (changes_sessions _ _ _ _ _ _ He1). }
    intros e3 He3. apply wp_bind, wp_count. intros e4 He4. apply wp_bind, wp_emit. intros e5 He5.
    apply wp_set_sessions. intros e6 He6. apply HQ. chain. by rewrite delete_insert_eq.
  - apply wp_ret, HQ. chain. by rewrite delete_id.
Qed.

Lemma wp_receive_cancel_ack seg Q F e :
  (forall s, sessions e !! (engine_id seg, session_number seg) = Some s -> s_state s = ACTIVE) ->
  Q tt e -> wp (receive_cancel_ack seg) Q F e.
Proof.
  intros Hact HQ. unfold receive_cancel_ack. apply wp_bind, wp_get.
  destruct (sessions e !! _) as [s|] eqn:Hs; [|done]. rewrite (Hact s) by done. by apply wp_ret.
Qed.

(** ** Reports and timers *)

Lemma wp_count_retransmission key s Q F e :
  sessions e !! key = Some s ->
  let s' := set_retransmissions (u8 (retransmission_count s + 1)) s in
  (forall e', changes (session_counter e) (<[key := s']> (sessions e)) (session_counters e) [] e e' ->
     Q (max_retransmissions (config e) <? retransmission_count s') e') ->
  wp (count_retransmission key) Q F e.
Proof.
  intros Hs s' HQ. unfold count_retransmission. apply wp_bind, (wp_update _ _ s); [done|]. intros e1 He1.
  apply wp_bind, (wp_deref _ s'); [rewrite (changes_sessions _ _ _ _ _ _ He1); apply lookup_insert_eq|].
  apply wp_bind, wp_get, wp_ret. rewrite (changes_config _ _ _ _ _ _ He1). by apply HQ.
Qed.

(** What the engine makes of an originator session, what is output, and the
    counter of ended sessions that is bumped. *)
Definition verdict : Type := option LtpSession * list output * option counter.

Definition abandon (s : LtpSession) : verdict :=
  (None, [SendSegment (wire (cancel_segment (s_engine_id s) (s_session_number s) 1 s));
          SessionFailure (s_session_number s) 1], Some SessionsCancelled).

(** Selective retransmission of [gaps]. *)
Definition resend (max_seg : Z) (gaps : list ReceptionClaim) (s : LtpSession) : outcome verdict :=
  let serial := u64 (checkpoint_serial_counter s + 1) in
  segs ← (segs ← gaps_segments s max_seg gaps []; mark_last serial segs);
  Ok (Some (match segs with [] => s | _ => set_checkpoint_counter serial s end), sending segs, None).

(** Retransmission of the whole block. *)
Definition resend_all (max_seg : Z) (s : LtpSession) : outcome verdict :=
  r ← segment_data_impl s max_seg (checkpoint_serial_counter s);
  Ok (Some (set_checkpoint_counter (snd r) s), sending (fst r), None).

(** One more retransmission [f], or the end of the session. *)
Definition retry (cfg : LtpEngineConfig) (f : LtpSession -> outcome verdict) (s : LtpSession) : outcome verdict :=
  let s' := set_retransmissions (u8 (retransmission_count s + 1)) s in
  if max_retransmissions cfg <? retransmission_count s' then Ok (abandon s') else f s'.

Definition on_report (cfg : LtpEngineConfig) (rs : ReportSegContent) (s : LtpSession) : outcome verdict :=
  if fully_received s (rs_claims rs)
  then Ok (None, [SessionComplete (s_session_number s)], Some SessionsCompleted)
  else match compute_gaps (rs_claims rs) (rs_lower_bound rs) (rs_upper_bound rs) with
       | [] => Ok (Some s, [], None)
       | gaps => retry cfg (resend (max_segment_size cfg) gaps) s
       end.

(** The session table records its sessions under their own key, all active. *)
Definition keyed (e : LtpEngine (T := T)) : Prop :=
  map_Forall (fun key s => key = (s_engine_id s, s_session_number s) /\ s_state s = ACTIVE) (sessions e).

(** The verdict [v] on the session at [key], with [before] output first. *)
Definition decided (key : SessionKey) (before : list output) (v : verdict) (e e' : LtpEngine (T := T)) : Prop :=
  let '(o, out, k) := v in
  changes (session_counter e) (put key o (sessions e))
    (match k with Some k => bump_session_counter k (session_counters e) | None => session_counters e end)
    (before ++ out) e e'.

Lemma wp_abandon key s Q F e0 e :
  key = (s_engine_id s, s_session_number s) ->
  changes (session_counter e0) (<[key := s]> (sessions e0)) (session_counters e0) [] e0 e ->
  (forall e', decided key [] (abandon s) e0 e' -> Q tt e') ->
  wp (cancel_session (s_engine_id s) (s_session_number s) 1) Q F e.
Proof.
  intros Hk He HQ. apply wp_cancel_session. rewrite (changes_sessions _ _ _ _ _ _ He), <- Hk, lookup_insert_eq.
  intros e' He'. apply HQ. unfold decided, abandon. chain. cbn [put]. by rewrite delete_insert_eq.
Qed.

Lemma wp_retransmit_gaps key gaps s Q F e0 e :
  changes (session_counter e0) (<[key := s]> (sessions e0)) (session_counters e0) [] e0 e ->
  match resend (max_segment_size (config e0)) gaps s with
  | Ok v => forall e', decided key [] v e0 e' -> Q tt e'
  | Err f => F f
  end ->
  wp (retransmit_gaps key gaps) Q F e.
Proof.
  intros He HQ. unfold retransmit_gaps, resend in *. apply wp_bind, wp_get.
  assert (sessions e !! key = Some s) as Hs by (rewrite (changes_sessions _ _ _ _ _ _ He); apply lookup_insert_eq).
  apply wp_bind, (wp_deref _ s); [done|]. rewrite (changes_config _ _ _ _ _ _ He).
  apply wp_bind, wp_lift. destruct (gaps_segments _ _ _ _) as [segs|] eqn:Hg; [|done]. rewrite bind_Ok in HQ.
  pose proof (gaps_segments_fits _ _ _ _ _ Hg eq_refl) as Hfit.
  destruct segs as [|seg segs].
  { apply wp_ret. cbn in HQ. apply HQ. by chain. }
  apply wp_bind, (wp_update _ _ s); [done|]. intros e1 He1. apply wp_bind, wp_lift.
  destruct (mark_last _ _) as [segs'|] eqn:Hm; [|done]. rewrite bind_Ok in HQ.
  apply wp_send_all; [by eapply mark_last_fits|]. intros e2 He2. apply HQ. unfold decided. chain.
  destruct segs' as [|? ?].
  { destruct segs; cbn in Hm; [|by apply bind_ok in Hm as (? & _ & ?)].
    by apply bind_ok in Hm as (? & _ & ?). }
  cbn [put]. by rewrite insert_insert_eq.
Qed.

(** Retrying with [m], which does [f]. *)
Lemma wp_retry key s m f Q F e0 e :
  key = (s_engine_id s, s_session_number s) ->
  sends [] e0 e -> sessions e0 !! key = Some s ->
  (forall s' e2, changes (session_counter e0) (<[key := s']> (sessions e0)) (session_counters e0) [] e0 e2 ->
     key = (s_engine_id s', s_session_number s') ->
     match f s' with Ok v => forall e', decided key [] v e0 e' -> Q tt e' | Err x => F x end -> wp m Q F e2) ->
  match retry (config e0) f s with Ok v => forall e', decided key [] v e0 e' -> Q tt e' | Err x => F x end ->
  wp (exhausted ← count_retransmission key;
      if exhausted : bool then cancel_session (s_engine_id s) (s_session_number s) 1 else m) Q F e.
Proof.
  intros Hk He Hs Hm HQ. unfold retry in HQ. apply wp_bind, (wp_count_retransmission _ s).
  { by rewrite (changes_sessions _ _ _ _ _ _ He). }
  intros e1 He1. rewrite (changes_config _ _ _ _ _ _ He).
  set (s' := set_retransmissions _ s) in *.
  assert (changes (session_counter e0) (<[key := s']> (sessions e0)) (session_counters e0) [] e0 e1) as Hc by chain.
  destruct (max_retransmissions (config e0) <? retransmission_count s').
  - change (s_engine_id s) with (s_engine_id s'). change (s_session_number s) with (s_session_number s').
    by apply (wp_abandon key s' _ _ e0).
  - by apply (Hm s').
Qed.

Lemma decided_after_sends key out v e e1 e2 :
  sends out e e1 -> decided key [] v e1 e2 -> decided key out v e e2.
Proof.
  intros H1 H2. destruct v as [[o out'] k]. unfold decided in *. cbn [app] in H2. chain.
Qed.

Definition report_ack (seg : LtpSegment) (rs : ReportSegContent) : LtpSegment :=
  plain_segment REPORT_ACK (engine_id seg) (session_number seg) (CRptAck (MkRptAck (rs_report_serial rs))).

(** A report is acknowledged unless it names a receiver session; then the
    originator session is decided upon. *)
Lemma wp_receive_report seg rs Q F e :
  content seg = CReport rs -> keyed e ->
  let key := (local_engine_id (config e), session_number seg) in
  let ack := SendSegment (wire (report_ack seg rs)) in
  match sessions e !! key with
  | None => forall e', sends [ack] e e' -> Q tt e'
  | Some s =>
      if decide (s_role s = ORIGINATOR) then
        match on_report (config e) rs s with
        | Ok v => forall e', decided key [ack] v e e' -> Q tt e'
        | Err f => F f
        end
      else forall e', sends [] e e' -> Q tt e'
  end ->
  wp (receive_report_segment seg) Q F e.
Proof.
  intros Hc Hkeyed key ack HQ. unfold receive_report_segment. apply wp_bind, silent_count; [done|]. intros e1 He1.
  apply wp_bind, (wp_lift_ok _ rs); [by rewrite Hc|]. apply wp_bind, wp_get.
  rewrite (changes_config _ _ _ _ _ _ He1), (changes_sessions _ _ _ _ _ _ He1). fold key.
  destruct (sessions e !! key) as [s|] eqn:Hs.
  2:{ apply wp_send_segment; [done|]. intros e2 He2. apply HQ. by apply (sends_trans [] [_] _ e1). }
  destruct (Hkeyed _ _ Hs) as [Hk Hact]. rewrite Hact, (bool_decide_eq_true_2 (ACTIVE = ACTIVE)) by done.
  destruct (decide (s_role s = ORIGINATOR)) as [Hr|Hr].
  2:{ rewrite bool_decide_eq_false_2 by done. by apply wp_ret, HQ. }
  rewrite bool_decide_eq_true_2 by done. cbn [negb].
  apply wp_bind, wp_send_segment; [done|]. intros e2 He2.
  apply wp_bind, wp_get, wp_bind, silent_cancel_timer; [apply silent_set_checkpoint_timers|].
  intros e3 He3. assert (sends [ack] e e3) as Hall.
  { apply (sends_trans [] [ack] _ e1); [done|]. by apply (sends_trans [ack] [] _ e2). }
  clear He1 He2 He3. assert (sessions e3 !! key = Some s) as Hs3 by (by rewrite (changes_sessions _ _ _ _ _ _ Hall)).
  unfold on_report in HQ. rewrite <- (changes_config _ _ _ _ _ _ Hall) in HQ.
  destruct (fully_received s (rs_claims rs)).
  { apply wp_bind, (wp_update _ _ s); [done|]. intros e4 He4. apply wp_bind, wp_count. intros e5 He5.
    apply wp_bind, wp_emit. intros e6 He6. apply wp_set_sessions. intros e7 He7. apply HQ.
    eapply decided_after_sends; [exact Hall|]. clear Hall. unfold decided. chain. cbn [put]. by rewrite delete_insert_eq. }
  destruct (compute_gaps _ _ _) as [|g gaps].
  { apply wp_ret, HQ. eapply decided_after_sends; [exact Hall|].
    eapply changes_eq; [apply sends_refl|done|by apply insert_id|done|done]. }
  eapply (wp_retry key s _ (resend (max_segment_size (config e3)) (g :: gaps)) _ _ e3);
    [done|apply sends_refl|done| |].
  - intros s' e4 He4 Hk' Hres. apply wp_bind, silent_count; [done|]. intros e5 He5.
    apply (wp_retransmit_gaps _ _ s' _ _ e3); [clear Hall; chain|done].
  - destruct (retry _ _ _) as [v|]; [|done]. intros e' He'. apply HQ. by eapply decided_after_sends.
Qed.

(** A checkpoint timer retries the whole block; a report timer repeats the
    report of an unfinished receiver session. *)
Lemma wp_handle_timer_expiry ev Q F e :
  keyed e ->
  match evt_type ev with
  | Timers.CHECKPOINT =>
      let key := (local_engine_id (config e), evt_session_number ev) in
      match sessions e !! key with
      | Some s =>
          if decide (s_role s = ORIGINATOR) then
            match retry (config e) (resend_all (max_segment_size (config e))) s with
            | Ok v => forall e', decided key [] v e e' -> Q tt e'
            | Err f => F f
            end
          else Q tt e
      | None => Q tt e
      end
  | Timers.REPORT_SEGMENT =>
      let key := (evt_engine_id ev, evt_session_number ev) in
      match sessions e !! key with
      | Some s =>
          if decide (s_role s = RECEIVER) then
            if 0 <? total_data_length s then
              forall e', changes (session_counter e) (<[key := after_report s]> (sessions e)) (session_counters e)
                [SendSegment (wire (report_of s (evt_serial_number ev) (total_data_length s)))] e e' -> Q tt e'
            else forall e', sends [] e e' -> Q tt e'
          else Q tt e
      | None => Q tt e
      end
  | Timers.CANCEL_SEGMENT => Q tt e
  end ->
  wp (handle_timer_expiry ev) Q F e.
Proof.
  intros Hkeyed HQ. unfold handle_timer_expiry. apply wp_bind, wp_get. destruct (evt_type ev).
  - cbv zeta in HQ. set (key := (_, evt_session_number ev)) in *.
    destruct (sessions e !! key) as [s|] eqn:Hs; [|by apply wp_ret].
    destruct (Hkeyed _ _ Hs) as [Hk Hact]. rewrite Hact, (bool_decide_eq_true_2 (ACTIVE = ACTIVE)) by done.
    destruct (decide (s_role s = ORIGINATOR)) as [Hr|Hr].
    2:{ rewrite bool_decide_eq_false_2 by done. by apply wp_ret. }
    rewrite bool_decide_eq_true_2 by done. cbn [negb].
    eapply (wp_retry key s _ _ _ _ e); [done|apply sends_refl|done| |exact HQ].
    intros s' e2 He2 Hk' Hres. apply wp_bind, silent_count; [done|]. intros e3 He3.
    apply wp_bind, (wp_segment_data _ s').
    { rewrite (changes_sessions _ _ _ _ _ _ He3), (changes_sessions _ _ _ _ _ _ He2). apply lookup_insert_eq. }
    rewrite (changes_config _ _ _ _ _ _ He3), (changes_config _ _ _ _ _ _ He2). unfold resend_all in Hres.
    destruct (segment_data_impl _ _ _) as [[segs cp]|] eqn:Hseg; [|done]. intros e4 He4.
    apply wp_send_all; [by eapply segment_data_fits|]. intros e5 He5. apply Hres. unfold decided. chain.
    cbn [put]. by rewrite insert_insert_eq.
  - cbv zeta in HQ. set (key := (_, evt_session_number ev)) in *.
    destruct (sessions e !! key) as [s|] eqn:Hs; [|by apply wp_ret].
    destruct (Hkeyed _ _ Hs) as [Hk Hact]. rewrite Hact, (bool_decide_eq_true_2 (ACTIVE = ACTIVE)) by done.
    destruct (decide (s_role s = RECEIVER)) as [Hr|Hr].
    2:{ rewrite bool_decide_eq_false_2 by done. by apply wp_ret. }
    rewrite bool_decide_eq_true_2 by done. cbn [negb].
    apply wp_bind, silent_count; [done|]. intros e1 He1. destruct (0 <? total_data_length s).
    + apply (wp_generate_report _ _ _ s); [by rewrite (changes_sessions _ _ _ _ _ _ He1)|].
      intros e2 He2. apply HQ. chain.
    + by apply wp_ret, HQ.
  - by apply wp_ret.
Qed.

(** A report acknowledgement ends a receiver session that has everything. *)
Lemma wp_receive_report_ack seg ra Q F e :
  content seg = CRptAck ra ->
  let key := (engine_id seg, session_number seg) in
  match sessions e !! key with
  | Some s =>
      if decide (s_role s = RECEIVER) then
        if is_complete (total_data_length s) (reception_tracker s) then
          match range (client_data s) 0 (total_data_length s) with
          | Ok d => forall e', changes (session_counter e) (delete key (sessions e))
              (bump_session_counter SessionsCompleted (session_counters e)) [DataArrival d] e e' -> Q tt e'
          | Err f => F f
          end
        else forall e', sends [] e e' -> Q tt e'
      else forall e', sends [] e e' -> Q tt e'
  | None => forall e', sends [] e e' -> Q tt e'
  end ->
  wp (receive_report_ack seg) Q F e.
Proof.
  intros Hc key HQ. unfold receive_report_ack. apply wp_bind, silent_count; [done|]. intros e1 He1.
  apply wp_bind, (wp_lift_ok _ ra); [by rewrite Hc|]. apply wp_bind, wp_get.
  rewrite (changes_sessions _ _ _ _ _ _ He1). fold key.
  destruct (sessions e !! key) as [s|] eqn:Hs; [|by apply wp_ret, HQ].
  destruct (decide (s_role s = RECEIVER)) as [Hr|Hr].
  2:{ rewrite bool_decide_eq_false_2 by done. by apply wp_ret, HQ. }
  rewrite bool_decide_eq_true_2 by done. cbn [negb].
  apply wp_bind, silent_cancel_timer; [apply silent_set_report_timers|]. intros e2 He2.
  destruct (is_complete _ _).
  - apply (wp_complete_receiver _ s).
    { by rewrite (changes_sessions _ _ _ _ _ _ He2), (changes_sessions _ _ _ _ _ _ He1). }
    destruct (range _ _ _) as [d|]; [|done]. intros e3 He3. apply HQ. chain.
  - apply wp_ret, HQ. by apply (sends_trans [] [] _ e1).
Qed.
End handlers.
End EngineLogic.
