(* ===== verification/Segmentation.v ===== *)
(** * Cutting a block into segments, and what a report leaves to resend
    (src/ltp_cla/ltp_engine.cpp, [segment_data_impl], [compute_gaps] and
    [retransmit_gaps])

    Both segmentation loops produce the same thing, consecutive pieces of the
    block no longer than [max_seg]: the loops are related to a list of pieces
    once, and the theorems are about the pieces. *)
From S2P Require Import Prelude Sdnv Segment Tracker Timers Engine EngineLogic.
Import SegType Segment Engine.
Import Tracker(get_gaps, covers, normal, size).

Module Segmentation.

(** ** Pieces: an offset and the bytes of the block found there *)

Abbreviation piece := (Z * list Z)%type.

Definition slice (block : list Z) (off n : Z) : list Z :=
  take (Z.to_nat n) (drop (Z.to_nat off) block).

Fixpoint contiguous (off : Z) (ps : list piece) : Prop :=
  match ps with
  | [] => True
  | (o, bs) :: ps' => o = off /\ contiguous (off + zlen bs) ps'
  end.

(** The last element by [g], the others by [f]. *)
Fixpoint with_last {A B} (f g : A -> B) (l : list A) : list B :=
  match l with
  | [] => []
  | [a] => [g a]
  | a :: l' => f a :: with_last f g l'
  end.

Lemma with_last_snoc {A B} (f g : A -> B) l a : with_last f g (l ++ [a]) = (f <$> l) ++ [g a].
Proof.
  induction l as [|b l IH]; [done|]. cbn [app fmap list_fmap]. rewrite <- IH. by destruct l.
Qed.

Lemma with_last_ext {A B} (f f' g g' : A -> B) l :
  (forall a, f a = f' a) -> (forall a, g a = g' a) -> with_last f g l = with_last f' g' l.
Proof. intros Hf Hg. induction l as [|a [|b l] IH]; [done| |]; cbn in *; [by rewrite Hg|by rewrite Hf, IH]. Qed.

Lemma with_last_length {A B} (f g : A -> B) l : length (with_last f g l) = length l.
Proof. induction l as [|a [|b l] IH]; [done..|]. cbn in *. by rewrite IH. Qed.

Lemma slice_length block off n :
  0 <= off -> 0 <= n -> off + n <= zlen block -> zlen (slice block off n) = n.
Proof. intros. unfold slice. rewrite length_take, length_drop. lia. Qed.

Lemma slice_split block off n m :
  0 <= off -> 0 <= n <= m -> slice block off m = slice block off n ++ slice block (off + n) (m - n).
Proof.
  intros. unfold slice. rewrite (Z2Nat.inj_add off n), <- drop_drop by lia.
  rewrite take_take_drop. f_equal. lia.
Qed.

Lemma slice_all block : slice block 0 (zlen block) = block.
Proof. unfold slice. rewrite Nat2Z.id. by apply take_ge. Qed.

(** [cut fuel block max off n]: the pieces of [n] bytes from [off] on. *)
Fixpoint cut (fuel : nat) (block : list Z) (max off n : Z) : list piece :=
  match fuel with
  | O => []
  | S fuel' =>
      if 0 <? n then
        let chunk := Z.min max n in
        (off, slice block off chunk) :: cut fuel' block max (off + chunk) (n - chunk)
      else []
  end.

Lemma cut_spec fuel block max off n :
  0 < max -> 0 <= off -> off + n <= zlen block -> 0 <= n <= Z.of_nat fuel ->
  let ps := cut fuel block max off n in
  concat (snd <$> ps) = slice block off n /\ contiguous off ps /\
  Forall (fun p => 0 < zlen (snd p) <= max) ps.
Proof.
  intros Hmax. revert off n. induction fuel as [|fuel IH]; intros off n Ho Hn Hf; cbn [cut].
  - assert (n = 0) as -> by lia. done.
  - destruct (0 <? n) eqn:E; [|assert (n = 0) as -> by lia; done].
    set (chunk := Z.min max n). assert (0 < chunk <= n /\ chunk <= max) as Hc by lia.
    destruct (IH (off + chunk) (n - chunk)) as (H1 & H2 & H3); [lia..|].
    assert (zlen (slice block off chunk) = chunk) as Hl by (apply slice_length; lia).
    cbn [concat fmap list_fmap snd contiguous].
    split_and!; [|done|by rewrite Hl|constructor; [cbn [snd]; lia|done]].
    rewrite H1. symmetry. apply slice_split; lia.
Qed.

(** ** The first transmission *)

Definition inner_segment (s : LtpSession) (p : piece) : LtpSegment :=
  plain_segment (if s_is_red s then RED_DATA else GREEN_DATA) (s_engine_id s) (s_session_number s)
    (CData (MkData 1 (fst p) (zlen (snd p)) None None (snd p))).

(** The last segment of the block: a checkpoint when the block is red. *)
Definition final_segment (s : LtpSession) (serial : Z) (p : piece) : LtpSegment :=
  if s_is_red s then
    plain_segment RED_DATA_CP_EORP_EOB (s_engine_id s) (s_session_number s)
      (CData (MkData 1 (fst p) (zlen (snd p)) (Some serial) (Some 0) (snd p)))
  else
    plain_segment GREEN_DATA_EOB (s_engine_id s) (s_session_number s)
      (CData (MkData 1 (fst p) (zlen (snd p)) None None (snd p))).

Definition next_serial (s : LtpSession) (cp : Z) : Z := if s_is_red s then u64 (cp + 1) else cp.

Lemma segment_loop_cut fuel s max off n cp acc :
  0 < max -> 0 <= off -> off + n = zlen (client_data s) -> 0 <= n <= Z.of_nat fuel ->
  segment_loop fuel s max off n cp acc =
    Ok (acc ++ with_last (inner_segment s) (final_segment s (u64 (cp + 1))) (cut fuel (client_data s) max off n),
        if 0 <? n then next_serial s cp else cp).
Proof.
  intros Hmax. revert off n acc. induction fuel as [|fuel IH]; intros off n acc Ho Hn Hf.
  - assert (n = 0) as -> by lia. cbn. by rewrite app_nil_r.
  - cbn [segment_loop cut]. destruct (0 <? n) eqn:E; [|by rewrite app_nil_r].
    set (chunk := Z.min max n). assert (0 < chunk <= n) as Hc by lia.
    assert (zlen (slice (client_data s) off chunk) = chunk) as Hl by (apply slice_length; lia).
    rewrite range_ok by lia. rewrite bind_Ok. fold (slice (client_data s) off chunk).
    destruct (chunk =? n) eqn:El.
    + apply Z.eqb_eq in El. rewrite El, Z.sub_diag.
      assert (cut fuel (client_data s) max (off + n) 0 = []) as -> by (by destruct fuel).
      cbn [with_last]. unfold final_segment, next_serial. rewrite El in Hl. cbn [fst snd]. rewrite Hl.
      destruct (s_is_red s); by destruct fuel.
    + apply Z.eqb_neq in El.
      assert (exists p ps, cut fuel (client_data s) max (off + chunk) (n - chunk) = p :: ps) as (p & ps & Hps).
      { destruct fuel; [lia|]. cbn [cut]. rewrite (proj2 (Z.ltb_lt 0 (n - chunk))) by lia. eauto. }
      assert ((0 <? n - chunk) = true) as Hrest by (apply Z.ltb_lt; lia).
      specialize (IH (off + chunk) (n - chunk)). rewrite Hrest, Hps in IH. rewrite Hps.
      cbn [with_last]. change (inner_segment s (off, _)) with
        (plain_segment (if s_is_red s then RED_DATA else GREEN_DATA) (s_engine_id s) (s_session_number s)
           (CData (MkData 1 off (zlen (slice (client_data s) off chunk)) None None (slice (client_data s) off chunk)))).
      rewrite Hl. destruct (s_is_red s); rewrite IH by lia; by rewrite <- app_assoc.
Qed.

Lemma segment_data_pieces s max cp :
  0 < max ->
  exists ps,
    segment_data_impl s max cp =
      Ok (with_last (inner_segment s) (final_segment s (u64 (cp + 1))) ps, next_serial s cp) /\
    concat (snd <$> ps) = client_data s /\ contiguous 0 ps /\ ps <> [] /\
    Forall (fun p => zlen (snd p) <= max /\ (client_data s <> [] -> 0 < zlen (snd p))) ps.
Proof.
  intros Hmax. unfold segment_data_impl. destruct (client_data s) as [|b block] eqn:Ed.
  - exists [(0, [])]. unfold final_segment, next_serial. split_and!; try done.
    + by destruct (s_is_red s).
    + constructor; [|done]. cbn. split; [lia|done].
  - rewrite <- Ed. pose proof (segment_loop_cut (length (client_data s)) s max 0 (zlen (client_data s)) cp []) as Hl.
    rewrite Hl by lia. clear Hl.
    exists (cut (length (client_data s)) (client_data s) max 0 (zlen (client_data s))).
    destruct (cut_spec (length (client_data s)) (client_data s) max 0 (zlen (client_data s))) as (H1 & H2 & H3); [lia..|].
    assert (0 < zlen (client_data s)) as Hpos by (rewrite Ed, length_cons; lia).
    rewrite (proj2 (Z.ltb_lt 0 (zlen (client_data s)))) by done.
    split_and!; [done|by rewrite H1, slice_all|done| |].
    + intros E. rewrite E, Ed in H1. by rewrite slice_all in H1.
    + eapply Forall_impl; [exact H3|]. cbn. lia.
Qed.

(** ** Selective retransmission *)

Definition resent_segment (s : LtpSession) (p : piece) : LtpSegment :=
  plain_segment RED_DATA (s_engine_id s) (s_session_number s)
    (CData (MkData 1 (fst p) (zlen (snd p)) None None (snd p))).

Definition checkpoint_segment (s : LtpSession) (serial : Z) (p : piece) : LtpSegment :=
  plain_segment RED_DATA_CP (s_engine_id s) (s_session_number s)
    (CData (MkData 1 (fst p) (zlen (snd p)) (Some serial) (Some 0) (snd p))).

(** Pieces in ascending order from [lo], without overlap, inside the block. *)
Fixpoint ascending (lo : Z) (ps : list piece) : Prop :=
  match ps with
  | [] => True
  | (o, bs) :: ps' => lo <= o /\ ascending (o + zlen bs) ps'
  end.

Definition in_pieces (ps : list piece) (x : Z) : Prop :=
  exists p, p ∈ ps /\ fst p <= x < fst p + zlen (snd p).

(** A piece of the block, at most [max] bytes and at least one. *)
Definition piece_of (block : list Z) (max : Z) (p : piece) : Prop :=
  snd p = slice block (fst p) (zlen (snd p)) /\ 0 < zlen (snd p) <= max.

Lemma in_pieces_cons p ps x :
  in_pieces (p :: ps) x <-> fst p <= x < fst p + zlen (snd p) \/ in_pieces ps x.
Proof. unfold in_pieces. setoid_rewrite elem_of_cons. naive_solver. Qed.

Lemma in_pieces_app ps1 ps2 x : in_pieces (ps1 ++ ps2) x <-> in_pieces ps1 x \/ in_pieces ps2 x.
Proof. unfold in_pieces. setoid_rewrite elem_of_app. naive_solver. Qed.

Lemma ascending_app lo ps1 mid ps2 :
  ascending lo ps1 -> (forall x, in_pieces ps1 x -> x < mid) -> lo <= mid ->
  Forall (fun p => 0 < zlen (snd p)) ps1 -> ascending mid ps2 -> ascending lo (ps1 ++ ps2).
Proof.
  revert lo. induction ps1 as [|[o bs] ps1 IH]; intros lo Ha Hin Hlo Hp H2; cbn in *.
  - destruct ps2 as [|[o bs] ps2]; [done|]. destruct H2. split; [lia|done].
  - destruct Ha as [? Ha]. inversion_clear Hp. cbn in *. split; [done|]. apply IH; [done| | |done|done].
    + intros x Hx. apply Hin, in_pieces_cons. auto.
    + enough (o + zlen bs - 1 < mid) by lia. apply Hin, in_pieces_cons. cbn. lia.
Qed.

Lemma cut_pieces fuel block max off n :
  0 < max -> 0 <= off -> off + n <= zlen block -> 0 <= n <= Z.of_nat fuel ->
  let ps := cut fuel block max off n in
  ascending off ps /\ Forall (piece_of block max) ps /\
  forall x, in_pieces ps x <-> off <= x < off + n.
Proof.
  intros Hmax. revert off n. induction fuel as [|fuel IH]; intros off n Ho Hn Hf; cbn [cut].
  - assert (n = 0) as -> by lia. split_and!; try done. intros x. split; [by intros (p & Hp%elem_of_nil & _)|lia].
  - destruct (0 <? n) eqn:E.
    2:{ assert (n = 0) as -> by lia. split_and!; try done. intros x. split; [by intros (p & Hp%elem_of_nil & _)|lia]. }
    set (chunk := Z.min max n). assert (0 < chunk <= n /\ chunk <= max) as Hc by lia.
    destruct (IH (off + chunk) (n - chunk)) as (H1 & H2 & H3); [lia..|].
    assert (zlen (slice block off chunk) = chunk) as Hl by (apply slice_length; lia).
    cbn [ascending]. rewrite Hl. split_and!; [lia|done| |].
    + constructor; [|done]. unfold piece_of. cbn [fst snd]. rewrite Hl. split; [done|lia].
    + intros x. rewrite in_pieces_cons, H3. cbn [fst snd]. rewrite Hl. lia.
Qed.

Lemma gap_loop_cut fuel s max off n acc :
  0 < max -> 0 <= off -> off + n <= zlen (client_data s) < 2 ^ 63 -> 0 <= n <= Z.of_nat fuel ->
  gap_loop fuel s max off n acc = Ok (acc ++ (resent_segment s <$> cut fuel (client_data s) max off n)).
Proof.
  intros Hmax. revert off n acc. induction fuel as [|fuel IH]; intros off n acc Ho Hn Hf.
  - assert (n = 0) as -> by lia. cbn. by rewrite app_nil_r.
  - cbn [gap_loop cut]. destruct (0 <? n) eqn:E; [|by rewrite app_nil_r].
    set (chunk := Z.min max n). assert (0 < chunk <= n) as Hc by lia.
    assert (zlen (slice (client_data s) off chunk) = chunk) as Hl by (apply slice_length; lia).
    rewrite range_ok by lia. rewrite bind_Ok. fold (slice (client_data s) off chunk).
    rewrite u64_small, IH by lia. cbn [fmap list_fmap]. unfold resent_segment at 2. cbn [fst snd].
    by rewrite Hl, <- app_assoc.
Qed.

(** All the pieces of the gaps. *)
Definition gap_pieces (block : list Z) (max : Z) (gaps : list ReceptionClaim) : list piece :=
  concat ((fun g => cut (S (length block)) block max (claim_offset g) (claim_length g)) <$> gaps).

Lemma gaps_segments_pieces s max gaps acc lo :
  0 < max -> zlen (client_data s) < 2 ^ 63 -> 0 <= lo -> normal lo gaps ->
  (forall x, covers gaps x -> x < zlen (client_data s)) ->
  gaps_segments s max gaps acc = Ok (acc ++ (resent_segment s <$> gap_pieces (client_data s) max gaps)).
Proof.
  intros Hmax Hd. revert lo acc. induction gaps as [|g gaps IH]; intros lo acc Hlo Hn Hin.
  - cbn. by rewrite app_nil_r.
  - destruct Hn as (? & ? & ? & Hn). cbn [gaps_segments].
    assert (claim_offset g + claim_length g - 1 < zlen (client_data s)).
    { apply Hin, Tracker.covers_head. lia. }
    rewrite gap_loop_cut, bind_Ok by lia.
    rewrite (IH (claim_offset g + claim_length g + 1)); [|lia|done|intros x Hx; apply Hin, Tracker.covers_cons; auto].
    unfold gap_pieces. cbn [fmap list_fmap concat]. by rewrite fmap_app, <- app_assoc.
Qed.

Lemma gap_pieces_spec block max gaps lo :
  0 < max -> 0 <= lo -> normal lo gaps -> (forall x, covers gaps x -> x < zlen block) ->
  let ps := gap_pieces block max gaps in
  ascending lo ps /\ Forall (piece_of block max) ps /\ forall x, in_pieces ps x <-> covers gaps x.
Proof.
  intros Hmax. revert lo. induction gaps as [|g gaps IH]; intros lo Hlo Hn Hin.
  - split_and!; try done. intros x. rewrite Tracker.covers_nil. split; [by intros (p & Hp%elem_of_nil & _)|done].
  - destruct Hn as (? & ? & ? & Hn). unfold gap_pieces. cbn [fmap list_fmap concat].
    assert (claim_offset g + claim_length g - 1 < zlen block) by (apply Hin, Tracker.covers_head; lia).
    destruct (cut_pieces (S (length block)) block max (claim_offset g) (claim_length g)) as (C1 & C2 & C3); [lia..|].
    destruct (IH (claim_offset g + claim_length g + 1)) as (I1 & I2 & I3);
      [lia|done|intros x Hx; apply Hin, Tracker.covers_cons; auto|].
    split_and!.
    + eapply (ascending_app _ _ (claim_offset g + claim_length g + 1)); [| | | |exact I1].
      * destruct (cut _ _ _ _ _) as [|[o bs] ps]; [done|]. destruct C1. split; [lia|done].
      * intros x. rewrite C3. lia.
      * lia.
      * eapply Forall_impl; [exact C2|]. intros p [_ ?]. lia.
    + by apply Forall_app.
    + intros x. rewrite in_pieces_app, C3, Tracker.covers_cons. by rewrite <- I3.
Qed.

Lemma mark_last_pieces s serial ps :
  mark_last serial (resent_segment s <$> ps) = Ok (with_last (resent_segment s) (checkpoint_segment s serial) ps).
Proof.
  induction ps as [|p [|p' ps] IH]; [done|done|].
  cbn [fmap list_fmap mark_last with_last] in *. by rewrite IH, bind_Ok.
Qed.

(** ** Properties *)

Definition sample_session (data : list Z) (red : bool) : LtpSession :=
  MkSession 1 7 ORIGINATOR ACTIVE data (zlen data) red [] 0 0 0.

(** [C24] Segmentation loses nothing: with a positive [max_seg] the loop ends
    and the segments are, in order, consecutive pieces of the block of at most
    [max_seg] bytes (at least one unless the block is empty) whose
    concatenation is the block; exactly the last one carries the end of the
    block, and for a red block the checkpoint with the next serial, which is
    what the session's counter becomes. *)
Theorem segmentation_exact s max cp (Hmax : 0 < max) :
  exists ps,
    segment_data_impl s max cp =
      Ok (with_last (inner_segment s) (final_segment s (u64 (cp + 1))) ps, next_serial s cp) /\
    concat (snd <$> ps) = client_data s /\ contiguous 0 ps /\ ps <> [] /\
    Forall (fun p => zlen (snd p) <= max /\ (client_data s <> [] -> 0 < zlen (snd p))) ps.
Proof. by apply segment_data_pieces. Qed.

Lemma segmentation_exact_witness :
  exists ps,
    segment_data_impl (sample_session [1; 2; 3; 4; 5] true) 2 4 =
      Ok (with_last (inner_segment (sample_session [1; 2; 3; 4; 5] true))
            (final_segment (sample_session [1; 2; 3; 4; 5] true) (u64 (4 + 1))) ps,
          next_serial (sample_session [1; 2; 3; 4; 5] true) 4) /\
    concat (snd <$> ps) = [1; 2; 3; 4; 5] /\ contiguous 0 ps /\ ps <> [] /\
    Forall (fun p => zlen (snd p) <= 2 /\ ([1; 2; 3; 4; 5] <> [] -> 0 < zlen (snd p))) ps.
Proof. apply (segmentation_exact (sample_session [1; 2; 3; 4; 5] true) 2 4). lia. Defined.

(** With a zero segment size the loop makes no progress. *)
Example segmentation_zero_size :
  segment_data_impl (sample_session [1; 2; 3] true) 0 0 = Err Diverges.
Proof. reflexivity. Qed.

(** A report whose claims are sorted and whose scope lies in the block is
    answered with exactly the missing bytes: the segments resent are pieces of
    the block in ascending order, none overlapping, none longer than
    [max_seg], a byte is resent if and only if it is in the scope and not
    claimed, and marking the last one makes it, and it alone, the new
    checkpoint. *)
Theorem report_resends_exactly s max claims lower upper serial
    (Hmax : 0 < max) (Hsize : zlen (client_data s) < 2 ^ 63) (Hclaims : normal 0 claims)
    (Hlower : 0 <= lower) (Hupper : upper <= zlen (client_data s)) :
  exists ps,
    (segments ← gaps_segments s max (compute_gaps claims lower upper) []; mark_last serial segments) =
      Ok (with_last (resent_segment s) (checkpoint_segment s serial) ps) /\
    ascending lower ps /\ Forall (piece_of (client_data s) max) ps /\
    forall x, in_pieces ps x <-> lower <= x < upper /\ ~ covers claims x.
Proof.
  rewrite compute_gaps_get_gaps.
  destruct (Tracker.get_gaps_spec claims lower upper) as [Hn Hx]; [done..|lia|].
  assert (forall x, covers (get_gaps lower upper claims) x -> x < zlen (client_data s)) as Hin.
  { intros x [? _]%Hx. lia. }
  exists (gap_pieces (client_data s) max (get_gaps lower upper claims)).
  rewrite (gaps_segments_pieces _ _ _ _ lower), bind_Ok by done. cbn [app]. rewrite mark_last_pieces.
  destruct (gap_pieces_spec (client_data s) max (get_gaps lower upper claims) lower) as (H1 & H2 & H3); [done..|].
  split_and!; [done..|]. intros x. by rewrite H3, Hx.
Qed.

Lemma report_resends_exactly_witness :
  exists ps,
    (segments ← gaps_segments (sample_session [1; 2; 3; 4; 5; 6] true) 2
                  (compute_gaps [MkClaim 1 1] 0 6) [];
     mark_last 2 segments) =
      Ok (with_last (resent_segment (sample_session [1; 2; 3; 4; 5; 6] true))
            (checkpoint_segment (sample_session [1; 2; 3; 4; 5; 6] true) 2) ps) /\
    ascending 0 ps /\ Forall (piece_of [1; 2; 3; 4; 5; 6] 2) ps /\
    forall x, in_pieces ps x <-> 0 <= x < 6 /\ ~ covers [MkClaim 1 1] x.
Proof.
  apply (report_resends_exactly (sample_session [1; 2; 3; 4; 5; 6] true) 2 [MkClaim 1 1] 0 6 2);
    simpl; lia.
Defined.

(** The scope is not checked against the block: a report whose upper bound is
    past its end makes the originator read past its buffer. *)
Example report_past_block :
  gaps_segments (sample_session [1; 2; 3] true) 2 (compute_gaps [MkClaim 0 3] 0 5) [] = Err Undefined.
Proof. reflexivity. Qed.
End Segmentation.
