(* ===== verification/EngineInvariant.v ===== *)
(** * The engine's invariant

    What holds of the session table in every reachable state, and the calls
    that cannot fail. The two are proved together: each call, from a state
    that satisfies the invariant, ends in such a state or fails, and fails
    only if the call is not [benign]. *)
From S2P Require Import Prelude Sdnv Segment Tracker Timers Engine EngineLogic Segmentation.
Import SegType Segment Engine EngineLogic.
Import Tracker(add_range, is_complete, covers, normal).
Import Timers(TimerService, TimerEvent, MkEvent, evt_type, evt_engine_id, evt_session_number, evt_serial_number).

Module EngineInvariant.

(** The values the configuration's types and [validate] allow. *)
Record config_ok (cfg : LtpEngineConfig) : Prop := {
  ok_segment_size : 0 < max_segment_size cfg;
  ok_retransmissions : 0 <= max_retransmissions cfg < 256;
  ok_sessions : 0 <= max_concurrent_sessions cfg }.

(** A session of the table: under its own key, active, within the limit of
    retransmissions; an originator session is one of ours and holds its whole
    block, a receiver session is a peer's and its buffer reaches the end of
    the block as far as it is known. *)
Record session_ok (cfg : LtpEngineConfig) (counter : Z) (key : SessionKey) (s : LtpSession) : Prop := {
  ok_key : key = (s_engine_id s, s_session_number s);
  ok_active : s_state s = ACTIVE;
  ok_count : 0 <= retransmission_count s <= max_retransmissions cfg;
  ok_role : match s_role s with
            | ORIGINATOR => s_engine_id s = local_engine_id cfg /\ 1 <= s_session_number s <= counter /\
                            total_data_length s = zlen (client_data s) /\ zlen (client_data s) < 2 ^ 63
            | RECEIVER => s_engine_id s <> local_engine_id cfg /\
                          0 <= total_data_length s <= zlen (client_data s)
            end }.

(** Sessions that should be open according to the counters, up to their
    wrap-around: created minus ended. *)
Definition balance (c : Z * Z * Z * Z) : Z := let '(o, r, d, x) := c in o + r - d - x.

Section invariant.
Context {T : Type} `{TimerService T} `{Allocator}.
Implicit Types (e : LtpEngine (T := T)) (F : fault -> Prop).

Record inv (e : LtpEngine (T := T)) : Prop := {
  inv_config : config_ok (config e);
  inv_sessions : map_Forall (session_ok (config e) (session_counter e)) (sessions e);
  inv_size : Z.of_nat (size (sessions e)) <= max_concurrent_sessions (config e);
  inv_counter : 0 <= session_counter e < 2 ^ 64;
  inv_balance : u64 (balance (session_counters e)) = u64 (Z.of_nat (size (sessions e))) }.

Definition present {A} (o : option A) : Z := match o with Some _ => 1 | None => 0 end.

Lemma size_put (key : SessionKey) (o : option LtpSession) (m : gmap SessionKey LtpSession) :
  Z.of_nat (size (put key o m)) = Z.of_nat (size m) - present (m !! key) + present o.
Proof.
  destruct o as [s|]; cbn [put present].
  - rewrite map_size_insert. destruct (m !! key); simpl; lia.
  - rewrite map_size_delete. destruct (m !! key) eqn:E; simpl; [|lia].
    assert (size m <> 0%nat); [|lia]. apply map_size_ne_0_lookup. eauto.
Qed.

Lemma put_ok cfg n key o m :
  map_Forall (session_ok cfg n) m -> (forall s, o = Some s -> session_ok cfg n key s) ->
  map_Forall (session_ok cfg n) (put key o m).
Proof.
  intros Hm Ho. destruct o as [s|]; cbn [put]; [by apply map_Forall_insert_2; [apply Ho|]|by apply map_Forall_delete].
Qed.

Lemma session_ok_counter cfg n n' key s : session_ok cfg n key s -> n <= n' -> session_ok cfg n' key s.
Proof. intros [? ? ? Hr] ?. split; try done. destruct (s_role s); [|done]. destruct Hr as (? & ? & ?). split_and!; try done; lia. Qed.

(** One session's change keeps the invariant when the session it leaves is
    sound and the counters move with the number of sessions. *)
Lemma inv_put e e' n key o c out :
  inv e -> changes n (put key o (sessions e)) c out e e' ->
  session_counter e <= n < 2 ^ 64 ->
  (forall s, o = Some s -> session_ok (config e) n key s) ->
  (present (sessions e !! key) < present o ->
     Z.of_nat (size (sessions e)) < max_concurrent_sessions (config e)) ->
  u64 (balance c - present o) = u64 (balance (session_counters e) - present (sessions e !! key)) ->
  inv e'.
Proof.
  intros [H1 H2 H3 H4 H5] [Eg En Em Ec _] Hn Ho Hroom Hbal.
  split; rewrite ?Eg, ?En; try done.
  - rewrite Em. apply put_ok; [|done]. eapply map_Forall_impl; [exact H2|]. intros k s Hk.
    eapply session_ok_counter; [exact Hk|lia].
  - rewrite Em, size_put. unfold present in *. destruct o, (sessions e !! key); lia.
  - lia.
  - rewrite Em, Ec, size_put. unfold u64 in *. generalize dependent (balance c).
    generalize dependent (balance (session_counters e)). generalize (present (sessions e !! key)), (present o).
    generalize (Z.of_nat (size (sessions e))). intros. dlia.
Qed.

Lemma inv_sends e e' out : inv e -> sends out e e' -> inv e'.
Proof. intros [] [Eg En Hs Hc _]. split; rewrite ?Eg, ?En, ?Hs, ?Hc; done. Qed.

Lemma inv_keyed e : inv e -> keyed e.
Proof. intros [_ Hs _ _ _] key s Hk. destruct (Hs _ _ Hk). done. Qed.

Lemma completed_balance c : u64 (balance (bump_session_counter SessionsCompleted c)) = u64 (balance c - 1).
Proof. destruct c as [[[o r] d] x]. unfold u64. cbn [bump_session_counter balance]. unfold u64. dlia. Qed.
Lemma cancelled_balance c : u64 (balance (bump_session_counter SessionsCancelled c)) = u64 (balance c - 1).
Proof. destruct c as [[[o r] d] x]. unfold u64. cbn [bump_session_counter balance]. unfold u64. dlia. Qed.
Lemma originated_balance c : u64 (balance (bump_session_counter SessionsOriginated c) - 1) = u64 (balance c).
Proof. destruct c as [[[o r] d] x]. unfold u64. cbn [bump_session_counter balance]. unfold u64. dlia. Qed.
Lemma received_balance c : u64 (balance (bump_session_counter SessionsReceived c) - 1) = u64 (balance c).
Proof. destruct c as [[[o r] d] x]. unfold u64. cbn [bump_session_counter balance]. unfold u64. dlia. Qed.

(** ** Calls *)

(** A call the rest of the program makes: vectors have a representable size,
    and no peer uses our own engine id for its sessions. *)
Definition call_ok (cfg : LtpEngineConfig) (c : call) : Prop :=
  match c with
  | CStart data _ => zlen data < 2 ^ 63
  | CReceive bs =>
      zlen bs < 2 ^ 63 /\ bytes bs /\
      forall seg, Segment.decode bs = Ok (Some seg) -> is_data (segment_type seg) = true ->
                  engine_id seg <> local_engine_id cfg
  | _ => True
  end.

(** A data segment the machine can hold. *)
Definition data_fits (ds : DataSegContent) : Prop :=
  ds_offset ds + ds_length ds <= alloc_limit /\ ds_offset ds + ds_length ds < 2 ^ 63.

(** A report about the block of the session it names. *)
Definition report_fits (rs : ReportSegContent) (s : LtpSession) : Prop :=
  normal 0 (rs_claims rs) /\ rs_upper_bound rs <= zlen (client_data s).

(** The calls that cannot fail: what is received decodes, and a data segment
    fits in memory, a report in the block it is about. *)
Definition benign (e : LtpEngine (T := T)) (c : call) : Prop :=
  match c with
  | CReceive bs =>
      exists o, Segment.decode bs = Ok o /\
      forall seg, o = Some seg ->
      match content seg with
      | CData ds => data_fits ds
      | CReport rs => forall s, sessions e !! (local_engine_id (config e), session_number seg) = Some s -> report_fits rs s
      | _ => True
      end
  | _ => True
  end.

Lemma grow_to_spec seg_end data :
  match grow_to seg_end data with
  | Ok data' => zlen data <= zlen data' /\ seg_end <= zlen data'
  | Err _ => ~ (seg_end <= alloc_limit /\ seg_end < 2 ^ 63)
  end.
Proof.
  unfold grow_to. destruct (Z.ltb_spec (zlen data) seg_end); [|lia].
  destruct (allocate 1 seg_end) as [[]|f] eqn:E.
  - cbn. rewrite length_app, length_replicate. lia.
  - cbn. intros [? ?]. rewrite allocate_ok in E; [done|lia..].
Qed.

Lemma store_spec {A} (l : list A) off bs :
  match store l off bs with
  | Ok l' => length l' = length l /\ 0 <= off /\ off + zlen bs <= zlen l
  | Err _ => ~ (0 <= off /\ off + zlen bs <= zlen l)
  end.
Proof.
  unfold store. case_bool_decide; [|done]. rewrite !length_app, length_take, length_drop. lia.
Qed.

(** The session after a segment's arrival: the same session, its buffer no
    shorter, its end of block still inside the buffer. *)
Lemma stored_spec type ds s :
  0 <= ds_offset ds -> ds_length ds = zlen (ds_data ds) ->
  match stored type ds s with
  | Ok s' =>
      s_engine_id s' = s_engine_id s /\ s_session_number s' = s_session_number s /\
      s_role s' = s_role s /\ s_state s' = s_state s /\ retransmission_count s' = retransmission_count s /\
      zlen (client_data s) <= zlen (client_data s') /\
      (total_data_length s' = total_data_length s \/ 0 <= total_data_length s' <= zlen (client_data s'))
  | Err _ => ~ data_fits ds
  end.
Proof.
  intros Ho Hl. unfold stored, data_fits. pose proof (u64_range (ds_offset ds + ds_length ds)) as Hr.
  pose proof (grow_to_spec (u64 (ds_offset ds + ds_length ds)) (client_data s)) as Hg.
  destruct (grow_to _ _) as [data|].
  2:{ cbn. intros [? ?]. apply Hg. rewrite u64_small by lia. done. }
  rewrite bind_Ok. assert (match (if 0 <? ds_length ds then store data (ds_offset ds) (ds_data ds) else Ok data) with
    | Ok data' => length data' = length data | Err _ => ~ data_fits ds end) as Hst.
  { destruct (0 <? ds_length ds); [|done]. pose proof (store_spec data (ds_offset ds) (ds_data ds)) as Hst.
    destruct (store _ _ _); [by destruct Hst|]. intros [? ?]. apply Hst. rewrite u64_small in Hg by lia. lia. }
  destruct (if 0 <? ds_length ds then _ else _) as [data'|]; [|done].
  rewrite bind_Ok. destruct (has_eob type); cbn; split_and!; try done; rewrite Hst; auto; lia.
Qed.

Lemma receiver_of e key s : inv e -> sessions e !! key = Some s -> key.1 <> local_engine_id (config e) ->
  s_role s = RECEIVER.
Proof.
  intros Hi Hs Hk. destruct (inv_sessions _ Hi _ _ Hs) as [-> _ _ Hr]. destruct (s_role s); [|done].
  by destruct Hr.
Qed.

(** What a data segment leaves of a receiver session. *)
Lemma arrival_spec cfg n key type ds s :
  0 <= ds_offset ds -> ds_length ds = zlen (ds_data ds) ->
  session_ok cfg n key s -> s_role s = RECEIVER ->
  match arrival type ds s with
  | Ok (Some s', _) => session_ok cfg n key s'
  | Ok (None, _) => True
  | Err _ => ~ data_fits ds
  end.
Proof.
  intros Ho Hl [Hk Ha Hc Hr] Hrole. rewrite Hrole in Hr. unfold arrival.
  pose proof (stored_spec type ds s Ho Hl) as Hst. destruct (stored type ds s) as [s1|]; [|done].
  destruct Hst as (E1 & E2 & E3 & E4 & E5 & Hlen & Htot). rewrite bind_Ok.
  set (P := match ds_checkpoint_serial ds with Some _ => _ | None => _ end).
  assert (session_ok cfg n key P.1 /\ total_data_length P.1 <= zlen (client_data P.1) /\ 0 <= total_data_length P.1)
    as (Hok & Ht & Ht0).
  { assert (session_ok cfg n key s1) as Hs1.
    { split; [by rewrite E1, E2|by rewrite E4|by rewrite E5|]. rewrite E3, Hrole, E1. split; [tauto|lia]. }
    assert (0 <= total_data_length s1 <= zlen (client_data s1)) as Hb by lia.
    subst P. destruct (ds_checkpoint_serial ds); [|cbn; lia || auto].
    - destruct (has_checkpoint type); cbn; [|split; [done|lia]]. split; [|lia].
      destruct Hs1. by split.
    - split; [done|cbn; lia]. }
  destruct P as [s2 out]. cbn [fst] in *. destruct (is_green type && has_eob type); [|done].
  rewrite range_ok by lia. done.
Qed.

(** What every call ensures. *)
Definition post (e e' : LtpEngine (T := T)) : Prop :=
  inv e' /\ config e' = config e /\ session_counter e <= session_counter e' <= session_counter e + 1.

Lemma post_refl e : inv e -> post e e.
Proof. intros. split_and!; [done..|lia|lia]. Qed.

Lemma post_sends e e' out : inv e -> sends out e e' -> post e e'.
Proof.
  intros Hi Hs. split; [by eapply inv_sends|]. destruct Hs as [? Hc ? ? ?]. rewrite Hc. split; [done|lia].
Qed.

Lemma post_put e e' key (o : option LtpSession) c out :
  inv e -> changes (session_counter e) (put key o (sessions e)) c out e e' ->
  (forall s, o = Some s -> session_ok (config e) (session_counter e) key s) ->
  (present (sessions e !! key) < present o ->
     Z.of_nat (size (sessions e)) < max_concurrent_sessions (config e)) ->
  u64 (balance c - present o) = u64 (balance (session_counters e) - present (sessions e !! key)) ->
  post e e'.
Proof.
  intros Hi Hc Ho Hroom Hb. pose proof (inv_counter _ Hi). split; [eapply inv_put; try done; lia|].
  destruct Hc as [? -> ? ? ?]. split; [done|lia].
Qed.

Lemma inv_receive_data seg ds e :
  inv e -> wf_segment seg -> content seg = CData ds -> engine_id seg <> local_engine_id (config e) ->
  wp (receive_data_segment seg) (fun _ => post e) (fun _ => ~ data_fits ds) e.
Proof.
  intros Hi Hwf Hc Hid. pose proof (wf_body _ Hwf) as Hb. rewrite Hc in Hb. destruct Hb as (_ & _ & Ho & Hl & _).
  assert (0 <= ds_offset ds) as Ho' by apply Ho. clear Ho.
  apply (wp_receive_data _ ds); [done|intros s Hs; by apply (inv_keyed _ Hi _ _ Hs)|].
  set (key := (engine_id seg, session_number seg)).
  destruct (sessions e !! key) as [s|] eqn:Hs.
  - pose proof (arrival_spec _ _ key (segment_type seg) ds s Ho' Hl (inv_sessions _ Hi _ _ Hs) (receiver_of _ _ _ Hi Hs Hid)) as Ha.
    destruct (arrival _ _ _) as [[o out]|]; [|done]. intros e' He'. eapply post_put; [done|exact He'|by intros s' ->| |].
    + rewrite Hs. destruct o; cbn; lia.
    + rewrite Hs. destruct o; cbn [completed present]; [done|]. rewrite Z.sub_0_r.
      apply completed_balance.
  - destruct (Z.leb_spec (max_concurrent_sessions (config e)) (Z.of_nat (size (sessions e)))); [by apply post_refl|].
    pose proof (arrival_spec (config e) (session_counter e) key (segment_type seg) ds
                  (new_receiver (engine_id seg) (session_number seg) (segment_type seg)) Ho' Hl) as Ha.
    destruct (arrival _ _ _) as [[o out]|].
    2:{ apply Ha; [|done]. split; try done. pose proof (ok_retransmissions _ (inv_config _ Hi)). cbn. lia. }
    intros e' He'. eapply post_put; [done|exact He'| |done|].
    + intros s' ->. apply Ha; [|done]. split; try done. pose proof (ok_retransmissions _ (inv_config _ Hi)). cbn. lia.
    + rewrite Hs. cbn [present]. rewrite Z.sub_0_r. destruct o; cbn [completed present].
      * apply received_balance.
      * rewrite Z.sub_0_r, completed_balance. apply received_balance.
Qed.

(** The end of a session, with its counter. *)
Lemma post_end e e' key k out s :
  inv e -> sessions e !! key = Some s -> k = SessionsCompleted \/ k = SessionsCancelled ->
  changes (session_counter e) (put key None (sessions e)) (bump_session_counter k (session_counters e)) out e e' ->
  post e e'.
Proof.
  intros Hi Hs Hk He'. eapply post_put; [done|exact He'|done| |]; rewrite Hs; cbn [present]; [lia|].
  rewrite Z.sub_0_r. destruct Hk as [-> | ->]; [apply completed_balance|apply cancelled_balance].
Qed.

(** A session that stays. *)
Lemma post_keep e e' key s s' out :
  inv e -> sessions e !! key = Some s ->
  changes (session_counter e) (put key (Some s') (sessions e)) (session_counters e) out e e' ->
  session_ok (config e) (session_counter e) key s' -> post e e'.
Proof.
  intros Hi Hs He' Hok. eapply post_put; [done|exact He'|by intros ? [= <-]|rewrite Hs; cbn; lia|by rewrite Hs].
Qed.

(** A verdict on a session, when what it keeps is sound. *)
Definition verdict_ok (cfg : LtpEngineConfig) (n : Z) (key : SessionKey) (v : verdict) : Prop :=
  match v with
  | (Some s, _, k) => session_ok cfg n key s /\ k = None
  | (None, _, k) => k = Some SessionsCompleted \/ k = Some SessionsCancelled
  end.

Lemma post_decided e e' key s before v :
  inv e -> sessions e !! key = Some s -> verdict_ok (config e) (session_counter e) key v ->
  decided key before v e e' -> post e e'.
Proof.
  intros Hi Hs Hv Hd. destruct v as [[[s'|] out] k]; cbn in Hv, Hd.
  - destruct Hv as [Hok ->]. by eapply post_keep.
  - destruct k as [k|]; [|by destruct Hv]. eapply post_end; [done|exact Hs| |exact Hd].
    destruct Hv as [[= ->]|[= ->]]; auto.
Qed.

Lemma retry_ok cfg n key s f P :
  config_ok cfg -> session_ok cfg n key s ->
  (forall s', session_ok cfg n key s' -> client_data s' = client_data s -> s_role s' = s_role s ->
     match f s' with Ok v => verdict_ok cfg n key v | Err _ => P end) ->
  match retry cfg f s with Ok v => verdict_ok cfg n key v | Err _ => P end.
Proof.
  intros Hcfg Hs Hf. unfold retry. set (s' := set_retransmissions _ s).
  destruct (Z.ltb_spec (max_retransmissions cfg) (retransmission_count s')); [by cbn; right|].
  apply Hf; [|done..]. destruct Hs as [? ? ? ?]. split; try done.
  pose proof (u8_range (retransmission_count s + 1)). cbn in *. lia.
Qed.

Lemma session_ok_counters cfg n key s cp :
  session_ok cfg n key s -> session_ok cfg n key (set_checkpoint_counter cp s).
Proof. by intros []. Qed.

Definition has_data (seg : LtpSegment) : Prop := exists ds, content seg = CData ds.

Lemma gap_loop_data fuel s max off n acc segs :
  gap_loop fuel s max off n acc = Ok segs -> Forall has_data acc -> Forall has_data segs.
Proof.
  revert off n acc. induction fuel as [|fuel IH]; intros off n acc Hl Ha; cbn [gap_loop] in Hl;
    destruct (0 <? n); try done; try by simplify_eq.
  apply bind_ok in Hl as (bs & _ & Hl). apply IH in Hl; [done|]. apply Forall_app. split; [done|].
  constructor; [|done]. by eexists.
Qed.

Lemma gaps_segments_data s max gaps acc segs :
  gaps_segments s max gaps acc = Ok segs -> Forall has_data acc -> Forall has_data segs.
Proof.
  revert acc. induction gaps as [|g gaps IH]; intros acc Hl Ha; cbn [gaps_segments] in Hl; [by simplify_eq|].
  apply bind_ok in Hl as (segs1 & H1 & Hl). eapply IH; [exact Hl|]. by eapply gap_loop_data.
Qed.

Lemma mark_last_ok serial segs : Forall has_data segs -> is_ok (mark_last serial segs).
Proof.
  induction 1 as [|seg segs [ds Hds] Hd IH]; [by eexists|]. destruct segs as [|seg2 segs]; cbn [mark_last].
  - rewrite Hds. by eexists.
  - destruct IH as [r Hr]. cbn [mark_last] in Hr. rewrite Hr. by eexists.
Qed.

Lemma resend_ok cfg n key gaps s (P : Prop) :
  session_ok cfg n key s -> is_ok (gaps_segments s (max_segment_size cfg) gaps []) \/ P ->
  match resend (max_segment_size cfg) gaps s with Ok v => verdict_ok cfg n key v | Err _ => P end.
Proof.
  intros Hs Hg. unfold resend. destruct (gaps_segments _ _ _ _) as [segs|] eqn:E; cbn.
  2:{ destruct Hg as [[? ?]|]; done. }
  apply gaps_segments_data in E; [|done].
  destruct (mark_last_ok (u64 (checkpoint_serial_counter s + 1)) _ E) as [segs' ->]. cbn.
  split; [|done]. destruct segs'; [done|by apply session_ok_counters].
Qed.

Lemma resend_all_ok cfg n key s P :
  config_ok cfg -> session_ok cfg n key s ->
  match resend_all (max_segment_size cfg) s with Ok v => verdict_ok cfg n key v | Err _ => P end.
Proof.
  intros Hcfg Hs. unfold resend_all.
  destruct (Segmentation.segment_data_pieces s (max_segment_size cfg) (checkpoint_serial_counter s) (ok_segment_size _ Hcfg)) as (ps & -> & _).
  rewrite bind_Ok. cbn. split; [|done]. by apply session_ok_counters.
Qed.

(** The report of a well-formed segment: a fault is a report outside the block. *)
Lemma on_report_ok cfg n key rs s :
  config_ok cfg -> session_ok cfg n key s -> s_role s = ORIGINATOR -> 0 <= rs_lower_bound rs ->
  match on_report cfg rs s with Ok v => verdict_ok cfg n key v | Err _ => ~ report_fits rs s end.
Proof.
  intros Hcfg Hs Hrole Hlow. unfold on_report. destruct (fully_received _ _); [by cbn; left|].
  destruct (compute_gaps _ _ _) as [|g gaps] eqn:Hg; [done|].
  apply retry_ok; [done..|]. intros s' Hs' Hd Hr'. apply resend_ok; [done|].
  destruct (decide (zlen (client_data s') < 2 ^ 63)) as [Hsz|Hsz].
  2:{ exfalso. destruct Hs as [_ _ _ Hrl]. rewrite Hrole in Hrl. apply Hsz. rewrite Hd. apply Hrl. }
  destruct (gaps_segments s' (max_segment_size cfg) (g :: gaps) []) as [segs|] eqn:E; [left; by eexists|right].
  intros [Hn Hu]. rewrite compute_gaps_get_gaps in Hg.
  destruct (Tracker.get_gaps_spec (rs_claims rs) (rs_lower_bound rs) (rs_upper_bound rs)) as [Hgn Hgx];
    [done..|rewrite Hd in Hsz; lia|].
  rewrite Hg in Hgn, Hgx. rewrite (Segmentation.gaps_segments_pieces _ _ _ _ (rs_lower_bound rs)) in E;
    [done|apply Hcfg|done..|]. intros x [? _]%Hgx. rewrite Hd. lia.
Qed.

Lemma inv_receive_report seg rs e :
  inv e -> wf_segment seg -> content seg = CReport rs ->
  wp (receive_report_segment seg) (fun _ => post e)
    (fun _ => ~ forall s, sessions e !! (local_engine_id (config e), session_number seg) = Some s -> report_fits rs s) e.
Proof.
  intros Hi Hwf Hc. pose proof (wf_body _ Hwf) as Hb. rewrite Hc in Hb. destruct Hb as (_ & _ & _ & _ & Hlow & _).
  apply (wp_receive_report _ rs); [done|by apply inv_keyed|]. set (key := (_, _)).
  destruct (sessions e !! key) as [s|] eqn:Hs; [|intros e' He'; by eapply post_sends].
  destruct (decide _) as [Hr|]; [|intros e' He'; by eapply post_sends].
  pose proof (on_report_ok _ _ key rs s (inv_config _ Hi) (inv_sessions _ Hi _ _ Hs) Hr (proj1 Hlow)) as Hok.
  destruct (on_report _ _ _) as [v|]; [|intros Hall; by apply Hok, Hall].
  intros e' He'. by eapply post_decided.
Qed.

Lemma inv_receive_report_ack seg ra e F :
  inv e -> content seg = CRptAck ra -> wp (receive_report_ack seg) (fun _ => post e) F e.
Proof.
  intros Hi Hc. apply (wp_receive_report_ack _ ra); [done|]. set (key := (_, _)).
  destruct (sessions e !! key) as [s|] eqn:Hs; [|intros e' He'; by eapply post_sends].
  destruct (decide _) as [Hr|]; [|intros e' He'; by eapply post_sends].
  destruct (is_complete _ _); [|intros e' He'; by eapply post_sends].
  destruct (inv_sessions _ Hi _ _ Hs) as [_ _ _ Hrl]. rewrite Hr in Hrl.
  rewrite range_ok by lia. intros e' He'. eapply post_end; [done|exact Hs|by left|exact He'].
Qed.

Lemma inv_cancel_session engine session reason e F :
  inv e -> wp (cancel_session engine session reason) (fun _ => post e) F e.
Proof.
  intros Hi. apply wp_cancel_session. destruct (sessions e !! _) as [s|] eqn:Hs; [|by apply post_refl].
  intros e' He'. eapply post_end; [done|exact Hs|by right|exact He'].
Qed.

Lemma inv_receive_cancel seg cc e F :
  inv e -> content seg = CCancel cc -> wp (receive_cancel_segment seg) (fun _ => post e) F e.
Proof.
  intros Hi Hc. apply (wp_receive_cancel _ cc); [done|]. intros e' He'.
  destruct (sessions e !! _) as [s|] eqn:Hs.
  - eapply post_end; [done|exact Hs|by right|exact He'].
  - eapply post_sends; [done|]. rewrite delete_id in He' by done. exact He'.
Qed.

Lemma inv_receive_segment seg e :
  inv e -> wf_segment seg -> (is_data (segment_type seg) = true -> engine_id seg <> local_engine_id (config e)) ->
  wp (receive_segment seg) (fun _ => post e)
    (fun _ => ~ match content seg with
      | CData ds => data_fits ds
      | CReport rs => forall s, sessions e !! (local_engine_id (config e), session_number seg) = Some s -> report_fits rs s
      | _ => True
      end) e.
Proof.
  intros Hi Hwf Hid. unfold receive_segment. pose proof (wf_body _ Hwf) as Hb.
  destruct (content seg) as [ds|rs|ra|cc] eqn:Hc; cbn in Hb.
  - destruct Hb as [Hd _]. rewrite Hd. by apply inv_receive_data, Hid.
  - destruct Hb as [-> _]. cbn. by apply inv_receive_report.
  - destruct Hb as [-> _]. cbn. by eapply inv_receive_report_ack.
  - destruct Hb as [[[-> | ->] _]|[[-> | ->] _]]; cbn; try by eapply inv_receive_cancel.
    all: apply wp_receive_cancel_ack; [|by apply post_refl]; intros s Hs; by apply (inv_keyed _ Hi _ _ Hs).
Qed.

Lemma inv_start_session data reliable e F :
  inv e -> zlen data < 2 ^ 63 -> session_counter e + 1 < 2 ^ 64 ->
  wp (start_session data reliable) (fun _ => post e) F e.
Proof.
  intros Hi Hd Hn. pose proof (inv_counter _ Hi) as Hc.
  assert (u64 (session_counter e + 1) = session_counter e + 1) as Hsn by (apply u64_small; lia).
  assert (sessions e !! (local_engine_id (config e), u64 (session_counter e + 1)) = None) as Hfresh.
  { destruct (_ !! _) as [s|] eqn:Hs; [|done]. destruct (inv_sessions _ Hi _ _ Hs) as [[= Hk1 Hk2] _ _ Hr].
    rewrite Hsn in Hk2. destruct (s_role s); destruct Hr as [? Hr]; [lia|by rewrite Hk1 in *]. }
  apply wp_start_session; [done|].
  destruct (Z.leb_spec (max_concurrent_sessions (config e)) (Z.of_nat (size (sessions e)))); [by apply post_refl|].
  destruct (Segmentation.segment_data_pieces
    (new_originator (local_engine_id (config e)) (u64 (session_counter e + 1)) data reliable)
    (max_segment_size (config e)) 0 (ok_segment_size _ (inv_config _ Hi))) as (ps & -> & _).
  rewrite Hsn in Hfresh |- *. intros e' He'. split.
  - eapply inv_put; [done|exact He'|lia| |by intros _|].
    + intros s Hs. destruct reliable; [|done]. injection Hs as <-.
      pose proof (ok_retransmissions _ (inv_config _ Hi)). split; try done; cbn; [lia|]. split_and!; [done|lia..].
    + rewrite Hfresh. destruct reliable; cbn [present]; rewrite Z.sub_0_r; [apply originated_balance|].
      rewrite Z.sub_0_r, completed_balance. apply originated_balance.
  - destruct He' as [? -> ? ? ?]. split; [done|lia].
Qed.

Lemma inv_timer ev e F : inv e -> wp (handle_timer_expiry ev) (fun _ => post e) F e.
Proof.
  intros Hi. apply wp_handle_timer_expiry; [by apply inv_keyed|]. destruct (evt_type ev); [..|by apply post_refl].
  - cbv zeta. set (key := (_, _)). destruct (sessions e !! key) as [s|] eqn:Hs; [|by apply post_refl].
    destruct (decide _); [|by apply post_refl].
    pose proof (retry_ok (config e) (session_counter e) key s (resend_all (max_segment_size (config e))) False
      (inv_config _ Hi) (inv_sessions _ Hi _ _ Hs)) as Hr.
    destruct (retry _ _ _) as [v|].
    2:{ exfalso. apply Hr. intros s' Hs' _ _. apply resend_all_ok; [apply Hi|done]. }
    intros e' He'. eapply post_decided; [done|exact Hs| |exact He'].
    apply Hr. intros s' Hs' _ _. apply resend_all_ok; [apply Hi|done].
  - cbv zeta. set (key := (_, _)). destruct (sessions e !! key) as [s|] eqn:Hs; [|by apply post_refl].
    destruct (decide _); [|by apply post_refl].
    destruct (0 <? total_data_length s); intros e' He'; [|by eapply post_sends].
    eapply (post_keep _ _ key s (after_report s)); [done|exact Hs|exact He'|]. by destruct (inv_sessions _ Hi _ _ Hs).
Qed.

(** Every call keeps the invariant, and fails only if it is not benign. *)
Lemma perform_inv c e :
  inv e -> call_ok (config e) c -> session_counter e + 1 < 2 ^ 64 ->
  wp (perform c) (fun _ => post e) (fun _ => ~ benign e c) e.
Proof.
  intros Hi Hc Hn. destruct c as [data reliable|bs|ev|engine session reason]; cbn [perform call_ok] in *.
  - apply wp_bind. eapply wp_mono; [by apply inv_start_session|]. done.
  - destruct Hc as (Hsz & Hbs & Hid). unfold on_cla_segment. apply wp_bind, wp_lift.
    pose proof (decode_accepts bs Hsz Hbs) as Hdec. unfold benign.
    destruct (Segment.decode bs) as [[seg|]|f]; cbn in Hdec.
    + pose proof (inv_receive_segment seg e Hi Hdec (Hid seg eq_refl)) as Hw. unfold wp in *.
      destruct (receive_segment seg e) as [[[] e']|f]; [done|]. intros (o & [= <-] & Hb). by apply Hw, Hb.
    + by apply wp_ret, post_refl.
    + by intros (o & ? & _).
  - by apply inv_timer.
  - by apply inv_cancel_session.
Qed.

Lemma inv_init cfg tm : config_ok cfg -> inv (init_engine cfg tm).
Proof.
  intros Hc. split; [done|by apply map_Forall_empty| |done|done].
  cbn. rewrite map_size_empty. apply Hc.
Qed.

(** A history of calls from [e] that all succeed ends in [e']. *)
Lemma perform_all_inv cs e :
  inv e -> Forall (call_ok (config e)) cs -> session_counter e + zlen cs < 2 ^ 64 ->
  match run (perform_all cs) e with Ok e' => inv e' /\ config e' = config e | Err _ => True end.
Proof.
  revert e. induction cs as [|c cs IH]; intros e Hi Hcs Hn; [done|].
  inversion_clear Hcs as [|? ? Hc Hcs']. cbn [length] in Hn.
  pose proof (perform_inv c e Hi Hc ltac:(lia)) as Hp. unfold wp in Hp. unfold perform_all, run in *. cbn [for_each].
  unfold mbind, M_bind. destruct (perform c e) as [[[] e1]|]; [|done]. destruct Hp as (Hi1 & Ec & Hn1).
  specialize (IH e1 Hi1). rewrite Ec in IH. apply IH; [done|lia].
Qed.

(** ** Properties *)

(** [C8] In every state the program can bring the engine to, by any sequence of
    starts, segments, timer events and cancels in which no peer uses our
    engine id, the table holds at most [max_concurrent_sessions] sessions;
    each is under its own key, active, retransmitted at most
    [max_retransmissions] times; originators are ours and hold their whole
    block, receivers are a peer's and their buffer reaches the end of the
    block as far as it is known. *)
Theorem engine_invariant cfg (tm : option T) cs
    (Hcfg : config_ok cfg) (Hcs : Forall (call_ok cfg) cs) (Hlen : zlen cs < 2 ^ 64) :
  match run (perform_all cs) (init_engine cfg tm) with
  | Ok e => Z.of_nat (size (sessions e)) <= max_concurrent_sessions cfg /\
            map_Forall (session_ok cfg (session_counter e)) (sessions e)
  | Err _ => True
  end.
Proof.
  pose proof (perform_all_inv cs (init_engine cfg tm) (inv_init cfg tm Hcfg) Hcs Hlen) as Hr.
  destruct (run _ _) as [e|]; [|done]. destruct Hr as [[] Hc]. cbn in Hc. by rewrite <- Hc.
Qed.

(** The counters account for the sessions: created minus completed minus
    cancelled is the number of open ones, up to their common wrap-around. *)
Theorem engine_accounting cfg (tm : option T) cs
    (Hcfg : config_ok cfg) (Hcs : Forall (call_ok cfg) cs) (Hlen : zlen cs < 2 ^ 64) :
  match run (perform_all cs) (init_engine cfg tm) with
  | Ok e =>
      let d := diagnostics e in
      u64 (sessions_originated d + sessions_received d - sessions_completed d - sessions_cancelled d) =
        u64 (active_session_count e)
  | Err _ => True
  end.
Proof.
  pose proof (perform_all_inv cs (init_engine cfg tm) (inv_init cfg tm Hcfg) Hcs Hlen) as Hr.
  destruct (run _ _) as [e|]; [|done]. apply (inv_balance _ (proj1 Hr)).
Qed.

(** [C5] No benign call fails: from any state with the invariant a call whose
    segment decodes, whose data fits in memory and whose report lies in the
    block it is about returns, without exception or undefined behaviour, to a
    state with the invariant. *)
Theorem engine_no_fault c e
    (Hinv : inv e) (Hcall : call_ok (config e) c) (Hcount : session_counter e + 1 < 2 ^ 64) (Hb : benign e c) :
  exists e', run (perform c) e = Ok e' /\ inv e' /\ config e' = config e.
Proof.
  pose proof (perform_inv c e Hinv Hcall Hcount) as Hp. unfold wp, run in *.
  destruct (perform c e) as [[[] e']|f]; [|done]. destruct Hp as (? & ? & _). by exists e'.
Qed.
End invariant.

(** A history with the timer manager of the program: a red and a green block
    started, a peer's green block received, a checkpoint timer expiring. *)
Section witnesses.
#[local] Existing Instance one_gib.
#[local] Existing Instance Timers.manager_service.

Definition green_segment : list Z :=
  wire (plain_segment GREEN_DATA_EOB 2 1 (CData (MkData 1 0 3 None None [7; 8; 9]))).

Definition sample_calls : list call :=
  [CStart [1; 2; 3; 4; 5] true; CReceive green_segment; CStart [6] false;
   CExpire (MkEvent Timers.CHECKPOINT 1 1 1)].

Lemma sample_config_ok : config_ok (sample_config 1 2).
Proof. split; simpl; lia. Qed.

Lemma green_segment_ok : call_ok (sample_config 1 2) (CReceive green_segment).
Proof.
  split_and!; [by vm_compute|by apply (bool_decide_unpack _ (dec := Forall_dec _ _))|].
  intros seg E _. vm_compute in E. injection E as <-. simpl. lia.
Qed.

Lemma sample_calls_ok : Forall (call_ok (sample_config 1 2)) sample_calls.
Proof. repeat (constructor; [first [by vm_compute | apply green_segment_ok]|]). done. Qed.

Definition sample_run : outcome (LtpEngine (T := Timers.TimerManager)) :=
  run (perform_all sample_calls) (init_engine (sample_config 1 2) (Some Timers.init)).

Lemma sample_run_ok : is_ok sample_run.
Proof. destruct sample_run as [e|] eqn:E; [by exists e|by vm_compute in E]. Qed.

Lemma engine_invariant_witness :
  exists e, sample_run = Ok e /\
    Z.of_nat (size (sessions e)) <= 10 /\ map_Forall (session_ok (sample_config 1 2) (session_counter e)) (sessions e).
Proof.
  destruct sample_run_ok as [e E]. exists e. split; [done|].
  pose proof (engine_invariant (sample_config 1 2) (Some Timers.init) sample_calls
                sample_config_ok sample_calls_ok ltac:(simpl; lia)) as Ht.
  fold sample_run in Ht. rewrite E in Ht. destruct Ht as [Ht1 Ht2]. split; [|exact Ht2].
  eapply Z.le_trans; [exact Ht1|]. simpl. lia.
Defined.

Lemma engine_accounting_witness :
  exists e, sample_run = Ok e /\
    let d := diagnostics e in
    u64 (sessions_originated d + sessions_received d - sessions_completed d - sessions_cancelled d) =
      u64 (active_session_count e).
Proof.
  destruct sample_run_ok as [e E]. exists e. split; [done|].
  pose proof (engine_accounting (sample_config 1 2) (Some Timers.init) sample_calls
                sample_config_ok sample_calls_ok ltac:(simpl; lia)) as Ht.
  fold sample_run in Ht. by rewrite E in Ht.
Defined.

Lemma engine_no_fault_witness :
  exists e', run (perform (CReceive green_segment)) (init_engine (sample_config 1 2) (Some Timers.init)) = Ok e' /\
    inv e' /\ config e' = sample_config 1 2.
Proof.
  apply (engine_no_fault (CReceive green_segment) (init_engine (sample_config 1 2) (Some Timers.init))).
  - apply inv_init, sample_config_ok.
  - apply green_segment_ok.
  - simpl. lia.
  - eexists. split; [by vm_compute|]. intros seg [= <-]. split; simpl; lia.
Defined.

(** A peer that uses our engine id breaks this: its session is found under the
    key of our next one, [emplace] keeps it, and our block is not sent. *)
Definition forged_segment : list Z :=
  wire (plain_segment RED_DATA 1 1 (CData (MkData 1 0 3 None None [7; 8; 9]))).

Example forged_session_captures_start :
  (e ← run (perform_all [CReceive forged_segment; CStart [1; 2] true]) (init_engine (sample_config 1 2) (Some Timers.init));
   Ok (client_data <$> get_session 1 1 e)) = Ok (Some [7; 8; 9]).
Proof. vm_compute. reflexivity. Qed.
End witnesses.
End EngineInvariant.
