(* ===== verification/EngineRetry.v ===== *)
(** * Retransmission, completion and cancellation of the engine's sessions

    The originator's two ways of retrying (a checkpoint timer, a report with
    gaps), their limit, and the timers they start and cancel. *)
From S2P Require Import Prelude Sdnv Segment Tracker Timers Engine EngineLogic Segmentation EngineInvariant.
Import SegType Segment Engine EngineLogic Segmentation EngineInvariant.
Import Tracker(covers, normal).
Import Timers(TimerService, TimerServiceLaws, svc_start, svc_cancel, svc_pending, svc_ok, svc_issued, svc_room,
  svc_start_pending, svc_start_ok, svc_cancel_pending, svc_cancel_ok,
  heap, next_id, cancelled, MkEntry, TimerEvent, MkEvent, evt_type, evt_engine_id, evt_session_number, evt_serial_number).

Module EngineRetry.

(** Segmentation looks at the block, its colour and the session's identity. *)
Definition same_block (s s' : LtpSession) : Prop :=
  client_data s' = client_data s /\ s_is_red s' = s_is_red s /\
  s_engine_id s' = s_engine_id s /\ s_session_number s' = s_session_number s.

Lemma segment_loop_same s s' fuel max off n cp acc :
  same_block s s' -> segment_loop fuel s' max off n cp acc = segment_loop fuel s max off n cp acc.
Proof.
  intros (Ed & Er & Ei & En). revert off n cp acc.
  induction fuel as [|fuel IH]; intros off n cp acc; cbn [segment_loop]; [done|].
  rewrite Ed, Er, Ei, En. destruct (0 <? n); [|done]. destruct (range _ _ _) as [bs|]; [|done].
  rewrite !bind_Ok. destruct (s_is_red s); [destruct (_ =? n)|]; apply IH.
Qed.

Lemma segment_data_same s s' max cp :
  same_block s s' -> segment_data_impl s' max cp = segment_data_impl s max cp.
Proof.
  intros Hsame. pose proof Hsame as (Ed & Er & Ei & En). unfold segment_data_impl. rewrite Ed, Er, Ei, En.
  destruct (client_data s); [done|]. by apply segment_loop_same.
Qed.

(** The originator session a report is about, the session a cancel names. *)
Definition report_key (cfg : LtpEngineConfig) (seg : LtpSegment) : SessionKey :=
  (local_engine_id cfg, session_number seg).
Definition segment_key (seg : LtpSegment) : SessionKey := (engine_id seg, session_number seg).

(** The report claims every byte of the block; byte [x] is in its scope and not
    claimed. *)
Definition claims_all (rs : ReportSegContent) (data : list Z) : Prop :=
  forall x, 0 <= x < zlen data -> covers (rs_claims rs) x.
Definition unclaimed (rs : ReportSegContent) (x : Z) : Prop :=
  rs_lower_bound rs <= x < rs_upper_bound rs /\ ~ covers (rs_claims rs) x.

Section retry.
Context {T : Type} `{TimerService T} `{Allocator}.
Implicit Types (e : LtpEngine (T := T)).

(** The transmission of the block that ends with checkpoint [serial + 1]. *)
Definition transmission (max : Z) (s : LtpSession) (serial : Z) : list output :=
  match segment_data_impl s max serial with Ok (segs, _) => sending segs | Err _ => [] end.

(** The session after [n] unanswered retransmissions. *)
Definition retried (n : nat) (s : LtpSession) : LtpSession :=
  set_checkpoint_counter (u64 (checkpoint_serial_counter s + Z.of_nat n))
    (set_retransmissions (retransmission_count s + Z.of_nat n) s).

Definition checkpoint_expiry (local sn serial : Z) : call := CExpire (MkEvent Timers.CHECKPOINT local sn serial).

(** One timeout, short of the limit: the whole block again, as a new checkpoint. *)
Lemma run_timeout e key s ev :
  keyed e -> sessions e !! key = Some s -> key = (local_engine_id (config e), evt_session_number ev) ->
  evt_type ev = Timers.CHECKPOINT -> s_role s = ORIGINATOR -> s_is_red s = true ->
  0 < max_segment_size (config e) -> 0 <= retransmission_count s < max_retransmissions (config e) ->
  max_retransmissions (config e) < 255 ->
  exists e', run (handle_timer_expiry ev) e = Ok e' /\
    changes (session_counter e) (<[key := retried 1 s]> (sessions e)) (session_counters e)
      (transmission (max_segment_size (config e)) s (checkpoint_serial_counter s)) e e'.
Proof.
  intros Hk Hs Ek Et Hrole Hred Hmax Hc Hlim.
  assert (wp (handle_timer_expiry ev) (fun _ e' => changes (session_counter e) (<[key := retried 1 s]> (sessions e))
    (session_counters e) (transmission (max_segment_size (config e)) s (checkpoint_serial_counter s)) e e')
    (fun _ => False) e) as Hw.
  { apply wp_handle_timer_expiry; [done|]. rewrite Et. cbv zeta. rewrite <- Ek, Hs, decide_True by done.
    unfold retry. set (s' := set_retransmissions _ s).
    assert (retransmission_count s' = retransmission_count s + 1) as Hc' by (cbn; apply u8_small; lia).
    destruct (Z.ltb_spec (max_retransmissions (config e)) (retransmission_count s')); [lia|].
    unfold resend_all. change (checkpoint_serial_counter s') with (checkpoint_serial_counter s).
    rewrite (segment_data_same s s') by done. unfold transmission.
    destruct (segment_data_pieces s (max_segment_size (config e)) (checkpoint_serial_counter s) Hmax) as (ps & -> & _).
    rewrite bind_Ok. cbn [fst snd]. intros e' He'. unfold decided in He'. cbn [app] in He'.
    assert (set_checkpoint_counter (next_serial s (checkpoint_serial_counter s)) s' = retried 1 s) as Es.
    { unfold retried, next_serial. rewrite Hred. subst s'. unfold set_checkpoint_counter, set_retransmissions. cbn in *.
      by rewrite Hc'. }
    rewrite Es in He'. exact He'. }
  unfold wp, run in *. destruct (handle_timer_expiry ev e) as [[[] e']|]; [|done]. by exists e'.
Qed.

Lemma run_cons {A} (f : A -> M (T := T) ()) a l e :
  run (for_each f (a :: l)) e = run (f a) e ≫= run (for_each f l).
Proof. unfold run. cbn. unfold mbind at 1, M_bind. by destruct (f a e) as [[[] e']|]. Qed.

Lemma run_app {A} (f : A -> M (T := T) ()) l1 l2 e :
  run (for_each f (l1 ++ l2)) e = run (for_each f l1) e ≫= run (for_each f l2).
Proof.
  revert e. induction l1 as [|a l1 IH]; intros e; [done|]. cbn [app]. rewrite !run_cons.
  destruct (run (f a) e) as [e1|]; [|done]. rewrite !bind_Ok. apply IH.
Qed.

(** The outputs of [n] retransmissions in a row. *)
Fixpoint transmissions (n : nat) (max : Z) (s : LtpSession) : list output :=
  match n with
  | O => []
  | S n' => transmission max s (checkpoint_serial_counter s) ++ transmissions n' max (retried 1 s)
  end.

Lemma retried_retried n s : retried n (retried 1 s) = retried (S n) s.
Proof.
  unfold retried, set_checkpoint_counter, set_retransmissions. cbn [checkpoint_serial_counter retransmission_count
    s_engine_id s_session_number s_role s_state client_data total_data_length s_is_red reception_tracker
    report_serial_counter]. f_equal; [|lia].
  unfold u64. rewrite Zplus_mod_idemp_l. f_equal. lia.
Qed.

Lemma retried_0 s : is_u64 (checkpoint_serial_counter s) -> retried 0 s = s.
Proof.
  intros. unfold retried. rewrite !Z.add_0_r, u64_small by done. by destruct s.
Qed.

Lemma run_timeouts n e key s ev :
  keyed e -> sessions e !! key = Some s -> key = (local_engine_id (config e), evt_session_number ev) ->
  evt_type ev = Timers.CHECKPOINT -> s_role s = ORIGINATOR -> s_is_red s = true ->
  0 < max_segment_size (config e) -> is_u64 (checkpoint_serial_counter s) ->
  0 <= retransmission_count s -> retransmission_count s + Z.of_nat n <= max_retransmissions (config e) ->
  max_retransmissions (config e) < 255 ->
  exists e', run (perform_all (replicate n (CExpire ev))) e = Ok e' /\
    changes (session_counter e) (<[key := retried n s]> (sessions e)) (session_counters e)
      (transmissions n (max_segment_size (config e)) s) e e'.
Proof.
  revert e s. induction n as [|n IH]; intros e s Hk Hs Ek Et Hr Hred Hmax Hcp Hc0 Hc Hlim.
  - exists e. split; [done|]. rewrite retried_0, insert_id by done. apply sends_refl.
  - destruct (run_timeout e key s ev) as (e1 & H1 & Hch); [done..|lia|done|].
    pose proof (changes_config _ _ _ _ _ _ Hch) as Ec. pose proof (changes_sessions _ _ _ _ _ _ Hch) as Es.
    destruct (Hk _ _ Hs) as [Hkey Hact].
    destruct (IH e1 (retried 1 s)) as (e2 & H2 & Hch2); rewrite ?Ec; try done.
    + unfold keyed. rewrite Es. apply map_Forall_insert_2; [done|exact Hk].
    + rewrite Es. apply lookup_insert_eq.
    + apply u64_range.
    + cbn. lia.
    + cbn. lia.
    + exists e2. split.
      * unfold perform_all in *. cbn [replicate]. rewrite run_cons. cbn [perform]. by rewrite H1.
      * cbn [transmissions]. rewrite Ec in Hch2. chain. by rewrite insert_insert_eq, retried_retried.
Qed.

(** The timeout after the last one allowed. *)
Lemma run_last_timeout e key s ev :
  keyed e -> sessions e !! key = Some s -> key = (local_engine_id (config e), evt_session_number ev) ->
  evt_type ev = Timers.CHECKPOINT -> s_role s = ORIGINATOR ->
  retransmission_count s = max_retransmissions (config e) -> 0 <= max_retransmissions (config e) < 255 ->
  exists e', run (handle_timer_expiry ev) e = Ok e' /\
    changes (session_counter e) (delete key (sessions e))
      (bump_session_counter SessionsCancelled (session_counters e)) (abandon s).1.2 e e'.
Proof.
  intros Hk Hs Ek Et Hrole Hc Hlim.
  assert (wp (handle_timer_expiry ev) (fun _ e' => changes (session_counter e) (delete key (sessions e))
    (bump_session_counter SessionsCancelled (session_counters e)) (abandon s).1.2 e e') (fun _ => False) e) as Hw.
  { apply wp_handle_timer_expiry; [done|]. rewrite Et. cbv zeta. rewrite <- Ek, Hs, decide_True by done.
    unfold retry. set (s' := set_retransmissions _ s).
    assert (retransmission_count s' = retransmission_count s + 1) as Hc' by (cbn; apply u8_small; lia).
    rewrite (proj2 (Z.ltb_lt _ _)) by lia. by intros e' He'. }
  unfold wp, run in *. destruct (handle_timer_expiry ev e) as [[[] e']|]; [|done]. by exists e'.
Qed.

Lemma wp_run_ok (m : M (T := T) ()) Q e : wp m (fun _ => Q) (fun _ => False) e -> exists e', run m e = Ok e' /\ Q e'.
Proof. unfold wp, run. destruct (m e) as [[[] e']|]; [by exists e'|done]. Qed.

Lemma fully_received_complete s claims :
  fully_received s claims = Tracker.is_complete (total_data_length s) claims.
Proof.
  unfold fully_received, Tracker.is_complete. destruct (_ =? 0); [done|]. by destruct claims as [|c [|c' claims]].
Qed.

(** A report that claims the whole block of an originator session. *)
Lemma run_report_complete e seg rs s :
  inv e -> content seg = CReport rs -> sessions e !! (local_engine_id (config e), session_number seg) = Some s ->
  s_role s = ORIGINATOR -> normal 0 (rs_claims rs) ->
  (forall x, covers (rs_claims rs) x -> x < zlen (client_data s)) ->
  (forall x, 0 <= x < zlen (client_data s) -> covers (rs_claims rs) x) ->
  exists e', run (receive_report_segment seg) e = Ok e' /\
    sessions e' = delete (local_engine_id (config e), session_number seg) (sessions e) /\
    outputs e' = outputs e ++ [SendSegment (wire (report_ack seg rs)); SessionComplete (session_number seg)].
Proof.
  intros Hinv Hc Hs Hrole Hclaims Hin Hall.
  destruct (inv_sessions _ Hinv _ _ Hs) as [[= Ek1 Ek2] _ Hcnt Hrl]. rewrite Hrole in Hrl.
  destruct Hrl as (_ & _ & Htot & Hsz). apply wp_run_ok.
  apply (wp_receive_report _ rs); [done|by apply inv_keyed|]. cbv zeta. rewrite Hs, decide_True by done.
  unfold on_report. rewrite fully_received_complete, Htot.
  rewrite Tracker.covers_is_complete by done || lia.
  intros e' [_ _ Es _ Eo]. by rewrite Es, Eo, <- Ek2.
Qed.

(** A report that does not: exactly the missing bytes of its scope. *)
Lemma run_report_resend e seg rs s :
  inv e -> wf_segment seg -> content seg = CReport rs ->
  sessions e !! (local_engine_id (config e), session_number seg) = Some s ->
  s_role s = ORIGINATOR -> normal 0 (rs_claims rs) ->
  (forall x, covers (rs_claims rs) x -> x < zlen (client_data s)) ->
  rs_upper_bound rs <= zlen (client_data s) ->
  retransmission_count s < max_retransmissions (config e) < 255 ->
  ~ (forall x, 0 <= x < zlen (client_data s) -> covers (rs_claims rs) x) ->
  exists e' s' ps, run (receive_report_segment seg) e = Ok e' /\
    sessions e' = <[(local_engine_id (config e), session_number seg) := s']> (sessions e) /\
    same_block s s' /\ s_role s' = ORIGINATOR /\ retransmission_count s' <= retransmission_count s + 1 /\
    outputs e' = outputs e ++ SendSegment (wire (report_ack seg rs)) ::
      sending (with_last (resent_segment s)
                 (checkpoint_segment s (u64 (checkpoint_serial_counter s + 1))) ps) /\
    ascending (rs_lower_bound rs) ps /\ Forall (piece_of (client_data s) (max_segment_size (config e))) ps /\
    forall x, in_pieces ps x <-> rs_lower_bound rs <= x < rs_upper_bound rs /\ ~ covers (rs_claims rs) x.
Proof.
  intros Hinv Hwf Hc Hs Hrole Hclaims Hin Hup Hcount Hnot. set (key := (_, session_number seg)).
  pose proof (wf_body _ Hwf) as Hb. rewrite Hc in Hb. destruct Hb as (_ & _ & _ & _ & Hlow & _).
  destruct (inv_sessions _ Hinv _ _ Hs) as [[= Ek1 Ek2] _ Hcnt Hrl]. rewrite Hrole in Hrl.
  destruct Hrl as (_ & _ & Htot & Hsz).
  enough (exists e', run (receive_report_segment seg) e = Ok e' /\ exists s' ps,
    sessions e' = <[key := s']> (sessions e) /\ same_block s s' /\ s_role s' = ORIGINATOR /\
    retransmission_count s' <= retransmission_count s + 1 /\
    outputs e' = outputs e ++ SendSegment (wire (report_ack seg rs)) ::
      sending (with_last (resent_segment s)
                 (checkpoint_segment s (u64 (checkpoint_serial_counter s + 1))) ps) /\
    ascending (rs_lower_bound rs) ps /\ Forall (piece_of (client_data s) (max_segment_size (config e))) ps /\
    forall x, in_pieces ps x <-> rs_lower_bound rs <= x < rs_upper_bound rs /\ ~ covers (rs_claims rs) x)
    as (e' & ? & s' & ps & ?) by (by exists e', s', ps).
  apply wp_run_ok. apply (wp_receive_report _ rs); [done|by apply inv_keyed|]. cbv zeta.
  rewrite Hs, decide_True by done. fold key. unfold on_report. rewrite fully_received_complete, Htot.
  destruct (Tracker.is_complete _ _) eqn:Hcomp; [by destruct Hnot; apply Tracker.is_complete_covers|].
  rewrite compute_gaps_get_gaps.
  destruct (Tracker.get_gaps_spec (rs_claims rs) (rs_lower_bound rs) (rs_upper_bound rs)) as [Hgn Hgx];
    [done|apply Hlow|lia|].
  destruct (Tracker.get_gaps _ _ _) as [|g gaps] eqn:Hg.
  { intros e' [_ _ Es _ Eo]. exists s, []. cbn [put] in Es. split_and!; [done..|lia| |done|done|].
    - exact Eo.
    - intros x. rewrite <- Hgx, Tracker.covers_nil. split; [by intros (p & Hp%elem_of_nil & _)|done]. }
  unfold retry. set (s' := set_retransmissions _ s).
  assert (retransmission_count s' = retransmission_count s + 1) as Hc' by (cbn; apply u8_small; lia).
  rewrite (proj2 (Z.ltb_ge _ _)) by lia. unfold resend.
  assert (forall x, covers (g :: gaps) x -> x < zlen (client_data s')) as Hgin by (intros x [? _]%Hgx; cbn; lia).
  rewrite (gaps_segments_pieces _ _ _ _ (rs_lower_bound rs)); [|apply Hinv|done|apply Hlow|done|done].
  rewrite bind_Ok. cbn [app]. rewrite mark_last_pieces, bind_Ok.
  destruct (gap_pieces_spec (client_data s') (max_segment_size (config e)) (g :: gaps) (rs_lower_bound rs))
    as (P1 & P2 & P3); [apply Hinv|apply Hlow|done|done|].
  intros e' [_ _ Es _ Eo]. eexists _, (gap_pieces (client_data s') (max_segment_size (config e)) (g :: gaps)).
  split_and!; [exact Es| | | |exact Eo|exact P1|exact P2|].
  1-3: destruct (with_last _ _ _); try done; cbn in *; lia.
  intros x. by rewrite P3, Hgx.
Qed.

(** ** Properties *)

(** [C18] An unanswered red session ends: after exactly as many checkpoint
    timeouts as [max_retransmissions] allows, each of which sends the whole
    block again with the next checkpoint serial, the next timeout cancels the
    session, tells the peer and the caller, and removes it. *)
Theorem timeouts_end_session e key s ev
    (Hinv : inv e) (Hs : sessions e !! key = Some s) (Hrole : s_role s = ORIGINATOR) (Hred : s_is_red s = true)
    (Hev : evt_type ev = Timers.CHECKPOINT) (Hkey : key = (local_engine_id (config e), evt_session_number ev))
    (Hserial : is_u64 (checkpoint_serial_counter s)) (Hcount : retransmission_count s = 0)
    (Hmax : max_retransmissions (config e) < 255) :
  let n := Z.to_nat (max_retransmissions (config e)) in
  exists e', run (perform_all (replicate (S n) (CExpire ev))) e = Ok e' /\
    sessions e' = delete key (sessions e) /\
    outputs e' = outputs e ++ transmissions n (max_segment_size (config e)) s ++
      [SendSegment (wire (cancel_segment (s_engine_id s) (s_session_number s) 1 s));
       SessionFailure (s_session_number s) 1].
Proof.
  intros n. pose proof (inv_keyed _ Hinv) as Hk. destruct Hinv as [[Hseg Hret Hcs] _ _ _ _].
  destruct (run_timeouts n e key s ev) as (e1 & H1 & Hc1); [done..|lia|lia|done|].
  pose proof (changes_config _ _ _ _ _ _ Hc1) as Ec. pose proof (changes_sessions _ _ _ _ _ _ Hc1) as Es.
  destruct (Hk _ _ Hs) as [Hks Hact].
  destruct (run_last_timeout e1 key (retried n s) ev) as (e2 & H2 & Hc2); rewrite ?Ec; try done.
  - unfold keyed. rewrite Es. by apply map_Forall_insert_2.
  - rewrite Es. apply lookup_insert_eq.
  - cbn. lia.
  - lia.
  - exists e2. split.
    + replace (S n) with (n + 1)%nat by lia. unfold perform_all in *. rewrite replicate_add, run_app, H1, bind_Ok.
      cbn [replicate]. rewrite run_cons. cbn [perform]. by rewrite H2.
    + split; [rewrite (changes_sessions _ _ _ _ _ _ Hc2), Es; by apply delete_insert_eq|].
      by rewrite (changes_outputs _ _ _ _ _ _ Hc2), (changes_outputs _ _ _ _ _ _ Hc1), <- app_assoc.
Qed.

(** [C17] The originator's answer to a report about its block, with the limit
    of retransmissions not reached: a report that claims the whole block
    completes the session; any other one is answered, after its
    acknowledgement, with exactly the unclaimed bytes of its scope, in pieces
    of at most [max_segment_size] whose last one is the next checkpoint, and
    the session stays open. *)
Theorem report_answer e seg rs s
    (Hinv : inv e) (Hwf : wf_segment seg) (Hc : content seg = CReport rs)
    (Hs : sessions e !! report_key (config e) seg = Some s)
    (Hrole : s_role s = ORIGINATOR) (Hclaims : normal 0 (rs_claims rs))
    (Hin : forall x, covers (rs_claims rs) x -> x < zlen (client_data s))
    (Hup : rs_upper_bound rs <= zlen (client_data s))
    (Hcount : retransmission_count s < max_retransmissions (config e) < 255) :
  let key := report_key (config e) seg in
  exists e', run (receive_report_segment seg) e = Ok e' /\
    (claims_all rs (client_data s) ->
       sessions e' = delete key (sessions e) /\
       outputs e' = outputs e ++ [SendSegment (wire (report_ack seg rs)); SessionComplete (session_number seg)]) /\
    (~ claims_all rs (client_data s) ->
       is_Some (sessions e' !! key) /\
       exists ps, outputs e' = outputs e ++ SendSegment (wire (report_ack seg rs)) ::
           sending (with_last (resent_segment s)
                      (checkpoint_segment s (u64 (checkpoint_serial_counter s + 1))) ps) /\
         ascending (rs_lower_bound rs) ps /\ Forall (piece_of (client_data s) (max_segment_size (config e))) ps /\
         forall x, in_pieces ps x <-> unclaimed rs x).
Proof.
  intros key. destruct (decide (Tracker.is_complete (zlen (client_data s)) (rs_claims rs) = true)) as [Hf|Hf].
  - destruct (run_report_complete e seg rs s) as (e' & Hr & Es & Eo); [done..|by apply Tracker.is_complete_covers|].
    exists e'. split; [done|]. split; [done|]. intros Hno. destruct Hno. intros x. by apply Tracker.is_complete_covers.
  - assert (~ (forall x, 0 <= x < zlen (client_data s) -> covers (rs_claims rs) x)) as Hnot.
    { intros Hall. by apply Hf, Tracker.covers_is_complete; [|lia|..]. }
    destruct (run_report_resend e seg rs s) as (e' & s' & ps & Hr & Es & _ & _ & _ & Hps); [done..|].
    exists e'. split; [done|]. split; [done|]. intros _. split; [|by exists ps].
    fold key in Es. rewrite Es, lookup_insert_eq. by eexists.
Qed.

(** Whatever it says, a cancel from the peer is acknowledged, ends the
    session it names if there is one, with one notification, and changes
    nothing else; a repetition of it is only acknowledged again. *)
Theorem cancel_acknowledged e seg cc
    (Hc : content seg = CCancel cc) :
  let key := segment_key seg in
  let ack := SendSegment (wire (cancel_ack seg)) in
  exists e', run (receive_cancel_segment seg ;; receive_cancel_segment seg) e = Ok e' /\
    sessions e' = delete key (sessions e) /\
    outputs e' = outputs e ++ ack ::
      match sessions e !! key with
      | Some s => [SessionFailure (s_session_number s) (cc_reason_code cc)]
      | None => []
      end ++ [ack].
Proof.
  intros key ack. apply wp_run_ok, wp_bind, (wp_receive_cancel _ cc); [done|].
  intros e1 [_ _ Es1 _ Eo1]. apply (wp_receive_cancel _ cc); [done|]. intros e2 [_ _ Es2 _ Eo2].
  fold (segment_key seg) in Es1, Es2, Eo1, Eo2. fold key in Es1, Es2, Eo1, Eo2. rewrite Es2, Eo2, Es1, Eo1, lookup_delete_eq, delete_delete_eq.
  split; [done|]. by rewrite <- app_assoc.
Qed.

(** The exact effect of sending a report acknowledgement. *)
Lemma wp_send_report_ack a b c Q F e :
  Q tt (with_output (SendSegment (wire (plain_segment REPORT_ACK a b (CRptAck (MkRptAck c))))) (with_count ReportAcksSent e)) ->
  wp (send_report_ack a b c) Q F e.
Proof.
  intros HQ. unfold send_report_ack, send_segment. apply wp_bind, wp_modify.
  apply wp_bind, (wp_lift_ok _ (wire (plain_segment REPORT_ACK a b (CRptAck (MkRptAck c))))); [by apply encode_fits|].
  by apply wp_modify.
Qed.

(** A report that completes a session also stops the checkpoint it
    answers: the timer started for that checkpoint will not fire any more, its
    entry is gone, and no other timer is affected. Any timer service with the
    laws of [TimerServiceLaws] will do. *)
Theorem report_stops_checkpoint_timer `{!TimerServiceLaws T} e seg rs s t tid
    (Hinv : inv e) (Hc : content seg = CReport rs)
    (Hs : sessions e !! report_key (config e) seg = Some s)
    (Hrole : s_role s = ORIGINATOR) (Hfull : fully_received s (rs_claims rs) = true)
    (Ht : timer_manager e = Some t) (Hok : svc_ok t)
    (Htid : checkpoint_timers e !! timer_key (session_number seg) (rs_checkpoint_serial rs) = Some tid) :
  exists e' t', run (receive_report_segment seg) e = Ok e' /\
    sessions e' = delete (report_key (config e) seg) (sessions e) /\
    timer_manager e' = Some t' /\ svc_pending t' tid = None /\
    (forall id, id <> tid -> svc_pending t' id = svc_pending t id) /\
    checkpoint_timers e' = delete (timer_key (session_number seg) (rs_checkpoint_serial rs)) (checkpoint_timers e).
Proof.
  destruct (svc_cancel_pending t tid Hok) as [Hp Hother].
  enough (exists e', run (receive_report_segment seg) e = Ok e' /\
    sessions e' = delete (report_key (config e) seg) (sessions e) /\
    timer_manager e' = Some (svc_cancel tid t) /\
    checkpoint_timers e' = delete (timer_key (session_number seg) (rs_checkpoint_serial rs)) (checkpoint_timers e))
    as (e' & ? & ? & ? & ?) by (exists e', (svc_cancel tid t); done).
  apply wp_run_ok. unfold receive_report_segment. apply wp_bind, wp_modify.
  apply wp_bind, (wp_lift_ok _ rs); [by rewrite Hc|]. apply wp_bind, wp_get. cbn [config sessions with_count].
  fold (report_key (config e) seg). rewrite Hs, Hrole, bool_decide_eq_true_2 by done.
  rewrite (proj2 (inv_keyed _ Hinv _ _ Hs)), bool_decide_eq_true_2 by done. cbn [negb].
  apply wp_bind, wp_send_report_ack, wp_bind, wp_get, wp_bind. unfold cancel_engine_timer.
  cbn [checkpoint_timers with_output with_count]. rewrite Htid.
  apply wp_bind, wp_get, wp_bind. cbn [timer_manager with_output with_count]. rewrite Ht.
  do 2 apply wp_modify. rewrite Hfull. apply wp_bind, (wp_assign _ _ s); [done|].
  apply wp_bind, wp_modify, wp_bind, wp_modify, wp_modify. cbn. by rewrite delete_insert_eq.
Qed.
End retry.

(** ** Witnesses: a red block of five bytes, and reports about it *)
Section witnesses.
#[local] Existing Instance one_gib.
#[local] Existing Instances Timers.manager_service Timers.manager_service_laws.

Definition started : LtpEngine (T := Timers.TimerManager) :=
  match run (perform_all [CStart [1; 2; 3; 4; 5] true]) (init_engine (sample_config 1 2) (Some Timers.init)) with
  | Ok e => e
  | Err _ => init_engine (sample_config 1 2) (Some Timers.init)
  end.

Definition started_session : LtpSession := set_checkpoint_counter 1 (new_originator 1 1 [1; 2; 3; 4; 5] true).

Lemma started_inv : inv started.
Proof.
  pose proof (perform_all_inv [CStart [1; 2; 3; 4; 5] true] (init_engine (sample_config 1 2) (Some Timers.init))
    (inv_init _ _ sample_config_ok)) as Hr.
  unfold started. destruct (run _ _) as [e|] eqn:E; [|by vm_compute in E].
  apply Hr; [|simpl; lia]. constructor; [by vm_compute|done].
Qed.

Lemma started_lookup : sessions started !! (1, 1) = Some started_session.
Proof. by vm_compute. Qed.

Lemma timeouts_end_session_witness :
  exists e', run (perform_all (replicate 4 (checkpoint_expiry 1 1 1))) started = Ok e' /\
    sessions e' = delete (1, 1) (sessions started) /\
    outputs e' = outputs started ++ transmissions 3 2 started_session ++
      [SendSegment (wire (cancel_segment 1 1 1 started_session)); SessionFailure 1 1].
Proof.
  apply (timeouts_end_session started (1, 1) started_session (MkEvent Timers.CHECKPOINT 1 1 1));
    [apply started_inv|apply started_lookup|done..|by split|done|by vm_compute].
Defined.

(** With a limit of 255 the 8-bit counter wraps before it exceeds it: the
    256th timeout sends the block again instead of giving up. *)
Definition patient_config : LtpEngineConfig := MkConfig 1 2 1400 1000 255 10.
Example limit_255_never_reached :
  (e ← run (perform_all (CStart [1] true :: replicate 256 (checkpoint_expiry 1 1 1)))
         (init_engine patient_config (None : option Timers.TimerManager));
   Ok (retransmission_count <$> get_session 1 1 e)) = Ok (Some 0).
Proof. vm_compute. reflexivity. Qed.

Definition block_report (claims : list ReceptionClaim) : LtpSegment :=
  plain_segment REPORT_SEGMENT 1 1 (CReport (MkReport 1 1 5 0 claims)).

Lemma block_report_wf claims :
  Forall wf_claim claims -> zlen claims * 16 < 2 ^ 63 -> wf_segment (block_report claims).
Proof. intros. split; try done; try apply Forall_nil_2. Qed.

Lemma report_answer_witness :
  exists e', run (receive_report_segment (block_report [MkClaim 2 2])) started = Ok e' /\
    is_Some (sessions e' !! (1, 1)).
Proof.
  destruct (report_answer started (block_report [MkClaim 2 2]) (MkReport 1 1 5 0 [MkClaim 2 2]) started_session)
    as (e' & Hr & _ & Hopen).
  - apply started_inv.
  - apply block_report_wf; [|simpl; lia]. constructor; [|done]. split; by split.
  - done.
  - apply started_lookup.
  - done.
  - simpl. lia.
  - intros x. cbn [rs_claims]. rewrite Tracker.covers_cons, Tracker.covers_nil. simpl. lia.
  - simpl. lia.
  - by vm_compute.
  - exists e'. split; [exact Hr|]. apply Hopen. intros Hall. specialize (Hall 0). unfold claims_all in Hall. cbn [rs_claims] in Hall.
    rewrite Tracker.covers_cons, Tracker.covers_nil in Hall. simpl in Hall. lia.
Defined.

Lemma cancel_acknowledged_witness :
  exists e', run (receive_cancel_segment (plain_segment CANCEL_BY_SENDER 1 1 (CCancel (MkCancel 3))) ;;
                  receive_cancel_segment (plain_segment CANCEL_BY_SENDER 1 1 (CCancel (MkCancel 3)))) started = Ok e' /\
    sessions e' = delete (1, 1) (sessions started).
Proof.
  destruct (cancel_acknowledged started (plain_segment CANCEL_BY_SENDER 1 1 (CCancel (MkCancel 3))) (MkCancel 3) eq_refl)
    as (e' & Hr & Hs & _).
  by exists e'.
Defined.

Definition started_timers : Timers.TimerManager :=
  match timer_manager started with Some t => t | None => Timers.init end.

Lemma report_stops_checkpoint_timer_witness :
  exists e' t', run (receive_report_segment (block_report [MkClaim 0 5])) started = Ok e' /\
    timer_manager e' = Some t' /\ svc_pending started_timers 1 <> None /\ svc_pending t' 1 = None.
Proof.
  destruct (report_stops_checkpoint_timer started (block_report [MkClaim 0 5]) (MkReport 1 1 5 0 [MkClaim 0 5])
    started_session started_timers 1) as (e' & t' & Hr & _ & Ht & Hp & _).
  - apply started_inv.
  - done.
  - apply started_lookup.
  - done.
  - by vm_compute.
  - by vm_compute.
  - assert (heap started_timers = [MkEntry 1 1000 (MkEvent Timers.CHECKPOINT 1 1 1)] /\
            next_id started_timers = 1 /\ cancelled started_timers = ∅) as (Eh & En & Ec) by (by vm_compute).
    split; rewrite ?Eh, ?En, ?Ec; [lia|intros x ->%list_elem_of_singleton; done|set_solver].
  - by vm_compute.
  - exists e', t'. split_and!; [exact Hr|exact Ht| |exact Hp]. by vm_compute.
Defined.
End witnesses.
End EngineRetry.
