(* ===== verification/Delivery.v ===== *)
(** * What a receiver delivers

    The peers' blocks, the segments a network that may lose, repeat, reorder
    and interleave them can bring, and the receiver session's invariant: its
    buffer agrees with the block wherever its tracker says bytes arrived. *)
From S2P Require Import Prelude Sdnv Segment Tracker Timers Engine EngineLogic Segmentation EngineInvariant.
Import SegType Segment Engine EngineLogic Segmentation EngineInvariant.
Import Tracker(add_range, is_complete, covers, normal).
Import Timers(TimerService, TimerEvent, evt_type, evt_engine_id, evt_session_number, evt_serial_number).

Module Delivery.

(** A block, and whether it is sent as red data. *)
Record Block := MkBlock { red : bool; contents : list Z }.

(** [seg] carries a piece of block [b], and marks the end of the block only
    there. *)
Record carries (b : Block) (type : Z) (ds : DataSegContent) : Prop := {
  carries_colour : is_red type = red b;
  carries_offset : 0 <= ds_offset ds;
  carries_length : ds_length ds = zlen (ds_data ds);
  carries_range : range (contents b) (ds_offset ds) (ds_length ds) = Ok (ds_data ds);
  carries_end : has_eob type = true -> ds_offset ds + ds_length ds = zlen (contents b) }.

(** The receiver session's buffer: the block where bytes arrived, zero
    elsewhere; the end of the block, once known, is right. *)
Record rx_ok (b : Block) (s : LtpSession) : Prop := {
  rx_normal : normal 0 (reception_tracker s);
  rx_inside x : covers (reception_tracker s) x -> x < zlen (client_data s);
  rx_length : zlen (client_data s) <= zlen (contents b);
  rx_received (i : nat) : covers (reception_tracker s) (Z.of_nat i) -> client_data s !! i = contents b !! i;
  rx_missing (i : nat) : ~ covers (reception_tracker s) (Z.of_nat i) -> (i < length (client_data s))%nat ->
    client_data s !! i = Some 0;
  rx_total : total_data_length s = 0 \/
    total_data_length s = zlen (contents b) /\ zlen (client_data s) = zlen (contents b) }.

(** What may be delivered of block [b]: all of it if it is red; if it is green,
    as many bytes, zero where a segment was lost. *)
Definition delivers (b : Block) (d : list Z) : Prop :=
  if red b then d = contents b
  else length d = length (contents b) /\
       forall i : nat, (i < length d)%nat -> d !! i = contents b !! i \/ d !! i = Some 0.

Lemma store_lookup {A} (l l' bs : list A) off (i : nat) :
  store l off bs = Ok l' ->
  l' !! i = if bool_decide (off <= Z.of_nat i < off + zlen bs) then bs !! (i - Z.to_nat off)%nat else l !! i.
Proof.
  unfold store. case_bool_decide as Hr; [|done]. intros [= <-].
  assert (length (take (Z.to_nat off) l) = Z.to_nat off) as Ht by (rewrite length_take; lia).
  case_bool_decide as Hi.
  - rewrite lookup_app_r by lia. rewrite Ht. apply lookup_app_l. lia.
  - destruct (decide (i < Z.to_nat off)%nat).
    + rewrite lookup_app_l by lia. by apply lookup_take_lt.
    + rewrite lookup_app_r, lookup_app_r by lia. rewrite lookup_drop. f_equal. lia.
Qed.

Lemma range_lookup {A} (l bs : list A) off n (i : nat) :
  range l off n = Ok bs -> off <= Z.of_nat i < off + n -> bs !! (i - Z.to_nat off)%nat = l !! i.
Proof.
  unfold range. case_bool_decide; [|done]. intros [= <-] ?. rewrite lookup_take_lt by lia.
  rewrite lookup_drop. f_equal. lia.
Qed.

Section stored.
Context `{Allocator}.

Lemma grow_to_inv seg_end data data' :
  grow_to seg_end data = Ok data' -> data' = data ++ replicate (Z.to_nat seg_end - length data) 0.
Proof.
  unfold grow_to. destruct (Z.ltb_spec (zlen data) seg_end).
  - intros Hg. apply bind_ok in Hg as (u & _ & Hg). by simplify_eq.
  - intros [= <-]. replace (Z.to_nat seg_end - length data)%nat with 0%nat by lia. by rewrite app_nil_r.
Qed.

Lemma rx_new b engine session type : rx_ok b (new_receiver engine session type).
Proof.
  split; cbn; try done; try (intros ? Hx; by apply Tracker.covers_nil in Hx); try lia.
Qed.

(** The buffer after a piece: the block's bytes in the piece, and elsewhere
    what was there, or zero. *)
Lemma stored_buffer (b : Block) (ds : DataSegContent) (data data1 data2 : list Z) :
  0 <= ds_offset ds -> ds_length ds = zlen (ds_data ds) -> range (contents b) (ds_offset ds) (ds_length ds) = Ok (ds_data ds) ->
  grow_to (ds_offset ds + ds_length ds) data = Ok data1 ->
  (if 0 <? ds_length ds then store data1 (ds_offset ds) (ds_data ds) else Ok data1) = Ok data2 ->
  zlen data2 = Z.max (zlen data) (ds_offset ds + ds_length ds) /\
  forall i : nat, (i < length data2)%nat -> data2 !! i =
    if bool_decide (ds_offset ds <= Z.of_nat i < ds_offset ds + ds_length ds) then contents b !! i
    else if bool_decide (i < length data)%nat then data !! i else Some 0.
Proof.
  intros Ho Hl Hr Hg Hs. apply grow_to_inv in Hg as ->. set (data1 := data ++ _) in *.
  assert (zlen data1 = Z.max (zlen data) (ds_offset ds + ds_length ds)) as L1 by (unfold data1; rewrite length_app, length_replicate; lia).
  assert (forall i : nat, (i < length data1)%nat -> data1 !! i = if bool_decide (i < length data)%nat then data !! i else Some 0) as Hd1.
  { intros i Hi. unfold data1 in *. rewrite length_app, length_replicate in Hi. case_bool_decide; [by apply lookup_app_l|].
    rewrite lookup_app_r by lia. apply lookup_replicate_2. lia. }
  destruct (Z.ltb_spec 0 (ds_length ds)).
  - pose proof (store_spec data1 (ds_offset ds) (ds_data ds)) as Hsp. rewrite Hs in Hsp. destruct Hsp as [Hlen _]. split; [lia|].
    intros i Hi. rewrite (store_lookup _ _ _ _ _ Hs), <- Hl. case_bool_decide; [|apply Hd1; lia].
    eapply range_lookup; [exact Hr|]. lia.
  - injection Hs as <-. split; [lia|]. intros i Hi. rewrite bool_decide_eq_false_2 by lia. by apply Hd1.
Qed.

(** The arrival of a piece keeps the buffer right and adds the piece. *)
Lemma stored_rx b type ds s s' :
  rx_ok b s -> carries b type ds -> zlen (contents b) < 2 ^ 63 -> stored type ds s = Ok s' ->
  rx_ok b s' /\
  (forall x, covers (reception_tracker s') x <->
             ds_offset ds <= x < ds_offset ds + ds_length ds \/ covers (reception_tracker s) x) /\
  total_data_length s' = (if has_eob type then zlen (contents b) else total_data_length s).
Proof.
  intros [Rn Ri Rl Rr Rm Rt] [_ Ho Hl Hr He] Hb Hst.
  assert (ds_offset ds + ds_length ds <= zlen (contents b)) as Hin by (unfold range in Hr; case_bool_decide; [lia|done]).
  unfold stored in Hst. rewrite u64_small in Hst by lia.
  apply bind_ok in Hst as (data1 & Hg & Hst). apply bind_ok in Hst as (data2 & Hs & Hst).
  destruct (stored_buffer b ds _ data1 data2 Ho Hl Hr Hg Hs) as [L2 Hd2]. clear Hg Hs.
  destruct (Tracker.add_range_spec (ds_offset ds) (ds_length ds) (reception_tracker s)) as [Tn Tx]; [done|lia..|].
  set (rs' := add_range (ds_offset ds) (ds_length ds) (reception_tracker s)) in *.
  assert (client_data s' = data2 /\ reception_tracker s' = rs' /\
    total_data_length s' = if has_eob type then zlen (contents b) else total_data_length s) as (Ecd & Ers & Etot).
  { destruct (has_eob type); simplify_eq; cbn; [by rewrite He|done]. }
  split; [|by rewrite Ers]. split; rewrite ?Ecd, ?Ers, ?Etot.
  - done.
  - intros x [?|?%Ri]%Tx; lia.
  - lia.
  - intros i Hi%Tx. assert (i < length data2)%nat by (destruct Hi as [|?%Ri]; lia). rewrite Hd2 by done. case_bool_decide; [done|].
    destruct Hi as [|Hi]; [done|]. rewrite bool_decide_eq_true_2 by (apply Ri in Hi; lia). by apply Rr.
  - intros i Hi Hlen. rewrite Hd2 by done. rewrite bool_decide_eq_false_2 by (intros ?; apply Hi, Tx; auto). case_bool_decide; [|done].
    apply Rm; [|done]. intros ?. apply Hi, Tx. auto.
  - destruct (has_eob type); [right; rewrite <- He by done; lia|]. destruct Rt as [|[? ?]]; [by left|right; lia].
Qed.

End stored.

(** ** Deliveries *)

Lemma range_all {A} (l : list A) n : n = zlen l -> range l 0 n = Ok l.
Proof. intros ->. rewrite range_ok by lia. rewrite Nat2Z.id. cbn. by rewrite take_ge. Qed.

Lemma delivers_partial b s :
  rx_ok b s -> red b = false -> zlen (client_data s) = zlen (contents b) -> delivers b (client_data s).
Proof.
  intros [Rn Ri Rl Rr Rm Rt] Hg Hl. unfold delivers. rewrite Hg. split; [lia|]. intros i Hi.
  destruct (decide (Exists (fun c => claim_offset c <= Z.of_nat i < claim_offset c + claim_length c) (reception_tracker s)))
    as [(c & Hc & Hx)%Exists_exists|Hno].
  - left. apply Rr. by exists c.
  - right. apply Rm; [|done]. intros (c & Hc & Hx). apply Hno, Exists_exists. by exists c.
Qed.

Lemma delivers_complete b s :
  rx_ok b s -> total_data_length s = zlen (contents b) -> zlen (client_data s) = zlen (contents b) ->
  is_complete (total_data_length s) (reception_tracker s) = true -> client_data s = contents b.
Proof.
  intros [Rn Ri Rl Rr Rm Rt] Ht Hl Hc. apply list_eq_same_length with (length (contents b)); [done|lia|].
  intros i x y Hi Hx Hy. rewrite Rr in Hx by (eapply Tracker.is_complete_covers; [done|exact Hc|lia]). congruence.
Qed.

Lemma delivers_whole b d : d = contents b -> delivers b d.
Proof. intros ->. unfold delivers. destruct (red b); [done|]. auto. Qed.

Section sound.
Context {T : Type} `{TimerService T} `{Allocator}.
Context (blocks : gmap SessionKey Block).
Implicit Types (e : LtpEngine (T := T)) (F : fault -> Prop).

(** The network brings pieces of the peers' blocks, and anything at all of the
    other segments. *)
Definition honest (c : call) : Prop :=
  match c with
  | CReceive bs => forall seg ds, Segment.decode bs = Ok (Some seg) -> content seg = CData ds ->
      exists b, blocks !! (engine_id seg, session_number seg) = Some b /\ carries b (segment_type seg) ds
  | _ => True
  end.

Definition blocks_ok : Prop := map_Forall (fun _ b => zlen (contents b) < 2 ^ 63) blocks.

Definition good (d : list Z) : Prop := d = [] \/ exists key b, blocks !! key = Some b /\ delivers b d.

Definition receiver_ok (key : SessionKey) (s : LtpSession) : Prop :=
  s_role s = RECEIVER -> exists b, blocks !! key = Some b /\ rx_ok b s.

Record sound (e : LtpEngine (T := T)) : Prop := {
  sound_sessions : map_Forall receiver_ok (sessions e);
  sound_outputs : Forall good (deliveries (outputs e)) }.

Lemma deliveries_app l1 l2 : deliveries (l1 ++ l2) = deliveries l1 ++ deliveries l2.
Proof. apply omap_app. Qed.

Lemma deliveries_sending segs : deliveries (sending segs) = [].
Proof. by induction segs. Qed.

Lemma sound_put e e' n key (o : option LtpSession) c out :
  sound e -> changes n (put key o (sessions e)) c out e e' ->
  (forall s, o = Some s -> receiver_ok key s) -> Forall good (deliveries out) -> sound e'.
Proof.
  intros [Hs Ho] [_ _ Es _ Eo] Hk Hd. split.
  - rewrite Es. destruct o as [s|]; cbn [put]; [apply map_Forall_insert_2; auto|by apply map_Forall_delete].
  - rewrite Eo, deliveries_app. by apply Forall_app.
Qed.

Lemma sound_sends e e' out : sound e -> sends out e e' -> deliveries out = [] -> sound e'.
Proof.
  intros [Hs Ho] [_ _ Es _ Eo] Hd. split; [by rewrite Es|]. rewrite Eo, deliveries_app, Hd. by rewrite app_nil_r.
Qed.

(** What an honest segment makes of a receiver session. *)
Lemma arrival_sound key b type ds s o out :
  blocks_ok -> blocks !! key = Some b -> rx_ok b s -> carries b type ds -> arrival type ds s = Ok (o, out) ->
  (forall s', o = Some s' -> rx_ok b s') /\ Forall good (deliveries out).
Proof.
  intros Hbs Hb Hrx Hc Ha. unfold arrival in Ha. apply bind_ok in Ha as (s1 & Hst & Ha).
  destruct (stored_rx b type ds s s1 Hrx Hc (Hbs _ _ Hb) Hst) as (Hrx1 & _ & Ht1).
  set (P := match ds_checkpoint_serial ds with Some _ => _ | None => _ end) in Ha.
  assert (rx_ok b P.1 /\ deliveries P.2 = [] /\ total_data_length P.1 = total_data_length s1) as (HP & Hd & Ht).
  { subst P. destruct (ds_checkpoint_serial ds); [destruct (has_checkpoint type)|]; split_and!; try done.
    by destruct Hrx1. }
  destruct P as [s2 out1]. cbn [fst snd] in *.
  destruct (is_green type && has_eob type) eqn:Hg.
  - apply andb_true_iff in Hg as [Hg He]. rewrite He in Ht1. apply bind_ok in Ha as (d & Hr & Ha). simplify_eq.
    split; [done|]. rewrite deliveries_app, Hd. cbn. constructor; [|done]. right. exists key, b. split; [done|].
    assert (zlen (client_data s2) = zlen (contents b)) as Hl.
    { destruct HP as [? ? ? ? ? [|[]]]; lia. }
    rewrite range_all in Hr by lia. injection Hr as <-. apply delivers_partial; [done| |done].
    rewrite <- (carries_colour _ _ _ Hc). unfold is_green, is_red in *. lia.
  - simplify_eq. split; [by intros s' [= <-]|by rewrite Hd].
Qed.

Lemma sound_receive_data seg ds e F :
  blocks_ok -> inv e -> sound e -> content seg = CData ds ->
  (forall s, sessions e !! (engine_id seg, session_number seg) = Some s -> s_role s = RECEIVER) ->
  (exists b, blocks !! (engine_id seg, session_number seg) = Some b /\ carries b (segment_type seg) ds) ->
  (forall f, F f) -> wp (receive_data_segment seg) (fun _ => sound) F e.
Proof.
  intros Hbs Hi Hs Hc Hrole (b & Hb & Hcar) HF.
  apply (wp_receive_data _ ds); [done|intros s Hk; by apply (inv_keyed _ Hi _ _ Hk)|].
  destruct (sessions e !! _) as [s|] eqn:Hk.
  - destruct (sound_sessions _ Hs _ _ Hk (Hrole _ eq_refl)) as (b' & Hb' & Hrx). simplify_eq.
    destruct (arrival _ _ _) as [[o out]|] eqn:Ha; [|apply HF].
    destruct (arrival_sound _ _ _ _ _ _ _ Hbs Hb Hrx Hcar Ha) as [Ho Hd]. intros e' He'.
    eapply sound_put; [done|exact He'| |done]. intros s' Es _. exists b. split; [done|by apply Ho].
  - destruct (_ <=? _); [done|].
    destruct (arrival _ _ _) as [[o out]|] eqn:Ha; [|apply HF].
    destruct (arrival_sound _ _ _ _ _ _ _ Hbs Hb (rx_new _ _ _ _) Hcar Ha) as [Ho Hd]. intros e' He'.
    eapply sound_put; [done|exact He'| |done]. intros s' Es _. exists b. split; [done|by apply Ho].
Qed.

Lemma sound_report_ack seg ra e F :
  sound e -> content seg = CRptAck ra -> (forall f, F f) -> wp (receive_report_ack seg) (fun _ => sound) F e.
Proof.
  intros Hs Hc HF. apply (wp_receive_report_ack _ ra); [done|]. set (key := (_, _)).
  destruct (sessions e !! key) as [s|] eqn:Hk; [|intros e' He'; by eapply sound_sends].
  destruct (decide _) as [Hr|]; [|intros e' He'; by eapply sound_sends].
  destruct (is_complete _ _) eqn:Hcomp; [|intros e' He'; by eapply sound_sends].
  destruct (range _ _ _) as [d|] eqn:Hd; [|apply HF]. intros e' He'.
  apply (sound_put e e' _ key None _ _ Hs He'); [done|]. cbn. constructor; [|done].
  destruct (sound_sessions _ Hs _ _ Hk Hr) as (b & Hb & Hrx). destruct (rx_total _ _ Hrx) as [Ht|[Ht Hl]].
  - left. rewrite Ht in Hd. unfold range in Hd. case_bool_decide; [|done]. by injection Hd as <-.
  - right. exists key, b. split; [done|]. rewrite range_all in Hd by lia. injection Hd as <-.
    by apply delivers_whole, delivers_complete.
Qed.

(** A verdict on an originator session delivers nothing and keeps its role. *)
Definition mute (v : verdict) : Prop :=
  deliveries v.1.2 = [] /\ forall s, v.1.1 = Some s -> s_role s = ORIGINATOR.

Lemma retry_mute cfg f s v :
  s_role s = ORIGINATOR -> (forall s' v', s_role s' = ORIGINATOR -> f s' = Ok v' -> mute v') ->
  retry cfg f s = Ok v -> mute v.
Proof. unfold retry. intros Hr Hf Hv. destruct (_ <? _); [injection Hv as <-; by split|by eapply Hf; [|exact Hv]]. Qed.

Lemma resend_mute max gaps s v : s_role s = ORIGINATOR -> resend max gaps s = Ok v -> mute v.
Proof.
  unfold resend. intros Hr Hv. apply bind_ok in Hv as (segs & _ & Hv). simplify_eq.
  split; [apply deliveries_sending|]. intros s' [= <-]. by destruct segs.
Qed.

Lemma resend_all_mute max s v : s_role s = ORIGINATOR -> resend_all max s = Ok v -> mute v.
Proof.
  unfold resend_all. intros Hr Hv. apply bind_ok in Hv as ([segs cp] & _ & Hv). simplify_eq.
  split; [apply deliveries_sending|]. by intros s' [= <-].
Qed.

Lemma on_report_mute cfg rs s v : s_role s = ORIGINATOR -> on_report cfg rs s = Ok v -> mute v.
Proof.
  unfold on_report. intros Hr Hv. destruct (fully_received _ _); [injection Hv as <-; by split|].
  destruct (compute_gaps _ _ _); [injection Hv as <-; split; [done|by intros ? [= <-]]|].
  eapply retry_mute; [done| |exact Hv]. intros. by eapply resend_mute.
Qed.

Lemma sound_decided e e' key before v :
  sound e -> decided key before v e e' -> mute v -> deliveries before = [] -> sound e'.
Proof.
  intros Hs Hd [Hm Hr] Hb. destruct v as [[o out] k]. cbn [fst snd] in *. eapply sound_put; [done|exact Hd| |].
  - intros s -> Hrole. rewrite Hr in Hrole; done.
  - by rewrite deliveries_app, Hb, Hm.
Qed.

Lemma perform_sound c e :
  blocks_ok -> inv e -> sound e -> call_ok (config e) c -> honest c -> session_counter e + 1 < 2 ^ 64 ->
  wp (perform c) (fun _ => sound) (fun _ => True) e.
Proof.
  intros Hbs Hi Hs Hc Hh Hn. destruct c as [data reliable|bs|ev|engine session reason]; cbn [perform call_ok honest] in *.
  - apply wp_bind. eapply wp_mono with (Q := fun _ => sound); [|done]. apply wp_start_session.
    + destruct (_ !! _) as [s|] eqn:Hk; [|done]. exfalso. destruct (inv_sessions _ Hi _ _ Hk) as [[= Ek1 Ek2] _ _ Hr].
      pose proof (inv_counter _ Hi). rewrite u64_small in Ek2 by lia.
      destruct (s_role s); destruct Hr as [? Hr]; [lia|by rewrite Ek1 in *].
    + destruct (_ <=? _); [done|]. destruct (segment_data_impl _ _ _) as [[segs cp]|]; [|done]. intros e' He'.
      eapply sound_put; [done|exact He'| |by rewrite deliveries_sending].
      intros s Es Hrole. destruct reliable; by simplify_eq.
  - destruct Hc as (Hsz & Hbb & Hid). unfold on_cla_segment. apply wp_bind, wp_lift.
    pose proof (decode_accepts bs Hsz Hbb) as Hdec. destruct (Segment.decode bs) as [[seg|]|f]; [|by apply wp_ret|done].
    cbn in Hdec. pose proof (wf_body _ Hdec) as Hb. unfold receive_segment.
    destruct (content seg) as [ds|rs|ra|cc] eqn:Hct; cbn in Hb.
    + destruct Hb as [Hd _]. rewrite Hd. apply (sound_receive_data _ ds); try done; [|by apply Hh].
      intros s Hk. by eapply receiver_of; [|exact Hk|apply (Hid seg)].
    + destruct Hb as [-> _]. cbn. apply (wp_receive_report _ rs); [done|by apply inv_keyed|]. cbv zeta.
      destruct (sessions e !! _) as [s|] eqn:Hk; [|intros e' He'; by eapply sound_sends].
      destruct (decide _) as [Hr|]; [|intros e' He'; by eapply sound_sends].
      destruct (on_report _ _ _) as [v|] eqn:Hv; [|done]. intros e' He'.
      eapply sound_decided; [done|exact He'|by eapply on_report_mute|done].
    + destruct Hb as [-> _]. cbn. by eapply sound_report_ack.
    + assert (wp (receive_cancel_segment seg) (fun _ => sound) (fun _ => True) e) as Hcan.
      { apply (wp_receive_cancel _ cc); [done|]. intros e' He'.
        apply (sound_put e e' _ _ None _ _ Hs He'); [done|]. by destruct (sessions e !! _). }
      destruct Hb as [[[-> | ->] _]|[[-> | ->] _]]; cbn; try exact Hcan.
      all: apply wp_receive_cancel_ack; [|done]; intros s Hk; by apply (inv_keyed _ Hi _ _ Hk).
  - apply wp_handle_timer_expiry; [by apply inv_keyed|]. destruct (evt_type ev); [..|done]; cbv zeta.
    + destruct (sessions e !! _) as [s|] eqn:Hk; [|done]. destruct (decide _) as [Hr|]; [|done].
      destruct (retry _ _ _) as [v|] eqn:Hv; [|done]. intros e' He'.
      eapply sound_decided; [done|exact He'| |done]. eapply retry_mute; [done| |exact Hv].
      intros. by eapply resend_all_mute.
    + set (key := (_, _)). destruct (sessions e !! key) as [s|] eqn:Hk; [|done]. destruct (decide _) as [Hr|]; [|done].
      destruct (0 <? _); intros e' He'; [|by eapply sound_sends].
      apply (sound_put e e' _ key (Some (after_report s)) _ _ Hs He'); [|done].
      intros s' [= <-] _. destruct (sound_sessions _ Hs _ _ Hk Hr) as (b & Hb & Hrx). exists b. split; [done|].
      by destruct Hrx.
  - apply wp_cancel_session. destruct (sessions e !! _) as [s|]; [|done]. intros e' He'.
    by apply (sound_put e e' _ (engine, session) None _ _ Hs He').
Qed.

Lemma perform_all_sound cs e :
  blocks_ok -> inv e -> sound e -> Forall (call_ok (config e)) cs -> Forall honest cs ->
  session_counter e + zlen cs < 2 ^ 64 ->
  match run (perform_all cs) e with Ok e' => sound e' | Err _ => True end.
Proof.
  intros Hbs. revert e. induction cs as [|c cs IH]; intros e Hi Hs Hcs Hh Hn; [done|].
  inversion_clear Hcs as [|? ? Hc Hcs']. inversion_clear Hh as [|? ? Hhc Hh']. cbn [length] in Hn.
  pose proof (perform_inv c e Hi Hc ltac:(lia)) as Hp.
  pose proof (perform_sound c e Hbs Hi Hs Hc Hhc ltac:(lia)) as Hq. unfold wp in Hp, Hq.
  unfold perform_all, run in *. cbn [for_each]. unfold mbind, M_bind.
  destruct (perform c e) as [[[] e1]|]; [|done]. destruct Hp as (Hi1 & Ec & Hn1).
  specialize (IH e1 Hi1 Hq). rewrite Ec in IH. apply IH; [done..|lia].
Qed.

(** ** Property *)

(** [C4] Nothing false is delivered. Let the peers' blocks be given, and let
    the network bring, in any order, with any losses, repetitions and
    interleaving among sessions, pieces of those blocks, along with arbitrary
    reports, acknowledgements and cancels, while timers expire and our own
    sessions run. Whatever the engine delivers is then a peer's block: exactly
    its bytes if it was sent as red data, as many bytes with zeros in place of
    lost segments if green; or nothing, the empty vector that an early
    acknowledgement makes it deliver. *)
Theorem delivery_sound cfg (tm : option T) cs
    (Hcfg : config_ok cfg) (Hblocks : blocks_ok) (Hcs : Forall (call_ok cfg) cs)
    (Hh : Forall honest cs) (Hlen : zlen cs < 2 ^ 64) :
  match run (perform_all cs) (init_engine cfg tm) with
  | Ok e => Forall (fun d => d = [] \/ exists key b, blocks !! key = Some b /\ delivers b d)
              (deliveries (outputs e))
  | Err _ => True
  end.
Proof.
  pose proof (perform_all_sound cs (init_engine cfg tm) Hblocks (inv_init cfg tm Hcfg)) as Hr.
  destruct (run _ _) as [e|]; [|done]. apply sound_outputs, Hr; [|done..]. split; [apply map_Forall_empty|done].
Qed.
End sound.

(** A red block of three bytes of engine 2, its second segment first, its first
    one twice, then the acknowledgement of the report. *)
Section witness.
#[local] Existing Instance one_gib.
#[local] Existing Instance Timers.manager_service.

Definition sample_blocks : gmap SessionKey Block := {[ (2, 1) := MkBlock true [7; 8; 9] ]}.

Definition sample_arrivals : list call :=
  [CReceive (wire (plain_segment RED_DATA_CP_EORP_EOB 2 1 (CData (MkData 1 2 1 (Some 1) (Some 0) [9]))));
   CReceive (wire (plain_segment RED_DATA 2 1 (CData (MkData 1 0 2 None None [7; 8]))));
   CReceive (wire (plain_segment RED_DATA 2 1 (CData (MkData 1 0 2 None None [7; 8]))));
   CReceive (wire (plain_segment REPORT_ACK 2 1 (CRptAck (MkRptAck 1))))].

Lemma delivery_sound_witness :
  exists e, run (perform_all sample_arrivals) (init_engine (sample_config 1 2) (Some Timers.init)) = Ok e /\
    deliveries (outputs e) = [[7; 8; 9]] /\
    Forall (fun d => d = [] \/ exists key b, sample_blocks !! key = Some b /\ delivers b d) (deliveries (outputs e)).
Proof.
  pose proof (delivery_sound sample_blocks (sample_config 1 2) (Some Timers.init) sample_arrivals) as Hd.
  destruct (run _ _) as [e|] eqn:E; [|by vm_compute in E]. exists e. split; [done|].
  split; [vm_compute in E; injection E as <-; by vm_compute|]. apply Hd.
  - apply sample_config_ok.
  - by apply map_Forall_singleton.
  - repeat (constructor; [split_and!; [by vm_compute|by apply (bool_decide_unpack _ (dec := Forall_dec _ _))|];
      intros seg Es _; vm_compute in Es; injection Es as <-; simpl; lia|]). done.
  - repeat (constructor; [intros seg ds Es Ec; vm_compute in Es; injection Es as <-; simpl in Ec; try discriminate Ec;
      injection Ec as <-; exists (MkBlock true [7; 8; 9]); (split; [by vm_compute|]);
      (split; simpl; [done|lia|done|done|done])|]). done.
  - simpl. lia.
Defined.
End witness.
End Delivery.
