(* ===== verification/Transfer.v ===== *)
(** * Two engines: a red block arrives despite losses

    The originator's first transmission reaches the receiver with any losses,
    repetitions and reorderings, its checkpoint last; the report, the
    retransmission it causes, the second report and the acknowledgements get
    through. Every message crosses the wire format. *)
From S2P Require Import Prelude Sdnv Segment Tracker Timers Engine EngineLogic Segmentation EngineInvariant EngineRetry Delivery.
Import SegType Segment Engine EngineLogic Segmentation EngineInvariant EngineRetry Delivery.
Import Tracker(covers, normal).
Import Timers(TimerService).

Module Transfer.

(** ** The wire *)

Lemma sdnv_length v : is_u64 v -> zlen (Sdnv.encode_into v []) <= 10.
Proof. intros Hv. rewrite Sdnv.encode_into_length by apply Hv. cbn [length]. pose proof (Sdnv.encoded_length_bounds v Hv) as Hb.
  unfold Sdnv.MAX_BYTES in Hb. lia.
Qed.

Lemma claims_length claims :
  Forall wf_claim claims -> zlen (encode_claims [] claims) <= 20 * zlen claims.
Proof.
  induction 1 as [|c claims [Ho Hl] Hwf IH]; [done|].
  rewrite encode_claims_cons, !length_app, length_cons.
  pose proof (sdnv_length _ Ho). pose proof (sdnv_length _ Hl). lia.
Qed.

(** The bytes a segment's content accounts for. *)
Definition payload (c : SegmentContent) : Z :=
  match c with CData ds => zlen (ds_data ds) | CReport rs => 20 * zlen (rs_claims rs) | _ => 0 end.

Lemma wire_length type engine session c :
  wf_segment (plain_segment type engine session c) ->
  zlen (wire (plain_segment type engine session c)) <= 90 + payload c.
Proof.
  intros Hwf. unfold wire. rewrite encode_wf by done.
  destruct Hwf as [_ _ Hen Hsn _ _ _ _ Hb]. cbn in Hen, Hsn, Hb.
  assert (encode_extensions [] [] = []) as Hext by done.
  unfold header_bytes. cbn [segment_type content trailer_extensions plain_segment engine_id session_number header_extensions].
  rewrite Hext. rewrite !length_app, !length_cons, !length_app. cbn [length].
  pose proof (sdnv_length _ Hen). pose proof (sdnv_length _ Hsn).
  assert (zlen (content_bytes type c) <= 60 + payload c) as Hc; [|cbn [length]; lia].
  destruct c as [ds|rs|ra|cc]; cbn in Hb; unfold content_bytes, payload; rewrite ?length_app.
  - destruct Hb as (_ & W1 & W2 & W3 & W4 & _ & Hcp). assert (is_u64 (ds_length ds)) as W5 by (unfold is_u64; lia).
    pose proof (sdnv_length _ W1). pose proof (sdnv_length _ W2). pose proof (sdnv_length _ W5).
    destruct (has_checkpoint type); [|cbn [length]; lia].
    destruct Hcp as (cp & rpt & -> & -> & W6 & W7). cbn [default]. rewrite !length_app.
    pose proof (sdnv_length _ W6). pose proof (sdnv_length _ W7). unfold id. lia.
  - destruct Hb as (_ & W1 & W2 & W3 & W4 & W5 & W6). pose proof (claims_length _ W6).
    assert (is_u64 (zlen (rs_claims rs))) as W7 by (unfold is_u64; lia).
    pose proof (sdnv_length _ W1). pose proof (sdnv_length _ W2). pose proof (sdnv_length _ W3).
    pose proof (sdnv_length _ W4). pose proof (sdnv_length _ W7). lia.
  - destruct Hb as [_ W1]. pose proof (sdnv_length _ W1). lia.
  - repeat case_match; cbn [length]; lia.
Qed.

Section wires.
Context {T : Type} `{TimerService T} `{Allocator}.
Implicit Types (e : LtpEngine (T := T)).

(** A segment that crosses the wire is received as it was sent. *)
Lemma receive_wire seg e :
  wf_segment seg -> claims_fit seg -> zlen (wire seg) < 2 ^ 63 ->
  run (perform (CReceive (wire seg))) e = run (receive_segment seg) e.
Proof.
  intros Hwf Hfit Hlen. destruct (decode_encode seg [] Hwf Hfit) as (bs & Hbs & Hdec).
  assert (wire seg = bs) as Ew by (unfold wire; by rewrite Hbs). rewrite Ew in *.
  rewrite app_nil_r in Hdec. cbn [perform]. unfold on_cla_segment, run, mbind, M_bind, lift. by rewrite Hdec by done.
Qed.
End wires.

(** ** The receiver *)

(** The report of a receiver session [s] of [key] for checkpoint [serial]. *)
Definition report_seg (key : SessionKey) (s : LtpSession) (serial upper : Z) : LtpSegment :=
  plain_segment REPORT_SEGMENT key.1 key.2
    (CReport (MkReport (report_serial_counter s) serial upper 0 (reception_tracker s))).

(** The checkpoint a data segment carries. *)
Definition checkpoint_of (type : Z) (ds : DataSegContent) : option Z :=
  if has_checkpoint type then ds_checkpoint_serial ds else None.

Section receiver.
Context {T : Type} `{TimerService T} `{Allocator}.
Implicit Types (e : LtpEngine (T := T)) (b : Block).

Lemma arrival_red key b type ds s :
  key = (s_engine_id s, s_session_number s) -> rx_ok b s -> carries b type ds -> red b = true ->
  zlen (contents b) < 2 ^ 63 -> data_fits ds ->
  exists s', arrival type ds s = Ok (Some s',
      match checkpoint_of type ds with
      | Some serial => [SendSegment (wire (report_seg key s' serial (ds_offset ds + ds_length ds)))]
      | None => [] end) /\
    rx_ok b s' /\ s_role s' = s_role s /\
    (forall x, covers (reception_tracker s') x <->
       ds_offset ds <= x < ds_offset ds + ds_length ds \/ covers (reception_tracker s) x) /\
    total_data_length s' = (if has_eob type then zlen (contents b) else total_data_length s) /\
    (is_Some (checkpoint_of type ds) -> is_u64 (report_serial_counter s')).
Proof.
  intros Hk Hrx Hc Hred Hb Hfit. unfold arrival.
  pose proof (stored_spec type ds s (carries_offset _ _ _ Hc) (carries_length _ _ _ Hc)) as Hsp.
  destruct (stored type ds s) as [s1|] eqn:Hst; [|done]. destruct Hsp as (E1 & E2 & E3 & _).
  destruct (stored_rx b type ds s s1 Hrx Hc Hb Hst) as (Hrx1 & Hcov & Htot). rewrite bind_Ok.
  assert (is_green type = false) as ->.
  { rewrite <- (carries_colour _ _ _ Hc) in Hred. unfold is_green, is_red in *. lia. }
  cbn [andb]. rewrite u64_small.
  2:{ unfold data_fits in Hfit. pose proof (carries_offset _ _ _ Hc). pose proof (carries_length _ _ _ Hc). lia. }
  unfold checkpoint_of. destruct (has_checkpoint type).
  - destruct (ds_checkpoint_serial ds) as [serial|].
    + exists (after_report s1). split.
      * unfold report_of, report_seg. cbn. by rewrite Hk, E1, E2.
      * split_and!; try done; try (by destruct Hrx1). intros _. apply u64_range.
    + exists s1. split; [done|]. split_and!; try done.
  - exists s1. split; [by destruct (ds_checkpoint_serial ds)|]. split_and!; try done.
Qed.

(** The receiver can take segments of block [b] for [key]. *)
Definition rx_at e (key : SessionKey) b : Prop :=
  match sessions e !! key with
  | Some s => rx_ok b s
  | None => Z.of_nat (size (sessions e)) < max_concurrent_sessions (config e)
  end.

(** The session of [key] as it is, or as it would be created. *)
Definition current e (key : SessionKey) : LtpSession :=
  default (new_receiver key.1 key.2 0) (sessions e !! key).

Lemma run_piece e seg ds b :
  let key := (engine_id seg, session_number seg) in
  inv e -> wf_segment seg -> content seg = CData ds -> engine_id seg <> local_engine_id (config e) ->
  rx_at e key b -> carries b (segment_type seg) ds -> red b = true -> zlen (contents b) < 2 ^ 63 -> data_fits ds ->
  exists e' s', run (receive_segment seg) e = Ok e' /\ inv e' /\ config e' = config e /\
    sessions e' = <[key := s']> (sessions e) /\ rx_ok b s' /\ s_role s' = RECEIVER /\
    (forall x, covers (reception_tracker s') x <->
       ds_offset ds <= x < ds_offset ds + ds_length ds \/ covers (reception_tracker (current e key)) x) /\
    total_data_length s' = (if has_eob (segment_type seg) then zlen (contents b) else total_data_length (current e key)) /\
    outputs e' = outputs e ++
      match checkpoint_of (segment_type seg) ds with
      | Some serial => [SendSegment (wire (report_seg key s' serial (ds_offset ds + ds_length ds)))]
      | None => [] end /\
    (is_Some (checkpoint_of (segment_type seg) ds) -> is_u64 (report_serial_counter s')).
Proof.
  intros key Hi Hwf Hc Hid Hat Hcar Hred Hb Hfit.
  assert (is_data (segment_type seg) = true) as Hd by (pose proof (wf_body _ Hwf) as Hbd; rewrite Hc in Hbd; apply Hbd).
  set (s0 := default (new_receiver key.1 key.2 (segment_type seg)) (sessions e !! key)).
  assert (rx_ok b s0 /\ s_role s0 = RECEIVER /\ key = (s_engine_id s0, s_session_number s0)) as (Hrx0 & Hrole0 & Hk0).
  { unfold rx_at in Hat. subst s0. destruct (sessions e !! key) as [s|] eqn:Hs; cbn.
    - split_and!; [done|by eapply receiver_of|]. by destruct (inv_sessions _ Hi _ _ Hs).
    - split; [apply rx_new|done]. }
  destruct (arrival_red key b (segment_type seg) ds s0) as (s' & Ha & Hrx & Hrole & Hcov & Htot & Hser); [done..|].
  assert (reception_tracker (current e key) = reception_tracker s0 /\ total_data_length (current e key) = total_data_length s0)
    as [-> ->] by (subst s0; unfold current; by destruct (sessions e !! key)).
  pose proof (inv_receive_segment seg e Hi Hwf (fun _ => Hid)) as Hinv.
  assert (wp (receive_segment seg) (fun _ e' => sessions e' = <[key := s']> (sessions e) /\
    outputs e' = outputs e ++ match checkpoint_of (segment_type seg) ds with
      | Some serial => [SendSegment (wire (report_seg key s' serial (ds_offset ds + ds_length ds)))]
      | None => [] end) (fun _ => False) e) as Hw.
  { unfold receive_segment. rewrite Hd. apply (wp_receive_data _ ds); [done|intros s Hs; by apply (inv_keyed _ Hi _ _ Hs)|].
    fold key. unfold rx_at in Hat. subst s0. destruct (sessions e !! key) as [s|]; cbn in Ha.
    - rewrite Ha. intros e' [_ _ Es _ Eo]. done.
    - rewrite (proj2 (Z.leb_gt _ _)) by done. rewrite Ha. intros e' [_ _ Es _ Eo]. done. }
  unfold wp, run in *. destruct (receive_segment seg e) as [[[] e']|]; [|done].
  destruct Hw as [Es Eo]. destruct Hinv as (Hi' & Ec & _). exists e', s'. split_and!; try done. by rewrite Hrole.
Qed.
End receiver.

(** ** Pieces of the block on the wire *)

(** The red segment of type [type] that carries piece [p], with checkpoint
    serial [cp]: all three kinds the originator sends. *)
Definition piece_segment (type : Z) (cp : option Z) (s : LtpSession) (p : piece) : LtpSegment :=
  plain_segment type (s_engine_id s) (s_session_number s)
    (CData (MkData 1 (fst p) (zlen (snd p)) cp ((fun _ => 0) <$> cp) (snd p))).

Lemma resent_piece s p : resent_segment s p = piece_segment RED_DATA None s p.
Proof. done. Qed.
Lemma checkpoint_piece s serial p : checkpoint_segment s serial p = piece_segment RED_DATA_CP (Some serial) s p.
Proof. done. Qed.
Lemma inner_piece s p : s_is_red s = true -> inner_segment s p = piece_segment RED_DATA None s p.
Proof. unfold inner_segment. by intros ->. Qed.
Lemma final_piece s serial p :
  s_is_red s = true -> final_segment s serial p = piece_segment RED_DATA_CP_EORP_EOB (Some serial) s p.
Proof. unfold final_segment. by intros ->. Qed.

(** The type goes with the checkpoint, and marks the end only there. *)
Definition flags_ok (data : list Z) (type : Z) (cp : option Z) (p : piece) : Prop :=
  (type = RED_DATA /\ cp = None) \/
  (type = RED_DATA_CP /\ is_Some cp /\ forall x, cp = Some x -> is_u64 x) \/
  (type = RED_DATA_CP_EORP_EOB /\ is_Some cp /\ (forall x, cp = Some x -> is_u64 x) /\
   fst p + zlen (snd p) = zlen data).

(** A piece found in the block. *)
Definition in_block (data : list Z) (p : piece) : Prop := range data (fst p) (zlen (snd p)) = Ok (snd p).

Lemma in_block_bounds data p : in_block data p -> 0 <= fst p /\ fst p + zlen (snd p) <= zlen data.
Proof. unfold in_block, range. intros Hb. case_bool_decide; [lia|done]. Qed.

Lemma piece_of_in_block data max p : 0 <= fst p -> piece_of data max p -> in_block data p.
Proof.
  intros Ho [Hp Hl]. unfold in_block. assert (fst p + zlen (snd p) <= zlen data).
  { assert (length (snd p) = length (slice data (fst p) (zlen (snd p)))) as E by (by rewrite <- Hp).
    unfold slice in E. rewrite length_take, length_drop in E. lia. }
  rewrite range_ok by lia. f_equal. symmetry. exact Hp.
Qed.

Lemma ascending_in_block data max lo ps :
  0 <= lo -> ascending lo ps -> Forall (piece_of data max) ps -> Forall (in_block data) ps.
Proof.
  intros Hlo Ha Hps. revert lo Hlo Ha. induction Hps as [|[off bs] ps Hp Hps IH]; intros lo Hlo Ha; [done|].
  destruct Ha as [? Ha]. constructor; [eapply piece_of_in_block; [|exact Hp]; cbn; lia|].
  eapply (IH (off + zlen bs)); [|done]. lia.
Qed.

Lemma contiguous_in_block data pre ps :
  data = pre ++ concat (snd <$> ps) -> contiguous (zlen pre) ps -> Forall (in_block data) ps.
Proof.
  revert pre. induction ps as [|[o bs] ps IH]; intros pre Hd Hc; [done|].
  cbn in Hd, Hc. destruct Hc as [-> Hc]. constructor.
  - unfold in_block. cbn [fst snd]. rewrite Hd. by apply range_app.
  - apply (IH (pre ++ bs)); [by rewrite <- app_assoc|]. by rewrite length_app, Nat2Z.inj_add.
Qed.

Lemma contiguous_covers off ps x :
  contiguous off ps -> in_pieces ps x <-> off <= x < off + zlen (concat (snd <$> ps)).
Proof.
  revert off. induction ps as [|[o bs] ps IH]; intros off Hc.
  - cbn. split; [by intros (p & Hp%elem_of_nil & _)|lia].
  - destruct Hc as [-> Hc]. rewrite in_pieces_cons, (IH _ Hc). cbn [fst snd fmap list_fmap concat].
    rewrite length_app. lia.
Qed.

Section pieces.
Context {T : Type} `{TimerService T} `{Allocator}.
Implicit Types (e : LtpEngine (T := T)).
Context (data : list Z) (s : LtpSession).
Hypothesis Hbytes : bytes data.
Hypothesis Hsize : zlen data < 2 ^ 56.
Hypothesis Hroom : 16 * zlen data + 16 <= alloc_limit.
Hypothesis Hengine : is_u64 (s_engine_id s).
Hypothesis Hnumber : is_u64 (s_session_number s).

Abbreviation key := (s_engine_id s, s_session_number s).
Abbreviation block := (MkBlock true data).

Lemma piece_segment_wf type cp p :
  flags_ok data type cp p -> in_block data p -> wf_segment (piece_segment type cp s p).
Proof.
  intros Hf Hp. pose proof (in_block_bounds _ _ Hp) as [H1 H2].
  assert (is_valid type = true /\ is_data type = true /\
    if has_checkpoint type then exists c, cp = Some c /\ is_u64 c else cp = None) as (Hv & Hd & Hcp).
  { destruct Hf as [[-> ->]|[(-> & [c ->] & Hu)|(-> & [c ->] & Hu & _)]]; split_and!; try done; eexists; eauto. }
  split; try done; try apply Forall_nil_2. cbn. split_and!; try done; unfold is_u64; try lia.
  - by eapply range_bytes.
  - destruct (has_checkpoint type); [|by rewrite Hcp]. destruct Hcp as (c & -> & Hc).
    exists c, 0. split_and!; try done; unfold is_u64 in *; lia.
Qed.

Lemma piece_segment_carries type cp p :
  flags_ok data type cp p -> in_block data p ->
  carries block type (MkData 1 (fst p) (zlen (snd p)) cp ((fun _ => 0) <$> cp) (snd p)).
Proof.
  intros Hf Hp. pose proof (in_block_bounds _ _ Hp) as [H1 H2].
  split; cbn; try done; destruct Hf as [[-> ->]|[(-> & _)|(-> & _ & _ & He)]]; done.
Qed.

(** One piece arrives. *)
Lemma run_piece_segment type cp p e :
  flags_ok data type cp p -> in_block data p ->
  inv e -> s_engine_id s <> local_engine_id (config e) -> rx_at e key block ->
  exists e' s', run (perform (CReceive (wire (piece_segment type cp s p)))) e = Ok e' /\ inv e' /\ config e' = config e /\
    sessions e' = <[key := s']> (sessions e) /\ rx_ok block s' /\ s_role s' = RECEIVER /\
    (forall x, covers (reception_tracker s') x <->
       fst p <= x < fst p + zlen (snd p) \/ covers (reception_tracker (current e key)) x) /\
    total_data_length s' = (if has_eob type then zlen data else total_data_length (current e key)) /\
    outputs e' = outputs e ++
      match cp with
      | Some serial => [SendSegment (wire (report_seg key s' serial (fst p + zlen (snd p))))]
      | None => [] end /\
    (is_Some cp -> is_u64 (report_serial_counter s')).
Proof.
  intros Hf Hp Hi Hid Hat. pose proof (in_block_bounds _ _ Hp) as [H1 H2].
  pose proof (piece_segment_wf _ _ _ Hf Hp) as Hwf.
  rewrite receive_wire; [|done|done|].
  2:{ pose proof (wire_length _ _ _ _ Hwf) as Hl. cbn in Hl. unfold piece_segment. lia. }
  destruct (run_piece e (piece_segment type cp s p)
    (MkData 1 (fst p) (zlen (snd p)) cp ((fun _ => 0) <$> cp) (snd p)) block)
    as (e' & s' & Hr & Hi' & Ec & Es & Hrx & Hrole & Hcov & Htot & Ho & Hu); try done.
  - by apply piece_segment_carries.
  - cbn. lia.
  - unfold data_fits. cbn. lia.
  - exists e', s'. assert (checkpoint_of type (MkData 1 (fst p) (zlen (snd p)) cp ((fun _ => 0) <$> cp) (snd p)) = cp) as Ecp.
    { unfold checkpoint_of. cbn. by destruct Hf as [[-> ->]|[(-> & _)|(-> & _)]]. }
    cbn [segment_type piece_segment plain_segment] in Ho, Hu. rewrite Ecp in Ho, Hu. split_and!; done.
Qed.

Definition rx_state e e' (ps : list piece) : Prop :=
  inv e' /\ config e' = config e /\ rx_at e' key block /\ outputs e' = outputs e /\
  delete key (sessions e') = delete key (sessions e) /\
  total_data_length (current e' key) = total_data_length (current e key) /\
  forall x, covers (reception_tracker (current e' key)) x <->
            in_pieces ps x \/ covers (reception_tracker (current e key)) x.

(** Any pieces arrive, in any order and any number of times. *)
Lemma run_pieces ps e :
  Forall (in_block data) ps -> inv e -> s_engine_id s <> local_engine_id (config e) -> rx_at e key block ->
  exists e', run (perform_all ((fun p => CReceive (wire (piece_segment RED_DATA None s p))) <$> ps)) e = Ok e' /\
    rx_state e e' ps.
Proof.
  intros Hps. revert e. induction Hps as [|p ps Hp Hps IH]; intros e Hi Hid Hat.
  - exists e. split; [done|]. split_and!; try done. intros x. split; [auto|]. intros [(p & Hp%elem_of_nil & _)|]; done.
  - destruct (run_piece_segment RED_DATA None p e) as (e1 & s1 & Hr & Hi1 & Ec1 & Es1 & Hrx1 & _ & Hcov1 & Ht1 & Ho1 & _);
      [by left|done..|].
    assert (current e1 key = s1) as Ecur by (unfold current; by rewrite Es1, lookup_insert_eq).
    destruct (IH e1) as (e2 & Hr2 & Hi2 & Ec2 & Hat2 & Ho2 & Hd2 & Ht2 & Hcov2); [done|by rewrite Ec1| |].
    { unfold rx_at. by rewrite Es1, lookup_insert_eq. }
    exists e2. split.
    + unfold perform_all in *. cbn [fmap list_fmap]. by rewrite run_cons, Hr.
    + split_and!; [done|by rewrite Ec2|done|by rewrite Ho2, Ho1, app_nil_r| | |].
      * rewrite Hd2, Es1. by rewrite delete_insert_eq.
      * by rewrite Ht2, Ecur, Ht1.
      * intros x. rewrite Hcov2, Ecur, Hcov1, in_pieces_cons. tauto.
Qed.

(** ** Reports and acknowledgements between the two *)

Lemma claims_bound lo rs hi :
  normal lo rs -> (forall x, covers rs x -> x < hi) -> lo <= hi + 1 -> zlen rs <= hi - lo + 1.
Proof.
  revert lo. induction rs as [|c rs IH]; intros lo Hn Hin Hlo; [cbn; lia|].
  destruct Hn as (? & ? & ? & Hn). assert (claim_offset c + claim_length c - 1 < hi) by (apply Hin, Tracker.covers_head; lia).
  rewrite length_cons. specialize (IH _ Hn). assert (zlen rs <= hi - (claim_offset c + claim_length c + 1) + 1); [|lia].
  apply IH; [|lia]. intros x Hx. apply Hin, Tracker.covers_cons. auto.
Qed.

Lemma normal_claims lo rs : 0 <= lo -> normal lo rs -> Forall wf_claim rs.
Proof.
  revert lo. induction rs as [|c rs IH]; intros lo Hlo Hn; [done|]. destruct Hn as (? & ? & ? & Hn).
  constructor; [|by eapply IH; [|exact Hn]; lia]. split; unfold is_u64; lia.
Qed.

Definition ack_segment (serial : Z) : LtpSegment :=
  plain_segment REPORT_ACK (s_engine_id s) (s_session_number s) (CRptAck (MkRptAck serial)).

Lemma report_ack_segment r serial upper rs :
  content (report_seg key r serial upper) = CReport rs ->
  report_ack (report_seg key r serial upper) rs = ack_segment (report_serial_counter r).
Proof. by intros [= <-]. Qed.

Lemma tracker_bound r : rx_ok block r -> zlen (reception_tracker r) <= zlen data + 1.
Proof.
  intros Hrx. pose proof (rx_length _ _ Hrx) as Hl. cbn in Hl. rewrite <- (Z.sub_0_r (zlen data)). apply claims_bound; [apply Hrx| |lia].
  intros x Hx. pose proof (rx_inside _ _ Hrx _ Hx). lia.
Qed.

(** What a receiver session reports can be encoded and decoded. *)
Lemma report_seg_wire r serial upper :
  rx_ok block r -> is_u64 (report_serial_counter r) -> is_u64 serial -> is_u64 upper ->
  wf_segment (report_seg key r serial upper) /\ claims_fit (report_seg key r serial upper) /\
  zlen (wire (report_seg key r serial upper)) < 2 ^ 63.
Proof.
  intros Hrx Hc Hser Hup. pose proof (tracker_bound r Hrx) as Hn.
  assert (wf_segment (report_seg key r serial upper)) as Hwf.
  { split; try done; try apply Forall_nil_2. cbn. split_and!; try done; try lia.
    eapply normal_claims; [|apply Hrx]. done. }
  split; [done|]. split; [unfold claims_fit; cbn; lia|].
  pose proof (wire_length _ _ _ _ Hwf) as Hw. unfold report_seg in *. cbn [payload rs_claims] in Hw. lia.
Qed.

Lemma ack_wire serial : is_u64 serial ->
  wf_segment (ack_segment serial) /\ claims_fit (ack_segment serial) /\ zlen (wire (ack_segment serial)) < 2 ^ 63.
Proof.
  intros Hs. assert (wf_segment (ack_segment serial)) as Hwf by (split; try done; try apply Forall_nil_2).
  split; [done|]. split; [done|]. pose proof (wire_length _ _ _ _ Hwf) as Hw. unfold ack_segment. cbn [payload] in Hw. lia.
Qed.

(** How long the messages about the block get. *)
Definition brief (m : list Z) : Prop := zlen m <= 20 * zlen data + 110.

Lemma piece_brief type cp p : flags_ok data type cp p -> in_block data p -> brief (wire (piece_segment type cp s p)).
Proof.
  intros Hf Hp. pose proof (wire_length _ _ _ _ (piece_segment_wf _ _ _ Hf Hp)) as Hl. cbn in Hl.
  destruct (in_block_bounds _ _ Hp). unfold brief, piece_segment. lia.
Qed.

Lemma pieces_brief type cp ps p :
  flags_ok data type cp p -> Forall (in_block data) (ps ++ [p]) ->
  Forall brief ((wire ∘ piece_segment RED_DATA None s <$> ps) ++ [wire (piece_segment type cp s p)]).
Proof.
  intros Hf [Hps Hp]%Forall_app. rewrite Forall_singleton in Hp. apply Forall_app_2; [|by apply Forall_singleton, piece_brief].
  apply Forall_fmap. apply (Forall_impl _ _ _ Hps). intros q Hq. apply piece_brief; [by left|done].
Qed.

Lemma report_brief r serial upper :
  rx_ok block r -> is_u64 (report_serial_counter r) -> is_u64 serial -> is_u64 upper -> brief (wire (report_seg key r serial upper)).
Proof.
  intros Hrx Hc Hser Hup. destruct (report_seg_wire r serial upper) as (Hwf & _); [done..|].
  pose proof (tracker_bound r Hrx). pose proof (wire_length _ _ _ _ Hwf) as Hw. unfold report_seg in *.
  cbn [payload rs_claims] in Hw. unfold brief. lia.
Qed.

Lemma ack_brief serial : is_u64 serial -> brief (wire (ack_segment serial)).
Proof.
  intros Hs. destruct (ack_wire serial Hs) as (Hwf & _). pose proof (wire_length _ _ _ _ Hwf) as Hw.
  unfold brief, ack_segment. cbn [payload] in Hw. lia.
Qed.

(** An acknowledgement reaches a receiver that has everything. *)
Lemma run_ack_complete e r serial :
  inv e -> sessions e !! key = Some r -> s_role r = RECEIVER -> rx_ok block r -> is_u64 serial ->
  total_data_length r = zlen data -> (forall x, 0 <= x < zlen data -> covers (reception_tracker r) x) ->
  exists e', run (perform (CReceive (wire (ack_segment serial)))) e = Ok e' /\
    sessions e' = delete key (sessions e) /\ outputs e' = outputs e ++ [DataArrival data].
Proof.
  intros Hi Hs Hrole Hrx Hser Ht Hall. destruct (ack_wire serial Hser) as (W1 & W2 & W3).
  rewrite receive_wire by done. apply wp_run_ok. unfold receive_segment. cbn.
  apply (wp_receive_report_ack _ (MkRptAck serial)); [done|]. cbv zeta. cbn [engine_id session_number ack_segment plain_segment].
  rewrite Hs, decide_True by done. pose proof (rx_length _ _ Hrx) as Hl. cbn in Hl.
  assert (Tracker.is_complete (total_data_length r) (reception_tracker r) = true) as Hc.
  { rewrite Ht. apply Tracker.covers_is_complete; [apply Hrx|lia|done|]. intros x Hx. pose proof (rx_inside _ _ Hrx _ Hx). lia. }
  rewrite Hc. assert (zlen (client_data r) = zlen data) as Hlen.
  { destruct (rx_total _ _ Hrx) as [E|[_ E]]; [lia|exact E]. }
  rewrite range_all by lia. intros e' [_ _ Es _ Eo].
  by rewrite Es, Eo, (delivers_complete block r).
Qed.

(** An acknowledgement reaches one that has not. *)
Lemma run_ack_incomplete e r serial :
  inv e -> sessions e !! key = Some r -> s_role r = RECEIVER -> rx_ok block r -> is_u64 serial ->
  total_data_length r = zlen data -> ~ (forall x, 0 <= x < zlen data -> covers (reception_tracker r) x) ->
  exists e', run (perform (CReceive (wire (ack_segment serial)))) e = Ok e' /\ inv e' /\ config e' = config e /\
    sessions e' = sessions e /\ outputs e' = outputs e.
Proof.
  intros Hi Hs Hrole Hrx Hser Ht Hnot. destruct (ack_wire serial Hser) as (W1 & W2 & W3).
  rewrite receive_wire by done.
  assert (exists e', run (receive_segment (ack_segment serial)) e = Ok e' /\ sends [] e e') as (e' & Hr & Hsend).
  { apply wp_run_ok. unfold receive_segment. cbn.
    apply (wp_receive_report_ack _ (MkRptAck serial)); [done|]. cbv zeta. cbn [engine_id session_number ack_segment plain_segment].
    rewrite Hs, decide_True by done.
    destruct (Tracker.is_complete _ _) eqn:Hc; [|done]. destruct Hnot. rewrite Ht in Hc.
    intros x Hx. eapply Tracker.is_complete_covers; [apply Hrx|exact Hc|done]. }
  exists e'. pose proof (inv_sends _ _ _ Hi Hsend) as Hi'. destruct Hsend as [? ? ? ? Ho]. rewrite app_nil_r in Ho. done.
Qed.

(** The originator receives a report of everything. *)
Lemma run_report_all e r o serial upper :
  inv e -> s_engine_id s = local_engine_id (config e) -> sessions e !! key = Some o -> s_role o = ORIGINATOR ->
  client_data o = data -> rx_ok block r -> is_u64 (report_serial_counter r) -> is_u64 serial -> is_u64 upper ->
  (forall x, 0 <= x < zlen data -> covers (reception_tracker r) x) ->
  exists e', run (perform (CReceive (wire (report_seg key r serial upper)))) e = Ok e' /\
    sessions e' = delete key (sessions e) /\
    outputs e' = outputs e ++ [SendSegment (wire (ack_segment (report_serial_counter r))); SessionComplete (s_session_number s)].
Proof.
  intros Hi Hid Hs Hrole Hd Hrx Hc Hser Hup Hall.
  destruct (report_seg_wire r serial upper) as (W1 & W2 & W3); [done..|]. rewrite receive_wire by done.
  assert (local_engine_id (config e) = s_engine_id s) as Eid by done.
  destruct (run_report_complete e (report_seg key r serial upper)
    (MkReport (report_serial_counter r) serial upper 0 (reception_tracker r)) o) as (e' & Hr & Es & Eo);
    rewrite ?Hd; try done.
  - rewrite Eid. exact Hs.
  - apply Hrx.
  - intros x Hx. pose proof (rx_inside _ _ Hrx _ Hx). pose proof (rx_length _ _ Hrx). cbn in *. lia.
  - exists e'. rewrite Eid in Es. done.
Qed.

(** It receives one, of any scope, that leaves something out. *)
Lemma run_report_gaps e r o serial upper :
  inv e -> s_engine_id s = local_engine_id (config e) -> sessions e !! key = Some o -> s_role o = ORIGINATOR ->
  client_data o = data -> rx_ok block r -> is_u64 (report_serial_counter r) -> is_u64 serial -> 0 <= upper <= zlen data ->
  retransmission_count o < max_retransmissions (config e) < 255 ->
  ~ (forall x, 0 <= x < zlen data -> covers (reception_tracker r) x) ->
  exists e' o' ps, run (perform (CReceive (wire (report_seg key r serial upper)))) e = Ok e' /\ inv e' /\
    config e' = config e /\ sessions e' = <[key := o']> (sessions e) /\ same_block o o' /\ s_role o' = ORIGINATOR /\
    retransmission_count o' <= retransmission_count o + 1 /\
    outputs e' = outputs e ++ SendSegment (wire (ack_segment (report_serial_counter r))) ::
      sending (with_last (piece_segment RED_DATA None s)
                 (piece_segment RED_DATA_CP (Some (u64 (checkpoint_serial_counter o + 1))) s) ps) /\
    Forall (in_block data) ps /\
    forall x, in_pieces ps x <-> 0 <= x < upper /\ ~ covers (reception_tracker r) x.
Proof.
  intros Hi Hid Hs Hrole Hd Hrx Hc Hser Hup Hcount Hnot.
  destruct (report_seg_wire r serial upper) as (W1 & W2 & W3); [done..|unfold is_u64; lia|].
  rewrite receive_wire by done. assert (local_engine_id (config e) = s_engine_id s) as Eid by done.
  set (rs := MkReport (report_serial_counter r) serial upper 0 (reception_tracker r)).
  destruct (run_report_resend e (report_seg key r serial upper) rs o)
    as (e' & o' & ps & Hr & Es & Hsame & Hrole' & Hcnt & Eo & Hasc & Hpieces & Hx); rewrite ?Hd; try done.
  { rewrite Eid. exact Hs. }
  { apply Hrx. }
  { intros x Hx. pose proof (rx_inside _ _ Hrx _ Hx). pose proof (rx_length _ _ Hrx). cbn in *. lia. }
  { cbn. lia. }
  pose proof (inv_receive_report (report_seg key r serial upper) rs e Hi W1 eq_refl) as Hinv.
  unfold wp in Hinv. unfold run in Hr.
  destruct (receive_report_segment _ e) as [[[] e1]|] eqn:Erun; [|done]. cbn in Hr. injection Hr as ->.
  destruct Hinv as (Hi' & Ec & _). destruct (inv_sessions _ Hi _ _ Hs) as [[= Ek1 Ek2] _ _ _].
  exists e', o', ps. split_and!; try done.
  - unfold run. cbn. by rewrite Erun.
  - rewrite Es, Eid. done.
  - rewrite Eo. do 3 f_equal. by apply with_last_ext; intros q; unfold resent_segment, checkpoint_segment, piece_segment; rewrite Ek1, Ek2.
  - rewrite Hd in Hpieces. by eapply (ascending_in_block _ _ 0).
Qed.

(** The scope is the whole block: something is sent again. *)
Lemma run_report_some e r o serial :
  inv e -> s_engine_id s = local_engine_id (config e) -> sessions e !! key = Some o -> s_role o = ORIGINATOR ->
  client_data o = data -> rx_ok block r -> is_u64 (report_serial_counter r) -> is_u64 serial ->
  retransmission_count o < max_retransmissions (config e) < 255 ->
  ~ (forall x, 0 <= x < zlen data -> covers (reception_tracker r) x) ->
  exists e' o' ps p, run (perform (CReceive (wire (report_seg key r serial (zlen data))))) e = Ok e' /\ inv e' /\
    config e' = config e /\ sessions e' !! key = Some o' /\ s_role o' = ORIGINATOR /\ client_data o' = data /\
    outputs e' = outputs e ++ SendSegment (wire (ack_segment (report_serial_counter r))) ::
      sending ((piece_segment RED_DATA None s <$> ps) ++
               [piece_segment RED_DATA_CP (Some (u64 (checkpoint_serial_counter o + 1))) s p]) /\
    Forall (in_block data) (ps ++ [p]) /\
    forall x, in_pieces (ps ++ [p]) x <-> 0 <= x < zlen data /\ ~ covers (reception_tracker r) x.
Proof.
  intros Hi Hid Hs Hrole Hd Hrx Hc Hser Hcount Hnot.
  destruct (run_report_gaps e r o serial (zlen data))
    as (e' & o' & ps & Hr & Hi' & Ec & Es & (Ed & _) & Hrole' & _ & Eo & Hps & Hx); try done; [lia|].
  destruct ps as [|p ps _] using rev_ind.
  { exfalso. apply Hnot. intros x Hxx. destruct (decide (Exists (fun c => claim_offset c <= x < claim_offset c + claim_length c) (reception_tracker r)))
      as [(c & ? & ?)%Exists_exists|Hno]; [by exists c|]. exfalso.
    destruct (proj2 (Hx x)) as (p & Hp%elem_of_nil & _); [|done]. split; [done|].
    intros (c & ? & ?). apply Hno, Exists_exists. by exists c. }
  rewrite with_last_snoc in Eo. exists e', o', ps, p. split_and!; try done.
  - rewrite Es. apply lookup_insert_eq.
  - congruence.
Qed.
End pieces.

(** ** The whole transfer *)

Section transfer.
Context {T : Type} `{TimerService T} `{Allocator}.
Implicit Types (e : LtpEngine (T := T)).

Lemma new_outputs_app e e' out : outputs e' = outputs e ++ out -> new_outputs e e' = out.
Proof. intros Ho. unfold new_outputs. rewrite Ho. apply drop_app_length. Qed.

Lemma sent_segments_app l1 l2 : sent_segments (l1 ++ l2) = sent_segments l1 ++ sent_segments l2.
Proof. apply omap_app. Qed.

Lemma sent_segments_sending segs : sent_segments (sending segs) = wire <$> segs.
Proof.
  induction segs as [|seg segs IH]; [done|].
  change (wire seg :: sent_segments (sending segs) = wire seg :: (wire <$> segs)). by rewrite IH.
Qed.

Lemma sent_pieces s type cp ps p :
  sent_segments (sending ((piece_segment RED_DATA None s <$> ps) ++ [piece_segment type cp s p])) =
  (wire ∘ piece_segment RED_DATA None s <$> ps) ++ [wire (piece_segment type cp s p)].
Proof. rewrite sent_segments_sending, fmap_app, <- list_fmap_compose. done. Qed.

(** [to] receives, in order, what [from] sent between two of its states. *)
Definition relay (from0 from1 to : LtpEngine (T := T)) : outcome LtpEngine :=
  run (perform_all (CReceive <$> sent_segments (new_outputs from0 from1))) to.

(** The messages of [arr] are copies of messages of the list [wire <$> segs]. *)
Lemma copies_of {A} (f : A -> list Z) (l : list A) (arr : list (list Z)) :
  (forall m, m ∈ arr -> m ∈ f <$> l) -> exists qs : list A, arr = f <$> qs /\ forall q, q ∈ qs -> q ∈ l.
Proof.
  induction arr as [|m arr IH]; intros Hin.
  - exists []. split; [done|]. intros q Hq. by apply elem_of_nil in Hq.
  - destruct (IH (fun m' Hm => Hin m' (proj2 (elem_of_cons _ _ _) (or_intror Hm)))) as (qs & -> & Hqs).
    destruct (proj1 (list_elem_of_fmap _ _ _) (Hin m (proj2 (elem_of_cons _ _ _) (or_introl eq_refl)))) as (q & -> & Hq).
    exists (q :: qs). split; [done|]. intros q' [->|?]%elem_of_cons; auto.
Qed.

Lemma contiguous_last off ps p :
  contiguous off (ps ++ [p]) -> fst p + zlen (snd p) = off + zlen (concat (snd <$> ps ++ [p])).
Proof.
  revert off. induction ps as [|[o bs] ps IH]; intros off Hc.
  - destruct p as [o bs]. cbn in *. destruct Hc as [-> _]. rewrite app_nil_r. done.
  - cbn in Hc. destruct Hc as [-> Hc]. rewrite (IH _ Hc). cbn [app fmap list_fmap concat snd]. rewrite length_app. lia.
Qed.

(** Any transmission of the whole block. *)
Lemma segment_data_wire s max cp :
  0 < max -> s_is_red s = true ->
  exists ps p, segment_data_impl s max cp = Ok ((piece_segment RED_DATA None s <$> ps) ++
      [piece_segment RED_DATA_CP_EORP_EOB (Some (u64 (cp + 1))) s p], next_serial s cp) /\
    Forall (in_block (client_data s)) (ps ++ [p]) /\ (forall x, in_pieces (ps ++ [p]) x <-> 0 <= x < zlen (client_data s)) /\
    fst p + zlen (snd p) = zlen (client_data s).
Proof.
  intros Hmax Hred. destruct (segment_data_pieces s max cp Hmax) as (ps & Hseg & Hcat & Hcon & Hne & _).
  destruct ps as [|p ps _] using rev_ind; [done|]. rewrite with_last_snoc in Hseg. exists ps, p. split_and!.
  - rewrite Hseg, (list_fmap_ext (inner_segment s) (piece_segment RED_DATA None s)) by (intros; by apply inner_piece). by rewrite (final_piece s).
  - apply (contiguous_in_block _ []); [by rewrite Hcat|done].
  - intros x. rewrite (contiguous_covers 0 (ps ++ [p]) x Hcon). by rewrite Hcat.
  - rewrite (contiguous_last 0 ps p Hcon). by rewrite Hcat.
Qed.

(** The first transmission of a red block. *)
Lemma run_start a0 data :
  inv a0 -> zlen data < 2 ^ 63 -> session_counter a0 + 1 < 2 ^ 64 ->
  Z.of_nat (size (sessions a0)) < max_concurrent_sessions (config a0) ->
  let s := new_originator (local_engine_id (config a0)) (session_counter a0 + 1) data true in
  exists a1 ps p, run (perform (CStart data true)) a0 = Ok a1 /\ inv a1 /\ config a1 = config a0 /\
    sessions a1 = <[(s_engine_id s, s_session_number s) := set_checkpoint_counter 1 s]> (sessions a0) /\
    outputs a1 = outputs a0 ++ sending ((piece_segment RED_DATA None s <$> ps) ++
                                        [piece_segment RED_DATA_CP_EORP_EOB (Some 1) s p]) /\
    Forall (in_block data) (ps ++ [p]) /\ (forall x, in_pieces (ps ++ [p]) x <-> 0 <= x < zlen data) /\
    fst p + zlen (snd p) = zlen data.
Proof.
  intros Hi Hd Hn Hroom s. pose proof (inv_counter _ Hi) as Hc.
  assert (u64 (session_counter a0 + 1) = session_counter a0 + 1) as Hsn by (apply u64_small; lia).
  destruct (segment_data_wire s (max_segment_size (config a0)) 0 (ok_segment_size _ (inv_config _ Hi)) eq_refl)
    as (ps & p & Hseg & Hps & Hpx & Hend).
  assert (sessions a0 !! (s_engine_id s, s_session_number s) = None) as Hfresh.
  { destruct (_ !! _) as [o|] eqn:Hs; [|done]. destruct (inv_sessions _ Hi _ _ Hs) as [[= Ek1 Ek2] _ _ Hr].
    destruct (s_role o); destruct Hr as [? Hr]; [lia|by rewrite <- Ek1 in *]. }
  pose proof (inv_start_session data true a0 (fun _ => False) Hi Hd Hn) as Hinv.
  assert (wp (start_session data true) (fun _ a1 =>
    sessions a1 = <[(s_engine_id s, s_session_number s) := set_checkpoint_counter 1 s]> (sessions a0) /\
    outputs a1 = outputs a0 ++ sending ((piece_segment RED_DATA None s <$> ps) ++
                                        [piece_segment RED_DATA_CP_EORP_EOB (Some 1) s p])) (fun _ => False) a0) as Hw.
  { apply wp_start_session; rewrite Hsn; [exact Hfresh|]. rewrite (proj2 (Z.leb_gt _ _)) by done. fold s. rewrite Hseg.
    intros a1 [_ _ Es _ Eo]. by split. }
  unfold wp in Hinv, Hw. destruct (start_session data true a0) as [[n a1]|] eqn:Hrun; [|done].
  destruct Hinv as (Hi1 & Ec & _), Hw as [Es Eo]. exists a1, ps, p. split_and!; try done.
  unfold run, perform, mbind, M_bind. by rewrite Hrun.
Qed.

(** One message. *)
Lemma run_one bs e : run (perform_all [CReceive bs]) e = run (perform (CReceive bs)) e.
Proof.
  unfold perform_all. rewrite run_cons. destruct (run (perform (CReceive bs)) e); [by rewrite bind_Ok|done].
Qed.

Lemma relay_sent a a' out to :
  outputs a' = outputs a ++ out -> relay a a' to = run (perform_all (CReceive <$> sent_segments out)) to.
Proof. intros Ho. unfold relay. by rewrite (new_outputs_app _ _ _ Ho). Qed.

Lemma relay_one a a' out bs to :
  outputs a' = outputs a ++ out -> sent_segments out = [bs] -> relay a a' to = run (perform (CReceive bs)) to.
Proof. intros Ho Hs. rewrite (relay_sent _ _ _ _ Ho), Hs. apply run_one. Qed.

(** The receiver, from any state, over a transmission of the block to the
    report on its checkpoint. *)
Lemma run_arrival data s b0 ps p qs cp :
  bytes data -> zlen data < 2 ^ 56 -> 16 * zlen data + 16 <= alloc_limit ->
  is_u64 (s_engine_id s) -> is_u64 (s_session_number s) ->
  let key := (s_engine_id s, s_session_number s) in let block := MkBlock true data in
  inv b0 -> s_engine_id s <> local_engine_id (config b0) -> rx_at b0 key block -> is_u64 cp ->
  Forall (in_block data) (ps ++ [p]) -> fst p + zlen (snd p) = zlen data -> (forall q, q ∈ qs -> q ∈ ps) ->
  exists b1 r, run (perform_all (CReceive <$> ((wire ∘ piece_segment RED_DATA None s <$> qs) ++
      [wire (piece_segment RED_DATA_CP_EORP_EOB (Some cp) s p)]))) b0 = Ok b1 /\
    inv b1 /\ config b1 = config b0 /\ sessions b1 !! key = Some r /\ s_role r = RECEIVER /\ rx_ok block r /\
    total_data_length r = zlen data /\ is_u64 (report_serial_counter r) /\
    outputs b1 = outputs b0 ++ [SendSegment (wire (report_seg key r cp (zlen data)))].
Proof.
  intros Hbytes Hsize Hroom Hen Hsn key block Hi Hid Hat Hcp Hps Hend Hqs.
  apply Forall_app in Hps as [Hps Hp]. rewrite Forall_singleton in Hp.
  destruct (run_pieces data s Hbytes Hsize Hroom Hen Hsn qs b0) as (b & Hr & Hib & Ecb & Hatb & Hob & _); [|done..|].
  { apply Forall_forall. intros q Hq. rewrite Forall_forall in Hps. by apply Hps, Hqs. }
  destruct (run_piece_segment data s Hbytes Hsize Hroom Hen Hsn RED_DATA_CP_EORP_EOB (Some cp) p b)
    as (b1 & r & Hr1 & Hi1 & Ec1 & Es1 & Hrx & Hrole & _ & Ht & Ho1 & Hu); try done.
  { right. right. split_and!; try done. by intros x [= <-]. }
  { by rewrite Ecb. }
  exists b1, r. rewrite Hend in Ho1. split_and!; try done.
  - rewrite fmap_app. unfold perform_all in *. rewrite run_app, <- list_fmap_compose. unfold compose in *. rewrite Hr, bind_Ok.
    change (run (perform_all [CReceive (wire (piece_segment RED_DATA_CP_EORP_EOB (Some cp) s p))]) b = Ok b1).
    by rewrite run_one.
  - by rewrite Ec1.
  - rewrite Es1. apply lookup_insert_eq.
  - by apply Hu.
  - by rewrite Ho1, Hob.
Qed.

(** The receiver, from the acknowledgement of an incomplete report through the
    retransmission to the second report. *)
Lemma run_second_arrival data s b1 r serial1 serial2 ps p :
  bytes data -> zlen data < 2 ^ 56 -> 16 * zlen data + 16 <= alloc_limit ->
  is_u64 (s_engine_id s) -> is_u64 (s_session_number s) ->
  let key := (s_engine_id s, s_session_number s) in let block := MkBlock true data in
  inv b1 -> s_engine_id s <> local_engine_id (config b1) -> sessions b1 !! key = Some r -> s_role r = RECEIVER ->
  rx_ok block r -> total_data_length r = zlen data -> is_u64 serial1 -> is_u64 serial2 ->
  ~ (forall x, 0 <= x < zlen data -> covers (reception_tracker r) x) ->
  Forall (in_block data) (ps ++ [p]) ->
  (forall x, in_pieces (ps ++ [p]) x <-> 0 <= x < zlen data /\ ~ covers (reception_tracker r) x) ->
  exists b2 r2 upper, run (perform_all (CReceive <$> (wire (ack_segment s serial1) ::
      (wire ∘ piece_segment RED_DATA None s <$> ps) ++ [wire (piece_segment RED_DATA_CP (Some serial2) s p)]))) b1 = Ok b2 /\
    inv b2 /\ config b2 = config b1 /\ sessions b2 !! key = Some r2 /\ s_role r2 = RECEIVER /\ rx_ok block r2 /\
    total_data_length r2 = zlen data /\ is_u64 (report_serial_counter r2) /\ is_u64 upper /\
    (forall x, 0 <= x < zlen data -> covers (reception_tracker r2) x) /\
    outputs b2 = outputs b1 ++ [SendSegment (wire (report_seg key r2 serial2 upper))].
Proof.
  intros Hbytes Hsize Hroom Hen Hsn key block Hi Hid Hs Hrole Hrx Ht Hs1 Hs2 Hnot Hps Hx.
  apply Forall_app in Hps as [Hps Hp]. rewrite Forall_singleton in Hp.
  destruct (run_ack_incomplete data s Hen Hsn b1 r serial1) as (b & Hr & Hib & Ecb & Esb & Hob); [done..|].
  assert (current b key = r) as Ecur by (unfold current; by rewrite Esb, Hs).
  destruct (run_pieces data s Hbytes Hsize Hroom Hen Hsn ps b) as (b' & Hr' & Hib' & Ecb' & Hatb' & Hob' & _ & Ht' & Hcov');
    [done|done|by rewrite Ecb|unfold rx_at; rewrite Esb; fold key; by rewrite Hs|].
  destruct (run_piece_segment data s Hbytes Hsize Hroom Hen Hsn RED_DATA_CP (Some serial2) p b')
    as (b2 & r2 & Hr2 & Hi2 & Ec2 & Es2 & Hrx2 & Hrole2 & Hcov2 & Ht2 & Ho2 & Hu2); try done.
  { right. left. split_and!; try done. by intros x [= <-]. }
  { by rewrite Ecb', Ecb. }
  fold key in Ecur, Ht', Hcov', Ht2, Hcov2. rewrite Ecur in Ht', Hcov'.
  exists b2, r2, (fst p + zlen (snd p)). split_and!; try done.
  - cbn [fmap list_fmap]. unfold perform_all in *. rewrite run_cons, Hr, bind_Ok.
    rewrite fmap_app, run_app, <- list_fmap_compose. unfold compose in *. rewrite Hr', bind_Ok.
    change (run (perform_all [CReceive (wire (piece_segment RED_DATA_CP (Some serial2) s p))]) b' = Ok b2).
    by rewrite run_one.
  - by rewrite Ec2, Ecb', Ecb.
  - rewrite Es2. apply lookup_insert_eq.
  - rewrite Ht2. cbn. by rewrite Ht'.
  - by apply Hu2.
  - destruct (in_block_bounds _ _ Hp). unfold is_u64. lia.
  - intros x Hxx. apply Hcov2. rewrite Hcov'.
    destruct (decide (Exists (fun c => claim_offset c <= x < claim_offset c + claim_length c) (reception_tracker r)))
      as [(c & ? & ?)%Exists_exists|Hno]; [right; right; by exists c|].
    assert (in_pieces (ps ++ [p]) x) as [Hin|Hin]%in_pieces_app.
    { apply Hx. split; [done|]. intros (c & ? & ?). apply Hno, Exists_exists. by exists c. }
    + auto.
    + apply in_pieces_cons in Hin as [?|(q & Hq%elem_of_nil & _)]; [auto|done].
  - by rewrite Ho2, Hob', Hob.
Qed.

(** The exchange that follows the first report, to its end. *)
Definition finishes (a1 b0 b1 : LtpEngine (T := T)) (key : SessionKey) (data : list Z) : Prop :=
  exists a2 b2 a3 b3,
    relay b0 b1 a1 = Ok a2 /\ relay a1 a2 b1 = Ok b2 /\ relay b1 b2 a2 = Ok a3 /\ relay a2 a3 b2 = Ok b3 /\
    deliveries (new_outputs b0 b3) = [data] /\ SessionComplete key.2 ∈ new_outputs a1 a3 /\
    sessions a3 !! key = None /\ sessions b3 !! key = None /\
    Forall (brief data) (sent_segments (new_outputs b0 b1) ++ sent_segments (new_outputs a1 a2) ++
      sent_segments (new_outputs b1 b2) ++ sent_segments (new_outputs a2 a3)) /\ sent_segments (new_outputs b2 b3) = [].

Section finish.
Context (data : list Z) (s : LtpSession) (a1 b0 b1 : LtpEngine (T := T)) (r : LtpSession) (cp : Z).
Hypothesis Hbytes : bytes data.
Hypothesis Hsize : zlen data < 2 ^ 56.
Hypothesis Hroom : 16 * zlen data + 16 <= alloc_limit.
Hypothesis Hengine : is_u64 (s_engine_id s).
Hypothesis Hnumber : is_u64 (s_session_number s).
Abbreviation key := (s_engine_id s, s_session_number s).
(** The originator, waiting for the first report. *)
Hypothesis Hia : inv a1.
Hypothesis Hida : s_engine_id s = local_engine_id (config a1).
Context (o : LtpSession).
Hypothesis Hsa : sessions a1 !! key = Some o.
Hypothesis Horole : s_role o = ORIGINATOR.
Hypothesis Hodata : client_data o = data.
(** The receiver, which has sent it. *)
Hypothesis Hib : inv b1.
Hypothesis Hidb : s_engine_id s <> local_engine_id (config b1).
Hypothesis Hsb : sessions b1 !! key = Some r.
Hypothesis Hrole : s_role r = RECEIVER.
Hypothesis Hrx : rx_ok (MkBlock true data) r.
Hypothesis Htotal : total_data_length r = zlen data.
Hypothesis Hserial : is_u64 (report_serial_counter r).
Hypothesis Hcp : is_u64 cp.
Hypothesis Hout : outputs b1 = outputs b0 ++ [SendSegment (wire (report_seg key r cp (zlen data)))].

Lemma finish_complete :
  (forall x, 0 <= x < zlen data -> covers (reception_tracker r) x) -> finishes a1 b0 b1 key data.
Proof.
  intros Hall. destruct (run_report_all data s Hsize Hroom Hengine Hnumber a1 r o cp (zlen data))
    as (a2 & Ha2 & Esa2 & Eoa2); [done..|unfold is_u64; lia|done|].
  destruct (run_ack_complete data s Hengine Hnumber b1 r (report_serial_counter r)) as (b2 & Hb2 & Esb2 & Eob2); [done..|].
  exists a2, b2, a2, b2. split_and!.
  - by rewrite (relay_one _ _ _ _ _ Hout eq_refl).
  - by rewrite (relay_one _ _ _ _ _ Eoa2 eq_refl).
  - by rewrite (relay_sent _ _ _ _ Eob2).
  - by rewrite (relay_sent a2 a2 []) by (by rewrite app_nil_r).
  - by erewrite (new_outputs_app b0 b2); [|rewrite Eob2, Hout, <- !app_assoc; reflexivity].
  - rewrite (new_outputs_app _ _ _ Eoa2). cbn. set_solver.
  - rewrite Esa2. apply lookup_delete_eq.
  - rewrite Esb2. apply lookup_delete_eq.
  - rewrite (new_outputs_app _ _ _ Hout), (new_outputs_app _ _ _ Eoa2), (new_outputs_app _ _ _ Eob2), (new_outputs_app a2 a2 []) by (by rewrite app_nil_r).
    repeat apply Forall_cons_2; [apply report_brief|apply ack_brief|apply Forall_nil_2]; try done. unfold is_u64. lia.
  - by rewrite (new_outputs_app b2 b2 []) by (by rewrite app_nil_r).
Qed.

Lemma finish_partial :
  retransmission_count o < max_retransmissions (config a1) < 255 ->
  ~ (forall x, 0 <= x < zlen data -> covers (reception_tracker r) x) -> finishes a1 b0 b1 key data.
Proof.
  intros Hcount Hnot. destruct (run_report_some data s Hsize Hroom Hengine Hnumber a1 r o cp)
    as (a2 & o2 & ps & p & Ha2 & Hia2 & Eca2 & Hsa2 & Hro & Hdo & Eoa2 & Hps & Hx); try done.
  set (serial := u64 (checkpoint_serial_counter o + 1)) in *. assert (is_u64 serial) as Hu by apply u64_range.
  destruct (run_second_arrival data s b1 r (report_serial_counter r) serial ps p)
    as (b2 & r2 & upper & Hb2 & Hib2 & Ecb2 & Hsb2 & Hrole2 & Hrx2 & Ht2 & Hser2 & Hup & Hall2 & Eob2); try done.
  destruct (run_report_all data s Hsize Hroom Hengine Hnumber a2 r2 o2 serial upper) as (a3 & Ha3 & Esa3 & Eoa3); try done.
  { by rewrite Eca2. }
  destruct (run_ack_complete data s Hengine Hnumber b2 r2 (report_serial_counter r2)) as (b3 & Hb3 & Esb3 & Eob3); [done..|].
  exists a2, b2, a3, b3. split_and!.
  - by rewrite (relay_one _ _ _ _ _ Hout eq_refl).
  - rewrite (relay_sent _ _ _ _ Eoa2). rewrite <- Hb2. do 2 f_equal. cbn. f_equal.
    by rewrite sent_pieces.
  - by rewrite (relay_one _ _ _ _ _ Eob2 eq_refl).
  - by rewrite (relay_one _ _ _ _ _ Eoa3 eq_refl).
  - by erewrite (new_outputs_app b0 b3); [|rewrite Eob3, Eob2, Hout, <- !app_assoc; reflexivity].
  - erewrite (new_outputs_app a1 a3); [|rewrite Eoa3, Eoa2, <- !app_assoc; reflexivity]. cbn. set_solver.
  - rewrite Esa3. apply lookup_delete_eq.
  - rewrite Esb3. apply lookup_delete_eq.
  - rewrite (new_outputs_app _ _ _ Hout), (new_outputs_app _ _ _ Eoa2), (new_outputs_app _ _ _ Eob2), (new_outputs_app _ _ _ Eoa3).
    assert (sent_segments (SendSegment (wire (ack_segment s (report_serial_counter r))) ::
      sending ((piece_segment RED_DATA None s <$> ps) ++ [piece_segment RED_DATA_CP (Some serial) s p])) =
      wire (ack_segment s (report_serial_counter r)) :: (wire ∘ piece_segment RED_DATA None s <$> ps) ++ [wire (piece_segment RED_DATA_CP (Some serial) s p)]) as ->.
    { cbn. f_equal. apply sent_pieces. }
    apply Forall_cons_2; [apply report_brief; try done; unfold is_u64; lia|]. apply Forall_app_2; [apply Forall_cons_2; [by apply ack_brief|]|].
    + apply pieces_brief; [done..| |done]. right. left. split_and!; [done|done|]. by intros x [= <-].
    + repeat apply Forall_cons_2; [by apply report_brief|by apply ack_brief|apply Forall_nil_2].
  - by rewrite (new_outputs_app b2 b3 [DataArrival data]).
Qed.

Lemma finish_transfer : retransmission_count o < max_retransmissions (config a1) < 255 -> finishes a1 b0 b1 key data.
Proof.
  intros Hcount. destruct (decide (Tracker.is_complete (zlen data) (reception_tracker r) = true)) as [Hfull|Hpart].
  - apply finish_complete. apply Tracker.is_complete_covers; [apply Hrx|done].
  - apply finish_partial; [done|]. intros Hall. apply Hpart, Tracker.covers_is_complete; [apply Hrx|lia|done|].
    intros x Hx. pose proof (rx_inside _ _ Hrx _ Hx). pose proof (rx_length _ _ Hrx). cbn in *. lia.
Qed.
End finish.

(** From the beginning of the session to its end. *)
Lemma whole_transfer (a0 b0 : LtpEngine (T := T)) data :
  bytes data -> zlen data < 2 ^ 56 -> 16 * zlen data + 16 <= alloc_limit ->
  inv a0 -> inv b0 -> is_u64 (local_engine_id (config a0)) ->
  local_engine_id (config a0) <> local_engine_id (config b0) -> session_counter a0 + 1 < 2 ^ 64 ->
  0 < max_retransmissions (config a0) < 255 ->
  Z.of_nat (size (sessions a0)) < max_concurrent_sessions (config a0) ->
  Z.of_nat (size (sessions b0)) < max_concurrent_sessions (config b0) ->
  let key := (local_engine_id (config a0), session_counter a0 + 1) in
  sessions b0 !! key = None ->
  exists a1 first cp,
    run (perform (CStart data true)) a0 = Ok a1 /\ sent_segments (new_outputs a0 a1) = first ++ [cp] /\
    Forall (brief data) (first ++ [cp]) /\
    forall arr, (forall m, m ∈ arr -> m ∈ first) ->
    exists b1, run (perform_all (CReceive <$> (arr ++ [cp]))) b0 = Ok b1 /\ finishes a1 b0 b1 key data.
Proof.
  intros Hbytes Hsize Hroom Ha Hb Hid Hpeer Hcount Hretx Hcapa Hcapb key Hfresh.
  set (s := new_originator (local_engine_id (config a0)) (session_counter a0 + 1) data true).
  pose proof (inv_counter _ Ha) as Hctr.
  assert (is_u64 (s_session_number s)) as Hsn by (unfold is_u64; cbn; lia).
  destruct (run_start a0 data Ha ltac:(lia) Hcount Hcapa) as (a1 & ps & p & Hstart & Hi1 & Ec1 & Es1 & Eo1 & Hps & Hpx & Hend).
  fold s in Es1, Eo1.
  exists a1, (wire ∘ piece_segment RED_DATA None s <$> ps), (wire (piece_segment RED_DATA_CP_EORP_EOB (Some 1) s p)).
  split; [done|]. split.
  { rewrite (new_outputs_app _ _ _ Eo1). apply sent_pieces. }
  split.
  { apply pieces_brief; [done..| |done]. right. right. split_and!; [done|done| |done]. intros x [= <-]. done. }
  intros arr (qs & -> & Hqs)%copies_of.
  destruct (run_arrival data s b0 ps p qs 1) as (b1 & r & Hb1 & Hib1 & Ecb1 & Esb1 & Hrole & Hrx & Htot & Hser & Eob1); try done.
  { unfold rx_at. fold key. change (s_engine_id s, s_session_number s) with key. by rewrite Hfresh. }
  exists b1. split; [done|].
  apply (finish_transfer data s a1 b0 b1 r 1) with (set_checkpoint_counter 1 s); rewrite ?Ec1, ?Ecb1; try done.
  rewrite Es1. apply lookup_insert_eq.
Qed.

(** ** Property *)

(** [C2] A red block arrives. The originator starts a session for [data]; of
    the segments it sends, the last one [cp] reaches the receiver, and before
    it come [arr], any of the others in any order, lost or repeated as the
    network likes. Then each side in turn receives what the other sends: the
    report; its acknowledgement with the retransmission of what was lost; the
    second report if there was one; its acknowledgement. No step fails,
    exactly [data] is delivered, once, the originator is told that its session
    is complete, and both sides have forgotten the session. Every message goes
    through the wire format, and neither engine's other sessions matter. *)
Theorem red_transfer_recovers (a0 b0 : LtpEngine (T := T)) data
    (Hbytes : bytes data) (Hsize : zlen data < 2 ^ 56) (Hroom : 16 * zlen data + 16 <= alloc_limit)
    (Ha : inv a0) (Hb : inv b0) (Hid : is_u64 (local_engine_id (config a0)))
    (Hpeer : local_engine_id (config a0) <> local_engine_id (config b0))
    (Hcount : session_counter a0 + 1 < 2 ^ 64)
    (Hretx : 0 < max_retransmissions (config a0) < 255)
    (Hcapa : Z.of_nat (size (sessions a0)) < max_concurrent_sessions (config a0))
    (Hcapb : Z.of_nat (size (sessions b0)) < max_concurrent_sessions (config b0))
    (Hfresh : sessions b0 !! (local_engine_id (config a0), session_counter a0 + 1) = None) :
  let key := (local_engine_id (config a0), session_counter a0 + 1) in
  exists a1 first cp,
    run (perform (CStart data true)) a0 = Ok a1 /\ sent_segments (new_outputs a0 a1) = first ++ [cp] /\
    forall arr, (forall m, m ∈ arr -> m ∈ first) ->
    exists b1, run (perform_all (CReceive <$> (arr ++ [cp]))) b0 = Ok b1 /\ exists a2 b2 a3 b3,
      relay b0 b1 a1 = Ok a2 /\ relay a1 a2 b1 = Ok b2 /\ relay b1 b2 a2 = Ok a3 /\ relay a2 a3 b2 = Ok b3 /\
      deliveries (new_outputs b0 b3) = [data] /\
      SessionComplete (session_counter a0 + 1) ∈ new_outputs a1 a3 /\
      sessions a3 !! key = None /\ sessions b3 !! key = None.
Proof.
  intros key. destruct (whole_transfer a0 b0 data) as (a1 & first & cp & Hs & Ho & _ & Harr); try done.
  exists a1, first, cp. split; [done|]. split; [done|]. intros arr Hin. destruct (Harr arr Hin) as (b1 & Hb1 & a2 & b2 & a3 & b3 & H1).
  exists b1. split; [done|]. exists a2, b2, a3, b3. by destruct_and! H1.
Qed.
End transfer.

(** Five bytes in segments of two, everything but the checkpoint lost. *)
Section witness.
#[local] Existing Instance one_gib.
#[local] Existing Instance Timers.manager_service.

Definition sender : LtpEngine := init_engine (sample_config 1 2) (Some Timers.init).
Definition receiver : LtpEngine := init_engine (sample_config 2 1) (Some Timers.init).

Lemma red_transfer_recovers_witness :
  exists a1 first cp,
    run (perform (CStart [10; 11; 12; 13; 14] true)) sender = Ok a1 /\
    sent_segments (new_outputs sender a1) = first ++ [cp] /\
    exists b1, run (perform_all [CReceive cp]) receiver = Ok b1 /\ exists a2 b2 a3 b3,
      relay receiver b1 a1 = Ok a2 /\ relay a1 a2 b1 = Ok b2 /\ relay b1 b2 a2 = Ok a3 /\ relay a2 a3 b2 = Ok b3 /\
      deliveries (new_outputs receiver b3) = [[10; 11; 12; 13; 14]].
Proof.
  destruct (red_transfer_recovers sender receiver [10; 11; 12; 13; 14]) as (a1 & first & cp & Hstart & Hsent & Harr);
    [by apply (bool_decide_unpack _ (dec := Forall_dec _ _))|..|].
  - simpl. lia.
  - simpl. lia.
  - apply inv_init. split; simpl; lia.
  - apply inv_init. split; simpl; lia.
  - unfold is_u64. simpl. lia.
  - simpl. lia.
  - simpl. lia.
  - simpl. lia.
  - by vm_compute.
  - by vm_compute.
  - done.
  - exists a1, first, cp. split; [exact Hstart|]. split; [exact Hsent|].
    destruct (Harr []) as (b1 & Hb1 & a2 & b2 & a3 & b3 & H1 & H2 & H3 & H4 & Hd & _).
    { intros m Hm. by apply elem_of_nil in Hm. }
    exists b1. split; [exact Hb1|]. by exists a2, b2, a3, b3.
Defined.
End witness.
End Transfer.
