(* ===== verification/Recovery.v ===== *)
(** * Two engines over a network that loses, repeats and reorders

    [Transfer] follows one exchange to its end. Here any number of exchanges
    fail first: messages of both sides are lost, repeated or overtaken and the
    timers of both sides expire, in any order, until the block is delivered. *)
From S2P Require Import Prelude Sdnv Segment Tracker Timers Engine EngineLogic Segmentation EngineInvariant EngineRetry Delivery Transfer.
Import SegType Segment Engine EngineLogic Segmentation EngineInvariant EngineRetry Delivery Transfer.
Import Tracker(covers, normal).
Import Timers(TimerService, MkEvent, evt_type, evt_engine_id, evt_session_number, evt_serial_number).

Module Recovery.

(** What may happen next: the [i]-th of the messages that the other side has
    sent so far arrives, whether or not it has arrived before, or a timer of
    the session expires. A message that never arrives is lost. *)
Inductive event :=
  | ToReceiver (i : nat)
  | ToOriginator (i : nat)
  | CheckpointTimer (serial : Z)
  | ReportTimer (serial : Z).

(** The events that can take one of the originator's retransmissions. *)
Definition tries (evs : list event) : Z :=
  foldr (fun ev n => match ev with ToOriginator _ | CheckpointTimer _ => 1 + n | _ => n end) 0 evs.

Section exchange.
Context {T : Type} `{TimerService T} `{Allocator}.
Implicit Types (a b e : LtpEngine (T := T)).

Record parties := MkParties { originator : LtpEngine (T := T); receiver : LtpEngine (T := T) }.
Implicit Types (w : parties).

(** What was sent, and delivered, since [e0]. *)
Definition sent_since (e0 e : LtpEngine (T := T)) : list (list Z) := sent_segments (new_outputs e0 e).
Definition delivered_since (e0 e : LtpEngine (T := T)) : list (list Z) := deliveries (new_outputs e0 e).

Definition arrive (sent : list (list Z)) (i : nat) (e : LtpEngine (T := T)) : outcome LtpEngine :=
  match sent !! i with Some m => run (perform (CReceive m)) e | None => Ok e end.

Definition checkpoint_expires (key : SessionKey) (serial : Z) : call := CExpire (MkEvent Timers.CHECKPOINT key.1 key.2 (u64 serial)).
Definition report_expires (key : SessionKey) (serial : Z) : call := CExpire (MkEvent Timers.REPORT_SEGMENT key.1 key.2 (u64 serial)).

Definition step (start : parties) (key : SessionKey) (ev : event) (w : parties) : outcome parties :=
  match ev with
  | ToReceiver i => b ← arrive (sent_since (originator start) (originator w)) i (receiver w); Ok (MkParties (originator w) b)
  | ToOriginator i => a ← arrive (sent_since (receiver start) (receiver w)) i (originator w); Ok (MkParties a (receiver w))
  | CheckpointTimer serial => a ← run (perform (checkpoint_expires key serial)) (originator w); Ok (MkParties a (receiver w))
  | ReportTimer serial => b ← run (perform (report_expires key serial)) (receiver w); Ok (MkParties (originator w) b)
  end.

(** Until something is delivered. *)
Fixpoint play (start : parties) (key : SessionKey) (evs : list event) (w : parties) : outcome parties :=
  match evs with
  | [] => Ok w
  | ev :: evs' =>
      if bool_decide (delivered_since (receiver start) (receiver w) = [])
      then w ← step start key ev w; play start key evs' w
      else Ok w
  end.

(** ** What holds until then *)

Section safety.
Context (data : list Z) (s : LtpSession) (start : parties).
Hypothesis Hbytes : bytes data.
Hypothesis Hnonempty : 0 < zlen data.
Hypothesis Hsize : zlen data < 2 ^ 56.
Hypothesis Hroom : 16 * zlen data + 16 <= alloc_limit.
Hypothesis Hengine : is_u64 (s_engine_id s).
Hypothesis Hnumber : is_u64 (s_session_number s).
Hypothesis Hlocal : s_engine_id s = local_engine_id (config (originator start)).
Hypothesis Hpeer : s_engine_id s <> local_engine_id (config (receiver start)).
Hypothesis Hlimit : max_retransmissions (config (originator start)) < 255.

Abbreviation key := (s_engine_id s, s_session_number s).
Abbreviation block := (MkBlock true data).

(** The receiver knows the end of the block; it has all of it. *)
Definition bounded b : Prop := exists r, sessions b !! key = Some r /\ total_data_length r = zlen data.
Definition complete b : Prop :=
  exists r, sessions b !! key = Some r /\ total_data_length r = zlen data /\
    forall x, 0 <= x < zlen data -> covers (reception_tracker r) x.

(** The messages in flight. A checkpoint in the middle of the block and an
    acknowledgement answer a report, which answers the end of the block. *)
Inductive from_originator b : list Z -> Prop :=
  | om_data p : in_block data p -> from_originator b (wire (piece_segment RED_DATA None s p))
  | om_end cp p : is_u64 cp -> in_block data p -> fst p + zlen (snd p) = zlen data ->
      from_originator b (wire (piece_segment RED_DATA_CP_EORP_EOB (Some cp) s p))
  | om_checkpoint cp p : is_u64 cp -> in_block data p -> bounded b ->
      from_originator b (wire (piece_segment RED_DATA_CP (Some cp) s p))
  | om_ack serial : is_u64 serial -> bounded b -> from_originator b (wire (ack_segment s serial)).

(** A report claims what the receiver still has. *)
Inductive from_receiver b : list Z -> Prop :=
  | rm_report r r' serial upper :
      rx_ok block r -> is_u64 (report_serial_counter r) -> is_u64 serial -> 0 <= upper <= zlen data ->
      sessions b !! key = Some r' -> total_data_length r' = zlen data ->
      (forall x, covers (reception_tracker r) x -> covers (reception_tracker r') x) ->
      from_receiver b (wire (report_seg key r serial upper)).

(** The session of the block at the receiver never shrinks. *)
Definition grows b b' : Prop :=
  forall r, sessions b !! key = Some r -> exists r', sessions b' !! key = Some r' /\
    (total_data_length r = zlen data -> total_data_length r' = zlen data) /\
    forall x, covers (reception_tracker r) x -> covers (reception_tracker r') x.

Lemma grows_refl b : grows b b.
Proof. intros r Hr. exists r. auto. Qed.
Lemma grows_bounded b b' : grows b b' -> bounded b -> bounded b'.
Proof. intros Hg (r & Hr & Ht). destruct (Hg r Hr) as (r' & Hr' & Ht' & _). exists r'. auto. Qed.
Lemma grows_complete b b' : grows b b' -> complete b -> complete b'.
Proof. intros Hg (r & Hr & Ht & Hx). destruct (Hg r Hr) as (r' & Hr' & Ht' & Hx'). exists r'. auto. Qed.
Lemma grows_from_originator b b' m : grows b b' -> from_originator b m -> from_originator b' m.
Proof.
  intros Hg [p|cp p|cp p|serial]; [by apply om_data|by apply om_end|apply om_checkpoint|apply om_ack]; try done; by eapply grows_bounded.
Qed.
Lemma grows_from_receiver b b' m : grows b b' -> from_receiver b m -> from_receiver b' m.
Proof.
  intros Hg [r r1 serial upper ? ? ? ? Hr ? Hx]. destruct (Hg r1 Hr) as (r2 & Hr2 & Ht2 & Hx2).
  eapply rm_report; try done; auto.
Qed.

(** The transfer is under way, with at most [n] retransmissions spent; or the
    block was delivered. *)
Record under_way (n : Z) (w : parties) : Prop := {
  uw_inv : inv (originator w) /\ inv (receiver w);
  uw_config : config (originator w) = config (originator start) /\ config (receiver w) = config (receiver start);
  uw_session : match sessions (originator w) !! key with
               | Some o => client_data o = data /\ s_is_red o = true /\ retransmission_count o <= n
               | None => complete (receiver w)
               end;
  uw_receiver : rx_at (receiver w) key block;
  uw_sent : exists out, outputs (originator w) = outputs (originator start) ++ out /\
              Forall (from_originator (receiver w)) (sent_segments out);
  uw_reports : exists out, outputs (receiver w) = outputs (receiver start) ++ out /\
                 Forall (from_receiver (receiver w)) (sent_segments out) /\ deliveries out = [] }.

Definition over (w : parties) : Prop :=
  exists out, outputs (receiver w) = outputs (receiver start) ++ out /\ deliveries out = [data].

Lemma originator_role n w o : under_way n w -> sessions (originator w) !! key = Some o -> s_role o = ORIGINATOR.
Proof.
  intros [[Hi _] [Ec _] _ _ _ _] Hs. destruct (inv_sessions _ Hi _ _ Hs) as [[= Ek _] _ _ Hr]. rewrite Ec in Hr.
  destruct (s_role o); [done|]. destruct Hr as [Hr _]. congruence.
Qed.

Lemma receiver_role n w r : under_way n w -> sessions (receiver w) !! key = Some r -> s_role r = RECEIVER.
Proof. intros [[_ Hi] [_ Ec] _ _ _ _] Hs. eapply receiver_of; [exact Hi|exact Hs|]. by rewrite Ec. Qed.

Lemma receiver_rx n w r : under_way n w -> sessions (receiver w) !! key = Some r -> rx_ok block r.
Proof. intros Hu Hs. pose proof (uw_receiver _ _ Hu) as Hat. unfold rx_at in Hat. by rewrite Hs in Hat. Qed.

(** A step of the receiver that adds to its session. *)
Lemma receiver_step n w b' out :
  under_way n w -> inv b' -> config b' = config (receiver w) -> rx_at b' key block -> grows (receiver w) b' ->
  outputs b' = outputs (receiver w) ++ out -> Forall (from_receiver b') (sent_segments out) -> deliveries out = [] ->
  under_way n (MkParties (originator w) b').
Proof.
  intros [[Ha _] [Eca Ecb] Hs _ (outa & Ea & Hma) (outb & Eb & Hmb & Hd)] Hb Ec Hat Hg Eo Hm Hdo.
  split; cbn [originator receiver]; try done.
  - by rewrite Ec.
  - destruct (sessions (originator w) !! key); [done|]. by eapply grows_complete.
  - exists outa. split; [done|]. eapply Forall_impl; [exact Hma|]. intros m. by apply grows_from_originator.
  - exists (outb ++ out). rewrite Eo, Eb, sent_segments_app, deliveries_app, Hd, Hdo, app_assoc. split_and!; [done| |done].
    apply Forall_app_2; [|done]. eapply Forall_impl; [exact Hmb|]. intros m. by apply grows_from_receiver.
Qed.

(** A step of the originator. *)
Lemma originator_step n n' w a' out :
  under_way n w -> inv a' -> config a' = config (originator w) ->
  match sessions a' !! key with
  | Some o => client_data o = data /\ s_is_red o = true /\ retransmission_count o <= n'
  | None => complete (receiver w)
  end ->
  outputs a' = outputs (originator w) ++ out -> Forall (from_originator (receiver w)) (sent_segments out) ->
  under_way n' (MkParties a' (receiver w)).
Proof.
  intros [[_ Hb] [Eca Ecb] _ Hat (outa & Ea & Hma) Hreps] Ha Ec Hs Eo Hm. split; cbn [originator receiver]; try done.
  - by rewrite Ec.
  - exists (outa ++ out). rewrite Eo, Ea, sent_segments_app, app_assoc. split; [done|]. by apply Forall_app_2.
Qed.
(** ** One event at a time *)

Lemma data_arrives n w type cp p :
  under_way n w -> flags_ok data type cp p -> in_block data p -> (is_Some cp -> has_eob type = true \/ bounded (receiver w)) ->
  exists b', run (perform (CReceive (wire (piece_segment type cp s p)))) (receiver w) = Ok b' /\
    under_way n (MkParties (originator w) b').
Proof.
  intros Hu Hf Hp Hend. pose proof (proj2 (uw_inv _ _ Hu)) as Hib. pose proof (uw_receiver _ _ Hu) as Hat.
  destruct (run_piece_segment data s Hbytes Hsize Hroom Hengine Hnumber type cp p (receiver w))
    as (b' & r & Hr & Hi & Ec & Es & Hrx & _ & Hcov & Ht & Eo & Hser); [done|done|done|by rewrite (proj2 (uw_config _ _ Hu))|done|].
  assert (sessions b' !! key = Some r) as Hs by (by rewrite Es, lookup_insert_eq).
  exists b'. split; [done|]. eapply receiver_step; [exact Hu|done|done| | |exact Eo| |by destruct cp].
  - unfold rx_at. by rewrite Hs.
  - intros r0 Hr0. assert (current (receiver w) key = r0) as Ecur by (unfold current; by rewrite Hr0). rewrite Ecur in Hcov, Ht.
    exists r. split_and!; [done| |intros x Hx; apply Hcov; by right]. intros Et. rewrite Ht. by destruct (has_eob type).
  - destruct cp as [serial|]; [|done]. apply Forall_singleton. destruct (in_block_bounds _ _ Hp).
    eapply rm_report; [done|by apply Hser| |lia|exact Hs| |done].
    + destruct Hf as [[_ [=]]|[(_ & _ & Hu64)|(_ & _ & Hu64 & _)]]; by apply Hu64.
    + rewrite Ht. destruct (has_eob type) eqn:Eeob; [done|]. destruct (Hend ltac:(done)) as [?|(r0 & Hr0 & Ht0)]; [done|].
      unfold current. by rewrite Hr0.
Qed.

Lemma ack_arrives n w serial :
  under_way n w -> is_u64 serial -> bounded (receiver w) ->
  exists b', run (perform (CReceive (wire (ack_segment s serial)))) (receiver w) = Ok b' /\
    (under_way n (MkParties (originator w) b') \/ over (MkParties (originator w) b')).
Proof.
  intros Hu Hser (r & Hs & Ht). pose proof (proj2 (uw_inv _ _ Hu)) as Hib. pose proof (uw_receiver _ _ Hu) as Hat.
  pose proof (receiver_role _ _ _ Hu Hs) as Hrole. pose proof (receiver_rx _ _ _ Hu Hs) as Hrx.
  destruct (decide (Tracker.is_complete (zlen data) (reception_tracker r) = true)) as [Hc|Hc].
  - destruct (run_ack_complete data s Hengine Hnumber (receiver w) r serial) as (b' & Hr & _ & Eo); try done.
    { apply Tracker.is_complete_covers; [apply Hrx|done]. }
    exists b'. split; [done|]. right. destruct (uw_reports _ _ Hu) as (out & Eb & _ & Hd).
    exists (out ++ [DataArrival data]). cbn [receiver]. by rewrite Eo, Eb, <- app_assoc, deliveries_app, Hd.
  - destruct (run_ack_incomplete data s Hengine Hnumber (receiver w) r serial) as (b' & Hr & Hi & Ec & Es & Eo); try done.
    { intros Hall. apply Hc, Tracker.covers_is_complete; [apply Hrx|lia|done|].
      intros x Hx. pose proof (rx_inside _ _ Hrx _ Hx). pose proof (rx_length _ _ Hrx). cbn in *. lia. }
    exists b'. split; [done|]. left. apply (receiver_step n w b' []); [done|done|done| | |by rewrite app_nil_r|done|done].
    + unfold rx_at. rewrite Es, Ec. exact Hat.
    + intros r0 Hr0. exists r0. rewrite Es. auto.
Qed.

Lemma run_report_expiry n w serial :
  under_way n w ->
  exists b', run (perform (report_expires key serial)) (receiver w) = Ok b' /\ inv b' /\ config b' = config (receiver w) /\
    match sessions (receiver w) !! key with
    | Some r =>
        if 0 <? total_data_length r then
          sessions b' = <[key := after_report r]> (sessions (receiver w)) /\
          outputs b' = outputs (receiver w) ++
            [SendSegment (wire (report_seg key (after_report r) (u64 serial) (total_data_length r)))]
        else sessions b' = sessions (receiver w) /\ outputs b' = outputs (receiver w)
    | None => sessions b' = sessions (receiver w) /\ outputs b' = outputs (receiver w)
    end.
Proof.
  intros Hu. pose proof (proj2 (uw_inv _ _ Hu)) as Hib. set (ev := MkEvent Timers.REPORT_SEGMENT key.1 key.2 (u64 serial)).
  assert (wp (handle_timer_expiry ev) (fun _ b' =>
    match sessions (receiver w) !! key with
    | Some r => if 0 <? total_data_length r then
          sessions b' = <[key := after_report r]> (sessions (receiver w)) /\
          outputs b' = outputs (receiver w) ++
            [SendSegment (wire (report_seg key (after_report r) (u64 serial) (total_data_length r)))]
        else sessions b' = sessions (receiver w) /\ outputs b' = outputs (receiver w)
    | None => sessions b' = sessions (receiver w) /\ outputs b' = outputs (receiver w) end) (fun _ => False) (receiver w)) as Hw.
  { apply wp_handle_timer_expiry; [by apply inv_keyed|]. change (evt_engine_id ev, evt_session_number ev) with key. cbv zeta.
    change (evt_type ev) with Timers.REPORT_SEGMENT. cbv iota. destruct (sessions (receiver w) !! key) as [r|] eqn:Hs; [|done].
    rewrite decide_True by (by eapply receiver_role). destruct (inv_sessions _ Hib _ _ Hs) as [Ek _ _ _].
    destruct (0 <? total_data_length r).
    - intros b' [_ _ Es _ Eo]. split; [done|]. rewrite Eo. unfold report_of, report_seg. cbn [evt_serial_number ev]. by injection Ek as <- <-.
    - intros b' [_ _ Es _ Eo]. by rewrite app_nil_r in Eo. }
  pose proof (inv_timer ev (receiver w) (fun _ => False) Hib) as Hinv. unfold wp in *. unfold run. cbn [perform report_expires]. fold ev.
  destruct (handle_timer_expiry ev (receiver w)) as [[[] b']|]; [|done]. destruct Hinv as (Hi & Ec & _). by exists b'.
Qed.

Lemma report_timer_expires n w serial :
  under_way n w ->
  exists b', run (perform (report_expires key serial)) (receiver w) = Ok b' /\ under_way n (MkParties (originator w) b').
Proof.
  intros Hu. destruct (run_report_expiry n w serial Hu) as (b' & Hr & Hi & Ec & Hcase). exists b'. split; [done|].
  pose proof (uw_receiver _ _ Hu) as Hat.
  assert (sessions b' = sessions (receiver w) /\ outputs b' = outputs (receiver w) -> under_way n (MkParties (originator w) b')) as Hsame.
  { intros [Es Eo]. apply (receiver_step n w b' []); [done|done|done| | |by rewrite app_nil_r|done|done].
    - unfold rx_at. rewrite Es, Ec. exact Hat.
    - intros r0 Hr0. exists r0. rewrite Es. auto. }
  destruct (sessions (receiver w) !! key) as [r|] eqn:Hs; [|auto]. destruct (0 <? total_data_length r) eqn:Et; [|auto].
  destruct Hcase as [Es Eo]. pose proof (receiver_rx _ _ _ Hu Hs) as Hrx.
  assert (sessions b' !! key = Some (after_report r)) as Hs' by (by rewrite Es, lookup_insert_eq).
  assert (rx_ok block (after_report r)) as Hrx' by (by destruct Hrx).
  assert (total_data_length r = zlen data) as Htot by (destruct (rx_total _ _ Hrx) as [E|[E _]]; [lia|exact E]).
  eapply receiver_step; [exact Hu|done|done| | |exact Eo| |done].
  - unfold rx_at. by rewrite Hs'.
  - intros r0 Hr0. exists (after_report r). simplify_eq. auto.
  - apply Forall_singleton. eapply rm_report; [done|apply u64_range|apply u64_range|lia|exact Hs'|done|done].
Qed.

(** A report on a session that the originator has closed. *)
Lemma run_report_closed n w r serial upper :
  under_way n w -> sessions (originator w) !! key = None ->
  rx_ok block r -> is_u64 (report_serial_counter r) -> is_u64 serial -> 0 <= upper <= zlen data ->
  exists a', run (perform (CReceive (wire (report_seg key r serial upper)))) (originator w) = Ok a' /\ inv a' /\
    config a' = config (originator w) /\ sessions a' = sessions (originator w) /\
    outputs a' = outputs (originator w) ++ [SendSegment (wire (ack_segment s (report_serial_counter r)))].
Proof.
  intros Hu Ho Hrx Hc Hser Hup. destruct (uw_inv _ _ Hu) as [Hia _]. destruct (uw_config _ _ Hu) as [Eca _].
  assert (s_engine_id s = local_engine_id (config (originator w))) as Hid by (by rewrite Eca).
  destruct (report_seg_wire data s Hsize Hroom Hengine Hnumber r serial upper) as (W1 & W2 & W3); [done..|unfold is_u64; lia|].
  rewrite receive_wire by done.
  assert (wp (receive_segment (report_seg key r serial upper)) (fun _ a' => sessions a' = sessions (originator w) /\
    outputs a' = outputs (originator w) ++ [SendSegment (wire (ack_segment s (report_serial_counter r)))])
    (fun _ => False) (originator w)) as Hw.
  { unfold receive_segment. cbn. eapply wp_receive_report; [done|by apply inv_keyed|]. cbv zeta. cbn [session_number report_seg plain_segment].
    rewrite <- Hid. change (key.2) with (s_session_number s). rewrite Ho. intros a' [_ _ Es _ Eo]. split; [done|exact Eo]. }
  pose proof (inv_receive_segment _ _ Hia W1 ltac:(done)) as Hinv. unfold wp in *. unfold run.
  destruct (receive_segment _ (originator w)) as [[[] a']|]; [|done]. destruct Hw as [Es Eo], Hinv as (Hi' & Ec & _). by exists a'.
Qed.

Lemma report_arrives n w m :
  under_way n w -> from_receiver (receiver w) m -> n < max_retransmissions (config (originator w)) ->
  exists a', run (perform (CReceive m)) (originator w) = Ok a' /\ under_way (n + 1) (MkParties a' (receiver w)).
Proof.
  intros Hu [r r' serial upper Hrx Hc Hser Hup Hs Ht Hx] Hn. destruct (uw_inv _ _ Hu) as [Hia _]. destruct (uw_config _ _ Hu) as [Eca _].
  assert (s_engine_id s = local_engine_id (config (originator w))) as Hid by (by rewrite Eca).
  assert (bounded (receiver w)) as Hbd by (by exists r'). pose proof (uw_session _ _ Hu) as Hsess.
  destruct (report_seg_wire data s Hsize Hroom Hengine Hnumber r serial upper) as (W1 & W2 & W3); [done..|unfold is_u64; lia|].
  destruct (sessions (originator w) !! key) as [o|] eqn:Ho.
  - destruct Hsess as (Hd & Hred & Hcnt). pose proof (originator_role _ _ _ Hu Ho) as Hrole.
    destruct (decide (Tracker.is_complete (zlen data) (reception_tracker r) = true)) as [Hall|Hall].
    + pose proof (Tracker.is_complete_covers _ _ (rx_normal _ _ Hrx) Hall) as Hcov.
      destruct (run_report_all data s Hsize Hroom Hengine Hnumber (originator w) r o serial upper) as (a' & Hr & Es & Eo);
        try done; [unfold is_u64; lia|].
      exists a'. split; [done|]. rewrite receive_wire in Hr by done.
      pose proof (inv_receive_segment _ _ Hia W1 ltac:(done)) as Hinv. unfold wp in Hinv. unfold run in Hr.
      destruct (receive_segment _ (originator w)) as [[[] a1]|]; [|done]. cbn in Hr. injection Hr as <-. destruct Hinv as (Hi' & Ec & _).
      eapply originator_step; [exact Hu|done|done| |exact Eo|].
      * rewrite Es, lookup_delete_eq. exists r'. auto.
      * apply Forall_singleton. by apply om_ack.
    + destruct (run_report_gaps data s Hsize Hroom Hengine Hnumber (originator w) r o serial upper)
        as (a' & o' & ps & Hr & Hi & Ec & Es & (Ed & Er & _) & _ & Hcnt' & Eo & Hps & _); try done.
      { rewrite Eca in Hn |- *. lia. }
      { intros Hcov. apply Hall, Tracker.covers_is_complete; [apply Hrx|lia|done|].
        intros x Hxx. pose proof (rx_inside _ _ Hrx _ Hxx). pose proof (rx_length _ _ Hrx). cbn in *. lia. }
      exists a'. split; [done|]. eapply originator_step; [exact Hu|done|done| |exact Eo|].
      * rewrite Es, lookup_insert_eq. rewrite Ed, Er. split_and!; [done|done|lia].
      * apply Forall_cons_2; [by apply om_ack|]. rewrite sent_segments_sending. apply Forall_fmap.
        destruct ps as [|p ps _] using rev_ind; [apply Forall_nil_2|]. rewrite with_last_snoc.
        apply Forall_app in Hps as [Hps Hp]. rewrite Forall_singleton in Hp. apply Forall_app_2.
        -- apply Forall_fmap. eapply Forall_impl; [exact Hps|]. intros q Hq. by apply om_data.
        -- apply Forall_singleton. apply om_checkpoint; [apply u64_range|done|done].
  - destruct (run_report_closed n w r serial upper) as (a' & Hr & Hi' & Ec & Es & Eo); try done.
    exists a'. split; [done|]. eapply originator_step; [exact Hu|done|done| |exact Eo|].
    + by rewrite Es, Ho.
    + apply Forall_singleton. by apply om_ack.
Qed.

(** The whole block again, as long as the session is open. *)
Lemma run_checkpoint_expiry n w serial :
  under_way n w -> n < max_retransmissions (config (originator w)) ->
  exists a', run (perform (checkpoint_expires key serial)) (originator w) = Ok a' /\ inv a' /\ config a' = config (originator w) /\
    match sessions (originator w) !! key with
    | Some o => exists ps p cp, sessions a' !! key = Some (retried 1 o) /\ is_u64 cp /\
        outputs a' = outputs (originator w) ++
          sending ((piece_segment RED_DATA None s <$> ps) ++ [piece_segment RED_DATA_CP_EORP_EOB (Some cp) s p]) /\
        Forall (in_block data) (ps ++ [p]) /\ fst p + zlen (snd p) = zlen data
    | None => a' = originator w
    end.
Proof.
  intros Hu Hn. destruct (uw_inv _ _ Hu) as [Hia _]. destruct (uw_config _ _ Hu) as [Eca _].
  assert (s_engine_id s = local_engine_id (config (originator w))) as Hid by (by rewrite Eca).
  set (ev := MkEvent Timers.CHECKPOINT key.1 key.2 (u64 serial)). cbn [perform checkpoint_expires]. fold ev.
  pose proof (inv_timer ev (originator w) (fun _ => False) Hia) as Hinv. pose proof (uw_session _ _ Hu) as Hsess.
  destruct (sessions (originator w) !! key) as [o|] eqn:Ho.
  - destruct Hsess as (Hd & Hred & Hcnt). pose proof (originator_role _ _ _ Hu Ho) as Hrole.
    destruct (inv_sessions _ Hia _ _ Ho) as [[= Ek1 Ek2] _ Hc0 _]. pose proof (ok_segment_size _ (inv_config _ Hia)) as Hmax.
    destruct (run_timeout (originator w) key o ev) as (a' & Hr & Hch); try done.
    { by apply inv_keyed. } { cbn. by rewrite <- Hid. } { lia. } { by rewrite Eca. }
    destruct (segment_data_wire o (max_segment_size (config (originator w))) (checkpoint_serial_counter o) Hmax Hred)
      as (ps & p & Hseg & Hps & _ & Hend). rewrite Hd in Hps, Hend.
    exists a'. split; [done|]. unfold wp in Hinv. unfold run in Hr.
    destruct (handle_timer_expiry ev (originator w)) as [[[] a1]|]; [|done]. cbn in Hr. injection Hr as ->.
    destruct Hinv as (Hi' & Ec & _). split; [done|]. split; [done|].
    destruct Hch as [_ _ Es _ Eo]. exists ps, p, (u64 (checkpoint_serial_counter o + 1)).
    split_and!; [by rewrite Es, lookup_insert_eq|apply u64_range| |done|done].
    rewrite Eo. unfold transmission. rewrite Hseg. do 3 f_equal; [apply list_fmap_ext; intros|f_equal]; unfold piece_segment; by rewrite Ek1, Ek2.
  - assert (wp (handle_timer_expiry ev) (fun _ a' => a' = originator w) (fun _ => False) (originator w)) as Hw.
    { apply wp_handle_timer_expiry; [by apply inv_keyed|]. rewrite <- Hid. change (s_engine_id s, evt_session_number ev) with key.
      cbv zeta. change (evt_type ev) with Timers.CHECKPOINT. cbv iota. by rewrite Ho. }
    unfold wp in *. unfold run. destruct (handle_timer_expiry ev (originator w)) as [[[] a']|]; [|done].
    exists a'. destruct Hinv as (Hi' & Ec & _). done.
Qed.

Lemma checkpoint_timer_expires n w serial :
  under_way n w -> n < max_retransmissions (config (originator w)) ->
  exists a', run (perform (checkpoint_expires key serial)) (originator w) = Ok a' /\ under_way (n + 1) (MkParties a' (receiver w)).
Proof.
  intros Hu Hn. destruct (run_checkpoint_expiry n w serial Hu Hn) as (a' & Hr & Hi & Ec & Hcase). exists a'. split; [done|].
  pose proof (uw_session _ _ Hu) as Hsess. destruct (sessions (originator w) !! key) as [o|] eqn:Ho.
  - destruct Hcase as (ps & p & cp & Es & Hcp & Eo & Hps & Hend). destruct Hsess as (Hd & Hred & Hcnt).
    eapply originator_step; [exact Hu|done|done| |exact Eo|].
    + rewrite Es. split_and!; [done|done|]. cbn. lia.
    + rewrite sent_pieces. apply Forall_app in Hps as [Hps Hp]. rewrite Forall_singleton in Hp. apply Forall_app_2.
      * apply Forall_fmap. eapply Forall_impl; [exact Hps|]. intros q Hq. by apply om_data.
      * apply Forall_singleton. by apply om_end.
  - subst a'. apply (originator_step n (n + 1) w (originator w) []); [done|done|done| |by rewrite app_nil_r|done]. by rewrite Ho.
Qed.

(** ** Any number of events *)

Lemma under_way_more n n' w : under_way n w -> n <= n' -> under_way n' w.
Proof.
  intros [H1 H2 H3 H4 H5 H6] Hn. split; try done. destruct (sessions (originator w) !! key); [|done].
  destruct H3 as (? & ? & ?). split_and!; [done..|lia].
Qed.

Lemma under_way_delivered n w : under_way n w -> delivered_since (receiver start) (receiver w) = [].
Proof. intros Hu. destruct (uw_reports _ _ Hu) as (out & Eo & _ & Hd). unfold delivered_since. by rewrite (new_outputs_app _ _ _ Eo). Qed.

Lemma over_delivered w : over w -> delivered_since (receiver start) (receiver w) = [data].
Proof. intros (out & Eo & Hd). unfold delivered_since. by rewrite (new_outputs_app _ _ _ Eo). Qed.

Lemma to_receiver n w i :
  under_way n w -> exists w', step start key (ToReceiver i) w = Ok w' /\ (under_way n w' \/ over w').
Proof.
  intros Hu. destruct (uw_sent _ _ Hu) as (out & Eo & Hm). cbn [step]. unfold sent_since, arrive. rewrite (new_outputs_app _ _ _ Eo).
  destruct (sent_segments out !! i) as [m|] eqn:Ei; [|exists w; destruct w; auto].
  rewrite Forall_lookup in Hm. destruct (Hm i m Ei) as [p Hp|cp p Hcp Hp Hend|cp p Hcp Hp Hb|serial Hser Hb].
  - destruct (data_arrives n w RED_DATA None p Hu) as (b' & -> & Hu'); [by left|done|by intros []|]. eexists. split; [done|auto].
  - destruct (data_arrives n w RED_DATA_CP_EORP_EOB (Some cp) p Hu) as (b' & -> & Hu'); [|done|by left|].
    { right. right. split_and!; [done|done|by intros x [= <-]|done]. }
    eexists. split; [done|auto].
  - destruct (data_arrives n w RED_DATA_CP (Some cp) p Hu) as (b' & -> & Hu'); [|done|by right|].
    { right. left. split_and!; [done|done|by intros x [= <-]]. }
    eexists. split; [done|auto].
  - destruct (ack_arrives n w serial Hu Hser Hb) as (b' & -> & Hu'). eexists. split; [done|auto].
Qed.

Lemma to_originator n w i :
  under_way n w -> n < max_retransmissions (config (originator start)) ->
  exists w', step start key (ToOriginator i) w = Ok w' /\ under_way (n + 1) w'.
Proof.
  intros Hu Hn. destruct (uw_reports _ _ Hu) as (out & Eo & Hm & _). cbn [step]. unfold sent_since, arrive. rewrite (new_outputs_app _ _ _ Eo).
  destruct (sent_segments out !! i) as [m|] eqn:Ei.
  - rewrite Forall_lookup in Hm. destruct (report_arrives n w m Hu (Hm i m Ei)) as (a' & -> & Hu'); [by rewrite (proj1 (uw_config _ _ Hu))|].
    eexists. split; [done|exact Hu'].
  - exists w. split; [by destruct w|]. apply (under_way_more n); [done|lia].
Qed.

Lemma step_under_way n w ev :
  under_way n w -> n + tries [ev] <= max_retransmissions (config (originator start)) ->
  exists w', step start key ev w = Ok w' /\ (under_way (n + tries [ev]) w' \/ over w').
Proof.
  intros Hu Hn. destruct ev as [i|i|serial|serial]; cbn [tries foldr] in *; rewrite ?Z.add_0_r in *.
  - by apply to_receiver.
  - destruct (to_originator n w i Hu) as (w' & E & Hu'); [lia|]. exists w'. auto.
  - destruct (checkpoint_timer_expires n w serial Hu) as (a' & Hr & Hu'); [rewrite (proj1 (uw_config _ _ Hu)); lia|].
    exists (MkParties a' (receiver w)). split; [cbn [step]; by rewrite Hr|auto].
  - destruct (report_timer_expires n w serial Hu) as (b' & Hr & Hu').
    exists (MkParties (originator w) b'). split; [cbn [step]; by rewrite Hr|auto].
Qed.

Lemma tries_cons ev evs : tries (ev :: evs) = tries [ev] + tries evs.
Proof. unfold tries. cbn [foldr]. destruct ev; lia. Qed.

Lemma tries_nonneg evs : 0 <= tries evs.
Proof. induction evs as [|ev evs IH]; [done|]. rewrite tries_cons. assert (0 <= tries [ev]) by (by destruct ev). lia. Qed.

Lemma play_over evs w : over w -> play start key evs w = Ok w.
Proof. intros Ho. destruct evs as [|ev evs]; [done|]. cbn [play]. by rewrite (over_delivered w Ho). Qed.

Lemma play_under_way evs : forall n w,
  under_way n w -> n + tries evs <= max_retransmissions (config (originator start)) ->
  exists w', play start key evs w = Ok w' /\ (under_way (n + tries evs) w' \/ over w').
Proof.
  induction evs as [|ev evs IH]; intros n w Hu Hn.
  - exists w. split; [done|]. left. cbn [tries foldr]. by rewrite Z.add_0_r.
  - rewrite tries_cons in *. pose proof (tries_nonneg evs). cbn [play]. rewrite (under_way_delivered n w Hu). cbn.
    destruct (step_under_way n w ev Hu) as (w1 & -> & [Hu1|Ho]); [lia| |]; cbn [mbind outcome_bind].
    + destruct (IH _ w1 Hu1) as (w2 & E2 & H2); [lia|]. exists w2. split; [done|]. by rewrite Z.add_assoc.
    + exists w1. rewrite play_over by done. auto.
Qed.

(** ** What is still missing gets through *)

Lemma waiting_finishes n w o serial :
  under_way n w -> n + 1 < max_retransmissions (config (originator start)) -> sessions (originator w) !! key = Some o ->
  exists a' first cp, run (perform (checkpoint_expires key serial)) (originator w) = Ok a' /\
    sent_since (originator w) a' = first ++ [cp] /\
    forall arr, (forall m, m ∈ arr -> m ∈ first) ->
    exists b', run (perform_all (CReceive <$> (arr ++ [cp]))) (receiver w) = Ok b' /\ finishes a' (receiver w) b' key data.
Proof.
  intros Hu Hn Ho. destruct (uw_config _ _ Hu) as [Eca Ecb]. pose proof (uw_session _ _ Hu) as Hsess. rewrite Ho in Hsess.
  destruct Hsess as (Hd & Hred & Hcnt). destruct (run_checkpoint_expiry n w serial Hu) as (a' & Hr & Hi & Ec & Hcase); [rewrite Eca; lia|].
  rewrite Ho in Hcase. destruct Hcase as (ps & p & cp & Es & Hcp & Eo & Hps & Hend).
  exists a', (wire ∘ piece_segment RED_DATA None s <$> ps), (wire (piece_segment RED_DATA_CP_EORP_EOB (Some cp) s p)).
  split; [done|]. split; [unfold sent_since; rewrite (new_outputs_app _ _ _ Eo); apply sent_pieces|].
  intros arr (qs & -> & Hqs)%copies_of.
  destruct (run_arrival data s (receiver w) ps p qs cp) as (b1 & r & Hb1 & Hib1 & Ecb1 & Esb1 & Hrole & Hrx & Htot & Hser & Eob1);
    [done..|apply Hu|by rewrite Ecb|apply Hu|done|done|done|done|].
  exists b1. split; [done|].
  apply (finish_transfer data s a' (receiver w) b1 r cp) with (retried 1 o); rewrite ?Ec, ?Ecb1, ?Eca, ?Ecb; try done.
  - exact (originator_role _ _ _ Hu Ho).
  - cbn. lia.
Qed.

Lemma acknowledged_finishes n w serial :
  under_way n w -> sessions (originator w) !! key = None ->
  exists b1 a2 b2, run (perform (report_expires key serial)) (receiver w) = Ok b1 /\
    relay (receiver w) b1 (originator w) = Ok a2 /\ relay (originator w) a2 b1 = Ok b2 /\
    delivered_since (receiver start) b2 = [data] /\ sessions b2 !! key = None.
Proof.
  intros Hu Ho. pose proof (uw_session _ _ Hu) as Hc. rewrite Ho in Hc. destruct Hc as (r & Hs & Ht & Hall).
  destruct (run_report_expiry n w serial Hu) as (b1 & Hr & Hi & Ec & Hcase). rewrite Hs, Ht in Hcase.
  rewrite (proj2 (Z.ltb_lt _ _) Hnonempty) in Hcase. destruct Hcase as [Es Eo]. pose proof (receiver_rx _ _ _ Hu Hs) as Hrx.
  set (r' := after_report r) in *. assert (rx_ok block r') as Hrx' by (by destruct Hrx).
  assert (sessions b1 !! key = Some r') as Hs' by (by rewrite Es, lookup_insert_eq).
  destruct (run_report_closed n w r' (u64 serial) (zlen data)) as (a2 & Ha2 & _ & _ & _ & Eo2); [done|done|done|apply u64_range|apply u64_range|lia|].
  destruct (run_ack_complete data s Hengine Hnumber b1 r' (report_serial_counter r')) as (b2 & Hb2 & Es2 & Eo3);
    [done|done|exact (receiver_role _ _ _ Hu Hs)|done|apply u64_range|done|done|].
  exists b1, a2, b2. split_and!; [done|by rewrite (relay_one _ _ _ _ _ Eo eq_refl)|by rewrite (relay_one _ _ _ _ _ Eo2 eq_refl)| |].
  - apply (over_delivered (MkParties a2 b2)). destruct (uw_reports _ _ Hu) as (out & Eb & _ & Hd). unfold over. cbn [receiver].
    eexists. split; [by rewrite Eo3, Eo, Eb, <- !app_assoc|]. by rewrite deliveries_app, Hd.
  - rewrite Es2. apply lookup_delete_eq.
Qed.
End safety.

(** ** Property *)

(** [C1] A red block gets through whatever goes wrong first. The originator
    starts a session for [data]. Then anything happens, in any order and
    number: messages of either side arrive, any of those sent so far, late,
    repeatedly or never, and timers of either side expire; all within the
    limit of retransmissions. No step of this fails, and if anything is
    delivered on the way, it is [data]. If not, one good round suffices. While
    the originator's session is open, its checkpoint timer sends the block
    again, and when the last of those segments and any of the others arrive
    and the answers on both sides get through, [data] is delivered, once, the
    originator is told, and both sessions are closed. If the originator has
    closed its session, only its acknowledgement was lost: the receiver's
    report timer repeats the report, and the answer to it delivers [data]. *)
Theorem transfer_recovers (a0 b0 : LtpEngine (T := T)) data
    (Hbytes : bytes data) (Hnonempty : data <> []) (Hsize : zlen data < 2 ^ 56) (Hroom : 16 * zlen data + 16 <= alloc_limit)
    (Ha : inv a0) (Hb : inv b0) (Hid : is_u64 (local_engine_id (config a0)))
    (Hpeer : local_engine_id (config a0) <> local_engine_id (config b0))
    (Hcount : session_counter a0 + 1 < 2 ^ 64) (Hlimit : max_retransmissions (config a0) < 255)
    (Hcapa : Z.of_nat (size (sessions a0)) < max_concurrent_sessions (config a0))
    (Hcapb : Z.of_nat (size (sessions b0)) < max_concurrent_sessions (config b0))
    (Hfresh : sessions b0 !! (local_engine_id (config a0), session_counter a0 + 1) = None) :
  let key := (local_engine_id (config a0), session_counter a0 + 1) in
  exists a1, run (perform (CStart data true)) a0 = Ok a1 /\
  forall evs, tries evs + 1 < max_retransmissions (config a0) ->
  exists a b, play (MkParties a0 b0) key evs (MkParties a1 b0) = Ok (MkParties a b) /\
    (delivered_since b0 b = [data] \/
     delivered_since b0 b = [] /\
     forall serial,
       match sessions a !! key with
       | Some _ =>
           exists a' first cp, run (perform (checkpoint_expires key serial)) a = Ok a' /\ sent_since a a' = first ++ [cp] /\
             forall arr, (forall m, m ∈ arr -> m ∈ first) ->
             exists b', run (perform_all (CReceive <$> (arr ++ [cp]))) b = Ok b' /\ finishes a' b b' key data
       | None =>
           exists b1 a2 b2, run (perform (report_expires key serial)) b = Ok b1 /\
             relay b b1 a = Ok a2 /\ relay a a2 b1 = Ok b2 /\ delivered_since b0 b2 = [data] /\ sessions b2 !! key = None
       end).
Proof.
  intros key. pose proof (inv_counter _ Ha) as Hctr.
  set (s := new_originator (local_engine_id (config a0)) (session_counter a0 + 1) data true).
  destruct (run_start a0 data Ha ltac:(lia) Hcount Hcapa) as (a1 & ps & p & Hstart & Hi1 & Ec1 & Es1 & Eo1 & Hps & _ & Hend).
  fold s in Es1, Eo1. exists a1. split; [done|]. intros evs Htries.
  assert (0 < zlen data) as Hne by (destruct data; [done|cbn; lia]).
  assert (is_u64 (s_session_number s)) as Hsn by (unfold is_u64; cbn; lia).
  assert (under_way data s (MkParties a0 b0) 0 (MkParties a1 b0)) as Hu.
  { split; cbn [originator receiver]; try done.
    - rewrite Es1, lookup_insert_eq. done.
    - unfold rx_at. change (sessions b0 !! (s_engine_id s, s_session_number s)) with (sessions b0 !! (local_engine_id (config a0), session_counter a0 + 1)). by rewrite Hfresh.
    - eexists. split; [exact Eo1|]. rewrite sent_pieces. apply Forall_app in Hps as [Hps Hp]. rewrite Forall_singleton in Hp.
      apply Forall_app_2; [|by apply Forall_singleton, om_end].
      apply Forall_fmap. eapply Forall_impl; [exact Hps|]. intros q Hq. by apply om_data.
    - exists []. by rewrite app_nil_r. }
  destruct (play_under_way data s (MkParties a0 b0) Hbytes Hne Hsize Hroom Hid Hsn eq_refl Hpeer Hlimit evs 0 _ Hu)
    as ([a b] & Hplay & Hw); [cbn [originator]; lia|]. exists a, b. split; [exact Hplay|].
  destruct Hw as [Hw|Ho]; [right|left; by apply (over_delivered data (MkParties a0 b0) (MkParties a b))].
  split; [exact (under_way_delivered _ _ _ _ _ Hw)|]. intros serial. destruct (sessions a !! key) as [o|] eqn:Hs.
  - eapply (waiting_finishes data s (MkParties a0 b0) Hbytes Hsize Hroom Hid Hsn eq_refl Hpeer Hlimit _ _ o serial Hw); [cbn [originator]; lia|exact Hs].
  - exact (acknowledged_finishes data s (MkParties a0 b0) Hne Hsize Hroom Hid Hsn eq_refl Hpeer _ _ serial Hw Hs).
Qed.
End exchange.
Arguments parties : clear implicits.

(** ** Examples *)

Section examples.
#[local] Existing Instance one_gib.
#[local] Existing Instance Timers.manager_service.

(** The checkpoint is lost, so is a segment of the second transmission. *)
Definition mishaps : list event := [ToReceiver 0; CheckpointTimer 1; ToReceiver 1; ToReceiver 0; ReportTimer 1].

Lemma transfer_recovers_witness :
  exists a1, run (perform (CStart [10; 11; 12; 13; 14] true)) sender = Ok a1 /\
  exists a b, play (MkParties sender Transfer.receiver) (1, 1) mishaps (MkParties a1 Transfer.receiver) = Ok (MkParties a b) /\
    (delivered_since Transfer.receiver b = [[10; 11; 12; 13; 14]] \/ delivered_since Transfer.receiver b = []).
Proof.
  destruct (transfer_recovers sender Transfer.receiver [10; 11; 12; 13; 14]) as (a1 & Hstart & Hevs);
    [by apply (bool_decide_unpack _ (dec := Forall_dec _ _))|..|].
  - done.
  - simpl. lia.
  - simpl. lia.
  - apply inv_init. split; simpl; lia.
  - apply inv_init. split; simpl; lia.
  - unfold is_u64. simpl. lia.
  - simpl. lia.
  - simpl. lia.
  - simpl. lia.
  - by vm_compute.
  - by vm_compute.
  - done.
  - exists a1. split; [exact Hstart|]. destruct (Hevs mishaps) as (a & b & Hplay & Hd); [simpl; lia|].
    exists a, b. split; [exact Hplay|]. destruct Hd as [Hd|[Hd _]]; [by left|by right].
Defined.

(** A delivery ends the session and nothing of it is remembered: a
    transmission that was repeated because the report came late opens the
    session again, and the block is delivered a second time. *)
Definition late_report : outcome (list (list Z)) :=
  a1 ← run (perform (CStart [7; 8; 9] true)) sender;
  b1 ← relay sender a1 Transfer.receiver;
  a2 ← run (perform (checkpoint_expires (1, 1) 1)) a1;
  a3 ← relay Transfer.receiver b1 a2;
  b2 ← relay a2 a3 b1;
  b3 ← relay a1 a2 b2;
  a4 ← relay b2 b3 a3;
  b4 ← relay a3 a4 b3;
  Ok (delivered_since Transfer.receiver b4).

Example delivered_twice : late_report = Ok [[7; 8; 9]; [7; 8; 9]].
Proof. by vm_compute. Qed.

(** An empty block has no length that its report timer would look for: once
    the acknowledgement is lost nothing is sent any more, and the receiver
    keeps the session. *)
Definition empty_block : outcome (list (list Z) * list (list Z) * bool) :=
  a1 ← run (perform (CStart [] true)) sender;
  b1 ← relay sender a1 Transfer.receiver;
  a2 ← relay Transfer.receiver b1 a1;
  b2 ← run (perform (report_expires (1, 1) 1)) b1;
  Ok (sent_since b1 b2, delivered_since Transfer.receiver b2, bool_decide (is_Some (sessions b2 !! (1, 1)))).

Example empty_block_forgotten : empty_block = Ok ([], [], true).
Proof. by vm_compute. Qed.

(** The report timer's event holds the serial number of the report, which the
    repeated report takes for that of the checkpoint: here the second report
    on checkpoint 1 is repeated as one on checkpoint 2. *)
Definition repeated_report : outcome (list (option (Z * Z))) :=
  a1 ← run (perform (CStart [7; 8; 9] true)) sender;
  b1 ← relay sender a1 Transfer.receiver;
  b2 ← relay sender a1 b1;
  b3 ← run (perform (report_expires (1, 1) 2)) b2;
  Ok ((fun m => match Segment.decode m with
                | Ok (Some seg) => match content seg with CReport rs => Some (rs_report_serial rs, rs_checkpoint_serial rs) | _ => None end
                | _ => None end) <$> sent_since Transfer.receiver b3).

Example report_names_report : repeated_report = Ok [Some (1, 1); Some (2, 1); Some (3, 2)].
Proof. by vm_compute. Qed.
End examples.
End Recovery.
