(* ===== verification/Fec.v ===== *)
(** * Forward error correction (include/qpsk_b200/fec.h, src/fec_encoder.cpp,
    src/fec_decoder.cpp)

    The K=7 convolutional code with generators 171/133 (octal), its puncturing
    to rate 3/4, and the hard-decision Viterbi decoder over all 128 values of
    the shift register. Bits are the [uint8_t] values 0 and 1 of the code. *)
From S2P Require Import Prelude.

Module Fec.

Inductive CodeRate := RATE_1_2 | RATE_3_4.

#[export] Instance CodeRate_eq_dec : EqDecision CodeRate.
Proof. solve_decision. Defined.

Definition GEN_0 : Z := 0x79.
Definition GEN_1 : Z := 0x5B.
Definition TAIL_BITS : nat := 6.
Definition PUNCTURE_PATTERN : list Z := [1; 1; 0; 1; 1; 0].
Definition PUNCTURE_PERIOD : nat := 6.
Definition ERASURE : Z := 2.

(** XOR of the bits of [value & mask]. *)
Definition parity (value mask : Z) : Z :=
  let v := Z.land value mask in
  let v := Z.lxor v (Z.shiftr v 4) in
  let v := Z.lxor v (Z.shiftr v 2) in
  let v := Z.lxor v (Z.shiftr v 1) in
  Z.land v 1.

(** ** Encoder *)

(** [for (int b = 7; b >= 0; --b) (byte >> b) & 1] *)
Definition byte_bits (byte : Z) : list Z :=
  (fun b => Z.land (Z.shiftr byte b) 1) <$> [7; 6; 5; 4; 3; 2; 1; 0].

(** The new bit enters the shift register at its top. *)
Definition shift_in (shift_reg bit : Z) : Z :=
  Z.land (Z.lor (Z.shiftr shift_reg 1) (Z.shiftl bit 6)) 0x7F.

Fixpoint convolve (shift_reg : Z) (input_bits : list Z) : list Z :=
  match input_bits with
  | [] => []
  | bit :: input_bits' =>
      let shift_reg := shift_in shift_reg bit in
      parity shift_reg GEN_0 :: parity shift_reg GEN_1 :: convolve shift_reg input_bits'
  end.

(** [PUNCTURE_PATTERN[i % PUNCTURE_PERIOD] == 1] *)
Definition kept (i : nat) : bool := nth (i mod PUNCTURE_PERIOD) PUNCTURE_PATTERN 0 =? 1.

(** The bits from position [i] on that puncturing keeps. *)
Fixpoint puncture (i : nat) (bits : list Z) : list Z :=
  match bits with
  | [] => []
  | bit :: bits' => if kept i then bit :: puncture (S i) bits' else puncture (S i) bits'
  end.

(** The packing loop, and the flush of a last partial byte. *)
Fixpoint pack_loop (bits : list Z) (current_byte : Z) (bit_count : nat) (output : list Z) : list Z :=
  match bits with
  | [] => if (0 <? bit_count)%nat then output ++ [u8 (Z.shiftl current_byte (8 - Z.of_nat bit_count))] else output
  | bit :: bits' =>
      let current_byte := u8 (Z.lor (Z.shiftl current_byte 1) bit) in
      let bit_count := S bit_count in
      if (bit_count =? 8)%nat then pack_loop bits' 0 0 (output ++ [current_byte])
      else pack_loop bits' current_byte bit_count output
  end.

Definition input_bits (data : list Z) : list Z := concat (byte_bits <$> data) ++ replicate TAIL_BITS 0.

Definition coded_bits (rate : CodeRate) (data : list Z) : list Z :=
  let rate_half_output := convolve 0 (input_bits data) in
  match rate with RATE_1_2 => rate_half_output | RATE_3_4 => puncture 0 rate_half_output end.

Definition encode (rate : CodeRate) (data : list Z) : list Z := pack_loop (coded_bits rate data) 0 0 [].

(** Bits kept of [rate_half_bits] bits: full periods, then the partial one. *)
Definition kept_bits (rate_half_bits : nat) : Z :=
  let full_periods := (rate_half_bits / PUNCTURE_PERIOD)%nat in
  let remainder := (rate_half_bits mod PUNCTURE_PERIOD)%nat in
  foldl Z.add (Z.of_nat full_periods * 4) (take remainder PUNCTURE_PATTERN).

Definition coded_length (rate : CodeRate) (input_length : nat) : Z :=
  let total_input_bits := (input_length * 8 + TAIL_BITS)%nat in
  let rate_half_bits := (2 * total_input_bits)%nat in
  match rate with
  | RATE_1_2 => (Z.of_nat rate_half_bits + 7) / 8
  | RATE_3_4 => (kept_bits rate_half_bits + 7) / 8
  end.

(** ** Decoder *)

(** Step 1: unpack, leaving both loops once there are [actual] bits. *)
Fixpoint unpack_byte (bits : list Z) (actual : Z) (coded : list Z) : list Z :=
  match bits with
  | [] => coded
  | bit :: bits' =>
      let coded := coded ++ [bit] in
      if actual <=? zlen coded then coded else unpack_byte bits' actual coded
  end.

Fixpoint unpack (coded_data : list Z) (actual : Z) (coded : list Z) : list Z :=
  match coded_data with
  | [] => coded
  | byte :: coded_data' =>
      let coded := unpack_byte (byte_bits byte) actual coded in
      if actual <=? zlen coded then coded else unpack coded_data' actual coded
  end.

(** Step 2: [n] more positions from position [i]; [coded] from [coded_idx] on. *)
Fixpoint depuncture (n i : nat) (coded : list Z) : list Z :=
  match n with
  | O => []
  | S n' =>
      if kept i then
        match coded with
        | bit :: coded' => bit :: depuncture n' (S i) coded'
        | [] => ERASURE :: depuncture n' (S i) []
        end
      else ERASURE :: depuncture n' (S i) coded
  end.

(** Step 3. *)
Definition INF_METRIC : Z := 0xFFFFFF.
Definition FULL_STATES : nat := 128.

Definition states : list Z := Z.of_nat <$> seq 0 FULL_STATES.

(** Hamming distance of a received pair to the outputs of entering a state. *)
Definition branch_metric (rx : Z * Z) (next_state : Z) : Z :=
  (if rx.1 =? ERASURE then 0 else if rx.1 =? parity next_state GEN_0 then 0 else 1) +
  (if rx.2 =? ERASURE then 0 else if rx.2 =? parity next_state GEN_1 then 0 else 1).

Notation "v .[ i ]" := (nth (Z.to_nat i) v 0) (at level 1, i at level 200, format "v .[ i ]") : Z_scope.

(** One transition [trans[s][b]] tried: [(curr_metrics, survivor row)]. *)
Definition relax (prev_metrics : list Z) (rx : Z * Z) (s : Z) (acc : list Z * list Z) (b : Z) : list Z * list Z :=
  let '(curr_metrics, survivor) := acc in
  let next_state := shift_in s b in
  let candidate := prev_metrics.[s] + branch_metric rx next_state in
  if candidate <? curr_metrics.[next_state]
  then (<[Z.to_nat next_state := candidate]> curr_metrics, <[Z.to_nat next_state := s]> survivor)
  else acc.

Definition relax_state (prev_metrics : list Z) (rx : Z * Z) (acc : list Z * list Z) (s : Z) : list Z * list Z :=
  if INF_METRIC <=? prev_metrics.[s] then acc else foldl (relax prev_metrics rx s) acc [0; 1].

(** One step: the metrics, and the rows of the survivor table so far, the
    latest first. *)
Definition viterbi_step (acc : list Z * list (list Z)) (rx : Z * Z) : list Z * list (list Z) :=
  let '(prev_metrics, rows) := acc in
  let '(curr_metrics, row) :=
    foldl (relax_state prev_metrics rx) (replicate FULL_STATES INF_METRIC, replicate FULL_STATES 0) states in
  (curr_metrics, row :: rows).

(** [depunctured[step * 2]] and [depunctured[step * 2 + 1]]. *)
Fixpoint pairs (depunctured : list Z) : list (Z * Z) :=
  match depunctured with
  | rx0 :: rx1 :: rest => (rx0, rx1) :: pairs rest
  | _ => []
  end.

Definition viterbi (rxs : list (Z * Z)) : list Z * list (list Z) :=
  foldl viterbi_step (<[0%nat := 0]> (replicate FULL_STATES INF_METRIC), []) rxs.

(** Step 4: the best final state, and the trace back from it. *)
Definition best_state (metrics : list Z) : Z :=
  fst (foldl (fun '(state, best) s => if metrics.[s] <? best then (s, metrics.[s]) else (state, best))
         (0, metrics.[0]) (tail states)).

Fixpoint traceback (rows : list (list Z)) (state : Z) (decoded_bits : list Z) : list Z :=
  match rows with
  | [] => decoded_bits
  | row :: rows' => traceback rows' row.[state] (Z.land (Z.shiftr state 6) 1 :: decoded_bits)
  end.

(** Step 5: bytes of the first [original_bits] decoded bits. *)
Fixpoint output_loop (fuel : nat) (bits : list Z) : list Z :=
  match fuel, bits with
  | S fuel', _ :: _ =>
      foldl (fun byte bit => u8 (Z.lor (Z.shiftl byte 1) bit)) 0 (take 8 bits) :: output_loop fuel' (drop 8 bits)
  | _, _ => []
  end.

(** Step 6: [while (diff) { errors += diff & 1; diff >>= 1; }]. *)
Fixpoint popcount (fuel : nat) (diff : Z) : Z :=
  match fuel with
  | O => 0
  | S fuel' => if diff =? 0 then 0 else Z.land diff 1 + popcount fuel' (Z.shiftr diff 1)
  end.

Fixpoint count_errors (re_encoded coded_data : list Z) : Z :=
  match re_encoded, coded_data with
  | a :: re_encoded', b :: coded_data' => popcount 8 (Z.lxor a b) + count_errors re_encoded' coded_data'
  | _, _ => 0
  end.

(** The decoder's only state is its error counter. *)
Record FecDecoder := MkDecoder { code_rate : CodeRate; corrected_errors : Z }.

Definition received_bits (rate : CodeRate) (coded_data : list Z) (original_byte_length : nat) : list Z :=
  let rate_half_bits := (2 * (original_byte_length * 8 + TAIL_BITS))%nat in
  let actual_coded_bits :=
    match rate with RATE_1_2 => Z.of_nat rate_half_bits | RATE_3_4 => kept_bits rate_half_bits end in
  let coded := unpack coded_data actual_coded_bits [] in
  match rate with RATE_1_2 => coded | RATE_3_4 => depuncture rate_half_bits 0 coded end.

Definition decoded_bits (rxs : list (Z * Z)) : list Z :=
  let '(metrics, rows) := viterbi rxs in traceback rows (best_state metrics) [].

Definition decode (d : FecDecoder) (coded_data : list Z) (original_byte_length : nat) : list Z * FecDecoder :=
  let rate := code_rate d in
  let rxs := pairs (received_bits rate coded_data original_byte_length) in
  let original_bits := (original_byte_length * 8)%nat in
  let output := output_loop original_byte_length (take original_bits (decoded_bits rxs)) in
  let errors := count_errors (encode rate output) coded_data in
  (output, MkDecoder rate (u64 (corrected_errors d + errors))).

Definition get_corrected_errors (d : FecDecoder) : Z := corrected_errors d.
Definition reset_error_count (d : FecDecoder) : FecDecoder := MkDecoder (code_rate d) 0.


Example encode_A5_01 : encode RATE_1_2 [0xA5; 0x01] = [0xE1; 0xD5; 0xBB; 0x73; 0xBC; 0x70].
Proof. vm_compute. reflexivity. Qed.

(** ** Bits and bytes *)

Definition bit (b : Z) : Prop := b = 0 \/ b = 1.
Definition bits (l : list Z) : Prop := Forall bit l.

Lemma bits_app l1 l2 : bits (l1 ++ l2) <-> bits l1 /\ bits l2.
Proof. apply Forall_app. Qed.

Lemma land_1_bit x : bit (Z.land x 1).
Proof. rewrite land_1. pose proof (Z.mod_pos_bound x 2). unfold bit. lia. Qed.

Lemma byte_bits_bits byte : bits (byte_bits byte).
Proof. apply Forall_fmap, Forall_forall. intros b _. apply land_1_bit. Qed.

Lemma parity_bit v m : bit (parity v m).
Proof. apply land_1_bit. Qed.

Lemma convolve_bits s u : bits (convolve s u).
Proof.
  revert s. induction u as [|b u IH]; intros s; [constructor|].
  do 2 (constructor; [apply parity_bit|]). apply IH.
Qed.

Lemma convolve_length s u : length (convolve s u) = (2 * length u)%nat.
Proof. revert s. induction u as [|b u IH]; intros s; [done|]. cbn [convolve length]. rewrite IH. lia. Qed.

Lemma puncture_bits i l : bits l -> bits (puncture i l).
Proof.
  intros Hl. revert i. induction Hl as [|b l Hb Hl IH]; intros i; cbn [puncture]; [constructor|].
  destruct (kept i); [constructor; [done|apply IH]|apply IH].
Qed.

Lemma input_bits_bits data : bits (input_bits data).
Proof.
  apply bits_app. split; [|apply Forall_replicate; by left].
  induction data as [|d data IH]; [constructor|]. cbn [fmap list_fmap concat]. apply bits_app. split; [apply byte_bits_bits|done].
Qed.

Lemma concat_bits_length l : length (concat (byte_bits <$> l)) = (8 * length l)%nat.
Proof. induction l as [|b l IH]; [done|]. cbn [fmap list_fmap concat]. rewrite length_app, IH. cbn. lia. Qed.

Lemma input_bits_length data : length (input_bits data) = (8 * length data + 6)%nat.
Proof. unfold input_bits. by rewrite length_app, concat_bits_length, length_replicate. Qed.

(** Bits as the digits of a byte, most significant first. *)
Definition bits_value (l : list Z) : Z := foldl (fun v b => 2 * v + b) 0 l.

Lemma shift_bit v b : 0 <= v -> bit b -> Z.lor (Z.shiftl v 1) b = 2 * v + b.
Proof. intros Hv [-> | ->]; rewrite (lor_disjoint v _ 1) by lia; lia. Qed.

Lemma bits_value_acc l v : foldl (fun v b => 2 * v + b) v l = v * 2 ^ zlen l + bits_value l.
Proof.
  unfold bits_value. revert v. induction l as [|b l IH]; intros v; cbn [foldl]; [cbn; lia|].
  rewrite IH, (IH (2 * 0 + b)), length_cons, Nat2Z.inj_succ, Z.pow_succ_r by lia. ring.
Qed.

Lemma bits_value_range l : bits l -> 0 <= bits_value l < 2 ^ zlen l.
Proof.
  induction 1 as [|b l Hb Hl IH]; [cbn; lia|]. unfold bits_value. cbn [foldl].
  rewrite bits_value_acc, length_cons, Nat2Z.inj_succ, Z.pow_succ_r by lia. destruct Hb as [-> | ->]; lia.
Qed.

(** The eight bits of a byte assembled from eight bits. *)
Lemma byte_bits_value l : bits l -> length l = 8%nat -> byte_bits (bits_value l) = l.
Proof.
  intros Hl Hlen. do 8 (destruct l as [|? l]; [done|]). destruct l; [|done]. unfold bits in Hl.
  rewrite !Forall_cons in Hl. destruct Hl as (H1 & H2 & H3 & H4 & H5 & H6 & H7 & H8 & _).
  destruct H1 as [-> | ->], H2 as [-> | ->], H3 as [-> | ->], H4 as [-> | ->], H5 as [-> | ->], H6 as [-> | ->],
    H7 as [-> | ->], H8 as [-> | ->]; reflexivity.
Qed.

Lemma pack_loop_acc l v k out :
  pack_loop l v k out = out ++ pack_loop l v k [].
Proof.
  revert v k out. induction l as [|b l IH]; intros v k out; cbn [pack_loop].
  - destruct (0 <? k)%nat; [done|by rewrite app_nil_r].
  - destruct (S k =? 8)%nat; [|apply IH].
    rewrite (IH _ _ (out ++ _)), (IH _ _ ([] ++ _)). by rewrite <- app_assoc.
Qed.

(** Fewer than eight bits, after [k] others: a partial byte. *)
Lemma pack_loop_short l pre :
  bits (pre ++ l) -> (length pre + length l < 8)%nat -> (0 < length pre + length l)%nat ->
  pack_loop l (bits_value pre) (length pre) [] =
    [bits_value ((pre ++ l) ++ replicate (8 - length (pre ++ l)) 0)].
Proof.
  revert pre. induction l as [|b l IH]; intros pre Hb Hlt Hpos; cbn [pack_loop length] in *.
  - rewrite app_nil_r in *. rewrite (proj2 (Nat.ltb_lt _ _)) by lia. cbn [app]. f_equal.
    pose proof (bits_value_range pre Hb) as Hr.
    assert (foldl (fun v b => 2 * v + b) (bits_value pre) (replicate (8 - length pre) 0) =
            bits_value (pre ++ replicate (8 - length pre) 0)) as <-.
    { unfold bits_value at 2. by rewrite foldl_app. }
    rewrite bits_value_acc, length_replicate, Z.shiftl_mul_pow2 by lia.
    assert (bits_value (replicate (8 - length pre) 0) = 0) as ->.
    { generalize (8 - length pre)%nat. intros n. induction n as [|n IH]; [done|]. exact IH. }
    rewrite Nat2Z.inj_sub, Z.add_0_r by lia. apply u8_small.
    assert (2 ^ zlen pre * 2 ^ (8 - zlen pre) = 256) as Hp by (rewrite <- Z.pow_add_r by lia; by replace (zlen pre + (8 - zlen pre)) with 8 by lia).
    replace (Z.of_nat 8 - zlen pre) with (8 - zlen pre) by lia.
    pose proof (Z.pow_pos_nonneg 2 (8 - zlen pre)). nia.
  - apply bits_app in Hb as Hb'. destruct Hb' as [Hpre Hbl]. inversion_clear Hbl as [|? ? Hb1 Hl].
    pose proof (bits_value_range pre Hpre) as Hr.
    assert (bits_value (pre ++ [b]) = 2 * bits_value pre + b) as Ev by (unfold bits_value; by rewrite foldl_app).
    assert (2 ^ zlen pre <= 2 ^ 6) as Hpow by (apply Z.pow_le_mono_r; lia).
    rewrite shift_bit, u8_small by (try done; destruct Hb1 as [-> | ->]; lia).
    destruct (Nat.eqb_spec (S (length pre)) 8); [lia|].
    rewrite <- Ev. specialize (IH (pre ++ [b])). rewrite length_app in IH. cbn [length] in IH.
    rewrite Nat.add_1_r in IH. rewrite IH; [by rewrite <- !app_assoc| |lia|lia]. by rewrite <- app_assoc.
Qed.

(** Eight bits: a byte. *)
Lemma pack_loop_full l pre rest :
  bits (pre ++ l) -> (length pre + length l = 8)%nat -> (0 < length l)%nat ->
  pack_loop (l ++ rest) (bits_value pre) (length pre) [] = bits_value (pre ++ l) :: pack_loop rest 0 0 [].
Proof.
  revert pre. induction l as [|b l IH]; intros pre Hb Hlen Hpos; [cbn in Hpos; lia|]. cbn [app pack_loop length] in *.
  apply bits_app in Hb as Hb'. destruct Hb' as [Hpre Hbl]. inversion_clear Hbl as [|? ? Hb1 Hl].
  pose proof (bits_value_range pre Hpre) as Hr.
  assert (bits_value (pre ++ [b]) = 2 * bits_value pre + b) as Ev by (unfold bits_value; by rewrite foldl_app).
  assert (2 ^ zlen pre <= 2 ^ 7) as Hpow by (apply Z.pow_le_mono_r; lia).
  rewrite shift_bit, u8_small by (try done; destruct Hb1 as [-> | ->]; lia).
  destruct (Nat.eqb_spec (S (length pre)) 8) as [E|E].
  - destruct l; [|cbn in *; lia]. cbn [app]. by rewrite pack_loop_acc, Ev.
  - rewrite <- Ev. specialize (IH (pre ++ [b])). rewrite length_app in IH. cbn [length] in IH.
    rewrite Nat.add_1_r in IH. rewrite IH; [by rewrite <- app_assoc| |lia|]; [by rewrite <- app_assoc|].
    destruct l; cbn in *; lia.
Qed.

Lemma pack_short l :
  bits l -> (0 < length l < 8)%nat -> pack_loop l 0 0 [] = [bits_value (l ++ replicate (8 - length l) 0)].
Proof. intros Hl Hn. apply (pack_loop_short l []); [done|cbn; lia..]. Qed.

Lemma pack_full l rest :
  bits l -> length l = 8%nat -> pack_loop (l ++ rest) 0 0 [] = bits_value l :: pack_loop rest 0 0 [].
Proof. intros Hl Hn. apply (pack_loop_full l [] rest); [done|cbn; lia..]. Qed.

(** Packing is undone by listing the bits, up to the padding of the last byte. *)
Lemma pack_bits l :
  bits l -> exists pad, (pad < 8)%nat /\ concat (byte_bits <$> pack_loop l 0 0 []) = l ++ replicate pad 0 /\
    bytes (pack_loop l 0 0 []).
Proof.
  remember (length l) as n eqn:En. revert l En. induction n as [n IH] using (well_founded_induction lt_wf). intros l -> Hl.
  destruct (decide (length l = 0%nat)) as [E|E].
  { destruct l; [|done]. exists 0%nat. split; [lia|]. split; [done|]. constructor. }
  destruct (decide (length l < 8)%nat) as [Hlt|Hge].
  - exists (8 - length l)%nat. rewrite pack_short by (done || lia). cbn [fmap list_fmap concat].
    assert (bits (l ++ replicate (8 - length l) 0)) as Hb.
    { apply bits_app. split; [done|]. apply Forall_replicate. by left. }
    split; [lia|]. rewrite byte_bits_value, app_nil_r; [|done|rewrite length_app, length_replicate; lia].
    split; [done|]. constructor; [|done]. pose proof (bits_value_range _ Hb) as Hr.
    rewrite length_app, length_replicate in Hr. replace (length l + (8 - length l))%nat with 8%nat in Hr by lia. exact Hr.
  - assert (l = take 8 l ++ drop 8 l) as El by (by rewrite take_drop).
    assert (length (take 8 l) = 8%nat) as Ht by (rewrite length_take; lia).
    assert (bits (take 8 l) /\ bits (drop 8 l)) as [Hb1 Hb2] by (rewrite El in Hl; by apply bits_app).
    destruct (IH (length (drop 8 l))) with (drop 8 l) as (pad & Hpad & Hcat & Hby); [rewrite length_drop; lia|done|done|].
    exists pad. split; [done|]. rewrite El at 1 3. rewrite pack_full by done.
    cbn [fmap list_fmap concat]. rewrite byte_bits_value, Hcat by done. split.
    + by rewrite app_assoc, <- El.
    + constructor; [|done]. pose proof (bits_value_range _ Hb1) as Hr. by rewrite Ht in Hr.
Qed.

Lemma pack_length l : bits l -> zlen (pack_loop l 0 0 []) = (zlen l + 7) / 8.
Proof.
  intros Hl. destruct (pack_bits l Hl) as (pad & Hp & Hc & _).
  assert (length (concat (byte_bits <$> pack_loop l 0 0 [])) = (length l + pad)%nat) as Hlen.
  { by rewrite Hc, length_app, length_replicate. }
  rewrite concat_bits_length in Hlen. dlia.
Qed.

(** ** Unpacking *)

Lemma unpack_byte_take l n coded :
  zlen coded < n -> unpack_byte l n coded = take (Z.to_nat n) (coded ++ l).
Proof.
  revert coded. induction l as [|b l IH]; intros coded Hn; cbn [unpack_byte].
  - rewrite app_nil_r, take_ge by lia. done.
  - destruct (Z.leb_spec n (zlen (coded ++ [b]))) as [Hle|Hgt].
    + rewrite length_app in Hle. cbn in Hle. assert (Z.to_nat n = length coded + 1)%nat as -> by lia.
      rewrite take_app_add'; [done|done].
    + rewrite IH by done. by rewrite <- app_assoc.
Qed.

Lemma unpack_take data n coded :
  zlen coded < n -> unpack data n coded = take (Z.to_nat n) (coded ++ concat (byte_bits <$> data)).
Proof.
  revert coded. induction data as [|d data IH]; intros coded Hn; cbn [unpack fmap list_fmap concat].
  - rewrite app_nil_r, take_ge by lia. done.
  - rewrite unpack_byte_take by done. rewrite app_assoc.
    destruct (Z.leb_spec n (zlen (take (Z.to_nat n) (coded ++ byte_bits d)))) as [Hle|Hgt]; rewrite length_take in *.
    + symmetry. apply take_app_le. lia.
    + rewrite IH by (rewrite length_take; lia). by rewrite (take_ge (coded ++ byte_bits d)) by lia.
Qed.

(** ** Puncturing *)

Lemma kept_period i : kept (6 + i) = kept i.
Proof. unfold kept, PUNCTURE_PERIOD. by rewrite (Nat.Div0.add_mod 6 i), Nat.Div0.mod_same, Nat.add_0_l, Nat.Div0.mod_mod. Qed.

Lemma puncture_app i l1 l2 : puncture i (l1 ++ l2) = puncture i l1 ++ puncture (i + length l1) l2.
Proof.
  revert i. induction l1 as [|b l1 IH]; intros i; cbn [app puncture length]; [by rewrite Nat.add_0_r|].
  rewrite IH, Nat.add_succ_r. by destruct (kept i).
Qed.

Lemma puncture_period i l : puncture (6 + i) l = puncture i l.
Proof. revert i. induction l as [|b l IH]; intros i; cbn [puncture]; [done|]. by rewrite kept_period, <- Nat.add_succ_r, IH. Qed.

Lemma kept_bits_period m : kept_bits (6 + m) = 4 + kept_bits m.
Proof.
  unfold kept_bits, PUNCTURE_PERIOD. replace (6 + m)%nat with (m + 1 * 6)%nat by lia.
  rewrite Nat.div_add, Nat.Div0.mod_add by lia. rewrite Nat2Z.inj_add.
  generalize (take (m mod 6) PUNCTURE_PATTERN), (Z.of_nat (m / 6)). intros l.
  assert (forall z x, foldl Z.add (x + z) l = x + foldl Z.add z l) as Hf.
  { induction l as [|a l IH]; intros z x; cbn; [done|]. by rewrite <- IH, Z.add_assoc. }
  intros z. rewrite <- Hf. f_equal. lia.
Qed.

Lemma puncture_length l : zlen (puncture 0 l) = kept_bits (length l).
Proof.
  remember (length l) as n eqn:En. revert l En. induction n as [n IH] using (well_founded_induction lt_wf). intros l ->.
  destruct (decide (length l < 6)%nat) as [Hlt|Hge].
  - do 6 (destruct l as [|? l]; [reflexivity|]). cbn in Hlt. lia.
  - rewrite <- (take_drop 6 l) at 1. rewrite puncture_app, length_app, length_take, Nat.min_l by lia.
    replace (0 + 6)%nat with (6 + 0)%nat by lia. rewrite puncture_period, Nat2Z.inj_add.
    rewrite (IH (length (drop 6 l)) ltac:(rewrite length_drop; lia) (drop 6 l) eq_refl).
    replace (length l) with (6 + length (drop 6 l))%nat by (rewrite length_drop; lia).
    rewrite kept_bits_period. f_equal.
    do 6 (destruct l as [|? l]; [cbn in Hge; lia|]). reflexivity.
Qed.

Lemma coded_bits_bits rate data : bits (coded_bits rate data).
Proof. unfold coded_bits. destruct rate; [apply convolve_bits|apply puncture_bits, convolve_bits]. Qed.

(** Depuncturing puts the kept bits back between erasures. *)
Fixpoint erase (i : nat) (l : list Z) : list Z :=
  match l with
  | [] => []
  | b :: l' => (if kept i then b else ERASURE) :: erase (S i) l'
  end.

Lemma depuncture_puncture i l : depuncture (length l) i (puncture i l) = erase i l.
Proof.
  revert i. induction l as [|b l IH]; intros i; cbn [length depuncture puncture erase]; [done|].
  destruct (kept i); by rewrite IH.
Qed.

Lemma coded_length_encode rate data : coded_length rate (length data) = zlen (encode rate data).
Proof.
  unfold encode. rewrite pack_length by apply coded_bits_bits. unfold coded_length, coded_bits.
  assert (length (convolve 0 (input_bits data)) = (2 * (length data * 8 + TAIL_BITS))%nat) as Hl.
  { rewrite convolve_length, input_bits_length. unfold TAIL_BITS. lia. }
  destruct rate; [by rewrite Hl|]. by rewrite puncture_length, Hl.
Qed.

End Fec.
