(* ===== verification/Viterbi.v ===== *)
(** * The Viterbi decoder finds the nearest codeword

    The metrics and survivor rows after each step describe, for every value of
    the shift register, a cheapest input that ends there; with the distances
    of the code this gives what the decoder corrects. *)
From S2P Require Import Prelude Fec.
Import Fec.

Module Viterbi.

(** ** The shift register *)

Definition is_state (s : Z) : Prop := 0 <= s < 128.

Lemma states_in s : is_state s -> In s states.
Proof. intros Hs. apply in_map_iff. exists (Z.to_nat s). unfold is_state in Hs. split; [lia|]. apply in_seq. unfold FULL_STATES. lia. Qed.

Lemma in_states s : s ∈ states -> is_state s.
Proof. intros (n & -> & Hn)%list_elem_of_fmap. apply elem_of_seq in Hn. unfold FULL_STATES in Hn. unfold is_state. lia. Qed.

Lemma shift_in_value s b : is_state s -> bit b -> shift_in s b = 64 * b + s / 2.
Proof.
  unfold is_state, shift_in. intros Hs Hb. rewrite Z.lor_comm, Z.shiftr_div_pow2, Z.pow_1_r by lia.
  rewrite lor_disjoint, land_0x7F by dlia. destruct Hb as [-> | ->]; dlia.
Qed.

Lemma shift_in_state s b : is_state (shift_in s b).
Proof. unfold is_state, shift_in. rewrite land_0x7F. dlia. Qed.

(** The input bit can be read off the state it leads to. *)
Lemma shift_in_bit s b : is_state s -> bit b -> Z.land (Z.shiftr (shift_in s b) 6) 1 = b.
Proof.
  intros Hs Hb. rewrite shift_in_value, Z.shiftr_div_pow2, land_1 by done || lia.
  unfold is_state in Hs. destruct Hb as [-> | ->]; dlia.
Qed.

Lemma nth_update (l : list Z) t n v :
  is_state t -> is_state n -> length l = 128%nat ->
  (<[Z.to_nat n := v]> l).[t] = if bool_decide (t = n) then v else l.[t].
Proof.
  unfold is_state. intros Ht Hn Hl. rewrite !nth_lookup. case_bool_decide as E.
  - subst. by rewrite list_lookup_insert_eq by lia.
  - by rewrite list_lookup_insert_ne by lia.
Qed.

(** ** One step *)

Section step.
Context (prev : list Z) (rx : Z * Z).

(** After the transitions of [D] were tried: each metric is the least of theirs,
    and the survivor is where it comes from. *)
Definition tried (D : Z -> Z -> Prop) (acc : list Z * list Z) : Prop :=
  length acc.1 = 128%nat /\ length acc.2 = 128%nat /\
  forall t, is_state t ->
    (forall s b, D s b -> prev.[s] < INF_METRIC -> shift_in s b = t -> acc.1.[t] <= prev.[s] + branch_metric rx t) /\
    (acc.1.[t] = INF_METRIC \/
     exists s b, D s b /\ prev.[s] < INF_METRIC /\ shift_in s b = t /\
                 acc.1.[t] = prev.[s] + branch_metric rx t /\ acc.2.[t] = s).

Lemma tried_relax D acc s b :
  is_state s -> prev.[s] < INF_METRIC -> tried D acc ->
  tried (fun s' b' => D s' b' \/ s' = s /\ b' = b) (relax prev rx s acc b).
Proof.
  intros Hs Hp (L1 & L2 & Ht). destruct acc as [curr row]. unfold relax. cbn [fst snd] in *.
  pose proof (shift_in_state s b) as Hn. destruct (Z.ltb_spec (prev.[s] + branch_metric rx (shift_in s b)) curr.[shift_in s b]) as [Hlt|Hge].
  - unfold tried; cbn [fst snd]. split_and!; [by rewrite length_insert..|]. intros t Hst. rewrite !nth_update by done.
    destruct (Ht t Hst) as [H1 H2]. case_bool_decide as E.
    + subst t. split; [intros s' b' [HD|[-> ->]] Hp' E'; [|done]|right; exists s, b; auto].
      specialize (H1 _ _ HD Hp' E'). lia.
    + split; [intros s' b' [HD|[-> ->]] Hp' E'; [by eapply H1|done]|].
      destruct H2 as [H2|(s' & b' & ? & ? & ? & ? & ?)]; [by left|right; exists s', b'; auto].
  - split_and!; [done..|]. intros t Hst. destruct (Ht t Hst) as [H1 H2]. split.
    + intros s' b' [HD|[-> ->]] Hp' E'; [by eapply H1|]. subst t. cbn [fst]. lia.
    + destruct H2 as [H2|(s' & b' & ? & ? & ? & ? & ?)]; [by left|right; exists s', b'; auto].
Qed.

Lemma tried_mono (D D' : Z -> Z -> Prop) acc :
  (forall s b, prev.[s] < INF_METRIC -> D s b <-> D' s b) -> tried D acc -> tried D' acc.
Proof.
  intros HD (L1 & L2 & Ht). split_and!; [done..|]. intros t Hst. destruct (Ht t Hst) as [H1 H2]. split.
  - intros s b HD' Hp. apply HD in HD'; [|done]. by apply H1.
  - destruct H2 as [H2|(s' & b' & Hd & ? & ? & ? & ?)]; [by left|right; exists s', b'; rewrite <- HD; auto].
Qed.

Lemma tried_state D acc s :
  is_state s -> tried D acc ->
  tried (fun s' b' => D s' b' \/ s' = s /\ bit b') (relax_state prev rx acc s).
Proof.
  intros Hs Ht. unfold relax_state. destruct (Z.leb_spec INF_METRIC prev.[s]) as [Hp|Hp].
  - eapply tried_mono; [|exact Ht]. intros s' b' Hp'. split; [auto|]. intros [?|[-> _]]; [done|lia].
  - cbn [foldl]. eapply tried_mono; [|by apply tried_relax, tried_relax]. intros s' b' _. unfold bit. tauto.
Qed.

Lemma tried_states l D acc :
  Forall is_state l -> tried D acc ->
  tried (fun s b => D s b \/ In s l /\ bit b) (foldl (relax_state prev rx) acc l).
Proof.
  intros Hl. revert D acc. induction Hl as [|s l Hs Hl IH]; intros D acc Ht; cbn [foldl].
  - eapply tried_mono; [|exact Ht]. intros. cbn. tauto.
  - eapply tried_mono; [|by apply IH, tried_state]. intros s' b' _. cbn [In]. intuition congruence.
Qed.

(** The step of [viterbi_step]: all transitions. *)
Lemma step_spec :
  let acc := foldl (relax_state prev rx) (replicate FULL_STATES INF_METRIC, replicate FULL_STATES 0) states in
  tried (fun s b => is_state s /\ bit b) acc.
Proof.
  intros acc. eapply tried_mono; [|apply (tried_states states (fun _ _ => False))].
  - intros s b _. split; [intros [[]|[Hin ?]]; split; [|done]|intros [? ?]; right; split; [by apply states_in|done]].
    apply in_states. by apply list_elem_of_In.
  - apply Forall_forall. intros s. apply in_states.
  - unfold tried; cbn [fst snd]; split_and!; [by rewrite length_replicate..|]. intros t Ht. split; [done|]. left. cbn [fst].
    unfold is_state in Ht. rewrite nth_lookup, lookup_replicate_2 by (unfold FULL_STATES; lia). done.
Qed.
End step.

(** ** The trellis *)

(** The cost of input [u] from state [s] for the received pairs. *)
Fixpoint cost (s : Z) (rxs : list (Z * Z)) (u : list Z) : Z :=
  match rxs, u with
  | rx :: rxs', b :: u' => branch_metric rx (shift_in s b) + cost (shift_in s b) rxs' u'
  | _, _ => 0
  end.

Lemma final_state s u : is_state s -> is_state (foldl shift_in s u).
Proof. revert s. induction u as [|b u IH]; intros s Hs; [done|]. apply IH, shift_in_state. Qed.

Lemma cost_snoc s rxs u rx b :
  length u = length rxs ->
  cost s (rxs ++ [rx]) (u ++ [b]) = cost s rxs u + branch_metric rx (foldl shift_in s (u ++ [b])).
Proof.
  revert s u. induction rxs as [|rx' rxs IH]; intros s u Hl; destruct u as [|b' u]; try done.
  - cbn. lia.
  - cbn [app cost foldl]. rewrite IH by (by injection Hl). lia.
Qed.

Lemma branch_metric_range rx t : 0 <= branch_metric rx t <= 2.
Proof. unfold branch_metric. repeat case_match; lia. Qed.

Lemma cost_range s rxs u : 0 <= cost s rxs u <= 2 * zlen rxs.
Proof.
  revert s u. induction rxs as [|rx rxs IH]; intros s u; [done|]. destruct u as [|b u]; cbn [cost]; [lia|].
  rewrite length_cons. pose proof (branch_metric_range rx (shift_in s b)). pose proof (IH (shift_in s b) u). lia.
Qed.

Lemma traceback_acc rows t acc : traceback rows t acc = traceback rows t [] ++ acc.
Proof.
  revert t acc. induction rows as [|row rows IH]; intros t acc; [done|]. cbn [traceback].
  rewrite IH, (IH _ [_]). by rewrite <- app_assoc.
Qed.

(** Metrics are the costs of cheapest inputs, which the survivors trace. *)
Definition cheapest (rxs : list (Z * Z)) (acc : list Z * list (list Z)) : Prop :=
  length acc.1 = 128%nat /\
  (forall u, bits u -> length u = length rxs -> acc.1.[foldl shift_in 0 u] <= cost 0 rxs u) /\
  forall t, is_state t -> acc.1.[t] < INF_METRIC ->
    let u := traceback acc.2 t [] in
    bits u /\ length u = length rxs /\ foldl shift_in 0 u = t /\ cost 0 rxs u = acc.1.[t].

Lemma cheapest_start : cheapest [] (<[0%nat := 0]> (replicate FULL_STATES INF_METRIC), []).
Proof.
  unfold cheapest; cbn [fst snd]. split_and!; [by rewrite length_insert| |].
  - intros [|b u] _ Hl; [|done]. by vm_compute.
  - intros t Ht. rewrite (nth_update _ t 0) by (done || by rewrite length_replicate).
    case_bool_decide as E; [subst; intros _; split_and!; [constructor|done..]|].
    unfold is_state in Ht. rewrite nth_lookup, lookup_replicate_2 by (unfold FULL_STATES; lia).
    cbn. lia.
Qed.

Lemma cheapest_step rxs rx acc :
  2 * zlen rxs < INF_METRIC -> cheapest rxs acc -> cheapest (rxs ++ [rx]) (viterbi_step acc rx).
Proof.
  intros Hn (L & Hle & Htr). destruct acc as [prev rows]. unfold viterbi_step. cbn [fst snd] in *.
  pose proof (step_spec prev rx) as (L1 & L2 & Hst). destruct (foldl _ _ states) as [curr row]. cbn [fst snd] in *.
  split_and!; cbn [fst snd]; [done| |].
  - intros u Hu Hlen. destruct u as [|b u _] using rev_ind; [rewrite length_app in Hlen; cbn in Hlen; lia|].
    apply bits_app in Hu as [Hu Hb%Forall_inv]. rewrite !length_app in Hlen. cbn in Hlen. rewrite cost_snoc by lia.
    pose proof (Hle u Hu ltac:(lia)) as Hu'. pose proof (cost_range 0 rxs u) as Hr.
    assert (is_state (foldl shift_in 0 u)) as Hs by (by apply final_state).
    rewrite foldl_app. cbn [foldl]. destruct (Hst (shift_in (foldl shift_in 0 u) b) (shift_in_state _ _)) as [Hmin _].
    specialize (Hmin (foldl shift_in 0 u) b (conj Hs Hb)). lia.
  - intros t Ht Hlt. destruct (Hst t Ht) as [_ [Hinf|(s & b & [Hs Hb] & Hp & Es & Em & Er)]]; [lia|].
    destruct (Htr s Hs Hp) as (T1 & T2 & T3 & T4). cbn [traceback]. rewrite traceback_acc, Er.
    rewrite <- Es, shift_in_bit by done. split_and!.
    + apply bits_app. split; [done|by apply Forall_singleton].
    + rewrite !length_app, T2. done.
    + rewrite foldl_app, T3. done.
    + rewrite cost_snoc, foldl_app, T3, T4 by done. cbn [foldl]. rewrite Es. lia.
Qed.

Lemma cheapest_viterbi rxs : 2 * zlen rxs < INF_METRIC -> cheapest rxs (viterbi rxs).
Proof.
  unfold viterbi. induction rxs as [|rx rxs IH] using rev_ind; intros Hn; [apply cheapest_start|].
  rewrite length_app in Hn. cbn in Hn. rewrite foldl_snoc. apply cheapest_step; [lia|]. apply IH. lia.
Qed.

(** ** The best final state *)

(** The first of the least metrics. *)
Lemma best_state_spec metrics :
  is_state (best_state metrics) /\
  forall t, is_state t -> metrics.[best_state metrics] <= metrics.[t] /\
    (t < best_state metrics -> metrics.[best_state metrics] < metrics.[t]).
Proof.
  unfold best_state.
  assert (forall n k st best, (k + n = 128)%nat -> 0 <= st < Z.of_nat k -> best = metrics.[st] ->
    (forall t, 0 <= t < Z.of_nat k -> best <= metrics.[t] /\ (t < st -> best < metrics.[t])) ->
    let r := foldl (fun '(state, best) s => if metrics.[s] <? best then (s, metrics.[s]) else (state, best)) (st, best)
               (Z.of_nat <$> seq k n) in
    is_state r.1 /\ forall t, is_state t -> metrics.[r.1] <= metrics.[t] /\ (t < r.1 -> metrics.[r.1] < metrics.[t])) as Hgen.
  { induction n as [|n IH]; intros k st best Hk Hst -> Hmin.
    - cbn [seq fmap list_fmap foldl fst]. unfold is_state. split; [lia|]. intros t Ht. apply Hmin. lia.
    - cbn [seq fmap list_fmap foldl]. destruct (Z.ltb_spec metrics.[Z.of_nat k] metrics.[st]) as [Hlt|Hge].
      + apply IH; [lia|lia|done|]. intros t Ht. destruct (decide (t = Z.of_nat k)) as [->|]; [lia|].
        destruct (Hmin t ltac:(lia)). lia.
      + apply IH; [lia|lia|done|]. intros t Ht. destruct (decide (t = Z.of_nat k)) as [->|]; [lia|].
        apply Hmin. lia. }
  apply (Hgen 127%nat 1%nat); [done|lia|done|]. intros t Ht. replace t with 0 by lia. lia.
Qed.

(** Of the inputs with the least cost, one whose final state comes first. *)
Lemma decoded_bits_cheapest rxs :
  2 * zlen rxs < INF_METRIC ->
  let u := decoded_bits rxs in
  bits u /\ length u = length rxs /\
  forall v, bits v -> length v = length rxs ->
    cost 0 rxs u <= cost 0 rxs v /\ (foldl shift_in 0 v < foldl shift_in 0 u -> cost 0 rxs u < cost 0 rxs v).
Proof.
  intros Hn. pose proof (cheapest_viterbi rxs Hn) as Hc. unfold decoded_bits.
  destruct (viterbi rxs) as [metrics rows]. destruct Hc as (L & Hle & Htr). cbn [fst snd] in *.
  destruct (best_state_spec metrics) as [Hs Hbest].
  assert (forall v, bits v -> length v = length rxs -> metrics.[best_state metrics] <= cost 0 rxs v /\
    (foldl shift_in 0 v < best_state metrics -> metrics.[best_state metrics] < cost 0 rxs v)) as Hmin.
  { intros v Hv Hl. specialize (Hle v Hv Hl). specialize (Hbest (foldl shift_in 0 v)).
    assert (is_state (foldl shift_in 0 v)) by (by apply final_state). specialize (Hbest ltac:(done)). lia. }
  destruct (Htr _ Hs) as (T1 & T2 & T3 & T4).
  { pose proof (cost_range 0 rxs (replicate (length rxs) 0)) as Hr. specialize (Hmin (replicate (length rxs) 0)).
    rewrite length_replicate in Hmin. assert (bits (replicate (length rxs) 0)) by (apply Forall_replicate; by left).
    specialize (Hmin ltac:(done) eq_refl). lia. }
  split_and!; [done..|]. intros v Hv Hl. rewrite T3, T4. by apply Hmin.
Qed.

(** ** Distances *)

(** Positions at which a received sequence, erasures aside, differs. *)
Fixpoint mismatches (received sent : list Z) : Z :=
  match received, sent with
  | r :: received', c :: sent' =>
      (if r =? ERASURE then 0 else if r =? c then 0 else 1) + mismatches received' sent'
  | _, _ => 0
  end.

Lemma cost_mismatches s l u :
  length l = (2 * length u)%nat -> cost s (pairs l) u = mismatches l (convolve s u).
Proof.
  revert s l. induction u as [|b u IH]; intros s l Hl; [by destruct l|].
  destruct l as [|r0 [|r1 l]]; cbn in Hl; [lia|lia|]. cbn [pairs cost convolve mismatches].
  rewrite IH by lia. unfold branch_metric. cbn [fst snd]. lia.
Qed.

Lemma pairs_length l n : length l = (2 * n)%nat -> length (pairs l) = n.
Proof.
  revert l. induction n as [|n IH]; intros l Hl; [by destruct l|].
  destruct l as [|r0 [|r1 l]]; cbn in Hl; [lia|lia|]. cbn [pairs length]. rewrite IH by lia. done.
Qed.

(** [C31] What the decoder returns, before it is cut to the data's bits, is an
    input whose coded sequence is nearest to the received one, among all the
    inputs of that length: the path metrics cannot saturate below 2^23
    steps. *)
Theorem viterbi_maximum_likelihood received n :
  length received = (2 * n)%nat -> 2 * Z.of_nat n < INF_METRIC ->
  let u := decoded_bits (pairs received) in
  bits u /\ length u = n /\
  forall v, bits v -> length v = n -> mismatches received (convolve 0 u) <= mismatches received (convolve 0 v).
Proof.
  intros Hl Hn u. pose proof (pairs_length received n Hl) as Hp.
  destruct (decoded_bits_cheapest (pairs received)) as (Hb & Hlen & Hmin); [by rewrite Hp|].
  fold u in Hb, Hlen, Hmin. rewrite Hp in *. split_and!; [done..|]. intros v Hv Hvl.
  rewrite <- !cost_mismatches by congruence. by apply Hmin.
Qed.

Lemma viterbi_maximum_likelihood_witness :
  let u := decoded_bits (pairs [1; 1; 0; 2; 1; 1; 0; 0]) in
  bits u /\ length u = 4%nat /\
  forall v, bits v -> length v = 4%nat ->
    mismatches [1; 1; 0; 2; 1; 1; 0; 0] (convolve 0 u) <= mismatches [1; 1; 0; 2; 1; 1; 0; 0] (convolve 0 v).
Proof. apply (viterbi_maximum_likelihood [1; 1; 0; 2; 1; 1; 0; 0] 4); [reflexivity|unfold INF_METRIC; lia]. Defined.

(** The code is linear: differences of paths are paths of the differences. *)
Lemma all_states (P : Z -> bool) : forallb P states = true -> forall s, is_state s -> P s = true.
Proof. intros HP s Hs. rewrite forallb_forall in HP. by apply HP, states_in. Qed.

Lemma parity_lxor m s s' :
  m = GEN_0 \/ m = GEN_1 -> is_state s -> is_state s' -> parity (Z.lxor s s') m = Z.lxor (parity s m) (parity s' m).
Proof.
  intros Hm Hs Hs'. apply Z.eqb_eq.
  refine (all_states (fun s' => parity (Z.lxor s s') m =? Z.lxor (parity s m) (parity s' m)) _ s' Hs').
  refine (all_states (fun s => forallb (fun s' => parity (Z.lxor s s') m =? Z.lxor (parity s m) (parity s' m)) states) _ s Hs).
  destruct Hm as [-> | ->]; vm_compute; reflexivity.
Qed.

Lemma shift_in_lxor s s' b b' :
  is_state s -> is_state s' -> bit b -> bit b' ->
  shift_in (Z.lxor s s') (Z.lxor b b') = Z.lxor (shift_in s b) (shift_in s' b').
Proof.
  intros Hs Hs' Hb Hb'. apply Z.eqb_eq.
  refine (all_states (fun s' => shift_in (Z.lxor s s') (Z.lxor b b') =? Z.lxor (shift_in s b) (shift_in s' b')) _ s' Hs').
  refine (all_states (fun s => forallb (fun s' => shift_in (Z.lxor s s') (Z.lxor b b') =? Z.lxor (shift_in s b) (shift_in s' b')) states) _ s Hs).
  destruct Hb as [-> | ->], Hb' as [-> | ->]; vm_compute; reflexivity.
Qed.

Lemma lxor_state s s' : is_state s -> is_state s' -> is_state (Z.lxor s s').
Proof.
  intros Hs Hs'. assert (Z.lxor s s' = shift_in (Z.lxor s s') 0 \/ (0 <=? Z.lxor s s') && (Z.lxor s s' <? 128) = true) as [->|H].
  - right. refine (all_states (fun s' => (0 <=? Z.lxor s s') && (Z.lxor s s' <? 128)) _ s' Hs').
    refine (all_states (fun s => forallb (fun s' => (0 <=? Z.lxor s s') && (Z.lxor s s' <? 128)) states) _ s Hs).
    vm_compute. reflexivity.
  - apply shift_in_state.
  - unfold is_state. lia.
Qed.

(** The coded bits of a rate that reach the receiver. *)
Definition used (rate : CodeRate) (i : nat) : bool :=
  match rate with RATE_1_2 => true | RATE_3_4 => kept i end.

Definition used_weight (rate : CodeRate) (i : nat) (b : Z) : Z := if used rate i then b else 0.

Definition step_weight (rate : CodeRate) (i : nat) (s : Z) : Z :=
  used_weight rate i (parity s GEN_0) + used_weight rate (S i) (parity s GEN_1).

(** The weight of the path of the difference [e] from state [s], its first
    coded bit being bit [i]. *)
Fixpoint weight (rate : CodeRate) (i : nat) (s : Z) (e : list Z) : Z :=
  match e with
  | [] => 0
  | b :: e' => step_weight rate i (shift_in s b) + weight rate (S (S i)) (shift_in s b) e'
  end.

Definition difference (u v : list Z) : list Z := zip_with Z.lxor u v.

(** No bit that was used is an erasure. *)
Fixpoint clean (rate : CodeRate) (i : nat) (received : list Z) : Prop :=
  match received with
  | [] => True
  | r :: received' => (used rate i = true -> r <> ERASURE) /\ clean rate (S i) received'
  end.

Lemma used_triangle rate i r s s' m :
  m = GEN_0 \/ m = GEN_1 -> is_state s -> is_state s' -> (used rate i = true -> r <> ERASURE) ->
  used_weight rate i (parity (Z.lxor s s') m) <=
    (if r =? ERASURE then 0 else if r =? parity s m then 0 else 1) +
    (if r =? ERASURE then 0 else if r =? parity s' m then 0 else 1).
Proof.
  intros Hm Hs Hs' Hr. unfold used_weight. destruct (used rate i); [|repeat case_match; lia].
  rewrite parity_lxor by done. destruct (Z.eqb_spec r ERASURE); [by specialize (Hr eq_refl)|].
  destruct (parity_bit s m) as [-> | ->], (parity_bit s' m) as [-> | ->];
    destruct (Z.eqb_spec r 0), (Z.eqb_spec r 1); subst; cbn; lia || done.
Qed.

(** Two inputs whose paths differ by much cannot both be near. *)
Lemma weight_triangle rate i s s' u v l :
  bits u -> bits v -> is_state s -> is_state s' -> length v = length u -> length l = (2 * length u)%nat ->
  clean rate i l -> weight rate i (Z.lxor s s') (difference u v) <= mismatches l (convolve s u) + mismatches l (convolve s' v).
Proof.
  intros Hu. revert i s s' v l. induction Hu as [|b u Hb Hu IH]; intros i s s' v l Hv Hs Hs' Hlv Hl Hc.
  - destruct v; [|done]. by destruct l.
  - destruct v as [|b' v]; [done|]. destruct l as [|r0 [|r1 l]]; cbn [length] in Hl; [lia|lia|].
    apply Forall_cons in Hv as [Hb' Hv]. destruct Hc as (Hc0 & Hc1 & Hc). cbn [length] in Hlv.
    unfold difference. cbn [zip_with weight convolve mismatches]. rewrite shift_in_lxor by done.
    specialize (IH (S (S i)) (shift_in s b) (shift_in s' b') v l Hv (shift_in_state _ _) (shift_in_state _ _)
      ltac:(lia) ltac:(lia) Hc). fold (difference u v). unfold step_weight.
    pose proof (used_triangle rate i r0 _ _ GEN_0 (or_introl eq_refl) (shift_in_state s b) (shift_in_state s' b') Hc0).
    pose proof (used_triangle rate (S i) r1 _ _ GEN_1 (or_intror eq_refl) (shift_in_state s b) (shift_in_state s' b') Hc1).
    lia.
Qed.

(** ** The distance of a difference within seven steps *)

Definition errors_corrected (rate : CodeRate) : Z := match rate with RATE_1_2 => 2 | RATE_3_4 => 1 end.

Lemma used_period rate i : used rate (6 + i) = used rate i.
Proof. destruct rate; [done|apply kept_period]. Qed.

Lemma step_weight_period rate i s : step_weight rate (6 + i) s = step_weight rate i s.
Proof. unfold step_weight, used_weight. change (S (6 + i)) with (6 + S i)%nat. by rewrite !used_period. Qed.

Lemma weight_period rate i s e : weight rate (6 + i) s e = weight rate i s e.
Proof.
  revert i s. induction e as [|b e IH]; intros i s; [done|]. cbn [weight].
  change (S (S (6 + i))) with (6 + S (S i))%nat. by rewrite IH, step_weight_period.
Qed.

Lemma weight_phase rate k s e : weight rate (2 * k) s e = weight rate (2 * (k mod 3)) s e.
Proof.
  rewrite (Nat.div_mod_eq k 3) at 1. generalize (k / 3)%nat, (k mod 3)%nat. intros q r.
  induction q as [|q IH]; [f_equal; lia|]. rewrite <- IH, <- (weight_period _ (2 * (3 * q + r))). f_equal. lia.
Qed.

Lemma phase_in k : In (k mod 3)%nat [0; 1; 2]%nat.
Proof.
  assert (k mod 3 < 3)%nat as Hlt by (by apply Nat.mod_upper_bound).
  destruct (k mod 3)%nat as [|[|[|r]]]; [by left|right; by left|do 2 right; by left|lia].
Qed.

Lemma weight_nonneg rate i s e : 0 <= weight rate i s e.
Proof.
  revert i s. induction e as [|b e IH]; intros i s; cbn [weight]; [lia|]. specialize (IH (S (S i)) (shift_in s b)).
  unfold step_weight, used_weight. destruct (parity_bit (shift_in s b) GEN_0), (parity_bit (shift_in s b) GEN_1); repeat case_match; lia.
Qed.

Lemma weight_app rate i s e1 e2 : weight rate i s e1 <= weight rate i s (e1 ++ e2).
Proof.
  revert i s. induction e1 as [|b e1 IH]; intros i s; cbn [app weight]; [apply weight_nonneg|].
  specialize (IH (S (S i)) (shift_in s b)). lia.
Qed.

Lemma weight_zeros rate i n e : weight rate i 0 (replicate n 0 ++ e) = weight rate (i + 2 * n) 0 e.
Proof.
  revert i. induction n as [|n IH]; intros i; [by rewrite Nat.add_0_r|]. cbn [replicate app weight].
  change (shift_in 0 0) with 0. rewrite IH. replace (S (S i) + 2 * n)%nat with (i + 2 * S n)%nat by lia.
  unfold step_weight, used_weight. change (parity 0 GEN_0) with 0. change (parity 0 GEN_1) with 0. by repeat case_match.
Qed.

Fixpoint bit_lists (n : nat) : list (list Z) :=
  match n with O => [[]] | S n' => (cons 0 <$> bit_lists n') ++ (cons 1 <$> bit_lists n') end.

Lemma bit_lists_in e : bits e -> In e (bit_lists (length e)).
Proof.
  induction 1 as [|b e Hb He IH]; [by left|]. cbn [length bit_lists]. apply in_or_app.
  destruct Hb as [-> | ->]; [left|right]; by apply in_map.
Qed.

(** Whatever the puncturing phase: found by running through all of them. *)
Lemma seven_steps_weight rate k e :
  bits e -> length e = 6%nat -> 2 * errors_corrected rate <= weight rate (2 * k) 0 (1 :: e).
Proof.
  intros He Hl. apply bit_lists_in in He. rewrite Hl in He.
  rewrite weight_phase. pose proof (phase_in k) as Hk.
  assert (forallb (fun r => forallb (fun e => 2 * errors_corrected rate <=? weight rate (2 * r) 0 (1 :: e)) (bit_lists 6))
    [0; 1; 2]%nat = true) as Hall by (destruct rate; vm_compute; reflexivity).
  rewrite forallb_forall in Hall. specialize (Hall _ Hk). rewrite forallb_forall in Hall.
  by apply Z.leb_le, (Hall e).
Qed.

(** A lower bound on the weight of the paths that end with the shift register
    flushed, by phase and state: found by relaxation, and checked to be a
    potential of every transition. *)
Definition least (bound : list (list Z)) (k : nat) (s : Z) : Z := (nth (k mod 3) bound []).[s].

Definition least_round (rate : CodeRate) (bound : list (list Z)) : list (list Z) :=
  (fun k => (fun s =>
    foldl (fun m b => Z.min m (step_weight rate (2 * k) (shift_in s b) + least bound (S k) (shift_in s b)))
      (least bound k s) [0; 1]) <$> states) <$> [0; 1; 2]%nat.

Definition bounds (rate : CodeRate) : list (list Z) :=
  Nat.iter 20 (least_round rate) (replicate 3 ((fun s => if s <=? 1 then 0 else 100) <$> states)).

Definition potential (rate : CodeRate) (bound : list (list Z)) : bool :=
  forallb (fun k => (least bound k 0 <=? 0) && (least bound k 1 <=? 0) &&
    forallb (fun s => forallb (fun b =>
      least bound k s <=? step_weight rate (2 * k) (shift_in s b) + least bound (S k) (shift_in s b)) [0; 1]) states)
    [0; 1; 2]%nat &&
  forallb (fun k => 2 * errors_corrected rate <? step_weight rate (2 * k) 64 + least bound (S k) 64) [0; 1; 2]%nat.

Lemma bounds_potential rate : potential rate (bounds rate) = true.
Proof. destruct rate; vm_compute; reflexivity. Qed.

Lemma least_phase bound k s : least bound k s = least bound (k mod 3) s.
Proof. unfold least. by rewrite Nat.Div0.mod_mod. Qed.

Lemma least_next bound k s : least bound (S k) s = least bound (S (k mod 3)) s.
Proof. unfold least. by rewrite <- (Nat.add_1_r k), <- (Nat.add_1_r (k mod 3)), Nat.Div0.add_mod_idemp_l. Qed.

Lemma step_weight_phase rate k s : step_weight rate (2 * k) s = step_weight rate (2 * (k mod 3)) s.
Proof.
  rewrite (Nat.div_mod_eq k 3) at 1. generalize (k / 3)%nat, (k mod 3)%nat. intros q r.
  induction q as [|q IH]; [f_equal; lia|]. rewrite <- IH, <- (step_weight_period _ (2 * (3 * q + r))). f_equal. lia.
Qed.

Lemma weight_flushed rate bound k s e :
  potential rate bound = true ->
  is_state s -> bits e -> foldl shift_in s e <= 1 -> least bound k s <= weight rate (2 * k) s e.
Proof.
  intros Hp. apply andb_true_iff in Hp as [Hp _]. rewrite forallb_forall in Hp. intros Hs He. revert k s Hs.
  induction He as [|b e Hb He IH]; intros k s Hs Hend; specialize (Hp _ (phase_in k));
    apply andb_true_iff in Hp as [[H0 H1]%andb_true_iff Hst]; rewrite least_phase.
  - cbn [foldl weight] in *. assert (s = 0 \/ s = 1) as [-> | ->] by (unfold is_state in Hs; lia); by apply Z.leb_le.
  - cbn [foldl weight] in *. rewrite forallb_forall in Hst. specialize (Hst s (states_in s Hs)).
    rewrite forallb_forall in Hst. assert (In b [0; 1]) as Hin by (destruct Hb as [-> | ->]; cbn; auto).
    specialize (Hst b Hin). apply Z.leb_le in Hst. rewrite step_weight_phase.
    specialize (IH (S k) (shift_in s b) (shift_in_state _ _) Hend). rewrite least_next in IH.
    replace (2 * S k)%nat with (S (S (2 * k))) in IH by lia. lia.
Qed.

Lemma first_step_flushed rate bound k e :
  potential rate bound = true ->
  bits e -> foldl shift_in 64 e <= 1 -> 2 * errors_corrected rate < weight rate (2 * k) 0 (1 :: e).
Proof.
  intros Hp He Hend. cbn [weight]. change (shift_in 0 1) with 64.
  pose proof (weight_flushed rate bound (S k) 64 e Hp ltac:(done) He Hend) as Hw.
  apply andb_true_iff in Hp as [_ Hp]. rewrite forallb_forall in Hp. specialize (Hp _ (phase_in k)). apply Z.ltb_lt in Hp.
  rewrite <- least_next in Hp. rewrite step_weight_phase. replace (S (S (2 * k))) with (2 * S k)%nat by lia. lia.
Qed.

Lemma difference_bits u v : bits u -> bits v -> bits (difference u v).
Proof.
  intros Hu. revert v. induction Hu as [|b u Hb Hu IH]; intros v Hv; [constructor|].
  destruct v as [|b' v]; [constructor|]. apply Forall_cons in Hv as [Hb' Hv]. constructor; [|by apply IH].
  destruct Hb as [-> | ->], Hb' as [-> | ->]; [by left|by right|by right|by left].
Qed.

Lemma difference_final s s' u v :
  bits u -> bits v -> is_state s -> is_state s' -> length v = length u ->
  foldl shift_in (Z.lxor s s') (difference u v) = Z.lxor (foldl shift_in s u) (foldl shift_in s' v).
Proof.
  intros Hu. revert s s' v. induction Hu as [|b u Hb Hu IH]; intros s s' v Hv Hs Hs' Hl; [by destruct v|].
  destruct v as [|b' v]; [done|]. apply Forall_cons in Hv as [Hb' Hv]. unfold difference. cbn [zip_with foldl].
  rewrite shift_in_lxor by done. apply IH; [done|apply shift_in_state..|by injection Hl].
Qed.

(** Inputs that differ before the last six bits are far apart, farther if
    their difference is flushed. *)
Lemma apart rate m k u v :
  bits u -> bits v -> length v = length u -> (m + 6 <= length u)%nat -> take m u <> take m v ->
  2 * errors_corrected rate <= weight rate (2 * k) 0 (difference u v) /\
  (foldl shift_in 0 (difference u v) <= 1 -> 2 * errors_corrected rate < weight rate (2 * k) 0 (difference u v)).
Proof.
  intros Hu. revert m k v. induction Hu as [|b u Hb Hu IH]; intros m k v Hv Hl Hm Hne; [by destruct v, m|].
  destruct v as [|b' v]; [done|]. destruct m as [|m]; [done|]. cbn [length] in *.
  apply Forall_cons in Hv as [Hb' Hv]. unfold difference. cbn [zip_with]. fold (difference u v).
  destruct (decide (b = b')) as [<-|Hb2].
  - rewrite Z.lxor_nilpotent. pose proof (weight_zeros rate (2 * k) 1 (difference u v)) as E. cbn [replicate app] in E.
    rewrite E. replace (2 * k + 2 * 1)%nat with (2 * S k)%nat by lia. cbn [foldl]. change (shift_in 0 0) with 0.
    apply (IH m); [done|lia|lia|]. intros E'. apply Hne. cbn [take]. by rewrite E'.
  - assert (Z.lxor b b' = 1) as ->.
    { destruct Hb as [-> | ->], Hb' as [-> | ->]; [done|reflexivity|reflexivity|done]. }
    pose proof (difference_bits u v Hu Hv) as Hd. split; [|by apply (first_step_flushed _ _ _ _ (bounds_potential rate))].
    assert (length (difference u v) = length u) as Hdl by (unfold difference; rewrite length_zip_with; lia).
    rewrite <- (take_drop 6 (difference u v)) in Hd |- *. apply bits_app in Hd as [Hd _].
    pose proof (seven_steps_weight rate k (take 6 (difference u v)) Hd) as Hw.
    rewrite length_take in Hw. specialize (Hw ltac:(lia)).
    pose proof (weight_app rate (2 * k) 0 (1 :: take 6 (difference u v)) (drop 6 (difference u v))) as Ha.
    cbn [app] in Ha. lia.
Qed.

(** The tail leaves at most the last data bit in the shift register. *)
Lemma input_final data : 0 <= foldl shift_in 0 (input_bits data) <= 1.
Proof.
  unfold input_bits. rewrite foldl_app. generalize (final_state 0 (concat (byte_bits <$> data)) ltac:(done)).
  generalize (foldl shift_in 0 (concat (byte_bits <$> data))). intros s Hs.
  assert ((0 <=? foldl shift_in s (replicate TAIL_BITS 0)) && (foldl shift_in s (replicate TAIL_BITS 0) <=? 1) = true); [|lia].
  refine (all_states (fun s => (0 <=? foldl shift_in s (replicate TAIL_BITS 0)) && (foldl shift_in s (replicate TAIL_BITS 0) <=? 1)) _ s Hs).
  vm_compute. reflexivity.
Qed.

Lemma lxor_last s s' : 0 <= s <= 1 -> 0 <= s' <= 1 -> Z.lxor s s' <= 1.
Proof. intros H H'. assert (s = 0 \/ s = 1) as [-> | ->] by lia; assert (s' = 0 \/ s' = 1) as [-> | ->] by lia; done. Qed.

(** ** What arrives *)

Fixpoint hamming (a b : list Z) : Z :=
  match a, b with
  | x :: a', y :: b' => (if x =? y then 0 else 1) + hamming a' b'
  | _, _ => 0
  end.

Lemma mismatches_hamming a b : bits a -> mismatches a b = hamming a b.
Proof.
  intros Ha. revert b. induction Ha as [|x a Hx Ha IH]; intros b; [by destruct b|].
  destruct b as [|y b]; [done|]. cbn [mismatches hamming]. rewrite IH. by destruct Hx as [-> | ->].
Qed.

Lemma mismatches_depuncture i c r :
  bits r -> length r = length (puncture i c) ->
  mismatches (depuncture (length c) i r) c = hamming r (puncture i c) /\ clean RATE_3_4 i (depuncture (length c) i r).
Proof.
  revert i r. induction c as [|b c IH]; intros i r Hr Hl.
  - cbn in Hl. by destruct r.
  - cbn [length depuncture puncture] in *. unfold clean. fold clean. destruct (kept i) eqn:Hk.
    + destruct r as [|x r]; [done|]. apply Forall_cons in Hr as [Hx Hr]. destruct (IH (S i) r Hr) as [E1 E2].
      { by injection Hl. }
      cbn [mismatches hamming clean]. rewrite E1. split; [by destruct Hx as [-> | ->]|]. split; [|done].
      intros _. by destruct Hx as [-> | ->].
    + destruct (IH (S i) r Hr Hl) as [E1 E2]. cbn [mismatches clean used]. rewrite E1, Hk. split; [by cbn|]. by split.
Qed.

Lemma clean_bits i l : bits l -> clean RATE_1_2 i l.
Proof. intros Hl. revert i. induction Hl as [|b l Hb Hl IH]; intros i; [done|]. split; [intros _; by destruct Hb as [-> | ->]|apply IH]. Qed.

Lemma depuncture_length n i c : length (depuncture n i c) = n.
Proof. revert i c. induction n as [|n IH]; intros i c; [done|]. cbn [depuncture]. repeat case_match; cbn [length]; by rewrite IH. Qed.

Definition message_bits (l : list Z) : list Z := concat (byte_bits <$> l).

Lemma message_bits_bits l : bits (message_bits l).
Proof. induction l as [|b l IH]; [constructor|]. apply bits_app. split; [apply byte_bits_bits|done]. Qed.

(** The coded bits among those of the received bytes. *)
Definition arrived (rate : CodeRate) (received : list Z) (n : nat) : list Z :=
  take (length (coded_bits rate (replicate n 0))) (message_bits received).

Lemma coded_bits_length rate data : length (coded_bits rate (replicate (length data) 0)) = length (coded_bits rate data).
Proof.
  assert (length (convolve 0 (input_bits (replicate (length data) 0))) = length (convolve 0 (input_bits data))) as E.
  { by rewrite !convolve_length, !input_bits_length, length_replicate. }
  unfold coded_bits. destruct rate; [done|]. pose proof (puncture_length (convolve 0 (input_bits data))) as E1.
  pose proof (puncture_length (convolve 0 (input_bits (replicate (length data) 0)))) as E2. rewrite E in E2. lia.
Qed.

Lemma received_bits_spec rate data received :
  length received = length (encode rate data) ->
  let l := received_bits rate received (length data) in
  length l = (2 * (8 * length data + 6))%nat /\ clean rate 0 l /\
  mismatches l (convolve 0 (input_bits data)) = hamming (arrived rate received (length data)) (coded_bits rate data).
Proof.
  intros Hl l. set (c := convolve 0 (input_bits data)).
  assert (length c = (2 * (length data * 8 + TAIL_BITS))%nat) as Hc.
  { unfold c. rewrite convolve_length, input_bits_length. unfold TAIL_BITS. lia. }
  assert (match rate with RATE_1_2 => zlen c | RATE_3_4 => kept_bits (length c) end = zlen (coded_bits rate data)) as Ha.
  { unfold coded_bits. fold c. destruct rate; [done|]. by rewrite puncture_length. }
  assert (unpack received (zlen (coded_bits rate data)) [] = arrived rate received (length data)) as Hu.
  { rewrite unpack_take; [unfold arrived; by rewrite coded_bits_length, Nat2Z.id|].
    rewrite <- Ha. cbn [length]. pose proof (puncture_length c). unfold TAIL_BITS in Hc. destruct rate; [lia|].
    destruct (decide (length c < 6)%nat); [lia|].
    replace (length c) with (6 + (length c - 6))%nat by lia. rewrite kept_bits_period.
    pose proof (puncture_length (replicate (length c - 6) 0)) as Hp. rewrite length_replicate in Hp. lia. }
  assert (bits (arrived rate received (length data))) as Hb by (apply Forall_take, message_bits_bits).
  assert (length (arrived rate received (length data)) = length (coded_bits rate data)) as Hal.
  { unfold arrived. rewrite length_take, coded_bits_length. unfold message_bits. rewrite concat_bits_length, Hl.
    destruct (pack_bits (coded_bits rate data) (coded_bits_bits rate data)) as (pad & _ & E & _).
    apply (f_equal length) in E. rewrite concat_bits_length, length_app in E. unfold encode. lia. }
  unfold l, received_bits. rewrite <- Hc. unfold coded_bits in *. fold c in Ha, Hu, Hal |- *. destruct rate.
  - rewrite Hu. split_and!; [by rewrite Hal, Hc; unfold TAIL_BITS; lia|by apply clean_bits|by apply mismatches_hamming].
  - rewrite Ha, Hu. destruct (mismatches_depuncture 0 c _ Hb Hal) as [E1 E2].
    split_and!; [rewrite depuncture_length, Hc; unfold TAIL_BITS; lia|done|done].
Qed.

Lemma byte_of_bits d : is_byte d -> foldl (fun byte bit => u8 (Z.lor (Z.shiftl byte 1) bit)) 0 (byte_bits d) = d.
Proof.
  intros Hd. assert (forallb (fun d => foldl (fun byte bit => u8 (Z.lor (Z.shiftl byte 1) bit)) 0 (byte_bits d) =? d)
    (Z.of_nat <$> seq 0 256) = true) as Hall by (vm_compute; reflexivity).
  rewrite forallb_forall in Hall. apply Z.eqb_eq, Hall, list_elem_of_In, list_elem_of_fmap. exists (Z.to_nat d).
  unfold is_byte in Hd. split; [lia|]. apply elem_of_seq. lia.
Qed.

Lemma output_bytes data : bytes data -> output_loop (length data) (message_bits data) = data.
Proof.
  induction 1 as [|d data Hd Hds IH]; [done|]. unfold message_bits. cbn [length fmap list_fmap concat output_loop].
  fold (message_bits data). destruct (byte_bits d ++ message_bits data) eqn:E; [done|]. rewrite <- E.
  rewrite (take_app_length' _ _ 8) by done. rewrite (drop_app_length' _ _ 8) by done.
  by rewrite byte_of_bits, IH.
Qed.

(** The data within the nearest input. *)
Lemma nearest_is_data rate data received :
  length received = length (encode rate data) -> 2 * (8 * zlen data + 6) < INF_METRIC ->
  hamming (arrived rate received (length data)) (coded_bits rate data) <= errors_corrected rate ->
  take (length data * 8) (decoded_bits (pairs (received_bits rate received (length data)))) = message_bits data.
Proof.
  intros Hl Hn Herr. destruct (received_bits_spec rate data received Hl) as (L & Hc & Hm).
  set (l := received_bits rate received (length data)) in *.
  destruct (decoded_bits_cheapest (pairs l)) as (Hb & Hlen & Hmin); [rewrite (pairs_length _ _ L); lia|].
  set (u := decoded_bits (pairs l)) in *. rewrite (pairs_length _ _ L) in *.
  specialize (Hmin (input_bits data) (input_bits_bits data) (input_bits_length data)).
  assert (length l = (2 * length u)%nat) as Lu by (by rewrite L, Hlen).
  rewrite !cost_mismatches, Hm in Hmin; [|by rewrite input_bits_length|done].
  assert (take (length data * 8) (input_bits data) = message_bits data) as <-.
  { unfold input_bits. apply take_app_length'. fold (message_bits data). unfold message_bits. by rewrite concat_bits_length, Nat.mul_comm. }
  destruct (decide (take (length data * 8) u = take (length data * 8) (input_bits data))) as [E|E]; [done|exfalso].
  assert (length (input_bits data) = length u) as Hil by (rewrite input_bits_length; lia).
  pose proof (input_bits_bits data) as Hib.
  destruct (apart rate (length data * 8) 0 u (input_bits data) Hb Hib Hil ltac:(lia) E) as [Hw Hw'].
  pose proof (weight_triangle rate 0 0 0 u (input_bits data) l Hb Hib ltac:(done) ltac:(done) Hil Lu Hc) as Ht.
  pose proof (difference_final 0 0 u (input_bits data) Hb Hib ltac:(done) ltac:(done) Hil) as Hf.
  change (Z.lxor 0 0) with 0 in Hf, Ht. rewrite Hf in Hw'. rewrite Hm in Ht. change (2 * 0)%nat with 0%nat in Hw, Hw'.
  pose proof (input_final data) as Hd. pose proof (final_state 0 u ltac:(done)) as [Hu0 _].
  destruct (decide (foldl shift_in 0 u <= 1)) as [Hu|Hu]; [pose proof (lxor_last _ _ (conj Hu0 Hu) Hd)|]; lia.
Qed.

(** ** Counting the errors *)

Lemma popcount_hamming a b : is_byte a -> is_byte b -> popcount 8 (Z.lxor a b) = hamming (byte_bits b) (byte_bits a).
Proof.
  intros Ha Hb. set (all := Z.of_nat <$> seq 0 256).
  assert (forall x, is_byte x -> In x all) as Hin.
  { intros x Hx. apply list_elem_of_In, list_elem_of_fmap. exists (Z.to_nat x). unfold is_byte in Hx.
    split; [lia|]. apply elem_of_seq. lia. }
  assert (forallb (fun a => forallb (fun b => popcount 8 (Z.lxor a b) =? hamming (byte_bits b) (byte_bits a)) all) all = true)
    as Hall by (vm_compute; reflexivity).
  rewrite forallb_forall in Hall. specialize (Hall a (Hin a Ha)). rewrite forallb_forall in Hall.
  by apply Z.eqb_eq, Hall, Hin.
Qed.

Lemma hamming_app a1 a2 b1 b2 : length a1 = length b1 -> hamming (a1 ++ a2) (b1 ++ b2) = hamming a1 b1 + hamming a2 b2.
Proof.
  revert b1. induction a1 as [|x a1 IH]; intros b1 Hl; destruct b1 as [|y b1]; try done.
  cbn [app hamming]. rewrite IH by (by injection Hl). lia.
Qed.

Lemma count_errors_hamming sent received :
  bytes sent -> bytes received -> length received = length sent ->
  count_errors sent received = hamming (message_bits received) (message_bits sent).
Proof.
  intros Hs. revert received. induction Hs as [|x sent Hx Hs IH]; intros received Hr Hl; [by destruct received|].
  destruct received as [|y received]; [done|]. apply Forall_cons in Hr as [Hy Hr]. cbn [count_errors].
  rewrite popcount_hamming, IH by (done || by injection Hl).
  unfold message_bits. cbn [fmap list_fmap concat]. by rewrite hamming_app.
Qed.

Lemma encode_bytes rate data : bytes (encode rate data).
Proof. by destruct (pack_bits (coded_bits rate data) (coded_bits_bits rate data)) as (_ & _ & _ & Hb). Qed.

Lemma decode_corrects d data received :
  bytes data -> bytes received -> length received = length (encode (code_rate d) data) ->
  2 * (8 * zlen data + 6) < INF_METRIC ->
  hamming (arrived (code_rate d) received (length data)) (coded_bits (code_rate d) data) <= errors_corrected (code_rate d) ->
  decode d received (length data) =
    (data, MkDecoder (code_rate d)
             (u64 (corrected_errors d + hamming (message_bits received) (message_bits (encode (code_rate d) data))))).
Proof.
  intros Hd Hr Hl Hn He. unfold decode. rewrite nearest_is_data, output_bytes by done.
  rewrite count_errors_hamming by (done || apply encode_bytes). done.
Qed.

(** [C16] What the codec corrects. If at most two of the coded bits are received
    wrong at rate 1/2, or one at rate 3/4, the decoder returns the data and
    adds to its counter exactly the number of wrong bits of the received bytes,
    for all data up to the size at which the path metrics saturate. The padding
    bits of the last byte may be wrong as well. That two errors in the tail are
    still corrected rests on the order in which the final states are
    compared. *)
Theorem fec_corrects d data received :
  bytes data -> bytes received -> length received = length (encode (code_rate d) data) ->
  2 * (8 * zlen data + 6) < INF_METRIC ->
  hamming (arrived (code_rate d) received (length data)) (coded_bits (code_rate d) data) <= errors_corrected (code_rate d) ->
  decode d received (length data) =
    (data, MkDecoder (code_rate d)
             (u64 (corrected_errors d + hamming (message_bits received) (message_bits (encode (code_rate d) data))))).
Proof. apply decode_corrects. Qed.

(** Bit 9 of the coded bits of [0xA5; 0x01] received wrong. *)
Lemma fec_corrects_witness :
  let d := MkDecoder RATE_1_2 3 in
  decode d [0xE1; 0x95; 0xBB; 0x73; 0xBC; 0x70] 2 = ([0xA5; 0x01], MkDecoder RATE_1_2 4).
Proof.
  refine (fec_corrects (MkDecoder RATE_1_2 3) [0xA5; 0x01] [0xE1; 0x95; 0xBB; 0x73; 0xBC; 0x70] _ _ _ _ _).
  - exact (bool_decide_unpack (bytes [0xA5; 0x01]) (dec := Forall_dec _ _) I).
  - exact (bool_decide_unpack (bytes [0xE1; 0x95; 0xBB; 0x73; 0xBC; 0x70]) (dec := Forall_dec _ _) I).
  - vm_compute. reflexivity.
  - unfold INF_METRIC. cbn [length]. lia.
  - vm_compute. discriminate.
Defined.

(** The code's free distance is ten, but three errors in the tail defeat rate
    1/2: the tail drives the encoder to a known state, and the decoder does not
    use it. *)
Example tail_unused :
  let received := [0; 3; 128; 0] in
  hamming (message_bits received) (message_bits (encode RATE_1_2 [0])) = 3 /\
  fst (decode (MkDecoder RATE_1_2 0) received 1) = [1].
Proof. vm_compute. split; reflexivity. Qed.
End Viterbi.
