(* ===== verification/Frames.v ===== *)
(** * Frames (include/qpsk_b200/frame.h, src/frame_builder.cpp,
    src/frame_parser.cpp)

    The wire format of a burst: preamble, a header of 35 bits, the payload and
    a CRC-32 over the packed header and the payload, built and parsed bit by
    bit. [Crc] holds the table-driven CRC, [Frames] the builder and parser. *)
From S2P Require Import Prelude Fec.
Import Fec.

Module Crc.

(** One step of the table's inner loop. *)
Definition crc_shift (crc : Z) : Z :=
  if Z.land crc 1 =? 0 then Z.shiftr crc 1 else Z.lxor (Z.shiftr crc 1) 0xEDB88320.

Definition make_crc32_table : list Z := (fun i => Nat.iter 8 crc_shift (Z.of_nat i)) <$> seq 0 256.

Definition CRC32_TABLE : list Z := make_crc32_table.

Definition crc_step (crc byte : Z) : Z :=
  Z.lxor CRC32_TABLE.[Z.land (Z.lxor crc byte) 0xFF] (Z.shiftr crc 8).

Definition compute_crc32 (data : list Z) : Z :=
  Z.lxor (foldl crc_step 0xFFFFFFFF data) 0xFFFFFFFF.

(** The check value of the standard: the CRC of "123456789". *)
Example crc32_check : compute_crc32 [0x31; 0x32; 0x33; 0x34; 0x35; 0x36; 0x37; 0x38; 0x39] = 0xCBF43926.
Proof. vm_compute. reflexivity. Qed.

(** ** The register *)

Definition is_u32 (x : Z) : Prop := 0 <= x < 2 ^ 32.

Lemma lxor_bound n x y : 0 <= n -> 0 <= x < 2 ^ n -> 0 <= y < 2 ^ n -> 0 <= Z.lxor x y < 2 ^ n.
Proof.
  intros Hn Hx Hy. rewrite <- (Z.mod_small x (2 ^ n)), <- (Z.mod_small y (2 ^ n)) by done.
  rewrite <- !Z.land_ones by done. assert (Z.lxor (Z.land x (Z.ones n)) (Z.land y (Z.ones n)) = Z.land (Z.lxor x y) (Z.ones n)) as ->.
  { apply Z.bits_inj'. intros i Hi. rewrite !Z.lxor_spec, !Z.land_spec, Z.lxor_spec.
    by destruct (Z.testbit x i), (Z.testbit y i), (Z.testbit (Z.ones n) i). }
  rewrite Z.land_ones by done. apply Z.mod_pos_bound. lia.
Qed.

Lemma byte_index x : 0 <= Z.land x 0xFF < 256.
Proof. rewrite land_0xFF. dlia. Qed.

Lemma all_bytes (P : Z -> bool) : forallb P (Z.of_nat <$> seq 0 256) = true -> forall b, 0 <= b < 256 -> P b = true.
Proof.
  intros HP b Hb. rewrite forallb_forall in HP. apply HP, list_elem_of_In, list_elem_of_fmap.
  exists (Z.to_nat b). split; [lia|]. apply elem_of_seq. lia.
Qed.

Lemma table_entry i : 0 <= i < 256 -> CRC32_TABLE.[i] = Nat.iter 8 crc_shift i /\ is_u32 CRC32_TABLE.[i].
Proof.
  intros Hi. assert ((CRC32_TABLE.[i] =? Nat.iter 8 crc_shift i) && (0 <=? CRC32_TABLE.[i]) && (CRC32_TABLE.[i] <? 2 ^ 32) = true); [|unfold is_u32; lia].
  refine (all_bytes (fun i => (CRC32_TABLE.[i] =? Nat.iter 8 crc_shift i) && (0 <=? CRC32_TABLE.[i]) && (CRC32_TABLE.[i] <? 2 ^ 32)) _ i Hi).
  vm_compute. reflexivity.
Qed.

(** The top bytes of the table are distinct, so that an entry can be told from
    the top byte of the register. *)
Lemma table_top i j :
  0 <= i < 256 -> 0 <= j < 256 -> Z.shiftr CRC32_TABLE.[i] 24 = Z.shiftr CRC32_TABLE.[j] 24 -> i = j.
Proof.
  intros Hi Hj E. set (test := fun i j => negb (Z.shiftr CRC32_TABLE.[i] 24 =? Z.shiftr CRC32_TABLE.[j] 24) || (i =? j)).
  assert (test i j = true) as Ht.
  { refine (all_bytes (test i) _ j Hj). refine (all_bytes (fun i => forallb (test i) (Z.of_nat <$> seq 0 256)) _ i Hi).
    vm_compute. reflexivity. }
  unfold test in Ht. apply orb_true_iff in Ht as [Ht|Ht]; [|lia]. rewrite E, Z.eqb_refl in Ht. done.
Qed.

Lemma step_u32 s b : is_u32 s -> is_u32 (crc_step s b).
Proof.
  unfold is_u32. intros Hs. apply lxor_bound; [lia|apply table_entry, byte_index|].
  rewrite Z.shiftr_div_pow2 by lia. dlia.
Qed.

(** ** Errors within four bytes *)

Lemma shiftr_small a n : 0 <= n -> 0 <= a < 2 ^ n -> Z.shiftr a n = 0.
Proof. intros Hn Ha. rewrite Z.shiftr_div_pow2 by done. by apply Z.div_small. Qed.

Lemma lxor_byte_shiftr s b k : 8 <= k -> is_byte b -> Z.shiftr (Z.lxor s b) k = Z.shiftr s k.
Proof.
  unfold is_byte. intros Hk Hb. rewrite Z.shiftr_lxor, (shiftr_small b); [apply Z.lxor_0_r|lia|].
  assert (2 ^ 8 <= 2 ^ k) by (apply Z.pow_le_mono_r; lia). lia.
Qed.

(** Registers that agree from bit [k] on after a step agreed from [k + 8] on
    before it, and entered the same table index. *)
Lemma step_agree s s' b b' k :
  is_u32 s -> is_u32 s' -> 0 <= k <= 24 ->
  Z.shiftr (crc_step s b) k = Z.shiftr (crc_step s' b') k ->
  Z.land (Z.lxor s b) 0xFF = Z.land (Z.lxor s' b') 0xFF /\ Z.shiftr s (k + 8) = Z.shiftr s' (k + 8).
Proof.
  unfold is_u32, crc_step. intros Hs Hs' Hk E.
  assert (forall x, 0 <= x < 2 ^ 32 -> Z.shiftr (Z.shiftr x 8) 24 = 0) as Hz.
  { intros x Hx. rewrite Z.shiftr_shiftr by lia. by apply shiftr_small. }
  assert (Z.land (Z.lxor s b) 0xFF = Z.land (Z.lxor s' b') 0xFF) as Ei.
  { apply table_top; [apply byte_index..|]. apply (f_equal (fun z => Z.shiftr z (24 - k))) in E.
    rewrite !Z.shiftr_shiftr, !Z.shiftr_lxor in E by lia. replace (k + (24 - k)) with 24 in E by lia.
    by rewrite !Hz, !Z.lxor_0_r in E. }
  split; [done|]. rewrite Ei, !Z.shiftr_lxor, !Z.shiftr_shiftr in E by lia. rewrite (Z.add_comm k).
  apply (f_equal (Z.lxor (Z.shiftr CRC32_TABLE.[Z.land (Z.lxor s' b') 255] k))) in E.
  by rewrite <- !Z.lxor_assoc, !Z.lxor_nilpotent, !Z.lxor_0_l in E.
Qed.

Lemma run_agree a a' s s' k :
  bytes a -> bytes a' -> length a = length a' -> is_u32 s -> is_u32 s' -> 0 <= k -> k + 8 * zlen a <= 32 ->
  Z.shiftr (foldl crc_step s a) k = Z.shiftr (foldl crc_step s' a') k ->
  Z.shiftr s (k + 8 * zlen a) = Z.shiftr s' (k + 8 * zlen a) /\ (s = s' -> a = a').
Proof.
  intros Ha. revert a' s s'. induction Ha as [|b a Hb Ha IH]; intros a' s s' Ha' Hl Hs Hs' Hk Hn E.
  - destruct a'; [|done]. cbn in *. by rewrite Z.add_0_r.
  - destruct a' as [|b' a']; [done|]. apply Forall_cons in Ha' as [Hb' Ha'].
    cbn [length foldl] in *. destruct (IH a' (crc_step s b) (crc_step s' b')) as [E1 E2];
      [done|by injection Hl|by apply step_u32..|done|lia|done|].
    destruct (step_agree s s' b b' (k + 8 * zlen a) Hs Hs' ltac:(lia) E1) as [Ei E3].
    replace (k + 8 * Z.of_nat (S (length a))) with (k + 8 * zlen a + 8) by lia. split; [done|]. intros ->.
    assert (b = b') as ->; [|by rewrite (E2 eq_refl)].
    apply (f_equal (Z.lxor (Z.land s' 0xFF))) in Ei.
    assert (forall x, is_byte x -> Z.lxor (Z.land s' 0xFF) (Z.land (Z.lxor s' x) 0xFF) = x) as Hx.
    { intros x Hx. unfold is_byte in Hx. transitivity (Z.land x 0xFF); [|by rewrite land_0xFF, Z.mod_small].
      apply Z.bits_inj'. intros i Hi. rewrite !Z.lxor_spec, !Z.land_spec, Z.lxor_spec.
      by destruct (Z.testbit s' i), (Z.testbit x i), (Z.testbit 255 i). }
    by rewrite !Hx in Ei.
Qed.

Lemma run_injective q s s' : is_u32 s -> is_u32 s' -> bytes q -> foldl crc_step s q = foldl crc_step s' q -> s = s'.
Proof.
  intros Hs Hs' Hq. revert s s' Hs Hs'. induction Hq as [|b q Hb Hq IH]; intros s s' Hs Hs' E; [done|].
  apply IH in E; [|by apply step_u32..]. destruct (step_agree s s' b b 0 Hs Hs' ltac:(lia) (f_equal (fun z => Z.shiftr z 0) E)) as [E1 E2].
  rewrite (Z.add_0_l 8) in E2. rewrite !land_0xFF in E1. rewrite !Z.shiftr_div_pow2 in E2 by lia.
  assert (s mod 256 = s' mod 256) as E3.
  { apply (f_equal (Z.lxor (b mod 256))) in E1.
    assert (forall x, Z.lxor (b mod 256) (Z.lxor x b mod 256) = x mod 256) as Hx.
    { intros x. rewrite <- !land_0xFF. apply Z.bits_inj'. intros i Hi. rewrite !Z.lxor_spec, !Z.land_spec, Z.lxor_spec.
      by destruct (Z.testbit b i), (Z.testbit x i), (Z.testbit 255 i). }
    by rewrite !Hx in E1. }
  rewrite (Z.div_mod s 256), (Z.div_mod s' 256) by lia. change (2 ^ 8) with 256 in E2. congruence.
Qed.

Lemma run_u32 l s : is_u32 s -> is_u32 (foldl crc_step s l).
Proof. revert s. induction l as [|b l IH]; intros s Hs; [done|]. apply IH, step_u32, Hs. Qed.

Lemma lxor_cancel_r a b m : Z.lxor a m = Z.lxor b m -> a = b.
Proof.
  intros E. apply (f_equal (fun z => Z.lxor z m)) in E. by rewrite !Z.lxor_assoc, Z.lxor_nilpotent, !Z.lxor_0_r in E.
Qed.

Lemma crc_burst p m m' q :
  bytes m -> bytes m' -> bytes q -> length m = length m' -> (length m <= 4)%nat ->
  compute_crc32 (p ++ m ++ q) = compute_crc32 (p ++ m' ++ q) -> m = m'.
Proof.
  intros Hm Hm' Hq Hl H4 E%lxor_cancel_r. rewrite !foldl_app in E.
  assert (is_u32 (foldl crc_step 0xFFFFFFFF p)) as Hs by (by apply run_u32).
  apply run_injective in E; [|by apply run_u32..|done].
  eapply (run_agree m m' _ _ 0); [done|done|done|exact Hs|exact Hs|lia|lia|by rewrite E|done].
Qed.

(** ** The bit-serial register *)

(** One bit of the message into the register of the polynomial 0xEDB88320. *)
Definition crc_bit (crc bit : Z) : Z := crc_shift (Z.lxor crc bit).

(** The bits of a byte in the order in which they are transmitted. *)
Fixpoint lsb_bits (n : nat) (v : Z) : list Z :=
  match n with O => [] | S n' => Z.land v 1 :: lsb_bits n' (Z.shiftr v 1) end.

Lemma crc_shift_high y v : crc_shift (Z.lxor y (Z.shiftl v 1)) = Z.lxor (crc_shift y) v.
Proof.
  unfold crc_shift. assert (Z.land (Z.lxor y (Z.shiftl v 1)) 1 = Z.land y 1) as ->.
  { apply Z.bits_inj'. intros i Hi. rewrite !Z.land_spec, Z.lxor_spec. destruct (decide (i = 0)) as [->|].
    - by rewrite Z.shiftl_spec_low, xorb_false_r by lia.
    - assert (Z.testbit 1 i = false) as -> by (apply Z.bits_above_log2; [lia|]; cbn; lia). by rewrite !andb_false_r. }
  assert (Z.shiftr (Z.lxor y (Z.shiftl v 1)) 1 = Z.lxor (Z.shiftr y 1) v) as ->.
  { rewrite Z.shiftr_lxor. f_equal. by rewrite Z.shiftr_shiftl_l, Z.shiftl_0_r by lia. }
  destruct (Z.land y 1 =? 0); [done|]. by rewrite !Z.lxor_assoc, (Z.lxor_comm v).
Qed.

Lemma iter_shift_high n y v :
  Nat.iter n crc_shift (Z.lxor y (Z.shiftl v (Z.of_nat n))) = Z.lxor (Nat.iter n crc_shift y) v.
Proof.
  revert y v. induction n as [|n IH]; intros y v; [by rewrite Z.shiftl_0_r|].
  rewrite Nat2Z.inj_succ, <- Z.add_1_r, Z.add_comm, <- Z.shiftl_shiftl by lia.
  cbn [Nat.iter nat_rect]. unfold Nat.iter in *. cbn. by rewrite IH, crc_shift_high.
Qed.

Lemma iter_lsb n x v : Nat.iter n crc_shift (Z.lxor x v) = Z.lxor (foldl crc_bit x (lsb_bits n v)) (Z.shiftr v (Z.of_nat n)).
Proof.
  revert x v. induction n as [|n IH]; intros x v; [by rewrite Z.shiftr_0_r|].
  rewrite Nat.iter_succ_r. assert (v = Z.lxor (Z.land v 1) (Z.shiftl (Z.shiftr v 1) 1)) as Ev.
  { apply Z.bits_inj'. intros i Hi. rewrite Z.lxor_spec, Z.land_spec. destruct (decide (i = 0)) as [->|].
    - by rewrite Z.shiftl_spec_low, xorb_false_r, andb_true_r by lia.
    - assert (Z.testbit 1 i = false) as -> by (apply Z.bits_above_log2; [lia|]; cbn; lia).
      rewrite andb_false_r, xorb_false_l, Z.shiftl_spec_high, Z.shiftr_spec by lia. f_equal. lia. }
  rewrite Ev at 1. rewrite <- Z.lxor_assoc, crc_shift_high, IH. cbn [lsb_bits foldl]. unfold crc_bit at 3.
  rewrite Z.shiftr_shiftr by lia. do 2 f_equal. lia.
Qed.

Lemma crc_step_bits s b : is_u32 s -> is_byte b -> crc_step s b = foldl crc_bit s (lsb_bits 8 b).
Proof.
  intros Hs Hb. pose proof (iter_lsb 8 s b) as E. rewrite (shiftr_small b), Z.lxor_0_r in E by (unfold is_byte in Hb; lia).
  rewrite <- E. unfold crc_step. destruct (table_entry (Z.land (Z.lxor s b) 0xFF) (byte_index _)) as [-> _].
  rewrite <- (lxor_byte_shiftr s b 8) by (done || lia). rewrite <- (iter_shift_high 8).
  f_equal. apply Z.bits_inj'. intros i Hi. rewrite Z.lxor_spec, Z.land_spec. destruct (decide (i < 8)).
  - rewrite Z.shiftl_spec_low, xorb_false_r by lia. assert (Z.testbit 0xFF i = true) as -> by (change 0xFF with (Z.ones 8); by apply Z.ones_spec_low).
    by rewrite andb_true_r.
  - assert (Z.testbit 0xFF i = false) as -> by (change 0xFF with (Z.ones 8); apply Z.ones_spec_high; lia).
    rewrite andb_false_r, xorb_false_l, Z.shiftl_spec_high, Z.shiftr_spec by lia. f_equal. lia.
Qed.

(** The table-driven CRC is the bit-serial register of the reflected
    polynomial 0xEDB88320 run over the bits of the data, the low bit of each
    byte first. *)
Theorem crc32_bitwise data :
  bytes data ->
  compute_crc32 data = Z.lxor (foldl crc_bit 0xFFFFFFFF (concat (lsb_bits 8 <$> data))) 0xFFFFFFFF.
Proof.
  intros Hd. unfold compute_crc32. f_equal. assert (is_u32 0xFFFFFFFF) as Hs by done.
  generalize dependent 0xFFFFFFFF. induction Hd as [|b data Hb Hd IH]; intros s Hs; [done|].
  cbn [fmap list_fmap concat foldl]. rewrite foldl_app, <- crc_step_bits by done. by apply IH, step_u32.
Qed.

Lemma crc32_bitwise_witness :
  compute_crc32 [0x31; 0x32] = Z.lxor (foldl crc_bit 0xFFFFFFFF (concat (lsb_bits 8 <$> [0x31; 0x32]))) 0xFFFFFFFF.
Proof. apply (crc32_bitwise [0x31; 0x32]). exact (bool_decide_unpack (bytes [0x31; 0x32]) (dec := Forall_dec _ _) I). Defined.
End Crc.

Module Frames.
Import Crc.

(** The code rate field holds whatever two bits arrived: a [CodeRate] is its
    underlying [uint8_t]. *)
Record FrameHeader := MkHeader {
  payload_length : Z; padding_bits : Z; sequence_number : Z; fec_enabled : bool; fec_code_rate : Z }.

Record Frame := MkFrame { header : FrameHeader; payload : list Z; crc : Z; crc_valid : bool }.

Definition rate_value (rate : CodeRate) : Z := match rate with RATE_1_2 => 0 | RATE_3_4 => 1 end.

(** ** Builder *)

Record FrameBuilder := MkBuilder { preamble : list Z; seq_num : Z }.

(** [for (int i = n - 1; i >= 0; --i) bits.push_back((v >> i) & 1u)] *)
Fixpoint msb_bits (n : nat) (v : Z) : list Z :=
  match n with O => [] | S n' => Z.land (Z.shiftr v (Z.of_nat n')) 1 :: msb_bits n' v end.

(** The five header bytes under the CRC: the same expressions in
    [build_frame] and in [verify_crc]. *)
Definition pack_header (frame_length padding_bits fec_flag rate_bits seq : Z) : list Z :=
  [ u8 (Z.land (Z.shiftr frame_length 8) 0xFF);
    u8 (Z.land frame_length 0xFF);
    u8 (Z.lor (Z.lor (Z.lor (Z.shiftl (Z.land padding_bits 0x0F) 4) (Z.shiftl fec_flag 3)) (Z.shiftl rate_bits 1))
          (Z.land (Z.shiftr seq 11) 0x01));
    u8 (Z.land (Z.shiftr seq 3) 0xFF);
    u8 (Z.shiftl (Z.land seq 0x07) 5) ].

Definition build_frame (fb : FrameBuilder) (payload : list Z) (padding_bits : Z) (fec_enabled : bool)
    (fec_code_rate : CodeRate) : list Z * FrameBuilder :=
  let frame_length := u16 (zlen payload) in
  let seq := u16 (Z.land (seq_num fb) 0x0FFF) in
  let fec_flag := if fec_enabled then 1 else 0 in
  let rate_bits := Z.land (rate_value fec_code_rate) 0x03 in
  let crc := compute_crc32 (pack_header frame_length padding_bits fec_flag rate_bits seq ++ payload) in
  (preamble fb ++
   msb_bits 16 frame_length ++ msb_bits 4 padding_bits ++ [fec_flag] ++ msb_bits 2 rate_bits ++ msb_bits 12 seq ++
   concat (msb_bits 8 <$> payload) ++ msb_bits 32 crc,
   MkBuilder (preamble fb) (Z.land (u32 (seq_num fb + 1)) 0x0FFF)).

(** ** Parser *)

Definition HEADER_BITS : Z := 35.
Definition CRC_BITS : Z := 32.

Fixpoint extract_loop (bits : list Z) (offset : Z) (count : nat) (value : Z) : outcome Z :=
  match count with
  | O => Ok value
  | S count' =>
      b ← read bits offset;
      extract_loop bits (offset + 1) count' (u32 (Z.lor (Z.shiftl value 1) (Z.land b 1)))
  end.

Definition extract_bits (bits : list Z) (offset : Z) (count : nat) : outcome Z := extract_loop bits offset count 0.

(** [for (int b = n - 1; b >= 0; --b)]: the byte and the position after it. *)
Fixpoint byte_loop (bits : list Z) (pos : Z) (n : nat) (byte : Z) : outcome (Z * Z) :=
  match n with
  | O => Ok (byte, pos)
  | S b =>
      bit ← read bits pos;
      byte_loop bits (pos + 1) b (u8 (Z.lor byte (u8 (Z.shiftl (Z.land bit 1) (Z.of_nat b)))))
  end.

Fixpoint payload_loop (bits : list Z) (pos : Z) (payload_bytes : nat) : outcome (list Z * Z) :=
  match payload_bytes with
  | O => Ok ([], pos)
  | S n =>
      '(byte, pos) ← byte_loop bits pos 8 0;
      '(payload, pos) ← payload_loop bits pos n;
      Ok (byte :: payload, pos)
  end.

Definition verify_crc (f : Frame) : bool :=
  let h := header f in
  let fec_flag := if fec_enabled h then 1 else 0 in
  let rate_bits := Z.land (fec_code_rate h) 0x03 in
  compute_crc32 (pack_header (payload_length h) (padding_bits h) fec_flag rate_bits (sequence_number h) ++ payload f)
    =? crc f.

Definition parse_unchecked (bits : list Z) : outcome (option Frame) :=
  if zlen bits <? HEADER_BITS + CRC_BITS then Ok None else
  frame_length ← extract_bits bits 0 16;
  padding_bits ← extract_bits bits 16 4;
  fec_bit ← extract_bits bits 20 1;
  rate_val ← extract_bits bits 21 2;
  sequence_number ← extract_bits bits 23 12;
  let remaining_bits := zlen bits - HEADER_BITS in
  if remaining_bits <? CRC_BITS then Ok None else
  let payload_bit_count := remaining_bits - CRC_BITS in
  '(payload, pos) ← payload_loop bits HEADER_BITS (Z.to_nat (payload_bit_count / 8));
  let pos := pos + payload_bit_count mod 8 in
  received_crc ← extract_bits bits pos 32;
  Ok (Some (MkFrame (MkHeader (u16 frame_length) (u8 padding_bits) (u16 sequence_number) (negb (fec_bit =? 0)) (u8 rate_val))
              payload received_crc false)).

(** [parse] is the same text up to the CRC. *)
Definition parse (bits : list Z) : outcome (option Frame) :=
  frame ← parse_unchecked bits;
  match frame with
  | None => Ok None
  | Some f =>
      if verify_crc f then Ok (Some (MkFrame (header f) (payload f) (crc f) true)) else Ok None
  end.

(** ** Bits of a field *)

Lemma msb_bits_length n v : length (msb_bits n v) = n.
Proof. induction n as [|n IH]; [done|]. cbn [msb_bits length]. by rewrite IH. Qed.

Lemma msb_bits_bits n v : bits (msb_bits n v).
Proof. induction n as [|n IH]; [constructor|]. constructor; [apply land_1_bit|done]. Qed.

Lemma bits_value_cons b l : bits_value (b :: l) = b * 2 ^ zlen l + bits_value l.
Proof. unfold bits_value at 1. cbn [foldl]. by rewrite bits_value_acc. Qed.

Lemma msb_bits_value n v : bits_value (msb_bits n v) = v mod 2 ^ Z.of_nat n.
Proof.
  induction n as [|n IH]; [by rewrite Z.mod_1_r|]. cbn [msb_bits].
  rewrite bits_value_cons, IH, msb_bits_length, land_1, Z.shiftr_div_pow2, Nat2Z.inj_succ, Z.pow_succ_r by lia.
  rewrite (Z.mul_comm 2), Z.rem_mul_r by lia. lia.
Qed.

Lemma value_msb_bits l : bits l -> msb_bits (length l) (bits_value l) = l.
Proof.
  intros Hl. assert (forall k, msb_bits (length l) (k * 2 ^ zlen l + bits_value l) = l) as Hk; [|by specialize (Hk 0)].
  induction Hl as [|b l Hb Hl IH]; intros k; [done|]. cbn [length msb_bits].
  pose proof (bits_value_range l Hl) as Hr. assert (bits (b :: l)) as Hbl by (by constructor).
  rewrite bits_value_cons, Nat2Z.inj_succ, Z.pow_succ_r by lia.
  replace (k * (2 * 2 ^ zlen l) + (b * 2 ^ zlen l + bits_value l)) with ((2 * k + b) * 2 ^ zlen l + bits_value l) by ring.
  rewrite IH, land_1, Z.shiftr_div_pow2, Z.div_add_l, (Z.div_small (bits_value l)), Z.add_0_r by lia.
  f_equal. destruct Hb as [-> | ->]; dlia.
Qed.

Lemma land_bit b : bit b -> Z.land b 1 = b.
Proof. by intros [-> | ->]. Qed.

Lemma extract_loop_spec data off l rest v :
  cursor data off (l ++ rest) -> bits l -> 0 <= v -> v * 2 ^ zlen l + bits_value l < 2 ^ 32 ->
  extract_loop data off (length l) v = Ok (v * 2 ^ zlen l + bits_value l).
Proof.
  intros Hc Hl. revert off v Hc. induction Hl as [|b l Hb Hl IH]; intros off v Hc Hv Hlt; cbn [length extract_loop].
  - f_equal. cbn. lia.
  - rewrite bits_value_cons in Hlt |- *. destruct (cursor_read data off b (l ++ rest) Hc) as [-> Hc'].
    pose proof (bits_value_range l Hl) as Hr. cbn [length] in Hlt |- *. rewrite Nat2Z.inj_succ, Z.pow_succ_r in Hlt |- * by lia.
    assert (2 * v + b < 2 ^ 32) as Hs by (destruct Hb as [-> | ->]; nia).
    cbn [mbind outcome_bind]. rewrite land_bit, shift_bit, u32_small by (done || destruct Hb as [-> | ->]; lia).
    rewrite IH by (done || destruct Hb as [-> | ->]; lia || nia). f_equal. ring.
Qed.

Lemma extract_bits_spec data off l rest n :
  cursor data off (l ++ rest) -> bits l -> n = length l -> (n <= 32)%nat -> extract_bits data off n = Ok (bits_value l).
Proof.
  intros Hc Hl -> H32. unfold extract_bits. erewrite extract_loop_spec; [by rewrite Z.mul_0_l|done|done|lia|].
  pose proof (bits_value_range l Hl) as Hr. assert (2 ^ zlen l <= 2 ^ 32) by (apply Z.pow_le_mono_r; lia). lia.
Qed.

Lemma byte_loop_spec data off l rest v :
  cursor data off (l ++ rest) -> bits l -> 0 <= v -> (v + 1) * 2 ^ zlen l <= 256 ->
  byte_loop data off (length l) (v * 2 ^ zlen l) = Ok (v * 2 ^ zlen l + bits_value l, off + zlen l).
Proof.
  intros Hc Hl. revert off v Hc. induction Hl as [|b l Hb Hl IH]; intros off v Hc Hv Hlt; cbn [length byte_loop].
  - by rewrite !Z.add_0_r.
  - destruct (cursor_read data off b (l ++ rest) Hc) as [-> Hc']. rewrite bits_value_cons.
    cbn [length] in Hlt |- *. rewrite Nat2Z.inj_succ, Z.pow_succ_r in Hlt |- * by lia. pose proof (Z.pow_pos_nonneg 2 (zlen l)) as Hp.
    assert (Z.lor (v * (2 * 2 ^ zlen l)) (b * 2 ^ zlen l) = (2 * v + b) * 2 ^ zlen l) as Hlor.
    { rewrite <- (shift_bit v b), <- !(Z.shiftl_mul_pow2 _ (zlen l)), Z.shiftl_lor by (done || lia). f_equal.
      rewrite !Z.shiftl_mul_pow2 by lia. ring. }
    cbn [mbind outcome_bind]. rewrite land_bit, Z.shiftl_mul_pow2 by done || lia.
    rewrite (u8_small (b * _)), Hlor, u8_small by (destruct Hb as [-> | ->]; nia).
    rewrite (IH (off + 1) (2 * v + b)) by (done || destruct Hb as [-> | ->]; nia).
    do 2 f_equal; [ring|lia].
Qed.

Definition payload_bits (payload : list Z) : list Z := concat (msb_bits 8 <$> payload).

Lemma payload_bits_bits l : bits (payload_bits l).
Proof. induction l as [|b l IH]; [constructor|]. apply bits_app. split; [apply msb_bits_bits|done]. Qed.

Lemma payload_bits_length l : length (payload_bits l) = (8 * length l)%nat.
Proof. apply concat_bits_length. Qed.

Lemma payload_loop_spec data off l rest :
  cursor data off (payload_bits l ++ rest) -> bytes l ->
  payload_loop data off (length l) = Ok (l, off + 8 * zlen l).
Proof.
  intros Hc Hl. revert off Hc. induction Hl as [|b l Hb Hl IH]; intros off Hc; cbn [length payload_loop].
  - by rewrite Z.add_0_r.
  - unfold payload_bits in Hc. cbn [fmap list_fmap concat] in Hc. rewrite <- app_assoc in Hc.
    pose proof (byte_loop_spec data off (msb_bits 8 b) _ 0 Hc (msb_bits_bits _ _) ltac:(lia)) as E.
    rewrite msb_bits_length, Z.mul_0_l, msb_bits_value, Z.mod_small in E by exact Hb. rewrite E by done.
    cbn [mbind outcome_bind]. apply cursor_app in Hc. rewrite msb_bits_length in Hc.
    rewrite IH by done. cbn [mbind outcome_bind]. do 2 f_equal. lia.
Qed.

(** ** The layout of a frame *)

Definition flag (b : bool) : Z := if b then 1 else 0.

Definition header_ok (h : FrameHeader) : Prop :=
  0 <= payload_length h < 2 ^ 16 /\ 0 <= padding_bits h < 2 ^ 4 /\
  0 <= sequence_number h < 2 ^ 12 /\ 0 <= fec_code_rate h < 2 ^ 2.

Definition header_bits (h : FrameHeader) : list Z :=
  msb_bits 16 (payload_length h) ++ msb_bits 4 (padding_bits h) ++ [flag (fec_enabled h)] ++
  msb_bits 2 (fec_code_rate h) ++ msb_bits 12 (sequence_number h).

(** What is sent after the preamble; [slack] are payload bits that fill no
    byte, which the parser skips. *)
Definition frame_bits (h : FrameHeader) (payload slack : list Z) (crc : Z) : list Z :=
  header_bits h ++ payload_bits payload ++ slack ++ msb_bits 32 crc.

(** The checksum over header and payload. *)
Definition frame_crc (h : FrameHeader) (payload : list Z) : Z :=
  compute_crc32 (pack_header (payload_length h) (padding_bits h) (flag (fec_enabled h)) (fec_code_rate h)
                   (sequence_number h) ++ payload).

Lemma verify_crc_frame h p c v : header_ok h -> verify_crc (MkFrame h p c v) = (frame_crc h p =? c).
Proof.
  intros (_ & _ & _ & Hr). unfold verify_crc, frame_crc. cbn [header payload crc].
  by rewrite (land_ones_mod _ 2), Z.mod_small by lia.
Qed.

Lemma compute_crc32_range data : is_u32 (compute_crc32 data).
Proof. unfold is_u32. apply lxor_bound; [lia|by apply run_u32|lia]. Qed.

Lemma extract_field data off n v rest :
  cursor data off (msb_bits n v ++ rest) -> (n <= 32)%nat -> 0 <= v < 2 ^ Z.of_nat n ->
  extract_bits data off n = Ok v /\ cursor data (off + Z.of_nat n) rest.
Proof.
  intros Hc Hn Hv. split.
  - rewrite (extract_bits_spec data off (msb_bits n v) rest) by (done || apply msb_bits_bits || by rewrite msb_bits_length).
    by rewrite msb_bits_value, Z.mod_small.
  - apply cursor_app in Hc. by rewrite msb_bits_length in Hc.
Qed.

Lemma header_bits_length h : length (header_bits h) = 35%nat.
Proof. unfold header_bits. by rewrite !length_app, !msb_bits_length. Qed.

Lemma parse_unchecked_frame h p slack c :
  header_ok h -> bytes p -> (length slack < 8)%nat -> is_u32 c ->
  parse_unchecked (frame_bits h p slack c) = Ok (Some (MkFrame h p c false)).
Proof.
  intros (H1 & H2 & H3 & H4) Hp Hs Hc. unfold parse_unchecked. set (data := frame_bits h p slack c).
  assert (zlen data = 35 + 8 * zlen p + zlen slack + 32) as Hlen.
  { unfold data, frame_bits. rewrite !length_app, header_bits_length, payload_bits_length, msb_bits_length. lia. }
  assert (cursor data 0 data) as C0 by apply cursor_start. unfold data at 2, frame_bits, header_bits in C0.
  rewrite <- !app_assoc in C0. unfold HEADER_BITS, CRC_BITS.
  destruct (Z.ltb_spec (zlen data) (35 + 32)); [lia|].
  destruct (extract_field data 0 16 _ _ C0 ltac:(lia) H1) as [-> C1].
  destruct (extract_field data 16 4 _ _ C1 ltac:(lia) H2) as [-> C2]. cbn [mbind outcome_bind].
  assert (extract_bits data 20 1 = Ok (flag (fec_enabled h))) as ->.
  { rewrite (extract_bits_spec data 20 [flag (fec_enabled h)] _ 1 C2); [|by destruct (fec_enabled h); repeat constructor; (by left) || by right|done|lia].
    by destruct (fec_enabled h). }
  apply cursor_app in C2. cbn [mbind outcome_bind].
  destruct (extract_field data 21 2 _ _ C2 ltac:(lia) H4) as [-> C3].
  destruct (extract_field data 23 12 _ _ C3 ltac:(lia) H3) as [-> C4]. cbn [mbind outcome_bind].
  destruct (Z.ltb_spec (zlen data - 35) 32); [lia|].
  assert (Z.to_nat ((zlen data - 35 - 32) / 8) = length p) as -> by dlia.
  assert ((zlen data - 35 - 32) mod 8 = zlen slack) as -> by dlia.
  rewrite (payload_loop_spec data 35 p _ C4 Hp). cbn [mbind outcome_bind].
  apply cursor_app in C4. rewrite payload_bits_length in C4. apply cursor_app in C4.
  rewrite <- (app_nil_r (msb_bits 32 c)) in C4.
  destruct (extract_field data (35 + 8 * zlen p + zlen slack) 32 c []) as [-> _]; [|lia|done|].
  { replace (35 + 8 * zlen p + zlen slack) with (23 + Z.of_nat 12 + Z.of_nat (8 * length p) + zlen slack) by lia. exact C4. }
  cbn [mbind outcome_bind]. rewrite !u16_small, !u8_small by lia. destruct h as [pl pb sn fe fr]. cbn. by destruct fe.
Qed.

Lemma parse_frame h p slack c :
  header_ok h -> bytes p -> (length slack < 8)%nat -> is_u32 c ->
  parse (frame_bits h p slack c) = if frame_crc h p =? c then Ok (Some (MkFrame h p c true)) else Ok None.
Proof.
  intros Hh Hp Hs Hc. unfold parse. rewrite parse_unchecked_frame by done. cbn [mbind outcome_bind].
  by rewrite verify_crc_frame.
Qed.

(** Every bit sequence that is long enough is laid out like that. *)
Lemma split_field n l :
  bits l -> (n <= length l)%nat -> exists v rest, l = msb_bits n v ++ rest /\ 0 <= v < 2 ^ Z.of_nat n /\ bits rest.
Proof.
  intros Hl Hn. exists (bits_value (take n l)), (drop n l).
  assert (length (take n l) = n) as Ht by (rewrite length_take; lia).
  rewrite <- (take_drop n l) in Hl. apply bits_app in Hl as [Hl1 Hl2].
  pose proof (bits_value_range _ Hl1) as Hr. rewrite Ht in Hr. split_and!; [|lia|lia|done].
  pose proof (value_msb_bits _ Hl1) as E. rewrite Ht in E. by rewrite E, take_drop.
Qed.

Lemma split_payload n l :
  bits l -> (8 * n <= length l)%nat -> exists p rest, l = payload_bits p ++ rest /\ length p = n /\ bytes p /\ bits rest.
Proof.
  revert l. induction n as [|n IH]; intros l Hl Hn; [exists [], l; split_and!; [done|done|constructor|done]|].
  destruct (split_field 8 l Hl ltac:(lia)) as (b & rest & -> & Hb & Hrest).
  rewrite length_app, msb_bits_length in Hn. destruct (IH rest Hrest ltac:(lia)) as (p & rest' & -> & Hp & Hby & Hr).
  exists (b :: p), rest'. unfold payload_bits. cbn [fmap list_fmap concat]. rewrite <- app_assoc.
  split_and!; [done|cbn; lia|by constructor|done].
Qed.

Lemma split_frame data :
  bits data -> 67 <= zlen data ->
  exists h p slack c, data = frame_bits h p slack c /\ header_ok h /\ bytes p /\ bits slack /\ (length slack < 8)%nat /\ is_u32 c.
Proof.
  intros Hd Hl.
  destruct (split_field 16 data Hd ltac:(lia)) as (pl & r1 & -> & H1 & B1). rewrite length_app, msb_bits_length in Hl.
  destruct (split_field 4 r1 B1 ltac:(lia)) as (pb & r2 & -> & H2 & B2). rewrite length_app, msb_bits_length in Hl.
  destruct r2 as [|b r3]; [cbn in Hl; lia|]. apply Forall_cons in B2 as [Hb B3]. cbn [length] in Hl.
  destruct (split_field 2 r3 B3 ltac:(lia)) as (fr & r4 & -> & H4 & B4). rewrite length_app, msb_bits_length in Hl.
  destruct (split_field 12 r4 B4 ltac:(lia)) as (sn & r5 & -> & H5 & B5). rewrite length_app, msb_bits_length in Hl.
  assert (exists k, 8 * k <= length r5 - 32 < 8 * k + 8)%nat as (k & Hk).
  { exists ((length r5 - 32) / 8)%nat. pose proof (Nat.div_mod_eq (length r5 - 32) 8).
    pose proof (Nat.mod_upper_bound (length r5 - 32) 8 ltac:(done)). lia. }
  destruct (split_payload k r5 B5) as (p & r6 & -> & Hp & Hby & B6); [lia|].
  rewrite length_app, payload_bits_length in Hl, Hk.
  assert (32 <= length r6 < 40)%nat as H6 by lia.
  pose proof (take_drop (length r6 - 32) r6) as E6. rewrite <- E6 in B6. apply bits_app in B6 as [B6 B7].
  destruct (split_field 32 _ B7) as (c & r8 & E8 & Hc & _); [rewrite length_drop; lia|].
  assert (r8 = []) as ->.
  { apply (f_equal length) in E8. rewrite length_app, length_drop, msb_bits_length in E8. destruct r8; [done|]. cbn in E8. lia. }
  exists (MkHeader pl pb sn (negb (b =? 0)) fr), p, (take (length r6 - 32) r6), c. split_and!; try done.
  - unfold frame_bits, header_bits. cbn [payload_length padding_bits sequence_number fec_enabled fec_code_rate].
    rewrite E8, app_nil_r in E6. rewrite <- !app_assoc, E6. by destruct Hb as [-> | ->].
  - rewrite length_take. lia.
Qed.

Definition built_header (fb : FrameBuilder) (payload : list Z) (padding_bits : Z) (fec_enabled : bool) (rate : CodeRate) : FrameHeader :=
  MkHeader (zlen payload) padding_bits (seq_num fb mod 4096) fec_enabled (rate_value rate).

Lemma rate_value_range rate : 0 <= rate_value rate < 2 ^ 2.
Proof. by destruct rate. Qed.

Lemma built_header_ok fb p pad fec rate :
  zlen p < 2 ^ 16 -> 0 <= pad < 16 -> header_ok (built_header fb p pad fec rate).
Proof. intros Hp Hpad. unfold header_ok, built_header. cbn. pose proof (rate_value_range rate). dlia. Qed.

Lemma build_frame_bits fb p pad fec rate :
  zlen p < 2 ^ 16 ->
  build_frame fb p pad fec rate =
    (preamble fb ++ frame_bits (built_header fb p pad fec rate) p [] (frame_crc (built_header fb p pad fec rate) p),
     MkBuilder (preamble fb) ((seq_num fb + 1) mod 4096)).
Proof.
  intros Hp. unfold build_frame. rewrite (u16_small (zlen p)) by lia.
  assert (Z.land (u32 (seq_num fb + 1)) 0xFFF = (seq_num fb + 1) mod 4096) as -> by (rewrite (land_ones_mod _ 12) by lia; unfold u32; dlia).
  assert (Z.land (seq_num fb) 0xFFF = seq_num fb mod 4096) as -> by (by rewrite (land_ones_mod _ 12) by lia).
  rewrite (u16_small (seq_num fb mod 4096)) by dlia.
  assert (Z.land (rate_value rate) 3 = rate_value rate) as -> by (by destruct rate).
  unfold frame_bits, header_bits. cbn [app built_header payload_length padding_bits sequence_number fec_enabled fec_code_rate].
  by rewrite <- !app_assoc.
Qed.

(** The parser gives back what the builder sent: payload, header fields
    and the sequence number, which counts up modulo 4096, for payloads of up
    to 65535 bytes. *)
Theorem parse_build fb payload padding_bits fec rate :
  bytes payload -> zlen payload < 2 ^ 16 -> 0 <= padding_bits < 16 ->
  let '(bits, fb') := build_frame fb payload padding_bits fec rate in
  let hdr := MkHeader (zlen payload) padding_bits (seq_num fb mod 4096) fec (rate_value rate) in
  parse (drop (length (preamble fb)) bits) = Ok (Some (MkFrame hdr payload (frame_crc hdr payload) true)) /\
  fb' = MkBuilder (preamble fb) ((seq_num fb + 1) mod 4096).
Proof.
  intros Hb Hl Hp. rewrite build_frame_bits by done. split; [|done]. rewrite drop_app_length.
  rewrite parse_frame; [|by apply built_header_ok|done|cbn; lia|apply compute_crc32_range]. by rewrite Z.eqb_refl.
Qed.

Lemma parse_build_witness :
  let '(bits, fb') := build_frame (MkBuilder [1; 0; 1] 4095) [0xA5; 0x01] 3 true RATE_3_4 in
  let hdr := MkHeader 2 3 4095 true 1 in
  parse (drop 3 bits) = Ok (Some (MkFrame hdr [0xA5; 0x01] (frame_crc hdr [0xA5; 0x01]) true)) /\
  fb' = MkBuilder [1; 0; 1] 0.
Proof.
  apply (parse_build (MkBuilder [1; 0; 1] 4095) [0xA5; 0x01] 3 true RATE_3_4); [|by vm_compute|lia].
  exact (bool_decide_unpack (bytes [0xA5; 0x01]) (dec := Forall_dec _ _) I).
Defined.

(** [C20] What the parser accepts, for any sequence of bits: it never reads
    outside it, and it returns a frame exactly when the sequence is that
    frame's header, payload, at most seven skipped bits and a CRC that is the
    checksum of header and payload. The length field is not compared with the
    length of the payload. *)
Theorem parse_exact data :
  bits data ->
  is_ok (parse data) /\
  forall f, parse data = Ok (Some f) <->
    header_ok (header f) /\ bytes (payload f) /\ crc_valid f = true /\ crc f = frame_crc (header f) (payload f) /\
    exists slack, bits slack /\ (length slack < 8)%nat /\ data = frame_bits (header f) (payload f) slack (crc f).
Proof.
  intros Hd. destruct (Z.lt_ge_cases (zlen data) 67) as [Hlt|Hge].
  - assert (parse data = Ok None) as ->.
    { unfold parse, parse_unchecked. unfold HEADER_BITS, CRC_BITS. by destruct (Z.ltb_spec (zlen data) (35 + 32)); [|lia]. }
    split; [by eexists|]. intros f. split; [done|]. intros (_ & _ & _ & _ & slack & _ & _ & ->).
    unfold frame_bits in Hlt. rewrite !length_app, header_bits_length, msb_bits_length in Hlt. lia.
  - destruct (split_frame data Hd Hge) as (h & p & slack & c & -> & Hh & Hp & Hs & Hs8 & Hc).
    rewrite parse_frame by done. split; [destruct (_ =? _); by eexists|]. intros f. split.
    + destruct (Z.eqb_spec (frame_crc h p) c) as [<-|]; [|done]. intros [= <-]. cbn. split_and!; eauto.
    + intros (Hh' & Hp' & Hv & Hcrc & slack' & Hb' & Hs' & E).
      pose proof (parse_frame h p slack c Hh Hp Hs8 Hc) as E1.
      rewrite E, parse_frame, Hcrc, Z.eqb_refl in E1; [|done|done|done|rewrite Hcrc; apply compute_crc32_range].
      rewrite <- E1, <- Hcrc. destruct f as [fh fp fc fv]. cbn in *. by subst.
Qed.

Lemma parse_exact_witness :
  let data := replicate 67 0 in
  is_ok (parse data) /\
  forall f, parse data = Ok (Some f) <->
    header_ok (header f) /\ bytes (payload f) /\ crc_valid f = true /\ crc f = frame_crc (header f) (payload f) /\
    exists slack, bits slack /\ (length slack < 8)%nat /\ data = frame_bits (header f) (payload f) slack (crc f).
Proof. apply (parse_exact (replicate 67 0)). apply Forall_replicate. by left. Defined.

(** A frame that was accepted is rejected when its payload is changed
    within any four consecutive bytes: the CRC detects every such burst, in
    payloads of any length. *)
Theorem burst_rejected h pre burst burst' post c slack :
  header_ok h -> bytes (pre ++ burst ++ post) -> bytes burst' ->
  length burst' = length burst -> (length burst <= 4)%nat -> burst' <> burst ->
  is_u32 c -> (length slack < 8)%nat ->
  parse (frame_bits h (pre ++ burst ++ post) slack c) <> Ok None ->
  parse (frame_bits h (pre ++ burst' ++ post) slack c) = Ok None.
Proof.
  intros Hh Hb Hb' Hl H4 Hne Hc Hs. apply bytes_app in Hb as Hb2. destruct Hb2 as [Hpre [Hbu Hpo]%bytes_app].
  rewrite !parse_frame; [|done|by repeat (apply bytes_app; split)|done|done|done|done|done|done].
  destruct (Z.eqb_spec (frame_crc h (pre ++ burst ++ post)) c) as [E|]; [|done]. intros _.
  destruct (Z.eqb_spec (frame_crc h (pre ++ burst' ++ post)) c) as [E'|]; [|done]. exfalso. apply Hne.
  rewrite <- E in E'. unfold frame_crc in E'. rewrite !(app_assoc _ pre) in E'.
  eapply crc_burst; [..|exact E']; [done|done|done|done|lia].
Qed.

Lemma burst_rejected_witness :
  let h := MkHeader 3 0 7 false 0 in
  let c := frame_crc h [1; 2; 3] in
  parse (frame_bits h [1; 2; 3] [] c) <> Ok None /\ parse (frame_bits h [1; 250; 3] [] c) = Ok None.
Proof.
  split; [vm_compute; discriminate|].
  refine (burst_rejected (MkHeader 3 0 7 false 0) [1] [2] [250] [3] _ [] _ _ _ _ _ _ _ _ _).
  - unfold header_ok. cbn. lia.
  - exact (bool_decide_unpack (bytes [1; 2; 3]) (dec := Forall_dec _ _) I).
  - exact (bool_decide_unpack (bytes [250]) (dec := Forall_dec _ _) I).
  - reflexivity.
  - cbn. lia.
  - discriminate.
  - vm_compute. split; [discriminate|reflexivity].
  - cbn. lia.
  - vm_compute. discriminate.
Defined.
End Frames.
