(* ===== verification/Modem.v ===== *)
(** * The burst modem's bit pipeline (src/symbol_mapper.cpp, src/encoder.cpp,
    src/decoder.cpp)

    From a payload to the symbols of a burst, and from the symbols after a
    detected preamble back to the payload. Symbols are pairs of binary32
    numbers. The filters and synchronisers around these two functions are in
    [Dsp], and [Codec] puts them together. *)
From Stdlib Require Import SpecFloat.
From S2P Require Import Prelude Fec Viterbi Frames.
Import Fec Viterbi Crc Frames.

Module Modem.

(** ** Symbols *)

Definition float := spec_float.
Definition symbol : Type := float * float.

Definition zero : float := S754_zero false.

(** [static_cast<float>(M_SQRT1_2)]: 11863283 * 2^-24 *)
Definition SQRT1_2 : float := S754_finite false 11863283 (-24).

Definition CONSTELLATION : list symbol :=
  [(SQRT1_2, SQRT1_2); (SFopp SQRT1_2, SQRT1_2); (SQRT1_2, SFopp SQRT1_2); (SFopp SQRT1_2, SFopp SQRT1_2)].

Definition dibit_to_symbol (dibit : Z) : outcome symbol :=
  if 3 <? dibit then Err (Throw OutOfRange) else read CONSTELLATION dibit.

(** Comparisons are false on a NaN, which falls through to the last line. *)
Definition symbol_to_dibit (sym : symbol) : Z :=
  let '(re, im) := sym in
  if SFltb zero re && SFleb zero im then 0
  else if SFleb re zero && SFltb zero im then 1
  else if SFleb re zero && SFleb im zero then 3
  else 2.

(** The loop over pairs of bits. *)
Fixpoint map_loop (padded_bits : list Z) : outcome (list symbol) :=
  match padded_bits with
  | b0 :: b1 :: rest =>
      sym ← read CONSTELLATION (u8 (Z.lor (Z.shiftl b0 1) b1));
      symbols ← map_loop rest;
      Ok (sym :: symbols)
  | _ => Ok []
  end.

Definition map (bits : list Z) : outcome (list symbol * Z) :=
  let '(padded_bits, padding) := if zlen bits mod 2 =? 0 then (bits, 0) else (bits ++ [0], 1) in
  symbols ← map_loop padded_bits;
  Ok (symbols, padding).

Definition demap (symbols : list symbol) : list Z :=
  concat ((fun sym => let dibit := symbol_to_dibit sym in [Z.land (Z.shiftr dibit 1) 1; Z.land dibit 1]) <$> symbols).

(** ** Encoder *)

(** The fields of [Config] these functions read. *)
Record Config := MkConfig {
  cfg_preamble : list Z; cfg_fec_enabled : bool; cfg_fec_code_rate : CodeRate; acquisition_symbols : Z }.

Record TxDiagnostics := MkTx { frames_transmitted : Z; symbols_transmitted : Z }.

Record Encoder := MkEncoder { config : Config; frame_builder : FrameBuilder; tx_diag : TxDiagnostics }.

Definition make_doubled_preamble (preamble : list Z) : list Z := preamble ++ preamble.

Definition make_encoder (c : Config) : Encoder :=
  MkEncoder c (MkBuilder (make_doubled_preamble (cfg_preamble c)) 0) (MkTx 0 0).

Definition one : float := S754_finite false 8388608 (-23).

Definition bpsk_map_preamble (preamble_bits : list Z) : list symbol :=
  (fun bit => (if bit =? 0 then one else SFopp one, zero)) <$> preamble_bits.

Definition acquisition_pattern : list symbol :=
  [(SQRT1_2, SQRT1_2); (SQRT1_2, SFopp SQRT1_2); (SFopp SQRT1_2, SFopp SQRT1_2); (SFopp SQRT1_2, SQRT1_2)].

(** [reserve] of a negative count asks for more than [max_size()]. *)
Definition generate_acquisition_symbols (count : Z) : outcome (list symbol) :=
  if count <? 0 then Err (Throw LengthError)
  else Ok ((fun i => nth (i mod 4) acquisition_pattern (zero, zero)) <$> seq 0 (Z.to_nat count)).

Definition TAIL_SYMBOLS : nat := 6.

(** Step 2: the coded payload in the place of the payload. *)
Definition splice (c : Config) (frame_bits payload : list Z) : outcome (list Z) :=
  if cfg_fec_enabled c then
    let coded_bits := concat (byte_bits <$> encode (cfg_fec_code_rate c) payload) in
    let payload_start := 2 * zlen (cfg_preamble c) + HEADER_BITS in
    start ← range frame_bits 0 payload_start;
    crc_bits ← range frame_bits (zlen frame_bits - CRC_BITS) CRC_BITS;
    Ok (start ++ coded_bits ++ crc_bits)
  else Ok frame_bits.

(** [Encoder::encode] up to the pulse shaping: the symbols and the encoder
    after it. *)
Definition encode_symbols (e : Encoder) (payload : list Z) : outcome (list symbol * Encoder) :=
  let c := config e in
  let preamble_bits_count := 2 * zlen (cfg_preamble c) in
  let '(frame_bits, fb) := build_frame (frame_builder e) payload 0 (cfg_fec_enabled c) (cfg_fec_code_rate c) in
  frame_bits ← splice c frame_bits payload;
  preamble_bits ← range frame_bits 0 preamble_bits_count;
  data_bits ← range frame_bits preamble_bits_count (zlen frame_bits - preamble_bits_count);
  let preamble_symbols := bpsk_map_preamble preamble_bits in
  '(data_symbols, padding) ← map data_bits;
  acquisition ← generate_acquisition_symbols (acquisition_symbols c);
  let tail_symbols := replicate TAIL_SYMBOLS (zero, zero) in
  let all_symbols := acquisition ++ preamble_symbols ++ data_symbols ++ tail_symbols in
  Ok (all_symbols,
      MkEncoder c fb (MkTx (u64 (frames_transmitted (tx_diag e) + 1))
                           (u64 (symbols_transmitted (tx_diag e) + zlen all_symbols)))).

(** ** Decoder *)

Fixpoint extract_from_loop (bits : list Z) (offset : Z) (count : nat) (value : Z) : Z :=
  match count with
  | O => value
  | S count' =>
      let value := match bits !! Z.to_nat offset with
                   | Some b => u32 (Z.lor (Z.shiftl value 1) (Z.land b 1))
                   | None => value
                   end in
      extract_from_loop bits (offset + 1) count' value
  end.

Definition extract_bits_from_vec (bits : list Z) (offset : Z) (count : nat) : Z := extract_from_loop bits offset count 0.

(** The counters of [RxDiagnostics]; its last offsets are in [Codec]. *)
Record RxDiagnostics := MkRx { frames_received : Z; crc_errors : Z; fec_errors_corrected : Z }.

Definition rate_of (v : Z) : option CodeRate :=
  if v =? 0 then Some RATE_1_2 else if v =? 1 then Some RATE_3_4 else None.

(** [try_decode_frame] from the corrected data symbols on. *)
Definition decode_data_symbols (fec : FecDecoder) (diag : RxDiagnostics) (data_symbols : list symbol)
  : outcome (option (list Z) * FecDecoder * RxDiagnostics) :=
  let header_symbols := (HEADER_BITS + 1) / 2 in
  if zlen data_symbols <? header_symbols then Ok (None, fec, diag) else
  let header_bits := demap (take (Z.to_nat header_symbols) data_symbols) in
  let frame_length := u16 (extract_bits_from_vec header_bits 0 16) in
  let fec_enabled_flag := negb (extract_bits_from_vec header_bits 20 1 =? 0) in
  let fec_rate_val := u8 (extract_bits_from_vec header_bits 21 2) in
  match (if fec_enabled_flag
         then (fun rate => coded_length rate (Z.to_nat frame_length) * 8) <$> rate_of fec_rate_val
         else Some (frame_length * 8)) with
  | None => Ok (None, fec, diag)
  | Some payload_bit_count =>
      let total_data_bits := HEADER_BITS + payload_bit_count + CRC_BITS in
      let total_data_symbols := (total_data_bits + 1) / 2 in
      if zlen data_symbols <? total_data_symbols then Ok (None, fec, diag) else
      let bits := demap (take (Z.to_nat total_data_symbols) data_symbols) in
      let bits := if total_data_bits <? zlen bits then take (Z.to_nat total_data_bits) bits else bits in
      frame_opt ← (if fec_enabled_flag then parse_unchecked bits else parse bits);
      match frame_opt with
      | None => Ok (None, fec, diag)
      | Some frame =>
          if fec_enabled (header frame) then
            let '(decoded_payload, fec) := decode fec (payload frame) (Z.to_nat (payload_length (header frame))) in
            let diag := MkRx (frames_received diag) (crc_errors diag) (get_corrected_errors fec) in
            if verify_crc (MkFrame (header frame) decoded_payload (crc frame) (crc_valid frame))
            then Ok (Some decoded_payload, fec, MkRx (u64 (frames_received diag + 1)) (crc_errors diag) (fec_errors_corrected diag))
            else Ok (None, fec, diag)
          else if crc_valid frame then
            Ok (Some (take (Z.to_nat (payload_length (header frame))) (payload frame)), fec,
                MkRx (u64 (frames_received diag + 1)) (crc_errors diag) (fec_errors_corrected diag))
          else Ok (None, fec, diag)
      end
  end.

Definition barker : list Z := [1; 1; 1; 1; 1; 0; 0; 1; 1; 0; 1; 0; 1].

(** The header carries the rate, and the frame's length is computed from it,
    but the payload is decoded at the receiver's configured rate. *)
Example rate_mismatch :
  let e := make_encoder (MkConfig barker true RATE_3_4 0) in
  let received rate := symbols ← fst <$> encode_symbols e [0x41; 0x42; 0x43];
    fst <$> (fst <$> decode_data_symbols (MkDecoder rate 0) (MkRx 0 0 0) (drop 26 symbols)) in
  received RATE_3_4 = Ok (Some [0x41; 0x42; 0x43]) /\ received RATE_1_2 = Ok None.
Proof. vm_compute. split; reflexivity. Qed.

(** ** The mapper *)

Lemma demap_cons sym l : demap (sym :: l) = demap [sym] ++ demap l.
Proof. done. Qed.

Lemma demap_length l : length (demap l) = (2 * length l)%nat.
Proof. induction l as [|sym l IH]; [done|]. rewrite demap_cons, length_app, IH. cbn [length demap fmap list_fmap concat app]. lia. Qed.

Lemma demap_take n l : demap (take n l) = take (2 * n) (demap l).
Proof.
  revert l. induction n as [|n IH]; intros l; [by rewrite Nat.mul_0_r|]. destruct l as [|sym l]; [by rewrite take_nil|].
  replace (2 * S n)%nat with (S (S (2 * n))) by lia. cbn [take]. rewrite demap_cons, IH. done.
Qed.

Lemma map_loop_spec l :
  bits l -> Nat.Even (length l) -> exists symbols, map_loop l = Ok symbols /\ demap symbols = l.
Proof.
  intros Hl (n & Hn). revert l Hl Hn. induction n as [|n IH]; intros l Hl Hn.
  - destruct l; [by exists []|done].
  - destruct l as [|b0 [|b1 l]]; cbn in Hn; [lia|lia|]. apply Forall_cons in Hl as [H0 [H1 Hl]%Forall_cons].
    destruct (IH l Hl ltac:(lia)) as (symbols & E & D). cbn [map_loop]. rewrite E.
    destruct H0 as [-> | ->], H1 as [-> | ->]; eexists; (split; [reflexivity|]); rewrite demap_cons, D; reflexivity.
Qed.

Lemma map_spec l :
  bits l -> exists symbols, map l = Ok (symbols, zlen l mod 2) /\
    demap symbols = l ++ replicate (length l mod 2) 0 /\ zlen symbols = (zlen l + 1) / 2.
Proof.
  intros Hl. unfold map. pose proof (Nat.div_mod_eq (length l) 2) as Hdm.
  pose proof (Nat.mod_upper_bound (length l) 2 ltac:(done)) as Hmu.
  assert (zlen l mod 2 = Z.of_nat (length l mod 2)) as -> by (by rewrite Nat2Z.inj_mod).
  assert (forall symbols pad, demap symbols = l ++ pad -> zlen symbols * 2 = zlen l + zlen pad) as Hlen.
  { intros symbols pad E. apply (f_equal length) in E. rewrite demap_length, length_app in E. lia. }
  destruct (length l mod 2)%nat as [|[|r]]; [| |lia].
  - destruct (map_loop_spec l Hl) as (symbols & E & D); [exists (length l / 2)%nat; lia|]. exists symbols.
    change (Z.of_nat 0 =? 0) with true. cbv iota. rewrite E. cbn [replicate]. rewrite app_nil_r. split_and!; [done|done|]. specialize (Hlen symbols []). rewrite app_nil_r in Hlen. specialize (Hlen D).
    cbn [length] in Hlen. dlia.
  - destruct (map_loop_spec (l ++ [0])) as (symbols & E & D).
    + apply bits_app. split; [done|]. apply Forall_singleton. by left.
    + exists (length l / 2 + 1)%nat. rewrite length_app. cbn [length]. lia.
    + exists symbols. change (Z.of_nat 1 =? 0) with false. cbv iota. rewrite E. split_and!; [done|done|]. specialize (Hlen symbols [0] D). cbn [length] in Hlen. dlia.
Qed.

(** ** Decoding what was sent *)

(** The decoder's own bit extraction agrees with the parser's where that stays
    in the vector. *)
Lemma extract_from_agrees l off n v r : extract_loop l off n v = Ok r -> extract_from_loop l off n v = r.
Proof.
  revert off v. induction n as [|n IH]; intros off v E; cbn [extract_loop extract_from_loop] in *; [by injection E|].
  unfold read in E. case_bool_decide; [|done]. destruct (l !! Z.to_nat off); [|done]. by apply IH.
Qed.

Lemma extract_vec_field data off n v rest :
  cursor data off (msb_bits n v ++ rest) -> (n <= 32)%nat -> 0 <= v < 2 ^ Z.of_nat n ->
  extract_bits_from_vec data off n = v /\ cursor data (off + Z.of_nat n) rest.
Proof.
  intros Hc Hn Hv. destruct (extract_field data off n v rest Hc Hn Hv) as [E Hc'].
  split; [by apply extract_from_agrees|done].
Qed.

Lemma header_fields h rest :
  header_ok h -> let data := header_bits h ++ rest in
  extract_bits_from_vec data 0 16 = payload_length h /\
  negb (extract_bits_from_vec data 20 1 =? 0) = fec_enabled h /\
  extract_bits_from_vec data 21 2 = fec_code_rate h.
Proof.
  intros (H1 & H2 & H3 & H4) data. assert (cursor data 0 data) as C0 by apply cursor_start.
  unfold data at 2, header_bits in C0. rewrite <- !app_assoc in C0.
  destruct (extract_vec_field data 0 16 _ _ C0 ltac:(lia) H1) as [-> C1].
  destruct (extract_vec_field data 16 4 _ _ C1 ltac:(lia) H2) as [_ C2].
  split_and!; [done| |].
  - assert ([flag (fec_enabled h)] = msb_bits 1 (flag (fec_enabled h))) as E by (by destruct (fec_enabled h)).
    rewrite E in C2. destruct (extract_vec_field data 20 1 _ _ C2 ltac:(lia)) as [-> _]; by destruct (fec_enabled h).
  - apply cursor_app in C2. by destruct (extract_vec_field data 21 2 _ _ C2 ltac:(lia) H4) as [-> _].
Qed.

(** The data bits of a burst for a payload, with [coded] received in the place
    of what was sent for the payload. *)
Definition data_bits (h : FrameHeader) (payload coded : list Z) : list Z :=
  frame_bits h coded [] (frame_crc h payload).

Definition sent_payload (c : Config) (payload : list Z) : list Z :=
  if cfg_fec_enabled c then encode (cfg_fec_code_rate c) payload else payload.

Lemma frame_bits_length h p slack c : length (frame_bits h p slack c) = (67 + 8 * length p + length slack)%nat.
Proof. unfold frame_bits. rewrite !length_app, header_bits_length, payload_bits_length, msb_bits_length. lia. Qed.

(** The decoder's result on symbols that demap to a frame. *)
Lemma decode_frame_symbols fec diag rx h coded c rest :
  header_ok h -> bytes coded -> is_u32 c -> demap rx = frame_bits h coded [] c ++ rest ->
  (if fec_enabled h then (fun rate => coded_length rate (Z.to_nat (payload_length h))) <$> rate_of (fec_code_rate h)
   else Some (payload_length h)) = Some (zlen coded) ->
  decode_data_symbols fec diag rx =
    if fec_enabled h then
      let '(p, fec) := decode fec coded (Z.to_nat (payload_length h)) in
      if frame_crc h p =? c
      then Ok (Some p, fec, MkRx (u64 (frames_received diag + 1)) (crc_errors diag) (corrected_errors fec))
      else Ok (None, fec, MkRx (frames_received diag) (crc_errors diag) (corrected_errors fec))
    else if frame_crc h coded =? c
      then Ok (Some coded, fec, MkRx (u64 (frames_received diag + 1)) (crc_errors diag) (fec_errors_corrected diag))
      else Ok (None, fec, diag).
Proof.
  intros Hh Hc Hcrc Hrx Hlen. pose proof (frame_bits_length h coded [] c) as HL. cbn [length] in HL.
  pose proof (f_equal length Hrx) as HR. rewrite demap_length, length_app, HL in HR.
  unfold decode_data_symbols. change ((HEADER_BITS + 1) / 2) with 18.
  destruct (Z.ltb_spec (zlen rx) 18); [lia|]. rewrite demap_take, Hrx. change (2 * Z.to_nat 18)%nat with 36%nat.
  assert (exists rest', take 36 (frame_bits h coded [] c ++ rest) = header_bits h ++ rest') as (rest' & ->).
  { unfold frame_bits. rewrite <- app_assoc, take_app, take_ge by (rewrite header_bits_length; lia). by eexists. }
  destruct (header_fields h rest' Hh) as (-> & -> & ->). pose proof Hh as (H1 & H2 & H3 & H4).
  rewrite u16_small, u8_small by lia.
  assert ((if fec_enabled h then (fun rate => coded_length rate (Z.to_nat (payload_length h)) * 8) <$> rate_of (fec_code_rate h)
           else Some (payload_length h * 8)) = Some (zlen coded * 8)) as ->.
  { destruct (fec_enabled h); [|by injection Hlen as ->]. destruct (rate_of _); [|done]. cbn in *. by injection Hlen as ->. }
  unfold HEADER_BITS, CRC_BITS. set (total := 35 + zlen coded * 8 + 32).
  assert (total = zlen (frame_bits h coded [] c)) as Et by (rewrite HL; unfold total; lia).
  destruct (Z.ltb_spec (zlen rx) ((total + 1) / 2)) as [Hlt|Hge]; [exfalso; unfold total in Hlt; dlia|].
  rewrite demap_take, Hrx.
  set (bits0 := take (2 * Z.to_nat ((total + 1) / 2)) (frame_bits h coded [] c ++ rest)).
  assert ((if total <? zlen bits0 then take (Z.to_nat total) bits0 else bits0) = frame_bits h coded [] c) as ->.
  { assert (Z.to_nat total = length (frame_bits h coded [] c)) as En by lia.
    assert (length (frame_bits h coded [] c) <= 2 * Z.to_nat ((total + 1) / 2))%nat as Hle by (rewrite <- En; dlia).
    assert (bits0 = frame_bits h coded [] c ++ take (2 * Z.to_nat ((total + 1) / 2) - Z.to_nat total) rest) as ->.
    { unfold bits0. by rewrite take_app, take_ge, En by lia. }
    rewrite length_app. destruct (Z.ltb_spec total (Z.of_nat (length (frame_bits h coded [] c) + length (take (2 * Z.to_nat ((total + 1) / 2) - Z.to_nat total) rest)))) as [|Hn].
    - by rewrite En, take_app_length.
    - assert (length (take (2 * Z.to_nat ((total + 1) / 2) - Z.to_nat total) rest) = 0%nat) as E0 by lia.
      apply nil_length_inv in E0. by rewrite E0, app_nil_r. }
  destruct (fec_enabled h) eqn:Ef.
  - rewrite parse_unchecked_frame by (done || cbn; lia). cbn [mbind outcome_bind header payload crc crc_valid]. rewrite Ef.
    destruct (decode fec coded _) as [p fec']. rewrite verify_crc_frame by done. unfold get_corrected_errors.
    by destruct (frame_crc h p =? c).
  - rewrite parse_frame by (done || cbn; lia). destruct (frame_crc h coded =? c); [|done].
    cbn [mbind outcome_bind header payload crc crc_valid]. rewrite Ef. injection Hlen as ->.
    by rewrite Nat2Z.id, firstn_all.
Qed.

(** ** The encoder *)

Definition encoder_ok (e : Encoder) : Prop :=
  0 <= acquisition_symbols (config e) /\
  preamble (frame_builder e) = make_doubled_preamble (cfg_preamble (config e)).

Definition burst_header (e : Encoder) (payload : list Z) : FrameHeader :=
  built_header (frame_builder e) payload 0 (cfg_fec_enabled (config e)) (cfg_fec_code_rate (config e)).

Lemma header_bits_bits h : bits (header_bits h).
Proof.
  unfold header_bits. rewrite !bits_app. split_and!; try apply msb_bits_bits.
  apply Forall_singleton. destruct (fec_enabled h); [by right|by left].
Qed.

Lemma data_bits_bits h payload coded : bits (data_bits h payload coded).
Proof.
  unfold data_bits, frame_bits. rewrite !bits_app. split_and!;
    [apply header_bits_bits|apply payload_bits_bits|constructor|apply msb_bits_bits].
Qed.

Lemma range_prefix {A} (l post : list A) n : n = zlen l -> range (l ++ post) 0 n = Ok l.
Proof. intros ->. by apply (range_app [] l post). Qed.

Lemma range_suffix {A} (pre l : list A) off n : off = zlen pre -> n = zlen l -> range (pre ++ l) off n = Ok l.
Proof. intros -> ->. rewrite <- (app_nil_r l) at 1. by apply range_app. Qed.

Lemma splice_spec c pre h payload :
  zlen pre = 2 * zlen (cfg_preamble c) ->
  splice c (pre ++ data_bits h payload payload) payload = Ok (pre ++ data_bits h payload (sent_payload c payload)).
Proof.
  intros Hpre. unfold splice, sent_payload. destruct (cfg_fec_enabled c); [|done].
  unfold data_bits, frame_bits, HEADER_BITS, CRC_BITS. cbn [app].
  rewrite (app_assoc pre (header_bits h)).
  rewrite range_prefix by (rewrite length_app, header_bits_length; lia). cbn [mbind outcome_bind].
  rewrite (app_assoc (pre ++ header_bits h) (payload_bits payload)), range_suffix.
  - cbn [mbind outcome_bind]. by rewrite <- app_assoc.
  - rewrite !length_app, msb_bits_length. lia.
  - by rewrite msb_bits_length.
Qed.

Lemma preamble_length e : encoder_ok e -> zlen (preamble (frame_builder e)) = 2 * zlen (cfg_preamble (config e)).
Proof. intros (_ & ->). unfold make_doubled_preamble. rewrite length_app. lia. Qed.

(** The burst: acquisition, preamble, data and tail. *)
Lemma encode_symbols_spec e payload :
  encoder_ok e -> zlen payload < 2 ^ 16 ->
  exists acquisition data padding,
    encode_symbols e payload =
      Ok (acquisition ++ bpsk_map_preamble (preamble (frame_builder e)) ++ data ++ replicate TAIL_SYMBOLS (zero, zero),
          MkEncoder (config e) (MkBuilder (preamble (frame_builder e)) ((seq_num (frame_builder e) + 1) mod 4096))
            (MkTx (u64 (frames_transmitted (tx_diag e) + 1))
                  (u64 (symbols_transmitted (tx_diag e) +
                        (acquisition_symbols (config e) + 2 * zlen (cfg_preamble (config e)) + zlen data + 6))))) /\
    zlen acquisition = acquisition_symbols (config e) /\
    demap data = data_bits (burst_header e payload) payload (sent_payload (config e) payload) ++ padding /\ zlen padding <= 1.
Proof.
  intros Hok Hp. unfold encode_symbols. cbv zeta. rewrite build_frame_bits by done. fold (burst_header e payload).
  change (frame_bits (burst_header e payload) payload [] (frame_crc (burst_header e payload) payload))
    with (data_bits (burst_header e payload) payload payload).
  pose proof (preamble_length e Hok) as Hpre. cbv beta iota zeta. rewrite splice_spec by done. cbn [mbind outcome_bind].
  set (data := data_bits (burst_header e payload) payload (sent_payload (config e) payload)).
  rewrite range_prefix by done. cbn [mbind outcome_bind].
  rewrite range_suffix by (rewrite ?length_app; lia). cbn [mbind outcome_bind].
  destruct (map_spec data (data_bits_bits _ _ _)) as (symbols & -> & D & _). cbn [mbind outcome_bind].
  destruct Hok as (Hacq & _). unfold generate_acquisition_symbols.
  destruct (Z.ltb_spec (acquisition_symbols (config e)) 0); [lia|]. cbn [mbind outcome_bind].
  set (acq := (fun i => _) <$> seq 0 _). assert (zlen acq = acquisition_symbols (config e)) as Ha.
  { unfold acq. rewrite length_fmap, length_seq. lia. }
  exists acq, symbols, (replicate (length data mod 2) 0). split_and!; [|done|done|].
  - do 3 f_equal. f_equal. f_equal. rewrite !length_app, length_replicate. unfold bpsk_map_preamble. rewrite length_fmap.
    unfold TAIL_SYMBOLS. lia.
  - rewrite length_replicate. pose proof (Nat.mod_upper_bound (length data) 2 ltac:(done)). lia.
Qed.

(** What may arrive for the payload: the payload itself, or with FEC any bytes
    whose coded bits are within the reach of the code. *)
Definition tolerated (c : Config) (payload coded : list Z) : Prop :=
  if cfg_fec_enabled c then
    let rate := cfg_fec_code_rate c in
    length coded = length (encode rate payload) /\
    hamming (arrived rate coded (length payload)) (coded_bits rate payload) <= errors_corrected rate
  else coded = payload.

(** [C9] A burst reaches the other side. The encoder sends the configured
    number of acquisition symbols, the BPSK preamble, the data symbols and six
    zero symbols; and whatever symbols a receiver with the same code rate
    finds after the preamble, if they demap to the burst's bits, up to the
    errors the code corrects, then it returns the payload and counts a frame
    and the errors. This holds for every payload of at most 65535 bytes. *)
Theorem burst_delivers e fec diag payload :
  encoder_ok e -> bytes payload -> zlen payload < 2 ^ 16 ->
  code_rate fec = cfg_fec_code_rate (config e) ->
  exists acquisition data padding e',
    encode_symbols e payload =
      Ok (acquisition ++ bpsk_map_preamble (preamble (frame_builder e)) ++ data ++ replicate TAIL_SYMBOLS (zero, zero), e') /\
    zlen acquisition = acquisition_symbols (config e) /\
    demap data = data_bits (burst_header e payload) payload (sent_payload (config e) payload) ++ padding /\
    zlen padding <= 1 /\
    forall coded rx rest, bytes coded -> tolerated (config e) payload coded ->
      demap rx = data_bits (burst_header e payload) payload coded ++ rest ->
      exists fec' diag', decode_data_symbols fec diag rx = Ok (Some payload, fec', diag') /\
        frames_received diag' = u64 (frames_received diag + 1) /\
        corrected_errors fec' =
          (if cfg_fec_enabled (config e)
           then u64 (corrected_errors fec + hamming (message_bits coded) (message_bits (sent_payload (config e) payload)))
           else corrected_errors fec).
Proof.
  intros Hok Hby Hp Hrate. destruct (encode_symbols_spec e payload Hok Hp) as (acq & data & pad & -> & Ha & Hd & Hpad).
  exists acq, data, pad. eexists. split_and!; [done..|]. intros coded rx rest Hcb Htol Hrx.
  assert (header_ok (burst_header e payload)) as Hh by (by apply built_header_ok).
  unfold data_bits in Hrx. rewrite (decode_frame_symbols fec diag rx _ coded (frame_crc (burst_header e payload) payload) rest Hh Hcb (compute_crc32_range _) Hrx).
  - unfold tolerated, sent_payload in *. change (fec_enabled (burst_header e payload)) with (cfg_fec_enabled (config e)).
    change (payload_length (burst_header e payload)) with (zlen payload). rewrite Nat2Z.id.
    destruct (cfg_fec_enabled (config e)).
    + destruct Htol as [Hl He]. rewrite <- Hrate in Hl, He |- *. rewrite decode_corrects by (done || unfold INF_METRIC; lia).
      cbv beta iota. rewrite Z.eqb_refl. eexists _, _. split_and!; [done..|reflexivity].
    + rewrite Htol, Z.eqb_refl. eexists _, _. split_and!; [done..|reflexivity].
  - unfold tolerated in Htol. change (fec_enabled (burst_header e payload)) with (cfg_fec_enabled (config e)).
    change (payload_length (burst_header e payload)) with (zlen payload). rewrite Nat2Z.id.
    destruct (cfg_fec_enabled (config e)); [|by rewrite Htol]. destruct Htol as [-> _]. rewrite <- coded_length_encode.
    change (fec_code_rate (burst_header e payload)) with (rate_value (cfg_fec_code_rate (config e))).
    by destruct (cfg_fec_code_rate (config e)).
Qed.

Lemma burst_delivers_witness :
  let e := make_encoder (MkConfig barker true RATE_1_2 2) in
  let fec := MkDecoder RATE_1_2 0 in
  let diag := MkRx 0 0 0 in
  let payload := [0x41] in
  exists acquisition data padding e',
    encode_symbols e payload =
      Ok (acquisition ++ bpsk_map_preamble (preamble (frame_builder e)) ++ data ++ replicate TAIL_SYMBOLS (zero, zero), e') /\
    zlen acquisition = acquisition_symbols (config e) /\
    demap data = data_bits (burst_header e payload) payload (sent_payload (config e) payload) ++ padding /\
    zlen padding <= 1 /\
    forall coded rx rest, bytes coded -> tolerated (config e) payload coded ->
      demap rx = data_bits (burst_header e payload) payload coded ++ rest ->
      exists fec' diag', decode_data_symbols fec diag rx = Ok (Some payload, fec', diag') /\
        frames_received diag' = u64 (frames_received diag + 1) /\
        corrected_errors fec' =
          (if cfg_fec_enabled (config e)
           then u64 (corrected_errors fec + hamming (message_bits coded) (message_bits (sent_payload (config e) payload)))
           else corrected_errors fec).
Proof.
  refine (burst_delivers (make_encoder (MkConfig barker true RATE_1_2 2)) (MkDecoder RATE_1_2 0) (MkRx 0 0 0) [0x41] _ _ _ _).
  - split; [cbn; lia|reflexivity].
  - exact (bool_decide_unpack (bytes [0x41]) (dec := Forall_dec _ _) I).
  - reflexivity.
  - reflexivity.
Defined.
End Modem.
