(* ===== verification/Spsc.v ===== *)
(** * The single-producer single-consumer ring (include/qpsk_b200/spsc_queue.h)

    [Spsc] holds the operations as functions and their refinement of a bounded
    FIFO; [Interleaving] the two threads' atomic actions as a step relation,
    with the invariant that makes every interleaving of one producer and one
    consumer a FIFO without a data race. *)
From S2P Require Import Prelude.

Module Spsc.

Section queue.
(** The element type, and the value a moved-from element is left with. *)
Context {T : Type} (moved_from : T).

Record SpscQueue := MkQueue { capacity : nat; buffer : list T; head : nat; tail : nat }.

(** [buffer_(capacity)]: default elements. *)
Definition make_queue (default : T) (cap : nat) : SpscQueue := MkQueue cap (replicate cap default) 0 0.

(** [(i + 1) % capacity_]; division by zero is undefined. *)
Definition next_index (q : SpscQueue) (i : nat) : outcome nat :=
  if bool_decide (capacity q = 0%nat) then Err Undefined else Ok (S i mod capacity q)%nat.

(** [buffer_[i] = std::move(item)] *)
Definition put (q : SpscQueue) (i : nat) (item : T) : outcome SpscQueue :=
  if bool_decide (i < length (buffer q))%nat then Ok (MkQueue (capacity q) (<[i := item]> (buffer q)) (head q) (tail q))
  else Err Undefined.

(** [item = std::move(buffer_[i])] *)
Definition take_out (q : SpscQueue) (i : nat) : outcome (T * SpscQueue) :=
  item ← read (buffer q) (Z.of_nat i);
  q ← put q i moved_from;
  Ok (item, q).

Definition store_head (q : SpscQueue) (h : nat) : SpscQueue := MkQueue (capacity q) (buffer q) h (tail q).
Definition store_tail (q : SpscQueue) (t : nat) : SpscQueue := MkQueue (capacity q) (buffer q) (head q) t.

Definition try_push (q : SpscQueue) (item : T) : outcome (bool * SpscQueue) :=
  let cur_head := head q in
  next_head ← next_index q cur_head;
  if bool_decide (next_head = tail q) then Ok (false, q)
  else
    q ← put q cur_head item;
    Ok (true, store_head q next_head).

Definition try_pop (q : SpscQueue) : outcome (option T * SpscQueue) :=
  let cur_tail := tail q in
  if bool_decide (cur_tail = head q) then Ok (None, q)
  else
    '(item, q) ← take_out q cur_tail;
    next_tail ← next_index q cur_tail;
    Ok (Some item, store_tail q next_tail).

Definition size (q : SpscQueue) : nat :=
  if bool_decide (tail q <= head q)%nat then (head q - tail q)%nat else (capacity q - tail q + head q)%nat.

Definition empty (q : SpscQueue) : bool := bool_decide (head q = tail q).

Definition full (q : SpscQueue) : outcome bool :=
  next_head ← next_index q (head q);
  Ok (bool_decide (next_head = tail q)).

(** [wake q] is the queue when the wait ends, by a notification or by the
    timeout: what the producer has done meanwhile. *)
Definition pop_wait (wake : SpscQueue -> SpscQueue) (q : SpscQueue) : outcome (option T * SpscQueue) :=
  '(item, q) ← try_pop q;
  match item with
  | Some _ => Ok (item, q)
  | None =>
      let q := wake q in
      if bool_decide (head q = tail q) then Ok (None, q) else try_pop q
  end.

(** ** Ring arithmetic *)

Lemma ring_inj c t i j : (i < c)%nat -> (j < c)%nat -> ((t + i) mod c = (t + j) mod c)%nat -> i = j.
Proof.
  intros Hi Hj E. pose proof (Nat.div_mod_eq (t + i) c). pose proof (Nat.div_mod_eq (t + j) c). rewrite E in *.
  assert ((t + i) / c = (t + j) / c)%nat; [|lia].
  destruct (Nat.lt_trichotomy ((t + i) / c) ((t + j) / c)) as [|[|]]; [nia|done|nia].
Qed.

Lemma ring_next c a : (S (a mod c) mod c = S a mod c)%nat.
Proof. by rewrite <- (Nat.add_1_r (a mod c)), <- (Nat.add_1_r a), Nat.Div0.add_mod_idemp_l. Qed.

Lemma ring_from c t i : ((t mod c + i) mod c = (t + i) mod c)%nat.
Proof. by rewrite Nat.Div0.add_mod_idemp_l. Qed.

Lemma ring_small c t : (t < c)%nat -> ((t + 0) mod c)%nat = t.
Proof. intros. rewrite Nat.add_0_r. by apply Nat.mod_small. Qed.

Lemma ring_full c t n : (t < c)%nat -> (n < c)%nat -> (S ((t + n) mod c) mod c = t)%nat <-> S n = c.
Proof.
  intros Ht Hn. rewrite ring_next, <- Nat.add_succ_r. split.
  - intros E. destruct (decide (S n = c)) as [|Hne]; [done|].
    pose proof (ring_inj c t (S n) 0 ltac:(lia) ltac:(lia)) as H. rewrite ring_small, E in H by done. specialize (H eq_refl). lia.
  - intros ->. replace (t + c)%nat with (t + 1 * c)%nat by lia. by rewrite Nat.Div0.mod_add, Nat.mod_small.
Qed.

Lemma ring_ne c t i j : (i < c)%nat -> (j < c)%nat -> i <> j -> ((t + i) mod c <> (t + j) mod c)%nat.
Proof. intros Hi Hj Hne E. by apply Hne, (ring_inj c t). Qed.

(** ** The FIFO the ring stands for *)

(** [items], oldest first, are in the slots from [tail] to [head]. *)
Definition represents (q : SpscQueue) (items : list T) : Prop :=
  length (buffer q) = capacity q /\ (length items < capacity q)%nat /\ (tail q < capacity q)%nat /\
  head q = ((tail q + length items) mod capacity q)%nat /\
  forall i x, items !! i = Some x -> buffer q !! ((tail q + i) mod capacity q)%nat = Some x.

(** The abstract bounded FIFO of [cap - 1] places. *)
Definition fifo_push (cap : nat) (items : list T) (x : T) : bool * list T :=
  if bool_decide (S (length items) < cap)%nat then (true, items ++ [x]) else (false, items).

Definition fifo_pop (items : list T) : option T * list T :=
  match items with [] => (None, []) | x :: items' => (Some x, items') end.

Lemma represents_new d cap : (0 < cap)%nat -> represents (make_queue d cap) [].
Proof.
  intros Hc. split_and!; cbn; [by rewrite length_replicate|done|done| |done]. by rewrite Nat.Div0.mod_0_l.
Qed.

Lemma next_ok q i : (0 < capacity q)%nat -> next_index q i = Ok (S i mod capacity q)%nat.
Proof. intros. unfold next_index. by rewrite bool_decide_eq_false_2 by lia. Qed.

Lemma next_is_tail q items :
  represents q items -> (S (head q) mod capacity q = tail q)%nat <-> S (length items) = capacity q.
Proof.
  intros (Hb & Hn & Ht & -> & _). by apply ring_full.
Qed.

Lemma represents_push q items x :
  represents q items -> (S (length items) < capacity q)%nat ->
  represents (store_head (MkQueue (capacity q) (<[head q := x]> (buffer q)) (head q) (tail q)) (S (head q) mod capacity q)) (items ++ [x]).
Proof.
  intros (Hb & Hn & Ht & Hh & Hi) Hroom. split_and!; cbn [store_head capacity buffer head tail].
  - by rewrite length_insert.
  - rewrite length_app. cbn. lia.
  - done.
  - rewrite Hh, ring_next, length_app. f_equal. cbn. lia.
  - intros i y Hy. apply lookup_snoc_Some in Hy as [[Hl Hy]|[-> <-]].
    + rewrite list_lookup_insert_ne; [by apply Hi|]. rewrite Hh. intros E. apply ring_inj in E; lia.
    + rewrite <- Hh, list_lookup_insert_eq; [done|]. rewrite Hb, Hh. apply Nat.mod_upper_bound. lia.
Qed.

Lemma represents_pop q x items v :
  represents q (x :: items) ->
  represents (store_tail (MkQueue (capacity q) (<[tail q := v]> (buffer q)) (head q) (tail q)) (S (tail q) mod capacity q)) items.
Proof.
  intros (Hb & Hn & Ht & Hh & Hi). cbn [length] in *. split_and!; cbn [store_tail capacity buffer head tail].
  - by rewrite length_insert.
  - lia.
  - apply Nat.mod_upper_bound. lia.
  - rewrite Hh, ring_from. f_equal. lia.
  - intros i y Hy. rewrite ring_from. replace (S (tail q) + i)%nat with (tail q + S i)%nat by lia.
    rewrite list_lookup_insert_ne; [by apply Hi|]. intros E. rewrite <- (ring_small (capacity q) (tail q)) in E at 1 by done.
    apply ring_inj in E; [lia|lia|]. apply lookup_lt_Some in Hy. lia.
Qed.

Lemma slot_put q i x : (i < length (buffer q))%nat -> put q i x = Ok (MkQueue (capacity q) (<[i := x]> (buffer q)) (head q) (tail q)).
Proof. intros. unfold put. by rewrite bool_decide_eq_true_2. Qed.

Lemma try_push_spec q items x :
  represents q items ->
  exists q', try_push q x = Ok (fst (fifo_push (capacity q) items x), q') /\
    capacity q' = capacity q /\ represents q' (snd (fifo_push (capacity q) items x)).
Proof.
  intros Hr. pose proof Hr as (Hb & Hn & Ht & Hh & Hi). unfold try_push, fifo_push. rewrite next_ok by lia.
  cbn [mbind outcome_bind]. pose proof (next_is_tail q items Hr) as Hnt. case_bool_decide as E1; case_bool_decide as E2.
  - apply Hnt in E1. lia.
  - by exists q.
  - assert (head q < length (buffer q))%nat as Hlt by (rewrite Hb, Hh; apply Nat.mod_upper_bound; lia).
    rewrite slot_put by done. eexists. split_and!; [done|done|by apply represents_push].
  - exfalso. apply E1, Hnt. lia.
Qed.

Lemma empty_iff q items : represents q items -> (head q = tail q <-> items = []).
Proof.
  intros (Hb & Hn & Ht & -> & Hi). split; [|intros ->; by apply ring_small]. intros E.
  rewrite <- (ring_small (capacity q) (tail q)) in E at 2 by done. apply ring_inj in E; [by apply nil_length_inv|lia|lia].
Qed.

Lemma try_pop_spec q items :
  represents q items ->
  exists q', try_pop q = Ok (fst (fifo_pop items), q') /\ capacity q' = capacity q /\ represents q' (snd (fifo_pop items)).
Proof.
  intros Hr. pose proof Hr as (Hb & Hn & Ht & Hh & Hi). unfold try_pop. case_bool_decide as E.
  - symmetry in E. apply (empty_iff q items Hr) in E as ->. by exists q.
  - destruct items as [|x items]; [exfalso; apply E; symmetry; by apply (empty_iff q [])|].
    assert (buffer q !! tail q = Some x) as Hx by (rewrite <- (ring_small (capacity q) (tail q)) by done; by apply Hi).
    unfold take_out, read. rewrite bool_decide_eq_true_2, Nat2Z.id, Hx by lia. cbn [mbind outcome_bind].
    rewrite slot_put by lia. cbn [mbind outcome_bind]. rewrite next_ok by (cbn; lia). cbn [mbind outcome_bind fifo_pop fst snd].
    eexists. split_and!; [done|done|]. by apply (represents_pop q x).
Qed.

Lemma size_spec q items : represents q items -> size q = length items.
Proof.
  intros (Hb & Hn & Ht & Hh & Hi). unfold size. pose proof (Nat.div_mod_eq (tail q + length items) (capacity q)) as E.
  rewrite <- Hh in E. assert (head q < capacity q)%nat by (rewrite Hh; apply Nat.mod_upper_bound; lia).
  destruct (Nat.lt_trichotomy ((tail q + length items) / capacity q) 1) as [H1|[H1|H1]]; [| |nia].
  - assert ((tail q + length items) / capacity q = 0)%nat as E0 by lia. rewrite E0 in E. case_bool_decide; lia.
  - rewrite H1 in E. case_bool_decide; lia.
Qed.

(** [C26] The ring refines the bounded FIFO. From the empty queue of any
    positive capacity on, every operation, on every branch, does to the queue
    what the FIFO of [capacity - 1] places does, returns what it returns, and
    never touches memory outside the ring; [size], [empty] and [full] report
    on it exactly. *)
Theorem spsc_refines_fifo d cap :
  (0 < cap)%nat ->
  represents (make_queue d cap) [] /\
  forall q items, represents q items -> capacity q = cap ->
    (forall x, exists q', try_push q x = Ok (fst (fifo_push cap items x), q') /\
       capacity q' = cap /\ represents q' (snd (fifo_push cap items x))) /\
    (exists q', try_pop q = Ok (fst (fifo_pop items), q') /\ capacity q' = cap /\ represents q' (snd (fifo_pop items))) /\
    size q = length items /\ empty q = bool_decide (items = []) /\ full q = Ok (bool_decide (S (length items) = cap)).
Proof.
  intros Hc. split; [by apply represents_new|]. intros q items Hr <-. split_and!.
  - intros x. by apply try_push_spec.
  - by apply try_pop_spec.
  - by apply size_spec.
  - unfold empty. apply bool_decide_ext. by apply empty_iff.
  - unfold full. rewrite next_ok by (destruct Hr; lia). cbn [mbind outcome_bind]. f_equal. apply bool_decide_ext.
    by apply next_is_tail.
Qed.
End queue.
Arguments SpscQueue T : clear implicits.

Lemma spsc_refines_fifo_witness :
  represents (make_queue 0 4) [] /\
  forall q items, represents q items -> capacity q = 4%nat ->
    (forall x, exists q', try_push q x = Ok (fst (fifo_push 4 items x), q') /\
       capacity q' = 4%nat /\ represents q' (snd (fifo_push 4 items x))) /\
    (exists q', try_pop 0 q = Ok (fst (fifo_pop items), q') /\ capacity q' = 4%nat /\ represents q' (snd (fifo_pop items))) /\
    size q = length items /\ empty q = bool_decide (items = []) /\ full q = Ok (bool_decide (S (length items) = 4%nat)).
Proof. apply (spsc_refines_fifo 0 0 4). lia. Defined.
End Spsc.

(** ** Two threads

    The producer runs [try_push] and the consumer [try_pop], one atomic action
    at a time: the loads of the two indices, the access to the slot, and the
    store that publishes it. The acquire and release orderings of the source
    make its executions with one producer and one consumer those of this
    relation, provided that no slot is accessed by both at once, which is part
    of the theorem. *)
Module Interleaving.
Import Spsc.

Section threads.
Context {T : Type} (moved_from : T).

Inductive producer :=
  | PIdle
  | PLoaded (item : T) (cur_head : nat)     (* head_ loaded *)
  | PRoom (item : T) (cur_head : nat)       (* tail_ loaded, not full *)
  | PWritten (item : T) (cur_head : nat).   (* the slot written *)

Inductive consumer :=
  | CIdle
  | CLoaded (cur_tail : nat)                (* tail_ loaded *)
  | CReady (cur_tail : nat)                 (* head_ loaded, not empty *)
  | CTaken (item : T) (cur_tail : nat).     (* the slot moved from *)

(** [sent] and [got] are the items of the pushes and pops that returned
    true. *)
Record state := MkState {
  queue : SpscQueue T; prod : producer; cons : consumer; sent : list T; got : list T }.

Inductive step : state -> state -> Prop :=
  | push_begin q c s g item :
      step (MkState q PIdle c s g) (MkState q (PLoaded item (head q)) c s g)
  | push_full q c s g item h :
      next_index q h = Ok (tail q) ->
      step (MkState q (PLoaded item h) c s g) (MkState q PIdle c s g)
  | push_room q c s g item h n :
      next_index q h = Ok n -> n <> tail q ->
      step (MkState q (PLoaded item h) c s g) (MkState q (PRoom item h) c s g)
  | push_write q q' c s g item h :
      put q h item = Ok q' ->
      step (MkState q (PRoom item h) c s g) (MkState q' (PWritten item h) c s g)
  | push_publish q c s g item h n :
      next_index q h = Ok n ->
      step (MkState q (PWritten item h) c s g) (MkState (store_head q n) PIdle c (s ++ [item]) g)
  | pop_begin q p s g :
      step (MkState q p CIdle s g) (MkState q p (CLoaded (tail q)) s g)
  | pop_empty q p s g t :
      t = head q -> step (MkState q p (CLoaded t) s g) (MkState q p CIdle s g)
  | pop_ready q p s g t :
      t <> head q -> step (MkState q p (CLoaded t) s g) (MkState q p (CReady t) s g)
  | pop_take q q' p s g t item :
      take_out moved_from q t = Ok (item, q') ->
      step (MkState q p (CReady t) s g) (MkState q' p (CTaken item t) s g)
  | pop_release q p s g t item n :
      next_index q t = Ok n ->
      step (MkState q p (CTaken item t) s g) (MkState (store_tail q n) p CIdle s (g ++ [item])).

Inductive reachable (d : T) (cap : nat) : state -> Prop :=
  | reach_start : reachable d cap (MkState (make_queue d cap) PIdle CIdle [] [])
  | reach_step s s' : reachable d cap s -> step s s' -> reachable d cap s'.

(** The shared part: [items] between the indices, the first of which the
    consumer may hold already. *)
Definition ring (q : SpscQueue T) (c : consumer) (items : list T) : Prop :=
  length (buffer q) = capacity q /\ (length items < capacity q)%nat /\ (tail q < capacity q)%nat /\
  head q = ((tail q + length items) mod capacity q)%nat /\
  (forall i x, items !! i = Some x -> (forall v t, c = CTaken v t -> i <> 0%nat) ->
     buffer q !! ((tail q + i) mod capacity q)%nat = Some x) /\
  match c with
  | CIdle => True
  | CLoaded t => t = tail q
  | CReady t => t = tail q /\ items <> []
  | CTaken v t => t = tail q /\ hd_error items = Some v
  end.

Definition producer_ok (q : SpscQueue T) (items : list T) (p : producer) : Prop :=
  match p with
  | PIdle => True
  | PLoaded _ h => h = head q
  | PRoom _ h => h = head q /\ (S (length items) < capacity q)%nat
  | PWritten x h => h = head q /\ (S (length items) < capacity q)%nat /\ buffer q !! h = Some x
  end.

Definition inv (cap : nat) (s : state) : Prop :=
  exists items, capacity (queue s) = cap /\ sent s = got s ++ items /\ ring (queue s) (cons s) items /\
    producer_ok (queue s) items (prod s).

Lemma next_some (q : SpscQueue T) i n : next_index q i = Ok n -> (0 < capacity q)%nat /\ n = (S i mod capacity q)%nat.
Proof. unfold next_index. case_bool_decide; [done|]. intros [= <-]. split; [lia|done]. Qed.

Lemma put_some (q q' : SpscQueue T) i x :
  put q i x = Ok q' -> (i < length (buffer q))%nat /\ q' = MkQueue (capacity q) (<[i := x]> (buffer q)) (head q) (tail q).
Proof. unfold put. case_bool_decide; [|done]. by intros [= <-]. Qed.

(** Steps of the consumer's program counter outside the ring. *)
Lemma ring_counter q (c c' : consumer) items :
  ring q c items -> (forall v t, c <> CTaken v t) ->
  match c' with CIdle => True | CLoaded t => t = tail q | CReady t => t = tail q /\ items <> [] | CTaken _ _ => False end ->
  ring q c' items.
Proof.
  intros (Hb & Hn & Ht & Hh & Hi & _) Hc Hc'. split_and!; try done; [|by destruct c'].
  intros i x Hx _. apply Hi; [done|]. intros v t E. by destruct (Hc v t).
Qed.

Lemma ring_slot q c items (i : nat) v :
  ring q c items -> (length items <= i < capacity q)%nat ->
  ring (MkQueue (capacity q) (<[((tail q + i) mod capacity q)%nat := v]> (buffer q)) (head q) (tail q)) c items.
Proof.
  intros (Hb & Hn & Ht & Hh & Hi & Hc) Hlt. split_and!; cbn [capacity buffer head tail]; try done; [by rewrite length_insert|].
  intros j x Hx Hj. apply lookup_lt_Some in Hx as Hl. rewrite list_lookup_insert_ne; [by apply Hi|]. apply ring_ne; lia.
Qed.

Lemma ring_publish q c items x :
  ring q c items -> (S (length items) < capacity q)%nat -> buffer q !! head q = Some x ->
  ring (store_head q (S (head q) mod capacity q)) c (items ++ [x]).
Proof.
  intros (Hb & Hn & Ht & Hh & Hi & Hc) Hlt Hx. split_and!; cbn [store_head capacity buffer head tail].
  - done.
  - rewrite length_app. cbn. lia.
  - done.
  - rewrite Hh, ring_next, length_app. f_equal. cbn. lia.
  - intros i y Hy Hne. apply lookup_snoc_Some in Hy as [[Hl Hy]|[-> <-]]; [by apply Hi|by rewrite <- Hh].
  - destruct c; [done|done| |]; destruct Hc as [-> Hc]; (split; [done|]); by destruct items.
Qed.

Lemma ring_take q t items :
  ring q (CReady t) items ->
  exists x, take_out moved_from q t =
      Ok (x, MkQueue (capacity q) (<[t := moved_from]> (buffer q)) (head q) (tail q)) /\ hd_error items = Some x /\
    ring (MkQueue (capacity q) (<[t := moved_from]> (buffer q)) (head q) (tail q)) (CTaken x t) items.
Proof.
  intros (Hb & Hn & Ht & Hh & Hi & -> & Hne). destruct items as [|x items]; [done|]. exists x.
  assert (buffer q !! tail q = Some x) as Hx.
  { rewrite <- (ring_small (capacity q) (tail q)) by done. by apply Hi. }
  unfold take_out, read. rewrite bool_decide_eq_true_2, Nat2Z.id, Hx by lia. cbn [mbind outcome_bind].
  rewrite slot_put by lia. split_and!; [done|done|]. unfold ring. cbn [capacity buffer head tail].
  split_and!; try done; [by rewrite length_insert|].
  intros i y Hy Hi0. specialize (Hi0 x (tail q) eq_refl). apply lookup_lt_Some in Hy as Hl.
  rewrite list_lookup_insert_ne; [by apply Hi|]. rewrite <- (ring_small (capacity q) (tail q)) at 1 by done. apply ring_ne; lia.
Qed.

Lemma ring_release q t x items :
  ring q (CTaken x t) items ->
  exists items', items = x :: items' /\ ring (store_tail q (S t mod capacity q)) CIdle items'.
Proof.
  intros (Hb & Hn & Ht & Hh & Hi & -> & Hx). destruct items as [|x' items]; [done|]. injection Hx as ->.
  exists items. cbn [length] in *. split; [done|]. split_and!; cbn [store_tail capacity buffer head tail]; try done.
  - lia.
  - apply Nat.mod_upper_bound. lia.
  - rewrite Hh, ring_from. f_equal. lia.
  - intros i y Hy _. rewrite ring_from. replace (S (tail q) + i)%nat with (tail q + S i)%nat by lia. by apply Hi.
Qed.

Lemma step_inv cap s s' : inv cap s -> step s s' -> inv cap s'.
Proof.
  intros (items & Hcap & Hsent & Hr & Hp) Hstep. pose proof Hr as (Hb & Hn & Ht & Hh & _ & _).
  destruct Hstep; cbn [queue prod cons sent got] in *.
  - by exists items.
  - by exists items.
  - exists items. cbn. cbn in Hp. split_and!; try done. destruct (next_some _ _ _ H) as [_ ->]. subst h.
    assert (S (length items) <> capacity q); [|lia]. intros E. apply H0. rewrite Hh. by apply ring_full.
  - destruct (put_some _ _ _ _ H) as [Hlt ->]. destruct Hp as [-> Hroom]. exists items. cbn. split_and!; try done.
    + rewrite Hh at 1. apply ring_slot; [done|lia].
    + by apply list_lookup_insert_eq.
  - destruct (next_some _ _ _ H) as [_ ->]. destruct Hp as (-> & Hroom & Hx). exists (items ++ [item]). cbn.
    rewrite Hsent, app_assoc. split_and!; try done. by apply ring_publish.
  - exists items. cbn. split_and!; try done. by apply (ring_counter q CIdle).
  - exists items. cbn. split_and!; try done. by apply (ring_counter q (CLoaded t)).
  - exists items. cbn. split_and!; try done. apply (ring_counter q (CLoaded t)); [done|done|].
    destruct Hr as (_ & _ & _ & _ & _ & ->). split; [done|]. intros ->. apply H. rewrite Hh. symmetry. by apply ring_small.
  - destruct (ring_take _ _ _ Hr) as (x & E & Hx & Hr'). rewrite E in H. injection H as -> <-. exists items. cbn.
    split_and!; try done. destruct p; try done. destruct Hp as (-> & Hroom & Hs). split_and!; try done. cbn.
    rewrite list_lookup_insert_ne; [done|]. destruct Hr as (_ & _ & _ & _ & _ & -> & Hne). rewrite Hh.
    rewrite <- (ring_small (capacity q) (tail q)) at 1 by done. apply ring_ne; [lia|lia|]. destruct items; [done|]. cbn. lia.
  - destruct (next_some _ _ _ H) as [_ ->]. destruct (ring_release _ _ _ _ Hr) as (items' & -> & Hr'). exists items'. cbn.
    rewrite Hsent, <- app_assoc. split_and!; try done. destruct p; try done; cbn in *; [destruct Hp|destruct Hp as (? & ? & ?)]; split_and!; (done || lia).
Qed.

Lemma reachable_inv d cap s : (0 < cap)%nat -> reachable d cap s -> inv cap s.
Proof.
  intros Hc. induction 1 as [|s s' _ IH Hs]; [|by eapply step_inv]. exists []. unfold ring. cbn. split_and!; try done.
  - by rewrite length_replicate.
  - by rewrite Nat.Div0.mod_0_l.
Qed.

(** [C19] Every interleaving of one producer and one consumer is a FIFO. At
    every moment the items received are a prefix, in order, of the items sent,
    with fewer than [capacity] between them; the producer's write and the
    consumer's read are never on the same slot and never outside the ring; and
    what the consumer takes is the next item sent. *)
Theorem spsc_interleavings d cap s :
  (0 < cap)%nat -> reachable d cap s ->
  (exists items, sent s = got s ++ items /\ (length items < cap)%nat) /\
  (forall item h, prod s = PRoom item h -> is_ok (put (queue s) h item)) /\
  (forall t, cons s = CReady t -> exists x q', take_out moved_from (queue s) t = Ok (x, q') /\ sent s !! length (got s) = Some x) /\
  (forall item h t, prod s = PRoom item h -> cons s = CReady t -> h <> t).
Proof.
  intros Hc Hreach. destruct (reachable_inv d cap s Hc Hreach) as (items & Hcap & Hsent & Hr & Hp).
  destruct s as [q p c snt g]. cbn [queue prod cons sent got] in *. pose proof Hr as (Hb & Hn & Ht & Hh & _ & Hcons). split_and!.
  - exists items. split; [done|]. by rewrite <- Hcap.
  - intros item h ->. destruct Hp as [-> _]. rewrite slot_put; [by eexists|]. rewrite Hb, Hh. apply Nat.mod_upper_bound. lia.
  - intros t ->. destruct (ring_take _ _ _ Hr) as (x & E & Hx & _). exists x. eexists. split; [exact E|].
    rewrite Hsent, lookup_app_r, Nat.sub_diag by lia. by destruct items.
  - intros item h t -> ->. destruct Hp as [-> Hroom]. destruct Hcons as [-> Hne]. rewrite Hh.
    rewrite <- (ring_small (capacity q) (tail q)) at 2 by done. apply ring_ne; [lia|lia|]. destruct items; [done|]. cbn. lia.
Qed.
End threads.

(** A run in which a push and a pop overlap: the consumer takes the first item
    while the second is being written. *)
Lemma spsc_interleavings_witness :
  let q := MkQueue 3 [0; 8; 0] 1 0 in
  let s := MkState q (PWritten 8 1) (CTaken 7 0) [7] [] in
  (exists items, sent s = got s ++ items /\ (length items < 3)%nat) /\
  (forall item h, prod s = PRoom item h -> is_ok (put (queue s) h item)) /\
  (forall t, cons s = CReady t -> exists x q', take_out 0 (queue s) t = Ok (x, q') /\ sent s !! length (got s) = Some x) /\
  (forall item h t, prod s = PRoom item h -> cons s = CReady t -> h <> t).
Proof.
  apply (spsc_interleavings 0 0 3); [lia|].
  eapply reach_step; [|by apply (pop_take 0 (MkQueue 3 [7; 8; 0] 1 0))].
  eapply reach_step; [|by apply push_write with (q := MkQueue 3 [7; 0; 0] 1 0)].
  eapply reach_step; [|by apply pop_ready].
  eapply reach_step; [|by apply push_room with (n := 2%nat)].
  eapply reach_step; [|apply pop_begin with (q := MkQueue 3 [7; 0; 0] 1 0)].
  eapply reach_step; [|apply push_begin with (q := MkQueue 3 [7; 0; 0] 1 0)].
  eapply reach_step; [|by apply push_publish with (q := MkQueue 3 [7; 0; 0] 0 0) (h := 0%nat) (n := 1%nat) (s := [])].
  eapply reach_step; [|by apply push_write with (q := MkQueue 3 [0; 0; 0] 0 0)].
  eapply reach_step; [|by apply push_room with (n := 1%nat)].
  eapply reach_step; [|apply push_begin with (q := MkQueue 3 [0; 0; 0] 0 0)].
  exact (reach_start 0 0 3).
Defined.
End Interleaving.
