(* ===== verification/Framing.v ===== *)
(** * Length-prefixed messages over TCP (src/ltp_cla/convergence_layer_adapter.cpp,
    src/ltp_cla/tcp_ingress.cpp)

    A message is sent as its length in four bytes, big-endian, and its bytes.
    [Framing] holds the two helpers and the reading loop shared by the adapter
    and the ingress, the adapter's writing loop with its reconnections, its
    back-off, and the ingress server's table of clients. What the system calls
    return is an argument of these definitions. *)
From S2P Require Import Prelude.

Module Framing.

Definition frame_message (data : list Z) : list Z :=
  let len := u32 (zlen data) in
  [u8 (Z.land (Z.shiftr len 24) 0xFF); u8 (Z.land (Z.shiftr len 16) 0xFF); u8 (Z.land (Z.shiftr len 8) 0xFF);
   u8 (Z.land len 0xFF)] ++ data.

(** The message and what is left of the buffer. The sum [4 + len] is computed
    in 32 bits; the iterators are not. *)
Definition extract_framed_message (buffer : list Z) : outcome (option (list Z * list Z)) :=
  if zlen buffer <? 4 then Ok None else
  b0 ← read buffer 0; b1 ← read buffer 1; b2 ← read buffer 2; b3 ← read buffer 3;
  let len := Z.lor (Z.lor (Z.lor (u32 (Z.shiftl b0 24)) (u32 (Z.shiftl b1 16))) (u32 (Z.shiftl b2 8))) b3 in
  if zlen buffer <? u32 (4 + len) then Ok None else
  out ← range buffer 4 len;
  rest ← range buffer (4 + len) (zlen buffer - (4 + len));
  Ok (Some (out, rest)).

(** [while (extract_framed_message(buffer, msg)) callback(msg)]: the messages
    and the buffer left. *)
Fixpoint drain (fuel : nat) (buffer : list Z) : outcome (list (list Z) * list Z) :=
  match fuel with
  | O => Err Diverges
  | S fuel' =>
      m ← extract_framed_message buffer;
      match m with
      | None => Ok ([], buffer)
      | Some (msg, buffer) =>
          '(msgs, buffer) ← drain fuel' buffer;
          Ok (msg :: msgs, buffer)
      end
  end.

(** What a read of [chunk] does: every round but the last takes four bytes at
    least off the buffer, which bounds the loop. *)
Definition read_chunk (buffer chunk : list Z) : outcome (list (list Z) * list Z) :=
  let buffer := buffer ++ chunk in drain (S (length buffer)) buffer.

Fixpoint read_chunks (buffer : list Z) (chunks : list (list Z)) : outcome (list (list Z) * list Z) :=
  match chunks with
  | [] => Ok ([], buffer)
  | chunk :: chunks' =>
      '(msgs, buffer) ← read_chunk buffer chunk;
      '(msgs', buffer) ← read_chunks buffer chunks';
      Ok (msgs ++ msgs', buffer)
  end.

(** A peer that sends the length 2^32 - 1 makes the sum wrap to three, and the
    copy run past the buffer. *)
Example length_wraps : read_chunk [] [0xFF; 0xFF; 0xFF; 0xFF] = Err Undefined.
Proof. vm_compute. reflexivity. Qed.

(** ** Connecting again *)

(** [reconnect_loop] for the results of its connection attempts: the delays it
    sleeps and whether it ended with a connection. *)
Fixpoint reconnect_loop (max_reconnect_delay_ms delay_ms : Z) (attempts : list bool) : list Z * bool :=
  match attempts with
  | [] => ([], false)
  | true :: _ => ([], true)
  | false :: attempts' =>
      let '(delays, connected) :=
        reconnect_loop max_reconnect_delay_ms (Z.min (u32 (delay_ms * 2)) max_reconnect_delay_ms) attempts' in
      (delay_ms :: delays, connected)
  end.

(** The doubling wraps at 2^32 milliseconds: from then on the delay is zero. *)
Example backoff_wraps : reconnect_loop (2 ^ 32 - 1) (2 ^ 31) [false; false; false] = ([2 ^ 31; 0; 0], false).
Proof. vm_compute. reflexivity. Qed.

(** ** The sending thread *)

(** What was written to the connections so far: those lost, and the current
    one. *)
Definition written_to : Type := list (list Z) * list Z.

(** The loop around [write], for the values the calls return, at most what
    they were given; after a failure the frame starts again on a new
    connection. The last component tells whether the frame is out. *)
Fixpoint write_loop (framed : list Z) (written : nat) (conns : written_to) (script : list Z)
  : written_to * list Z * bool :=
  if (length framed <=? written)%nat then (conns, script, true) else
  match script with
  | [] => (conns, [], false)
  | n :: script' =>
      let '(lost, conn) := conns in
      if n <=? 0 then write_loop framed 0 (lost ++ [conn], []) script'
      else
        let n := Nat.min (Z.to_nat n) (length framed - written) in
        write_loop framed (written + n) (lost, conn ++ take n (drop written framed)) script'
  end.

(** [run_tx] over the segments of its queue. *)
Fixpoint run_tx (segments : list (list Z)) (conns : written_to) (script : list Z) : written_to * list Z * bool :=
  match segments with
  | [] => (conns, script, true)
  | segment :: segments' =>
      let '(conns, script, ok) := write_loop (frame_message segment) 0 conns script in
      if ok then run_tx segments' conns script else (conns, script, false)
  end.

(** ** The receiving thread *)

(** What a round of [run_rx] meets: a timeout or an interrupted [poll]; any
    other failure of [poll]; an error or hang-up; a [read] with its result.
    After a loss come the attempts to connect again, which end without a
    connection when the program shuts down. *)
Inductive cla_rx_event :=
  | RxIdle
  | RxPollError
  | RxLost (attempts : list bool)
  | RxRead (n : Z) (read_buf : list Z) (attempts : list bool).

(** The messages passed on, the buffer, and whether the thread goes on. *)
Definition run_rx_round (max_delay initial_delay : Z) (buffer : list Z) (e : cla_rx_event) : outcome (list (list Z) * list Z * bool) :=
  match e with
  | RxIdle => Ok ([], buffer, true)
  | RxPollError => Ok ([], buffer, false)
  | RxLost attempts => Ok ([], [], snd (reconnect_loop max_delay initial_delay attempts))
  | RxRead n read_buf attempts =>
      if n <=? 0 then Ok ([], [], snd (reconnect_loop max_delay initial_delay attempts))
      else '(msgs, buffer) ← read_chunk buffer (take (Z.to_nat n) read_buf); Ok (msgs, buffer, true)
  end.

Fixpoint run_rx (max_delay initial_delay : Z) (buffer : list Z) (events : list cla_rx_event) : outcome (list (list Z) * list Z * bool) :=
  match events with
  | [] => Ok ([], buffer, true)
  | e :: events' =>
      '(msgs, buffer, go) ← run_rx_round max_delay initial_delay buffer e;
      if go : bool then
        '(msgs', buffer, go) ← run_rx max_delay initial_delay buffer events';
        Ok (msgs ++ msgs', buffer, go)
      else Ok (msgs, buffer, false)
  end.

(** ** The ingress server *)

Record TcpIngress := MkIngress { client_fds : list Z; buffers : gmap Z (list Z) }.

(** What [poll] reports on one descriptor: a connection accepted, an error or
    hang-up, or a [read] with its result. *)
Inductive ingress_event :=
  | Accepted (client_fd : Z)
  | Disconnected (fd : Z)
  | Readable (fd : Z) (n : Z) (read_buf : list Z).

Definition remove_client (s : TcpIngress) (fd : Z) : TcpIngress :=
  MkIngress (filter (fun f => f <> fd) (client_fds s)) (delete fd (buffers s)).

(** The messages passed to [on_data_], with the client they came from. *)
Definition handle_event (s : TcpIngress) (e : ingress_event) : outcome (list (Z * list Z) * TcpIngress) :=
  match e with
  | Accepted fd =>
      if 0 <=? fd then Ok ([], MkIngress (client_fds s ++ [fd]) (<[fd := []]> (buffers s))) else Ok ([], s)
  | Disconnected fd => Ok ([], remove_client s fd)
  | Readable fd n read_buf =>
      if n <=? 0 then Ok ([], remove_client s fd)
      else
        '(msgs, buf) ← read_chunk (default [] (buffers s !! fd)) (take (Z.to_nat n) read_buf);
        Ok (pair fd <$> (msgs : list (list Z)), MkIngress (client_fds s) (<[fd := buf]> (buffers s)))
  end.

Fixpoint run_ingress (s : TcpIngress) (events : list ingress_event) : outcome (list (Z * list Z) * TcpIngress) :=
  match events with
  | [] => Ok ([], s)
  | e :: events' =>
      '(msgs, s) ← handle_event s e;
      '(msgs', s) ← run_ingress s events';
      Ok (msgs ++ msgs', s)
  end.

(** ** One message *)

(** A message whose framed length fits the 32-bit sum. *)
Definition sendable (data : list Z) : Prop := zlen data < 2 ^ 32 - 4.

Lemma frame_length data : zlen (frame_message data) = 4 + zlen data.
Proof. unfold frame_message. rewrite length_app. cbn [length]. lia. Qed.

Definition frames (msgs : list (list Z)) : list Z := concat (frame_message <$> msgs).

Lemma big_endian n :
  0 <= n < 2 ^ 32 ->
  Z.lor (Z.lor (Z.lor (u32 (Z.shiftl (u8 (Z.land (Z.shiftr n 24) 0xFF)) 24)) (u32 (Z.shiftl (u8 (Z.land (Z.shiftr n 16) 0xFF)) 16)))
           (u32 (Z.shiftl (u8 (Z.land (Z.shiftr n 8) 0xFF)) 8))) (u8 (Z.land n 0xFF)) = n.
Proof.
  intros Hn. rewrite !land_0xFF, !Z.shiftr_div_pow2 by lia.
  assert (forall x, u8 (x mod 256) = x mod 256) as E8 by (intros x; apply u8_small; dlia). rewrite !E8.
  set (b3 := n / 2 ^ 24 mod 256). set (b2 := n / 2 ^ 16 mod 256). set (b1 := n / 2 ^ 8 mod 256). set (b0 := n mod 256).
  assert (0 <= b3 < 256 /\ 0 <= b2 < 256 /\ 0 <= b1 < 256 /\ 0 <= b0 < 256) as (H3 & H2 & H1 & H0) by (unfold b0, b1, b2, b3; dlia).
  assert (n = b3 * 2 ^ 24 + b2 * 2 ^ 16 + b1 * 2 ^ 8 + b0) as En by (unfold b0, b1, b2, b3; dlia).
  rewrite !u32_small by (rewrite Z.shiftl_mul_pow2 by lia; lia).
  assert (forall a b k, 0 <= k -> 0 <= b < 2 ^ k -> Z.lor (Z.shiftl a k) b = a * 2 ^ k + b) as Hl by (intros; by apply lor_disjoint).
  assert (Z.shiftl b3 24 = Z.shiftl (Z.shiftl (Z.shiftl b3 8) 8) 8) as -> by (by rewrite !Z.shiftl_shiftl by lia).
  assert (Z.shiftl b2 16 = Z.shiftl (Z.shiftl b2 8) 8) as -> by (by rewrite Z.shiftl_shiftl by lia).
  rewrite <- !Z.shiftl_lor, (Hl b3 b2 8), (Hl (b3 * 2 ^ 8 + b2) b1 8), (Hl ((b3 * 2 ^ 8 + b2) * 2 ^ 8 + b1) b0 8) by lia. lia.
Qed.

Lemma read_four (b0 b1 b2 b3 : Z) l :
  let buffer := b0 :: b1 :: b2 :: b3 :: l in
  read buffer 0 = Ok b0 /\ read buffer 1 = Ok b1 /\ read buffer 2 = Ok b2 /\ read buffer 3 = Ok b3.
Proof. done. Qed.

Lemma extract_frame data rest : sendable data -> extract_framed_message (frame_message data ++ rest) = Ok (Some (data, rest)).
Proof.
  unfold sendable. intros Hs. pose proof (frame_length data) as Hl. pose proof (big_endian (zlen data) ltac:(lia)) as Hbe.
  unfold extract_framed_message. rewrite length_app, Nat2Z.inj_add, Hl.
  destruct (Z.ltb_spec (4 + zlen data + zlen rest) 4); [lia|]. unfold frame_message. rewrite (u32_small (zlen data)) by lia.
  cbn [app]. match goal with |- context [read (?a :: ?b :: ?c :: ?d :: ?l) 0] => destruct (read_four a b c d l) as (-> & -> & -> & ->) end.
  cbn [mbind outcome_bind]. rewrite Hbe, u32_small by lia.
  destruct (Z.ltb_spec (4 + zlen data + zlen rest) (4 + zlen data)); [lia|].
  match goal with |- context [range (?a :: ?b :: ?c :: ?d :: ?l) _ _] =>
    change (a :: b :: c :: d :: l) with ([a; b; c; d] ++ l) end.
  rewrite (range_app _ data rest 4) by (cbn [length]; lia). cbn [mbind outcome_bind]. rewrite app_assoc.
  match goal with |- context [range (?p ++ rest) _ _] => rewrite <- (app_nil_r rest) at 1; rewrite (range_app p rest []) end;
    [done|rewrite length_app; cbn [length]; lia|lia].
Qed.

(** A proper prefix of a frame is left for the next read. *)
Lemma extract_incomplete data buffer rest :
  sendable data -> buffer ++ rest = frame_message data -> zlen buffer < 4 + zlen data ->
  extract_framed_message buffer = Ok None.
Proof.
  unfold sendable. intros Hs E Hl. unfold extract_framed_message. destruct (Z.ltb_spec (zlen buffer) 4) as [|Hge]; [done|].
  do 4 (destruct buffer as [|? buffer]; [cbn in Hge; lia|]). unfold frame_message in E. rewrite u32_small in E by lia.
  cbn [app] in E. injection E as -> -> -> -> _.
  match goal with |- context [read (?a :: ?b :: ?c :: ?d :: ?l) 0] => destruct (read_four a b c d l) as (-> & -> & -> & ->) end.
  cbn [mbind outcome_bind]. rewrite big_endian, u32_small by lia. by rewrite (proj2 (Z.ltb_lt _ _)).
Qed.

(** ** Streams *)

(** The whole frames at the front of the stream are taken off the buffer. *)
Lemma drain_stream fuel msgs buffer rest :
  Forall sendable msgs -> buffer ++ rest = frames msgs -> (length buffer < fuel)%nat ->
  exists done todo left, msgs = done ++ todo /\ drain fuel buffer = Ok (done, left) /\ left ++ rest = frames todo /\
    match todo with [] => True | m :: _ => zlen left < 4 + zlen m end.
Proof.
  intros Hm. revert fuel buffer. induction Hm as [|m msgs Hs Hm IH]; intros fuel buffer E Hf; (destruct fuel as [|fuel]; [lia|]).
  - apply app_eq_nil in E as [-> ->]. by exists [], [], [].
  - unfold frames in E. cbn [fmap list_fmap concat] in E. fold (frames msgs) in E.
    destruct (Z.lt_ge_cases (zlen buffer) (4 + zlen m)) as [Hlt|Hge].
    + exists [], (m :: msgs), buffer. split_and!; [done| |done|done]. cbn [drain].
      rewrite (extract_incomplete m buffer (drop (length buffer) (frame_message m))); [done|done| |done].
      assert (buffer = take (length buffer) (frame_message m)) as Eb.
      { apply (f_equal (take (length buffer))) in E. rewrite take_app_length in E.
        rewrite E at 1. apply take_app_le. pose proof (frame_length m). lia. }
      rewrite Eb at 1. by rewrite take_drop.
    + assert (exists buffer', buffer = frame_message m ++ buffer' /\ buffer' ++ rest = frames msgs) as (buffer' & -> & E').
      { exists (drop (length (frame_message m)) buffer). pose proof (frame_length m) as Hl.
        assert (take (length (frame_message m)) buffer = frame_message m) as Et.
        { apply (f_equal (take (length (frame_message m)))) in E. rewrite take_app_length, take_app_le in E by lia. done. }
        rewrite <- Et at 1. split; [by rewrite take_drop|].
        apply (f_equal (drop (length (frame_message m)))) in E. rewrite drop_app_length, drop_app_le in E by lia. done. }
      rewrite length_app in Hf. pose proof (frame_length m) as Hl. destruct (IH fuel buffer' E' ltac:(lia)) as (dn & todo & left & -> & Hd & Hleft & Ht).
      exists (m :: dn), todo, left. split_and!; [done| |done|done]. cbn [drain]. rewrite extract_frame by done.
      cbn [mbind outcome_bind]. by rewrite Hd.
Qed.

Lemma read_chunks_stream chunks msgs buffer rest :
  Forall sendable msgs -> buffer ++ concat chunks ++ rest = frames msgs ->
  exists done todo left, msgs = done ++ todo /\ read_chunks buffer chunks = Ok (done, left) /\ left ++ rest = frames todo /\
    (chunks <> [] -> match todo with [] => True | m :: _ => zlen left < 4 + zlen m end).
Proof.
  revert msgs buffer. induction chunks as [|chunk chunks IH]; intros msgs buffer Hm E.
  - by exists [], msgs, buffer.
  - cbn [concat] in E. rewrite <- app_assoc, app_assoc in E.
    destruct (drain_stream (S (length (buffer ++ chunk))) msgs (buffer ++ chunk) (concat chunks ++ rest) Hm E ltac:(lia))
      as (dn & todo & left & -> & Hd & Hl & Ht).
    apply Forall_app in Hm as [_ Hm]. destruct (IH todo left Hm Hl) as (dn' & todo' & left' & -> & Hd' & Hl' & Ht').
    exists (dn ++ dn'), todo', left'. split_and!; [by rewrite app_assoc| |done|].
    + cbn [read_chunks]. unfold read_chunk. rewrite Hd. cbn [mbind outcome_bind]. by rewrite Hd'.
    + intros _. destruct chunks as [|c chunks]; [|by apply Ht']. cbn in Hd'. injection Hd' as <- <-. done.
Qed.

(** [C25] However a stream of framed messages is cut into reads, the reader
    delivers exactly the messages, in order, each as soon as its last byte is
    in, and ends with an empty buffer; it never reads outside the buffer. *)
Theorem stream_reassembled msgs chunks :
  Forall sendable msgs -> concat chunks = frames msgs -> read_chunks [] chunks = Ok (msgs, []).
Proof.
  intros Hm E. destruct (read_chunks_stream chunks msgs [] [] Hm) as (dn & todo & left & -> & Hd & Hl & Ht).
  { by rewrite app_nil_l, app_nil_r. }
  rewrite app_nil_r in Hl. assert (todo = []) as ->; [|by rewrite app_nil_r, Hd, Hl].
  destruct todo as [|m todo]; [done|exfalso]. unfold frames in Hl. cbn [fmap list_fmap concat] in Hl.
  apply (f_equal (fun l => zlen l)) in Hl. rewrite length_app, Nat2Z.inj_add, frame_length in Hl.
  destruct chunks as [|c chunks]; [|specialize (Ht ltac:(done)); lia]. cbn in E. symmetry in E. unfold frames in E.
  rewrite fmap_app, concat_app in E. apply app_eq_nil in E as [_ E]. done.
Qed.

Lemma stream_reassembled_witness :
  read_chunks [] [[0; 0]; [0; 2; 65]; [66; 0; 0; 0; 0; 0; 0]; [0; 1; 67]] = Ok ([[65; 66]; []; [67]], []).
Proof.
  apply (stream_reassembled [[65; 66]; []; [67]]); [|reflexivity].
  unfold sendable. repeat (apply Forall_cons_2; [cbn [length]; lia|]). apply Forall_nil_2.
Defined.

(** ** Back-off *)

Lemma backoff_delays maxd initial attempts :
  0 < initial <= maxd -> maxd < 2 ^ 31 -> Forall (fun connected => connected = false) attempts ->
  fst (reconnect_loop maxd initial attempts) = (fun k => Z.min (initial * 2 ^ Z.of_nat k) maxd) <$> seq 0 (length attempts).
Proof.
  intros Hi Hm Ha. revert initial Hi. induction Ha as [|a attempts -> Ha IH]; intros initial Hi; [done|].
  cbn [reconnect_loop length seq fmap list_fmap]. rewrite (u32_small (initial * 2)) by lia.
  specialize (IH (Z.min (initial * 2) maxd) ltac:(lia)). destruct (reconnect_loop maxd _ attempts) as [ds c]. cbn [fst] in *.
  rewrite IH, <- fmap_S_seq. f_equal; [rewrite Z.mul_1_r; lia|]. rewrite <- list_fmap_compose. apply list_fmap_ext.
  intros _ k _. cbn. rewrite Nat2Z.inj_succ, Z.pow_succ_r by lia. pose proof (Z.pow_pos_nonneg 2 (Z.of_nat k)). nia.
Qed.

(** ** What the sender writes *)

Lemma take_more {A} (l : list A) i n : take i l ++ take n (drop i l) = take (i + n) l.
Proof. by rewrite take_take_drop. Qed.

(** A proper beginning. *)
Definition begins (partial whole : list Z) : Prop := exists rest, partial ++ rest = whole /\ rest <> [].

Lemma write_loop_spec framed script : forall written lost base conns' script',
  (written <= length framed)%nat ->
  write_loop framed written (lost, base ++ take written framed) script = (conns', script', true) ->
  conns' = (lost, base ++ framed) \/
  exists p ps, conns' = (lost ++ (base ++ p) :: ps, framed) /\ begins p framed /\ Forall (fun q => begins q framed) ps.
Proof.
  induction script as [|n script IH]; intros written lost base conns' script' Hw E; cbn [write_loop] in E.
  - destruct (Nat.leb_spec (length framed) written); [|done]. injection E as <- <-. left. by rewrite take_ge.
  - destruct (Nat.leb_spec (length framed) written); [injection E as <- <-; left; by rewrite take_ge|].
    assert (begins (take written framed) framed) as Hp.
    { exists (drop written framed). split; [by rewrite take_drop|]. intros Hd. apply (f_equal length) in Hd. rewrite length_drop in Hd. cbn in Hd. lia. }
    destruct (n <=? 0).
    + change [] with ([] ++ take 0 framed) in E at 2. apply IH in E; [|lia].
      right. destruct E as [->|(p & ps & -> & Hp' & Hps)]; [by exists (take written framed), []|].
      exists (take written framed), (p :: ps). split_and!; [by rewrite <- app_assoc|done|by constructor].
    + rewrite <- app_assoc, take_more in E. apply IH in E; [done|lia].
Qed.

(** Whole frames on every connection, and a part of the next on a lost one. *)
Definition lost_connection (segments : list (list Z)) (bytes : list Z) (group : list (list Z)) : Prop :=
  exists partial m, bytes = frames group ++ partial /\ begins partial (frame_message m) /\ m ∈ segments.

Lemma frames_snoc group m : frames (group ++ [m]) = frames group ++ frame_message m.
Proof. unfold frames. rewrite fmap_app, concat_app. cbn [fmap list_fmap concat]. by rewrite app_nil_r. Qed.

Lemma empty_groups all m ps :
  m ∈ all -> Forall (fun q => begins q (frame_message m)) ps ->
  Forall2 (lost_connection all) ps (replicate (length ps) []) /\ concat (replicate (length ps) (A := list (list Z)) []) = [].
Proof.
  intros Hm Hps. induction Hps as [|q ps Hq Hps [IH1 IH2]]; [split; constructor|]. cbn [length replicate concat]. split; [|done].
  constructor; [by exists q, m|done].
Qed.

Lemma run_tx_spec all segments : forall lost groups group script conns' script',
  segments ⊆ all -> Forall2 (lost_connection all) lost groups ->
  run_tx segments (lost, frames group) script = (conns', script', true) ->
  exists groups' group', concat groups' ++ group' = concat groups ++ group ++ segments /\
    Forall2 (lost_connection all) (fst conns') groups' /\ snd conns' = frames group'.
Proof.
  induction segments as [|m segments IH]; intros lost groups group script conns' script' Hsub Hl E; cbn [run_tx] in E.
  - injection E as <- <-. exists groups, group. by rewrite app_nil_r.
  - assert (m ∈ all) as Hm by (apply Hsub; by left). assert (segments ⊆ all) as Hsub' by (intros x Hx; apply Hsub; by right).
    destruct (write_loop _ _ _ _) as [[c1 s1] ok] eqn:Ew. destruct ok; [|done].
    rewrite <- (app_nil_r (frames group)) in Ew. change [] with (take 0 (frame_message m)) in Ew.
    apply write_loop_spec in Ew; [|lia]. destruct Ew as [->|(p & ps & -> & Hp & Hps)].
    + rewrite <- frames_snoc in E. apply (IH lost groups _ s1) in E; [|done|done].
      destruct E as (gs & g & Hc & Hf & Hs). exists gs, g. split_and!; [|done|done]. by rewrite Hc, <- app_assoc.
    + destruct (empty_groups all m ps Hm Hps) as [Hf0 Hc0].
      assert (frame_message m = frames [m]) as Ef by (by rewrite <- (app_nil_l [m]), frames_snoc).
      rewrite Ef in E. apply (IH _ (groups ++ group :: replicate (length ps) []) _ s1) in E; [|done|].
      * destruct E as (gs & g & Hc & Hf & Hs). exists gs, g. split_and!; [|done|done].
        rewrite Hc, concat_app. cbn [concat]. by rewrite Hc0, app_nil_r, <- app_assoc.
      * apply Forall2_app; [done|]. constructor; [by exists p, m|done].
Qed.

(** The sender keeps every connection aligned. When its queue is written
    out, over any pattern of partial writes, failures and reconnections, each
    segment was written whole on exactly one connection, in order; a lost
    connection carries whole frames and then a beginning of one, and the
    current one whole frames only. *)
Theorem sender_aligned segments script conns script' :
  run_tx segments ([], []) script = (conns, script', true) ->
  exists groups group, concat groups ++ group = segments /\
    Forall2 (lost_connection segments) (fst conns) groups /\ snd conns = frames group.
Proof. intros E. by apply (run_tx_spec segments segments [] [] [] script conns script' (reflexivity _)) in E; [|constructor]. Qed.

Lemma sender_aligned_witness :
  exists groups group, concat groups ++ group = [[65]; [66; 67]] /\
    Forall2 (lost_connection [[65]; [66; 67]]) [[0; 0; 0; 1; 65; 0; 0]] groups /\ [0; 0; 0; 2; 66; 67] = frames group.
Proof.
  apply (sender_aligned [[65]; [66; 67]] [3; 9; 2; -1; 4; 100] ([[0; 0; 0; 1; 65; 0; 0]], [0; 0; 0; 2; 66; 67]) []).
  vm_compute. reflexivity.
Defined.

(** ** The two ends of the adapter *)

(** What a connection brings: whole messages and a proper beginning of one. *)
Definition carried (bytes : list Z) (group : list (list Z)) : Prop :=
  Forall sendable group /\ exists partial m, bytes = frames group ++ partial /\ begins partial (frame_message m) /\ sendable m.

(** The bytes still to be read on the current connection, and those of the
    later ones. *)
Fixpoint streams (events : list cla_rx_event) : list Z * list (list Z) :=
  match events with
  | [] | RxPollError :: _ => ([], [])
  | RxIdle :: events' => streams events'
  | RxLost _ :: events' => let '(b, bs) := streams events' in ([], b :: bs)
  | RxRead n read_buf _ :: events' =>
      let '(b, bs) := streams events' in
      if n <=? 0 then ([], b :: bs) else (take (Z.to_nat n) read_buf ++ b, bs)
  end.

(** No poll fails, and every loss is followed by a new connection. *)
Definition stays (e : cla_rx_event) : Prop :=
  match e with
  | RxIdle => True
  | RxPollError => False
  | RxLost attempts => true ∈ attempts
  | RxRead n _ attempts => 0 < n \/ true ∈ attempts
  end.

Lemma reconnects maxd attempts : forall delay, true ∈ attempts -> snd (reconnect_loop maxd delay attempts) = true.
Proof.
  induction attempts as [|[] attempts IH]; intros delay Ha; [by apply not_elem_of_nil in Ha|done|].
  apply elem_of_cons in Ha as [|Ha]; [done|]. cbn [reconnect_loop]. specialize (IH (Z.min (u32 (delay * 2)) maxd) Ha).
  by destruct (reconnect_loop maxd _ attempts).
Qed.

(** What is left in the buffer is shorter than the next message. *)
Definition waits (left : list Z) (todo : list (list Z)) : Prop := match todo with [] => True | m :: _ => zlen left < 4 + zlen m end.

Lemma carried_done left todo : carried left todo -> waits left todo -> todo = [].
Proof.
  intros (_ & partial & m & -> & _) Hw. destruct todo as [|x todo]; [done|exfalso]. cbn [waits] in Hw. unfold frames in Hw.
  cbn [fmap list_fmap concat] in Hw. rewrite !length_app, !Nat2Z.inj_add, frame_length in Hw. lia.
Qed.

Lemma carried_read left chunk future todo :
  carried ((left ++ chunk) ++ future) todo ->
  exists dn todo' left', read_chunk left chunk = Ok (dn, left') /\ todo = dn ++ todo' /\ carried (left' ++ future) todo' /\ waits left' todo'.
Proof.
  intros (Hs & partial & m & E & (r & Er & Hr) & Hm).
  assert ((left ++ chunk) ++ (future ++ r) = frames (todo ++ [m])) as Ef by (rewrite frames_snoc, <- Er, !app_assoc, E; by rewrite <- !app_assoc).
  destruct (drain_stream (S (length (left ++ chunk))) (todo ++ [m]) (left ++ chunk) (future ++ r)) as (dn & rest & left' & Eall & Hd & Hl & Hw);
    [by apply Forall_app_2; [|apply Forall_singleton]|done|lia|].
  assert (rest <> []) as Hne.
  { intros ->. apply app_eq_nil in Hl as [_ Hl]. apply app_eq_nil in Hl as [_ Hl]. done. }
  destruct (exists_last Hne) as (todo' & m' & ->). rewrite app_assoc in Eall. apply app_inj_tail in Eall as [-> <-].
  exists dn, todo', left'. unfold read_chunk. split_and!; [exact Hd|done| |].
  - apply Forall_app in Hs as [_ Hs]. split; [done|]. exists partial, m. split_and!; [|by exists r|done].
    rewrite frames_snoc, <- Er, app_assoc in Hl. rewrite app_assoc in Hl. by apply app_inv_tail in Hl.
  - by destruct todo'.
Qed.

Lemma run_rx_streams maxd delay events : forall left todo groups,
  Forall stays events -> carried (left ++ fst (streams events)) todo -> waits left todo -> Forall2 carried (snd (streams events)) groups ->
  exists buf, run_rx maxd delay left events = Ok (todo ++ concat groups, buf, true).
Proof.
  assert (forall attempts events b bs left todo groups,
    (forall left todo groups, carried (left ++ b) todo -> waits left todo -> Forall2 carried bs groups ->
       exists buf, run_rx maxd delay left events = Ok (todo ++ concat groups, buf, true)) ->
    true ∈ attempts -> carried (left ++ []) todo -> waits left todo -> Forall2 carried (b :: bs) groups ->
    exists buf, ('(msgs, buffer, go) ← Ok ([], [], snd (reconnect_loop maxd delay attempts));
      if go : bool then '(msgs', buffer, go) ← run_rx maxd delay buffer events; Ok (msgs ++ msgs', buffer, go) else Ok (msgs, buffer, false)) =
      Ok (todo ++ concat groups, buf, true)) as Hlost.
  { intros attempts events' b bs left todo groups IH Ha Hc Hw Hg. rewrite app_nil_r in Hc. rewrite (carried_done left todo Hc Hw).
    apply Forall2_cons_inv_l in Hg as (g & gs & Hg & Hgs & ->). rewrite (reconnects _ _ _ Ha). cbn [mbind outcome_bind].
    destruct (IH [] g gs Hg) as [buf ->]; [destruct g; cbn; lia|done|]. by exists buf. }
  induction events as [|e events IH]; intros left todo groups He Hc Hw Hg; cbn [run_rx streams] in *.
  - rewrite app_nil_r in Hc. rewrite (carried_done left todo Hc Hw). apply Forall2_nil_inv_l in Hg as ->. by exists left.
  - apply Forall_cons in He as [Hs He]. specialize (fun l t g => IH l t g He). destruct (streams events) as [b bs] eqn:Es. cbn [fst snd] in *.
    destruct e as [| |attempts|n read_buf attempts]; cbn [stays run_rx_round] in *; [|done| |].
    + cbn [mbind outcome_bind]. destruct (IH left todo groups Hc Hw Hg) as [buf ->]. by exists buf.
    + by apply (Hlost attempts events b bs left).
    + destruct (Z.leb_spec n 0) as [Hn|Hn]; cbn [fst snd] in *.
      * destruct Hs as [|Ha]; [lia|]. by apply (Hlost attempts events b bs left).
      * rewrite app_assoc in Hc. destruct (carried_read _ _ _ _ Hc) as (dn & todo' & left' & -> & -> & Hc' & Hw'). cbn [mbind outcome_bind].
        destruct (IH left' todo' groups Hc' Hw' Hg) as [buf ->]. exists buf. by rewrite <- app_assoc.
Qed.

Lemma carried_prefix part future : forall group,
  carried (part ++ future) group -> exists group', group' `prefix_of` group /\ carried part group'.
Proof.
  intros group (Hs & partial & m & E & (r & Er & Hr) & Hm). revert part E. induction Hs as [|g group Hg Hs IH]; intros part E.
  - exists []. split; [done|]. split; [done|]. exists part, m. split_and!; [done| |done]. exists (future ++ r).
    cbn in E. rewrite app_assoc, E. split; [done|]. intros [_ H0]%app_eq_nil. done.
  - change (frames (g :: group)) with (frame_message g ++ frames group) in E. rewrite <- app_assoc in E.
    apply app_eq_inv in E as [(k & -> & E)|(k & Ek & E)].
    + destruct (IH k (eq_sym E)) as (group' & Hpre & (Hs' & p' & m' & -> & Hb & Hm')). exists (g :: group').
      split; [by apply prefix_cons|]. split; [by constructor|]. exists p', m'. split_and!; [by rewrite app_assoc|done|done].
    + destruct (decide (k = [])) as [->|Hk].
      * rewrite app_nil_r in Ek. exists [g]. split; [apply prefix_cons, prefix_nil|]. split; [by apply Forall_singleton|].
        exists [], m. split_and!; [by rewrite <- Ek; unfold frames; cbn; rewrite !app_nil_r|by exists (frame_message m)|done].
      * exists []. split; [apply prefix_nil|]. split; [done|]. exists part, g. split_and!; [done|by exists k|done].
Qed.

Lemma run_rx_carried maxd delay events groups :
  Forall stays events -> Forall2 carried (fst (streams events) :: snd (streams events)) groups ->
  exists buf, run_rx maxd delay [] events = Ok (concat groups, buf, true).
Proof.
  intros He Hg. apply Forall2_cons_inv_l in Hg as (g & gs & Hg & Hgs & ->). apply (run_rx_streams _ _ _ [] g gs); [done|done| |done].
  destruct g; cbn; lia.
Qed.

(** What the sender writes is carried by its connections. *)
Lemma run_tx_carried segments script conns script' :
  Forall sendable segments -> run_tx segments ([], []) script = (conns, script', true) ->
  exists groups, concat groups = segments /\ Forall2 carried (fst conns ++ [snd conns]) groups.
Proof.
  intros Hs E. apply (run_tx_spec segments segments [] [] []) in E as (gs & g & Hc & Hf & Eg); [|done|constructor]. cbn [concat app] in Hc.
  exists (gs ++ [g]). rewrite concat_app. cbn [concat]. rewrite app_nil_r. split; [done|]. rewrite <- Hc in Hs.
  apply Forall_app in Hs as [Hgs Hg]. rewrite Eg. apply Forall2_app; [|repeat constructor].
  - assert (Forall sendable segments) as Hall by (rewrite <- Hc; by apply Forall_app). clear Hc.
    induction Hf as [|bytes group l gs (partial & m & -> & Hb & Hm) Hf IH]; [constructor|]. cbn [concat] in Hgs. apply Forall_app in Hgs as [H1 H2].
    constructor; [|by apply IH]. split; [done|]. exists partial, m. split_and!; [done..|]. by apply (proj1 (Forall_forall _ _) Hall).
  - done.
  - exists [], []. split_and!; [by rewrite app_nil_r|by exists (frame_message [])|done].
Qed.

Lemma carried_prefixes written received groups :
  Forall2 prefix received written -> Forall2 carried written groups ->
  exists groups', Forall2 prefix groups' groups /\ Forall2 carried received groups'.
Proof.
  intros Hp. revert groups. induction Hp as [|part whole received written [future ->] Hp IH]; intros groups Hc.
  - apply Forall2_nil_inv_l in Hc as ->. by exists [].
  - apply Forall2_cons_inv_l in Hc as (g & gs & Hg & Hgs & ->). destruct (IH gs Hgs) as (gs' & H1 & H2).
    destruct (carried_prefix _ _ _ Hg) as (g' & H3 & H4). exists (g' :: gs'). by split; constructor.
Qed.

Lemma concat_prefixes {A} (l1 l2 : list (list A)) : Forall2 prefix l1 l2 -> concat l1 `sublist_of` concat l2.
Proof.
  induction 1 as [|x y l1 l2 [z ->] _ IH]; [done|]. cbn [concat]. rewrite <- app_assoc. apply sublist_app; [done|].
  by apply sublist_inserts_l.
Qed.

(** [C15] The two ends of the adapter agree. Let the sender write out its
    queue, over any partial writes, failures and reconnections, and let the
    reader get, on the same connections, what was written or any beginning of
    it, cut into any reads. Then every message the reader passes on is a
    segment of the queue, each at most once and in the queue's order; and if
    all that was written arrives, these are all the segments. *)
Theorem adapters_agree segments script conns script' maxd delay events :
  Forall sendable segments -> run_tx segments ([], []) script = (conns, script', true) ->
  Forall stays events -> Forall2 prefix (fst (streams events) :: snd (streams events)) (fst conns ++ [snd conns]) ->
  exists msgs buf, run_rx maxd delay [] events = Ok (msgs, buf, true) /\ msgs `sublist_of` segments /\
    (fst (streams events) :: snd (streams events) = fst conns ++ [snd conns] -> msgs = segments).
Proof.
  intros Hs E He Hp. destruct (run_tx_carried _ _ _ _ Hs E) as (groups & <- & Hc).
  destruct (carried_prefixes _ _ _ Hp Hc) as (groups' & Hg & Hc'). destruct (run_rx_carried maxd delay events groups' He Hc') as [buf Hrun].
  exists (concat groups'), buf. split_and!; [done|by apply concat_prefixes|]. intros Eq. rewrite <- Eq in Hc.
  destruct (run_rx_carried maxd delay events groups He Hc) as [buf' Hrun']. rewrite Hrun in Hrun'. by injection Hrun'.
Qed.

Lemma adapters_agree_witness :
  exists msgs buf, run_rx 30000 1000 [] [RxRead 7 [0; 0; 0; 1; 65; 0; 0] []; RxRead 0 [] [false; true]; RxRead 6 [0; 0; 0; 2; 66; 67] []] =
      Ok (msgs, buf, true) /\ msgs `sublist_of` [[65]; [66; 67]] /\
    ([[0; 0; 0; 1; 65; 0; 0]; [0; 0; 0; 2; 66; 67]] = [[0; 0; 0; 1; 65; 0; 0]; [0; 0; 0; 2; 66; 67]] -> msgs = [[65]; [66; 67]]).
Proof.
  refine (adapters_agree [[65]; [66; 67]] [3; 9; 2; -1; 4; 100] ([[0; 0; 0; 1; 65; 0; 0]], [0; 0; 0; 2; 66; 67]) [] 30000 1000
    [RxRead 7 [0; 0; 0; 1; 65; 0; 0] []; RxRead 0 [] [false; true]; RxRead 6 [0; 0; 0; 2; 66; 67] []] _ _ _ _).
  - unfold sendable. repeat (apply Forall_cons_2; [cbn [length]; lia|]). apply Forall_nil_2.
  - vm_compute. reflexivity.
  - repeat (apply Forall_cons_2; [cbn [stays]; try (left; lia); right; right; left|]). apply Forall_nil_2.
  - apply Forall2_cons_2; [reflexivity|apply Forall2_cons_2; [reflexivity|constructor]].
Defined.

(** ** Clients of the ingress *)

(** The reads of one client, if nothing else happens to it. *)
Fixpoint reads_of (fd : Z) (events : list ingress_event) : option (list (list Z)) :=
  match events with
  | [] => Some []
  | Accepted f :: events' => if decide (f = fd) then None else reads_of fd events'
  | Disconnected f :: events' => if decide (f = fd) then None else reads_of fd events'
  | Readable f n read_buf :: events' =>
      if decide (f = fd) then
        if n <=? 0 then None else cons (take (Z.to_nat n) read_buf) <$> reads_of fd events'
      else reads_of fd events'
  end.

Definition messages_of (fd : Z) (out : list (Z * list Z)) : list (list Z) := snd <$> filter (fun m => m.1 = fd) out.

Lemma messages_own fd msgs : messages_of fd (pair fd <$> msgs) = msgs.
Proof.
  unfold messages_of. induction msgs as [|m msgs IH]; [done|]. cbn [fmap list_fmap]. rewrite filter_cons_True by done.
  cbn. by f_equal.
Qed.

Lemma messages_other fd f msgs : f <> fd -> messages_of fd (pair f <$> msgs) = [].
Proof.
  intros Hne. unfold messages_of. induction msgs as [|m msgs IH]; [done|]. cbn [fmap list_fmap].
  by rewrite filter_cons_False.
Qed.

Lemma messages_app fd o1 o2 : messages_of fd (o1 ++ o2) = messages_of fd o1 ++ messages_of fd o2.
Proof. unfold messages_of. by rewrite filter_app, fmap_app. Qed.

(** Clients do not disturb each other. Whatever the others do, connecting,
    disconnecting or sending, the messages the server passes on from one
    client are those of that client's own bytes, in order, and its buffer is
    what is left of them. *)
Theorem ingress_isolates s events out s' fd chunks buf :
  run_ingress s events = Ok (out, s') -> reads_of fd events = Some chunks -> buffers s !! fd = Some buf ->
  exists buf', read_chunks buf chunks = Ok (messages_of fd out, buf') /\ buffers s' !! fd = Some buf'.
Proof.
  revert s out chunks buf. induction events as [|e events IH]; intros s out chunks buf E Hr Hb; cbn [run_ingress reads_of] in *.
  - injection E as <- <-. injection Hr as <-. by exists buf.
  - destruct (handle_event s e) as [[o1 s1]|] eqn:Ee; [|done]. cbn [mbind outcome_bind] in E.
    destruct (run_ingress s1 events) as [[o2 s2]|] eqn:E2; [|done]. cbn [mbind outcome_bind] in E. injection E as <- <-.
    rewrite messages_app. destruct e as [f|f|f n read_buf]; cbn [handle_event] in Ee; destruct (decide (f = fd)) as [->|Hne]; try done.
    + assert (o1 = [] /\ buffers s1 !! fd = Some buf) as [-> Hb1].
      { destruct (0 <=? f); injection Ee as <- <-; [|done]. split; [done|]. cbn. by rewrite lookup_insert_ne. }
      by apply (IH s1).
    + injection Ee as <- <-. apply (IH _ _ _ buf E2 Hr). cbn. by rewrite lookup_delete_ne.
    + destruct (n <=? 0); [done|]. destruct (reads_of fd events) as [chunks'|] eqn:Er; [|done]. cbn in Hr. injection Hr as <-.
      rewrite Hb in Ee. change (default [] (Some buf)) with buf in Ee. destruct (read_chunk buf (take (Z.to_nat n) read_buf)) as [[msgs b1]|] eqn:Ec; [|done].
      cbn [mbind outcome_bind] in Ee. injection Ee as <- <-.
      destruct (IH _ _ chunks' b1 E2 eq_refl) as (buf' & Hc & Hb'); [cbn; by rewrite lookup_insert_eq|].
      exists buf'. cbn [read_chunks]. rewrite Ec. cbn [mbind outcome_bind]. rewrite Hc. cbn [mbind outcome_bind].
      by rewrite messages_own.
    + destruct (n <=? 0).
      * injection Ee as <- <-. apply (IH _ _ _ buf E2 Hr). cbn. by rewrite lookup_delete_ne.
      * destruct (read_chunk (default [] (buffers s !! f)) (take (Z.to_nat n) read_buf)) as [[msgs b1]|]; [|done]. cbn [mbind outcome_bind] in Ee. injection Ee as <- <-.
        rewrite messages_other by done. apply (IH _ _ _ buf E2 Hr). cbn. by rewrite lookup_insert_ne.
Qed.

Lemma ingress_isolates_witness :
  let events := [Readable 7 3 [0; 0; 0]; Accepted 9; Readable 9 4 [0; 0; 0; 0]; Readable 7 2 [1; 65]; Disconnected 9] in
  exists buf', read_chunks [] [[0; 0; 0]; [1; 65]] = Ok ([[65]], buf') /\ ({[7 := []]} : gmap Z (list Z)) !! 7 = Some buf'.
Proof.
  refine (ingress_isolates (MkIngress [7] {[7 := []]})
    [Readable 7 3 [0; 0; 0]; Accepted 9; Readable 9 4 [0; 0; 0; 0]; Readable 7 2 [1; 65]; Disconnected 9]
    [(9, []); (7, [65])] (MkIngress [7] {[7 := []]}) 7 [[0; 0; 0]; [1; 65]] [] _ _ _); vm_compute; reflexivity.
Defined.
End Framing.
