(* ===== verification/Egress.v ===== *)
(** * Delivery to downstream clients (src/ltp_cla/tcp_egress.cpp)

    The egress server's clients and the buffer it keeps while there are none.
    What each call of [write] answers is an argument of the definitions. *)
From S2P Require Import Prelude Framing.
Import Framing.

Module Egress.

Record EgressConfig := MkEgressConfig { max_buffer_bytes : Z }.

Record TcpEgress := MkEgress { client_fds : list Z; buffer : list (list Z); buffer_bytes : Z }.

(** What the calls of [write] for one block answer: for every descriptor, call
    by call. *)
Definition writes := Z -> nat -> Z.

(** The loop of [write]s to a descriptor: the bytes written, and whether it
    reached its end. A call writes at most what it is given, and one that
    succeeds a byte at least, so that the block's length is fuel enough. *)
Fixpoint write_loop (fuel : nat) (answers : nat -> Z) (rest : list Z) : list Z * bool :=
  match rest, fuel with
  | [], _ => ([], true)
  | _, O => ([], false)
  | _, S fuel' =>
      let n := answers 0%nat in
      if n <=? 0 then ([], false)
      else let '(written, whole) := write_loop fuel' (fun k => answers (S k)) (drop (Z.to_nat n) rest) in
           (take (Z.to_nat n) rest ++ written, whole)
  end.

Definition bytes_written (up : writes) (framed : list Z) (fd : Z) : list Z := fst (write_loop (length framed) (up fd) framed).
Definition takes (up : writes) (framed : list Z) (fd : Z) : bool := snd (write_loop (length framed) (up fd) framed).

(** The bytes every client was written, part of the block if a write failed,
    and the clients that are left. *)
Definition write_to_clients (up : writes) (framed : list Z) (clients : list Z) : list (Z * list Z) * list Z :=
  ((fun fd => (fd, bytes_written up framed fd)) <$> clients,
   filter (fun fd => takes up framed fd = true) clients).

(** Capacity: the oldest blocks go while the new one does not fit. *)
Fixpoint discard (max framed_size : Z) (buffer : list (list Z)) (buffer_bytes : Z) : list (list Z) * Z :=
  match buffer with
  | [] => ([], buffer_bytes)
  | front :: buffer' =>
      if max <? u64 (buffer_bytes + framed_size)
      then discard max framed_size buffer' (u64 (buffer_bytes - zlen front))
      else (buffer, buffer_bytes)
  end.

Definition deliver (c : EgressConfig) (up : writes) (data : list Z) (e : TcpEgress) : list (Z * list Z) * TcpEgress :=
  let framed := frame_message data in
  match client_fds e with
  | _ :: _ =>
      let '(out, clients) := write_to_clients up framed (client_fds e) in
      (out, MkEgress clients (buffer e) (buffer_bytes e))
  | [] =>
      let framed_size := zlen framed in
      let '(buf, bytes) := discard (max_buffer_bytes c) framed_size (buffer e) (buffer_bytes e) in
      ([], MkEgress [] (buf ++ [framed]) (u64 (bytes + framed_size)))
  end.

(** [ups] answers for the blocks in turn. *)
Fixpoint flush_loop (ups : nat -> writes) (buffer : list (list Z)) (bytes : Z) (clients : list Z)
  : list (Z * list Z) * TcpEgress :=
  match buffer, clients with
  | front :: buffer', _ :: _ =>
      let '(out, clients) := write_to_clients (ups 0%nat) front clients in
      let '(out', e) := flush_loop (fun k => ups (S k)) buffer' (u64 (bytes - zlen front)) clients in
      (out ++ out', e)
  | _, _ => ([], MkEgress clients buffer bytes)
  end.

Definition flush_buffer_to_clients (ups : nat -> writes) (e : TcpEgress) : list (Z * list Z) * TcpEgress :=
  flush_loop ups (buffer e) (buffer_bytes e) (client_fds e).

(** A connection accepted by [run]. *)
Definition accept_client (ups : nat -> writes) (fd : Z) (e : TcpEgress) : list (Z * list Z) * TcpEgress :=
  flush_buffer_to_clients ups (MkEgress (client_fds e ++ [fd]) (buffer e) (buffer_bytes e)).

Inductive egress_event :=
  | Deliver (up : writes) (data : list Z)
  | Accept (ups : nat -> writes) (fd : Z).

Definition egress_step (c : EgressConfig) (ev : egress_event) (e : TcpEgress) : list (Z * list Z) * TcpEgress :=
  match ev with Deliver up data => deliver c up data e | Accept ups fd => accept_client ups fd e end.

Fixpoint run_egress (c : EgressConfig) (events : list egress_event) (e : TcpEgress) : list (Z * list Z) * TcpEgress :=
  match events with
  | [] => ([], e)
  | ev :: events' =>
      let '(out, e) := egress_step c ev e in
      let '(out', e) := run_egress c events' e in
      (out ++ out', e)
  end.

Definition egress_start : TcpEgress := MkEgress [] [] 0.

(** A block larger than the limit is kept all the same, alone; and a block is
    taken off the buffer even when the only client is lost while it is
    written. *)
Example oversized_block :
  let '(_, e) := deliver (MkEgressConfig 10) (fun _ _ => 1) (replicate 20 0) egress_start in
  (max_buffer_bytes (MkEgressConfig 10) <? buffer_bytes e) = true /\
  accept_client (fun _ _ k => 7 - 7 * Z.of_nat k) 5 e = ([(5, take 7 (frame_message (replicate 20 0)))], egress_start).
Proof. vm_compute. split; reflexivity. Qed.

(** ** The buffer *)

Definition total (blocks : list (list Z)) : Z := foldr (fun b n => zlen b + n) 0 blocks.

Lemma total_app b1 b2 : total (b1 ++ b2) = total b1 + total b2.
Proof. unfold total. induction b1 as [|b b1 IH]; [done|]. cbn [app foldr]. rewrite IH. lia. Qed.

Lemma total_nonneg b : 0 <= total b.
Proof. unfold total. induction b as [|x b IH]; cbn [foldr]; lia. Qed.

Lemma total_cons b bs : total (b :: bs) = zlen b + total bs.
Proof. done. Qed.

(** The counter is the size of the buffer, the limit holds but for a single
    block, and nothing is buffered while a client is connected. *)
Definition egress_inv (c : EgressConfig) (e : TcpEgress) : Prop :=
  buffer_bytes e = total (buffer e) /\ total (buffer e) < 2 ^ 63 /\
  (total (buffer e) <= max_buffer_bytes c \/ (length (buffer e) <= 1)%nat) /\
  (client_fds e = [] \/ buffer e = []).

Lemma discard_spec max size blocks :
  0 < size < 2 ^ 63 -> total blocks < 2 ^ 63 ->
  exists dropped kept, blocks = dropped ++ kept /\ discard max size blocks (total blocks) = (kept, total kept) /\
    (kept = [] \/ total kept + size <= max) /\
    (forall front rest, dropped = rest ++ [front] -> max < zlen front + total kept + size).
Proof.
  intros Hs. induction blocks as [|b blocks IH]; intros Ht.
  - exists [], []. split_and!; [done|done|by left|]. intros f r E. by destruct r.
  - rewrite total_cons in Ht. pose proof (total_nonneg blocks) as Hn. cbn [discard]. rewrite total_cons, u64_small by lia.
    destruct (Z.ltb_spec max (zlen b + total blocks + size)) as [Hlt|Hge].
    + rewrite u64_small by lia. replace (zlen b + total blocks - zlen b) with (total blocks) by lia.
      destruct (IH ltac:(lia)) as (dropped & kept & -> & -> & Hk & Hd). exists (b :: dropped), kept.
      split_and!; [done|done|done|]. intros front rest E. destruct rest as [|r rest]; [|injection E as _ E; by eapply Hd].
      injection E as -> ->. rewrite app_nil_l in Hlt. lia.
    + exists [], (b :: blocks). rewrite total_cons. split_and!; [done|done|right; lia|]. intros f r E. by destruct r.
Qed.

(** With no client connected, a delivery keeps the newest blocks: the
    buffer is a suffix of what it was and the new block; as much as the limit
    allows, and no block more than needed is discarded. *)
Theorem deliver_keeps_newest c up data e :
  egress_inv c e -> client_fds e = [] -> zlen data < 2 ^ 32 ->
  exists dropped kept, buffer e = dropped ++ kept /\
    deliver c up data e = ([], MkEgress [] (kept ++ [frame_message data]) (u64 (total (kept ++ [frame_message data])))) /\
    (kept = [] \/ total (kept ++ [frame_message data]) <= max_buffer_bytes c) /\
    (forall front rest, dropped = rest ++ [front] -> max_buffer_bytes c < total (front :: kept ++ [frame_message data])).
Proof.
  intros (Hb & Ht & _ & _) Hc Hd. pose proof (frame_length data) as Hf.
  destruct (discard_spec (max_buffer_bytes c) (zlen (frame_message data)) (buffer e) ltac:(lia) Ht) as (dropped & kept & E & Hdis & Hk & Hfr).
  exists dropped, kept. unfold deliver. rewrite Hc, Hb, Hdis. rewrite !total_app, !total_cons.
  change (total []) with 0. rewrite Z.add_0_r. split_and!; [done|done|done|]. intros front rest E'. specialize (Hfr front rest E').
  rewrite total_cons, total_app, total_cons. change (total []) with 0. lia.
Qed.

Lemma deliver_keeps_newest_witness :
  exists dropped kept, [[1]; [2; 2]; [3]] = dropped ++ kept /\
    deliver (MkEgressConfig 8) (fun _ _ => 1) [9] (MkEgress [] [[1]; [2; 2]; [3]] 4) =
      ([], MkEgress [] (kept ++ [frame_message [9]]) (u64 (total (kept ++ [frame_message [9]])))) /\
    (kept = [] \/ total (kept ++ [frame_message [9]]) <= 8) /\
    (forall front rest, dropped = rest ++ [front] -> 8 < total (front :: kept ++ [frame_message [9]])).
Proof.
  apply (deliver_keeps_newest (MkEgressConfig 8) (fun _ _ => 1) [9] (MkEgress [] [[1]; [2; 2]; [3]] 4)); [|reflexivity|reflexivity].
  unfold egress_inv. cbn. split_and!; [reflexivity|lia|left; lia|by left].
Defined.

Lemma flush_spec c ups blocks : forall clients,
  total blocks < 2 ^ 63 -> (total blocks <= max_buffer_bytes c \/ (length blocks <= 1)%nat) ->
  egress_inv c (snd (flush_loop ups blocks (total blocks) clients)).
Proof.
  revert ups. induction blocks as [|b blocks IH]; intros ups clients Ht Hm; cbn [flush_loop snd].
  - unfold egress_inv. cbn. split_and!; [done|done|by right; lia|by right].
  - destruct clients as [|f clients]; cbn [snd]; [unfold egress_inv; cbn; split_and!; [done|done|done|by left]|].
    rewrite total_cons in *. pose proof (total_nonneg blocks). unfold write_to_clients.
    rewrite u64_small by lia. replace (zlen b + total blocks - zlen b) with (total blocks) by lia.
    specialize (IH (fun k => ups (S k)) (filter (fun fd => takes (ups 0%nat) b fd = true) (f :: clients)) ltac:(lia)).
    destruct (flush_loop _ blocks _ _) as [out e]. cbn [snd] in *. apply IH.
    destruct Hm as [Hm|Hm]; [left; lia|right; cbn in Hm; lia].
Qed.

(** Blocks of up to [size] bytes fit under the limit of the counter. *)
Definition step_fits (c : EgressConfig) (ev : egress_event) : Prop :=
  match ev with Deliver _ data => zlen data < 2 ^ 32 | Accept _ _ => True end.

Lemma egress_step_inv c ev e :
  0 <= max_buffer_bytes c < 2 ^ 62 -> egress_inv c e -> step_fits c ev -> egress_inv c (snd (egress_step c ev e)).
Proof.
  intros Hm Hinv Hfit. pose proof Hinv as (Hb & Ht & Hl & Hc). destruct ev as [up data|ups fd]; cbn [egress_step step_fits] in *.
  - unfold deliver. pose proof (frame_length data) as Hf. destruct (client_fds e) as [|f fs] eqn:Ec.
    + destruct (discard_spec (max_buffer_bytes c) (zlen (frame_message data)) (buffer e) ltac:(lia) Ht) as (dropped & kept & E & Hdis & Hk & _).
      rewrite Hb, Hdis. unfold egress_inv. cbn [snd buffer buffer_bytes client_fds]. rewrite total_app, total_cons.
      change (total []) with 0. rewrite Z.add_0_r. pose proof (total_nonneg kept).
      assert (total kept + zlen (frame_message data) < 2 ^ 63) by (destruct Hk as [->|]; [change (total []) with 0|]; lia).
      split_and!; [apply u64_small; lia|done| |by left]. destruct Hk as [->|]; [right; cbn; lia|by left].
    + unfold write_to_clients. cbn [snd]. destruct Hc as [|Hc]; [done|]. unfold egress_inv. cbn. split_and!; [done|done|done|by right].
  - unfold accept_client, flush_buffer_to_clients. cbn [buffer buffer_bytes client_fds]. rewrite Hb. by apply flush_spec.
Qed.

(** Through any sequence of deliveries and connections, with any writes
    failing, the byte counter is exactly the size of the buffer, the buffer
    exceeds its limit only when it is a single block, and no block waits while
    a client is connected. *)
Theorem egress_accounting c events :
  0 <= max_buffer_bytes c < 2 ^ 62 -> Forall (step_fits c) events ->
  egress_inv c (snd (run_egress c events egress_start)).
Proof.
  intros Hm Hev. assert (egress_inv c egress_start) as H0.
  { unfold egress_inv. cbn. split_and!; [done|done|left; lia|by left]. }
  revert H0. generalize egress_start. induction Hev as [|ev events Hfit Hev IH]; intros e He; [done|]. cbn [run_egress].
  pose proof (egress_step_inv c ev e Hm He Hfit) as He'. destruct (egress_step c ev e) as [out e']. cbn [snd] in He'.
  specialize (IH e' He'). by destruct (run_egress c events e').
Qed.

Lemma egress_accounting_witness :
  egress_inv (MkEgressConfig 100) (snd (run_egress (MkEgressConfig 100)
    [Deliver (fun _ _ => 1) [1]; Accept (fun _ _ _ => 1) 5; Deliver (fun _ _ => 0) [2]] egress_start)).
Proof.
  apply egress_accounting; [cbn; lia|]. repeat (apply Forall_cons_2; [cbn; lia || exact I|]). apply Forall_nil_2.
Defined.

(** ** What a client receives *)

Definition received_by (fd : Z) (out : list (Z * list Z)) : list (list Z) := snd <$> filter (fun m => m.1 = fd) out.

Lemma received_app fd o1 o2 : received_by fd (o1 ++ o2) = received_by fd o1 ++ received_by fd o2.
Proof. unfold received_by. by rewrite filter_app, fmap_app. Qed.

Lemma received_none fd out : fd ∉ (fst <$> out) -> received_by fd out = [].
Proof.
  intros Hn. unfold received_by. induction out as [|m out IH]; [done|]. rewrite filter_cons_False.
  - apply IH. intros H. apply Hn. by right.
  - intros <-. apply Hn. by left.
Qed.

Lemma write_loop_prefix fuel : forall answers rest,
  fst (write_loop fuel answers rest) `prefix_of` rest /\ (snd (write_loop fuel answers rest) = true -> fst (write_loop fuel answers rest) = rest).
Proof.
  induction fuel as [|fuel IH]; intros answers [|x rest]; cbn [write_loop fst snd]; try (split; [apply prefix_nil|done]); try done.
  destruct (answers 0%nat <=? 0); [split; [apply prefix_nil|done]|]. set (l := x :: rest). set (n := Z.to_nat (answers 0%nat)).
  destruct (IH (fun k => answers (S k)) (drop n l)) as [Hp He]. destruct (write_loop fuel _ (drop n l)) as [w whole]. cbn [fst snd] in *. split.
  - rewrite <- (take_drop n l) at 2. by apply prefix_app.
  - intros Hw. by rewrite (He Hw), take_drop.
Qed.

Lemma bytes_written_prefix up b fd : bytes_written up b fd `prefix_of` b.
Proof. apply write_loop_prefix. Qed.

Lemma bytes_written_whole up b fd : takes up b fd = true -> bytes_written up b fd = b.
Proof. apply write_loop_prefix. Qed.

(** The writes to a client do not fail; each may be partial. *)
Definition answering (up : writes) (fd : Z) : Prop := forall k, 0 < up fd k.

Lemma answering_takes up b fd : answering up fd -> takes up b fd = true.
Proof.
  unfold takes, answering. generalize (up fd). intros answers Ha.
  assert (forall fuel answers rest, (forall k, 0 < answers k) -> (length rest <= fuel)%nat -> snd (write_loop fuel answers rest) = true) as Hw; [|by apply Hw].
  clear. induction fuel as [|fuel IH]; intros answers [|x rest] Ha Hl; cbn [write_loop]; try done; [cbn in Hl; lia|].
  pose proof (Ha 0%nat) as H0. destruct (Z.leb_spec (answers 0%nat) 0); [lia|].
  specialize (IH (fun k => answers (S k)) (drop (Z.to_nat (answers 0%nat)) (x :: rest)) (fun k => Ha (S k))).
  rewrite length_drop in IH. cbn [length] in IH, Hl. specialize (IH ltac:(lia)). by destruct (write_loop fuel _ _).
Qed.

(** From the descriptor's being given to the client until it is given to
    another: the client is sent the blocks, or the beginning of them if it is
    dropped. *)
Definition served (fd : Z) (blocks : list (list Z)) (out : list (Z * list Z)) (e : TcpEgress) : Prop :=
  concat (received_by fd out) `prefix_of` concat blocks /\ (fd ∈ client_fds e -> received_by fd out = blocks).

(** One that is not connected is sent nothing. *)
Definition absent (fd : Z) (out : list (Z * list Z)) (e : TcpEgress) : Prop := received_by fd out = [] /\ fd ∉ client_fds e.

Lemma client_served_app fd b1 b2 o1 o2 e1 e2 :
  served fd b1 o1 e1 -> (fd ∈ client_fds e1 -> served fd b2 o2 e2) -> (fd ∉ client_fds e1 -> absent fd o2 e2) ->
  served fd (b1 ++ b2) (o1 ++ o2) e2.
Proof.
  intros [P1 A1] H2 N2. unfold served. rewrite received_app, !concat_app. destruct (decide (fd ∈ client_fds e1)) as [H|H].
  - rewrite (A1 H). destruct (H2 H) as [P2 A2]. split; [by apply prefix_app|]. intros Hf. by rewrite (A2 Hf).
  - destruct (N2 H) as [-> Hf]. rewrite app_nil_r. split; [by apply prefix_app_r|done].
Qed.

Lemma absent_app fd o1 o2 e : received_by fd o1 = [] -> absent fd o2 e -> absent fd (o1 ++ o2) e.
Proof. intros H1 [H2 H3]. split; [|done]. by rewrite received_app, H1, H2. Qed.

Lemma received_writes up b clients fd :
  NoDup clients -> fd ∈ clients -> received_by fd ((fun f => (f, bytes_written up b f)) <$> clients) = [bytes_written up b fd].
Proof.
  induction 1 as [|f l Hf Hnd IH]; intros Hin; [by apply not_elem_of_nil in Hin|]. cbn [fmap list_fmap].
  change (?x :: ?l) with ([x] ++ l). rewrite received_app. apply elem_of_cons in Hin as [<-|Hin].
  - rewrite (received_none fd (_ <$> l)); [unfold received_by; by rewrite filter_cons_True|]. by rewrite <- list_fmap_compose, list_fmap_id.
  - rewrite IH by done. unfold received_by. rewrite filter_cons_False; [done|]. cbn. intros ->. done.
Qed.

(** What writing a block does for a client. *)
Lemma write_served up b clients buf bytes fd :
  NoDup clients ->
  let '(out, clients') := write_to_clients up b clients in
  clients' ⊆ clients /\ NoDup clients' /\
  (fd ∈ clients -> served fd [b] out (MkEgress clients' buf bytes)) /\ (fd ∉ clients -> absent fd out (MkEgress clients' buf bytes)).
Proof.
  intros Hnd. unfold write_to_clients. split; [intros x Hx; by apply list_elem_of_filter in Hx as [_ Hx]|]. split; [by apply NoDup_filter|]. split.
  - intros Hin. unfold served. rewrite received_writes by done. cbn [concat client_fds]. rewrite !app_nil_r. split; [apply bytes_written_prefix|].
    intros [Ht _]%list_elem_of_filter. by rewrite bytes_written_whole.
  - intros Hin. split; [|intros Hx; by apply list_elem_of_filter in Hx as [_ Hx]]. apply received_none. by rewrite <- list_fmap_compose, list_fmap_id.
Qed.

(** No block waits while a client is connected. *)
Definition tidy (e : TcpEgress) : Prop := client_fds e = [] \/ buffer e = [].

Lemma flush_served fd blocks : forall ups bytes clients,
  NoDup clients ->
  let '(out, e) := flush_loop ups blocks bytes clients in
  client_fds e ⊆ clients /\ NoDup (client_fds e) /\ tidy e /\
  (fd ∈ clients -> served fd blocks out e) /\ (fd ∉ clients -> absent fd out e).
Proof.
  induction blocks as [|b blocks IH]; intros ups bytes clients Hnd; cbn [flush_loop].
  - split_and!; [done|done|by right|by split|by split].
  - destruct clients as [|f fs] eqn:Ec.
    + split_and!; [done|done|by left|by intros ?%not_elem_of_nil|by split].
    + rewrite <- Ec in *. clear Ec.
      pose proof (write_served (ups 0%nat) b clients [] 0 fd Hnd) as Hw. destruct (write_to_clients (ups 0%nat) b clients) as [out clients'].
      destruct Hw as (Hsub & Hnd' & Hs & Ha). specialize (IH (fun k => ups (S k)) (u64 (bytes - zlen b)) clients' Hnd').
      destruct (flush_loop _ blocks _ clients') as [out' e]. destruct IH as (Hsub' & Hnd'' & Ht & Hs' & Ha').
      split; [by etrans|]. split; [done|]. split; [done|]. split.
      * intros Hin. exact (client_served_app fd [b] blocks out out' (MkEgress clients' [] 0) e (Hs Hin) Hs' Ha').
      * intros Hin. destruct (Ha Hin) as [H1 H2]. apply absent_app; [done|by apply Ha'].
Qed.

(** The blocks of the deliveries. *)
Fixpoint delivered (events : list egress_event) : list (list Z) :=
  match events with
  | [] => []
  | Deliver _ data :: events' => frame_message data :: delivered events'
  | Accept _ _ :: events' => delivered events'
  end.

(** Nothing is written but what was buffered or delivered, or the beginning of
    it. *)
Definition part_of (P : list Z -> Prop) (m : Z * list Z) : Prop := exists b, P b /\ m.2 `prefix_of` b.

Lemma write_only (P : list Z -> Prop) up b clients : P b -> Forall (part_of P) (fst (write_to_clients up b clients)).
Proof. intros Hb. apply Forall_fmap, Forall_forall. intros fd _. exists b. split; [exact Hb|apply bytes_written_prefix]. Qed.

Lemma flush_only (P : list Z -> Prop) ups blocks : forall bytes clients,
  Forall P blocks -> let '(out, e) := flush_loop ups blocks bytes clients in Forall (part_of P) out /\ Forall P (buffer e).
Proof.
  revert ups. induction blocks as [|b blocks IH]; intros ups bytes clients Hp; cbn [flush_loop]; [done|].
  destruct clients as [|f clients]; [done|]. apply Forall_cons in Hp as [Hb Hp]. pose proof (write_only P (ups 0%nat) b (f :: clients) Hb) as Hw.
  destruct (write_to_clients _ b _) as [out1 clients1]. specialize (IH (fun k => ups (S k)) (u64 (bytes - zlen b)) clients1 Hp).
  destruct (flush_loop _ blocks _ _) as [out e]. destruct IH as [Ho He]. split; [|done]. by apply Forall_app.
Qed.

Lemma discard_only (P : list Z -> Prop) max size blocks : forall bytes, Forall P blocks -> Forall P (fst (discard max size blocks bytes)).
Proof. induction blocks as [|b blocks IH]; intros bytes Hp; cbn [discard]; [done|]. destruct (max <? _); [|done]. apply IH. by apply Forall_cons in Hp as [_ Hp]. Qed.

Lemma run_egress_only (P : list Z -> Prop) c events : forall e,
  Forall P (delivered events) -> Forall P (buffer e) ->
  let '(out, e') := run_egress c events e in Forall (part_of P) out /\ Forall P (buffer e').
Proof.
  induction events as [|ev events IH]; intros e Hd Hb; cbn [run_egress]; [done|].
  assert (let '(out, e') := egress_step c ev e in Forall (part_of P) out /\ Forall P (buffer e')) as Hs.
  { destruct ev as [up data|ups fd]; cbn [egress_step delivered] in *.
    - apply Forall_cons in Hd as [Hx _]. unfold deliver. destruct (client_fds e) as [|f fs].
      + pose proof (discard_only P (max_buffer_bytes c) (zlen (frame_message data)) (buffer e) (buffer_bytes e) Hb) as Hk.
        destruct (discard _ _ _ _) as [buf bytes]. split; [done|]. apply Forall_app. split; [done|by apply Forall_singleton].
      + split; [|done]. by apply (write_only P up (frame_message data) (f :: fs)).
    - unfold accept_client, flush_buffer_to_clients. by apply flush_only. }
  assert (Forall P (delivered events)) as Hd' by (destruct ev; [by apply Forall_cons in Hd as [_ Hd]|done]).
  destruct (egress_step c ev e) as [out e1]. destruct Hs as [Ho Hb1]. specialize (IH e1 Hd' Hb1).
  destruct (run_egress c events e1) as [out' e2]. split; [apply Forall_app|]; by destruct IH.
Qed.

(** The descriptors of the connections the events bring, and that the system
    gives each one that no client has at that moment. *)
Definition accepted_fds (events : list egress_event) : list Z := omap (fun ev => match ev with Accept _ f => Some f | Deliver _ _ => None end) events.

Fixpoint fresh (c : EgressConfig) (events : list egress_event) (e : TcpEgress) : Prop :=
  match events with
  | [] => True
  | ev :: events' =>
      match ev with Accept _ f => f ∉ client_fds e | Deliver _ _ => True end /\ fresh c events' (snd (egress_step c ev e))
  end.

#[global] Instance fresh_dec c events : forall e, Decision (fresh c events e).
Proof. induction events as [|ev events IH]; intros e; cbn [fresh]; [apply _|]. destruct ev; apply _. Defined.

Lemma NoDup_snoc (f : Z) l : NoDup l -> f ∉ l -> NoDup (l ++ [f]).
Proof. intros Hnd Hf. apply NoDup_app. split_and!; [done| |apply NoDup_singleton]. intros x Hx ->%list_elem_of_singleton. done. Qed.

Lemma accept_served c ups f fd e :
  NoDup (client_fds e) -> f ∉ client_fds e ->
  let '(out, e') := egress_step c (Accept ups f) e in
  NoDup (client_fds e') /\ tidy e' /\ (fd ∈ client_fds e ++ [f] -> served fd (buffer e) out e') /\ (fd ∉ client_fds e ++ [f] -> absent fd out e').
Proof.
  intros Hnd Hf. cbn [egress_step]. unfold accept_client, flush_buffer_to_clients. cbn [buffer buffer_bytes client_fds].
  pose proof (flush_served fd (buffer e) ups (buffer_bytes e) (client_fds e ++ [f]) (NoDup_snoc _ _ Hnd Hf)) as H.
  destruct (flush_loop _ _ _ _) as [out e']. tauto.
Qed.

Lemma deliver_served c up data fd e :
  NoDup (client_fds e) -> tidy e ->
  let '(out, e') := egress_step c (Deliver up data) e in
  NoDup (client_fds e') /\ tidy e' /\ (fd ∈ client_fds e -> served fd [frame_message data] out e') /\ (fd ∉ client_fds e -> absent fd out e').
Proof.
  intros Hnd Ht. cbn [egress_step]. unfold deliver. destruct (client_fds e) as [|g fs] eqn:Ec.
  - destruct (discard _ _ _ _) as [buf bytes]. split_and!; [done|by left|by intros ?%not_elem_of_nil|by split].
  - rewrite <- Ec in *. assert (buffer e = []) as Hb by (destruct Ht as [Ht|]; [by rewrite Ht in Ec|done]).
    pose proof (write_served up (frame_message data) (client_fds e) (buffer e) (buffer_bytes e) fd Hnd) as Hw.
    destruct (write_to_clients _ _ _) as [out clients']. destruct Hw as (_ & Hnd' & Hs & Ha). split_and!; [done|by right|done|done].
Qed.

Lemma run_served c fd : forall events e,
  NoDup (client_fds e) -> tidy e -> fresh c events e -> fd ∉ accepted_fds events ->
  let '(out, e') := run_egress c events e in
  (fd ∈ client_fds e -> served fd (delivered events) out e') /\ (fd ∉ client_fds e -> absent fd out e').
Proof.
  induction events as [|ev events IH]; intros e Hnd Ht Hf Hfd; cbn [run_egress]; [by split; [split|]|]. cbn [fresh] in Hf. destruct Hf as [Hf1 Hf].
  assert (let '(out, e1) := egress_step c ev e in NoDup (client_fds e1) /\ tidy e1 /\ (fd ∉ accepted_fds events) /\
    (fd ∈ client_fds e -> served fd (delivered [ev]) out e1) /\ (fd ∉ client_fds e -> absent fd out e1)) as Hs.
  { destruct ev as [up data|ups f].
    - pose proof (deliver_served c up data fd e Hnd Ht) as H. destruct (egress_step c _ e) as [out e1]. tauto.
    - assert (fd <> f /\ fd ∉ accepted_fds events) as [Hne Hfd'] by (unfold accepted_fds in Hfd; cbn in Hfd; set_solver).
      pose proof (accept_served c ups f fd e Hnd Hf1) as H.
      assert (client_fds e <> [] -> buffer e = []) as Hb by (destruct Ht; done).
      destruct (egress_step c _ e) as [out e1]. destruct H as (H1 & H2 & H3 & H4). cbn [delivered]. split_and!; [done|done|done| |].
      + intros Hin. rewrite Hb in H3 by (by intros Hnil; rewrite Hnil in Hin; apply not_elem_of_nil in Hin). apply H3, elem_of_app. by left.
      + intros Hin. apply H4. intros [|Hx%list_elem_of_singleton]%elem_of_app; done. }
  destruct (egress_step c ev e) as [out e1]. cbn [snd] in Hf. destruct Hs as (Hnd1 & Ht1 & Hfd1 & Hs & Ha). specialize (IH e1 Hnd1 Ht1 Hf Hfd1).
  destruct (run_egress c events e1) as [out' e2]. destruct IH as [IHs IHa]. split.
  - intros Hin. replace (delivered (ev :: events)) with (delivered [ev] ++ delivered events) by (by destruct ev).
    exact (client_served_app _ _ _ _ _ _ _ (Hs Hin) IHs IHa).
  - intros Hin. destruct (Ha Hin) as [H1 H2]. apply absent_app; [done|by apply IHa].
Qed.

(** [C39] A client, from the moment it is accepted until its descriptor is given
    to another: it is sent the blocks that were waiting, and then every block
    delivered, once and in order, in any partial writes. While it is connected
    that is all of them; and if a write to it fails it is dropped, and what it
    was sent is the beginning of those bytes, which may end inside a block.
    What happens to the other clients, that come and go and whose descriptors
    are used again, does not matter; a new connection's descriptor is only
    assumed not to be open at that moment. *)
Theorem client_receives_all c e ups fd events :
  NoDup (client_fds e) -> fresh c (Accept ups fd :: events) e -> fd ∉ accepted_fds events ->
  let '(out, e') := run_egress c (Accept ups fd :: events) e in
  concat (received_by fd out) `prefix_of` concat (buffer e ++ delivered events) /\
  (fd ∈ client_fds e' -> received_by fd out = buffer e ++ delivered events).
Proof.
  intros Hnd [Hfd Hf] Hn. cbn [run_egress]. pose proof (accept_served c ups fd fd e Hnd Hfd) as Ha.
  destruct (egress_step c (Accept ups fd) e) as [out e1]. cbn [snd] in Hf. destruct Ha as (Hnd1 & Ht1 & Hs & _).
  pose proof (run_served c fd events e1 Hnd1 Ht1 Hf Hn) as Hr. destruct (run_egress c events e1) as [out' e2]. destruct Hr as [Hrs Hra].
  assert (fd ∈ client_fds e ++ [fd]) as Hin by (apply elem_of_app; right; by left).
  exact (client_served_app _ _ _ _ _ _ _ (Hs Hin) Hrs Hra).
Qed.

(** Descriptor 6 is lost and given to a second client; 5 stays. *)
Lemma client_receives_all_witness :
  let only5 := fun (fd : Z) (k : nat) => if fd =? 5 then 3 else 2 - 2 * Z.of_nat k in
  let events := [Accept (fun _ => only5) 6; Deliver only5 [7]; Accept (fun _ => only5) 6; Deliver only5 [8]] in
  let '(out, e') := run_egress (MkEgressConfig 100) (Accept (fun _ => only5) 5 :: events) (MkEgress [] [frame_message [1]; frame_message [2]] 10) in
  concat (received_by 5 out) `prefix_of` concat [frame_message [1]; frame_message [2]; frame_message [7]; frame_message [8]] /\
  (5 ∈ client_fds e' -> received_by 5 out = [frame_message [1]; frame_message [2]; frame_message [7]; frame_message [8]]).
Proof.
  set (only5 := fun (fd : Z) (k : nat) => if fd =? 5 then 3 else 2 - 2 * Z.of_nat k).
  pose proof (client_receives_all (MkEgressConfig 100) (MkEgress [] [frame_message [1]; frame_message [2]] 10) (fun _ => only5) 5
    [Accept (fun _ => only5) 6; Deliver only5 [7]; Accept (fun _ => only5) 6; Deliver only5 [8]]) as Hx.
  apply Hx; [apply NoDup_nil_2|apply (bool_decide_unpack _); vm_compute; exact I|apply (bool_decide_unpack _); vm_compute; exact I].
Defined.
End Egress.
