(* ===== verification/Descriptors.v ===== *)
(** * File descriptors

    What the programs' sockets come to for the process: the system calls that
    open, use and close a descriptor, when a sequence of them is legal, and the
    class of the components that own descriptors, closed under composition.
    What the calls answer is an argument of the definitions that make them. *)
From S2P Require Import Prelude.

Module Descriptors.

(** A call that returned a new descriptor, one on a descriptor, and [close].
    [Polls] is [poll] on a descriptor that may be closed by then, which it
    reports. *)
Inductive syscall := Opens (fd : Z) | Uses (fd : Z) | Polls (fd : Z) | Closes (fd : Z).

(** [legal calls Q open]: if every new descriptor was free, then every one used
    or closed is open, and the table of open ones ends as [Q] says. *)
Fixpoint legal (calls : list syscall) (Q : gset Z -> Prop) (open : gset Z) : Prop :=
  match calls with
  | [] => Q open
  | Opens fd :: calls' => fd ∉ open -> legal calls' Q ({[fd]} ∪ open)
  | Uses fd :: calls' => fd ∈ open /\ legal calls' Q open
  | Polls _ :: calls' => legal calls' Q open
  | Closes fd :: calls' => fd ∈ open /\ legal calls' Q (open ∖ {[fd]})
  end.

Lemma legal_mono calls : forall Q Q' open, legal calls Q open -> (forall o, Q o -> Q' o) -> legal calls Q' open.
Proof. induction calls as [|[fd|fd|fd|fd] calls IH]; cbn [legal]; naive_solver. Qed.

Lemma legal_app c1 : forall c2 Q open, legal (c1 ++ c2) Q open <-> legal c1 (legal c2 Q) open.
Proof. induction c1 as [|[fd|fd|fd|fd] c1 IH]; intros c2 Q open; cbn [app legal]; naive_solver. Qed.

(** Calls in sequence, the table between them described by [Q]. *)
Lemma legal_seq c1 c2 Q R open : legal c1 Q open -> (forall o, Q o -> legal c2 R o) -> legal (c1 ++ c2) R open.
Proof. intros H1 H2. rewrite legal_app. by eapply legal_mono. Qed.

Lemma legal_uses fds Q open : (forall fd, fd ∈ fds -> fd ∈ open) -> Q open -> legal (Uses <$> fds) Q open.
Proof. intros Hin HQ. induction fds as [|fd fds IH]; [done|]. split; [apply Hin; by left|]. apply IH. intros f Hf. apply Hin. by right. Qed.

(** The sets of descriptors are compared by membership. *)
Ltac set_ext := apply set_eq; intros ?fd; repeat first [rewrite elem_of_union | rewrite elem_of_difference | rewrite elem_of_singleton | rewrite elem_of_list_to_set | rewrite elem_of_cons].

(** Open are the descriptors [fds], each held once, and the [rest]. *)
Definition has (rest : gset Z) (fds : list Z) (open : gset Z) : Prop :=
  NoDup fds /\ (forall fd, fd ∈ fds -> fd ∉ rest) /\ open = rest ∪ list_to_set fds.

Lemma has_perm rest l1 l2 open : l1 ≡ₚ l2 -> has rest l1 open -> has rest l2 open.
Proof.
  intros Hp (Hn & Hr & ->). split; [by rewrite <- Hp|]. split.
  - intros fd Hfd. apply Hr. by rewrite Hp.
  - set_ext. by rewrite Hp.
Qed.

(** What is held besides [l1] counts to the rest. *)
Lemma has_app rest l1 l2 open :
  has rest (l1 ++ l2) open <-> has (rest ∪ list_to_set l2) l1 open /\ NoDup l2 /\ (forall fd, fd ∈ l2 -> fd ∉ rest).
Proof.
  unfold has. rewrite NoDup_app. setoid_rewrite elem_of_app. setoid_rewrite elem_of_union. setoid_rewrite elem_of_list_to_set.
  assert (rest ∪ list_to_set (l1 ++ l2) = rest ∪ list_to_set l2 ∪ list_to_set l1) as -> by (set_ext; rewrite elem_of_app; tauto).
  naive_solver.
Qed.

Lemma has_open rest l open fd : has rest l open -> fd ∈ l -> fd ∈ open.
Proof. intros (_ & _ & ->) Hfd. apply elem_of_union. right. by apply elem_of_list_to_set. Qed.

Lemma has_new rest l open fd : has rest l open -> fd ∉ open -> has rest (fd :: l) ({[fd]} ∪ open).
Proof.
  intros (Hn & Hr & ->) Hfd. rewrite elem_of_union, elem_of_list_to_set in Hfd. split; [by apply NoDup_cons_2; auto|]. split.
  - intros f [->|Hf]%elem_of_cons; auto.
  - set_ext. tauto.
Qed.

Lemma has_closed rest l open fd : has rest (fd :: l) open -> has rest l (open ∖ {[fd]}).
Proof.
  intros ([Hfd Hn]%NoDup_cons & Hr & ->). split; [done|]. split; [intros f Hf; apply Hr; by right|].
  assert (fd ∉ rest) by (apply Hr; by left). clear Hr. set_ext. naive_solver.
Qed.

Lemma legal_open rest l open fd calls Q :
  has rest l open -> (forall o, has rest (fd :: l) o -> legal calls Q o) -> legal (Opens fd :: calls) Q open.
Proof. intros Hl Hc Hfd. by apply Hc, has_new. Qed.

Lemma legal_use rest l open fd calls Q : has rest l open -> fd ∈ l -> legal calls Q open -> legal (Uses fd :: calls) Q open.
Proof. intros Hl Hfd Hc. split; [by eapply has_open|done]. Qed.

Lemma legal_close rest l open fd calls Q :
  has rest (fd :: l) open -> (forall o, has rest l o -> legal calls Q o) -> legal (Closes fd :: calls) Q open.
Proof. intros Hl Hc. split; [eapply has_open; [exact Hl|by left]|]. by apply Hc, has_closed. Qed.

Lemma legal_close_all rest dead : forall l open, has rest (dead ++ l) open -> legal (Closes <$> dead) (has rest l) open.
Proof.
  induction dead as [|fd dead IH]; intros l open Hl; [done|]. cbn [fmap list_fmap]. eapply legal_close; [exact Hl|]. apply IH.
Qed.

(** Calls on the descriptors of one part, whatever the rest is, are calls on
    both parts' that leave the other's alone. *)
Lemma legal_left rest l1 l1' l2 calls open :
  (forall rest o, has rest l1 o -> legal calls (has rest l1') o) -> has rest (l1 ++ l2) open -> legal calls (has rest (l1' ++ l2)) open.
Proof.
  intros Hc Hh. apply has_app in Hh as (Hh & Hn & Hr). eapply legal_mono; [exact (Hc _ _ Hh)|]. intros o Ho. by apply has_app.
Qed.

Lemma legal_right rest l1 l2 l2' calls open :
  (forall rest o, has rest l2 o -> legal calls (has rest l2') o) -> has rest (l1 ++ l2) open -> legal calls (has rest (l1 ++ l2')) open.
Proof.
  intros Hc Hh. eapply has_perm in Hh; [|apply Permutation_app_comm]. eapply legal_mono; [by eapply legal_left|].
  intros o Ho. eapply has_perm; [apply Permutation_app_comm|exact Ho].
Qed.

(** The descriptor a variable holds: negative numbers are none. *)
Definition fd_of (fd : Z) : list Z := if fd <? 0 then [] else [fd].

(** [if (fd >= 0) close(fd)]. *)
Definition close_fd (fd : Z) : list syscall := Closes <$> fd_of fd.

(** What the calls that open a listening socket answer. *)
Record setup := MkSetup { socket_ans : Z; pton_ans : Z; bind_ans : Z; listen_ans : Z; getsockname_ans : Z; bound_port : Z }.

(** [socket], [setsockopt], [inet_pton] and [bind], with what is left in the
    variable. *)
Definition open_bound (a : setup) : list syscall * Z :=
  let fd := socket_ans a in
  if fd <? 0 then ([], fd)
  else if pton_ans a <=? 0 then ([Opens fd; Uses fd; Closes fd], -1)
  else if bind_ans a <? 0 then ([Opens fd; Uses fd; Uses fd; Closes fd], -1)
  else ([Opens fd; Uses fd; Uses fd], fd).

(** [listen] as well. *)
Definition open_listener (a : setup) : list syscall * Z :=
  let '(calls, fd) := open_bound a in
  if fd <? 0 then (calls, fd)
  else if listen_ans a <? 0 then (calls ++ [Uses fd; Closes fd], -1)
  else (calls ++ [Uses fd], fd).

Definition bind_succeeds (a : setup) : bool := (0 <=? socket_ans a) && (0 <? pton_ans a) && (0 <=? bind_ans a).
Definition setup_succeeds (a : setup) : bool := bind_succeeds a && (0 <=? listen_ans a).

Lemma fd_of_none fd : (fd <? 0) = true -> fd_of fd = [].
Proof. unfold fd_of. by intros ->. Qed.

Lemma fd_of_some fd : (fd <? 0) = false -> fd_of fd = [fd].
Proof. unfold fd_of. by intros ->. Qed.

Lemma open_bound_fd a : (snd (open_bound a) <? 0) = negb (bind_succeeds a).
Proof. unfold open_bound, bind_succeeds. repeat (case_match; cbn [snd]); lia. Qed.

Lemma open_listener_fd a : (snd (open_listener a) <? 0) = negb (setup_succeeds a).
Proof.
  unfold open_listener, setup_succeeds. rewrite negb_andb, <- open_bound_fd. destruct (open_bound a) as [cs fd]. cbn [snd].
  destruct (fd <? 0) eqn:E; cbn [snd orb]; [done|]. destruct (listen_ans a <? 0) eqn:E2; cbn [snd]; lia.
Qed.

Lemma open_bound_legal a rest l open :
  has rest l open -> legal (fst (open_bound a)) (has rest (fd_of (snd (open_bound a)) ++ l)) open.
Proof.
  intros Hl. unfold open_bound, fd_of. destruct (socket_ans a <? 0) eqn:E; cbn [fst snd]; [by rewrite E|].
  assert (forall o, has rest (socket_ans a :: l) o -> socket_ans a ∈ o) as Hin by (intros o Ho; eapply has_open; [exact Ho|by left]).
  repeat (case_match; cbn [fst snd legal app]); try lia; intros Hfd; pose proof (has_new _ _ _ _ Hl Hfd) as Hn; pose proof (Hin _ Hn);
    split_and?; try done; try by apply has_closed.
Qed.

Lemma open_listener_legal a rest l open :
  has rest l open -> legal (fst (open_listener a)) (has rest (fd_of (snd (open_listener a)) ++ l)) open.
Proof.
  intros Hl. pose proof (open_bound_legal a rest l open Hl) as Hb. unfold open_listener. destruct (open_bound a) as [cs fd]. cbn [fst snd] in *.
  destruct (fd <? 0) eqn:E; [exact Hb|]. rewrite (fd_of_some fd E) in Hb. cbn [app] in Hb.
  destruct (listen_ans a <? 0); cbn [fst snd]; (eapply legal_seq; [exact Hb|]); intros o Ho; (eapply legal_use; [exact Ho|by left|]).
  - eapply legal_close; [exact Ho|]. by intros o' Ho'.
  - by rewrite (fd_of_some fd E).
Qed.

(** The daemon's servers then ask for the port. *)
Definition start_listener (a : setup) : list syscall * Z :=
  let '(calls, fd) := open_listener a in
  if fd <? 0 then (calls, fd) else (calls ++ [Uses fd], fd).

Lemma start_listener_fd a : (snd (start_listener a) <? 0) = negb (setup_succeeds a).
Proof. rewrite <- open_listener_fd. unfold start_listener. destruct (open_listener a) as [cs fd]. by destruct (fd <? 0). Qed.

Lemma start_listener_legal a rest open :
  has rest [] open -> legal (fst (start_listener a)) (has rest (fd_of (snd (start_listener a)))) open.
Proof.
  intros H0. pose proof (open_listener_legal a rest [] open H0) as Hcalls. unfold start_listener.
  destruct (open_listener a) as [cs fd]. cbn [fst snd] in Hcalls. rewrite app_nil_r in Hcalls.
  destruct (fd <? 0) eqn:E1; cbn [fst snd]; [done|].
  eapply legal_seq; [exact Hcalls|]. intros o Ho. eapply legal_use; [exact Ho|unfold fd_of; rewrite E1; by left|exact Ho].
Qed.

Lemma legal_polls fds calls Q open : legal calls Q open -> legal ((Polls <$> fds) ++ calls) Q open.
Proof. intros Hc. by induction fds. Qed.

Lemma legal_polls_only fds Q open : Q open -> legal (Polls <$> fds) Q open.
Proof. intros Hq. rewrite <- (app_nil_r (Polls <$> fds)). by apply legal_polls. Qed.

(** ** Components *)

(** A component's state, the events that change it with the calls it makes
    then, and the descriptors it holds. *)
Class Owner (S E : Type) := {
  own_step : E -> S -> outcome (list syscall * S);
  held : S -> list Z;
  own_ok : S -> Prop }.

(** The process has open what the component holds and the rest. *)
Definition owns {S E} `{Owner S E} (rest : gset Z) (s : S) (open : gset Z) : Prop := has rest (held s) open.

(** Its calls are legal, and it holds at the end what it has opened and not
    closed. *)
Class OwnerLaws (S E : Type) `{Owner S E} := {
  own_keeps ev s calls s' : own_ok s -> own_step ev s = Ok (calls, s') -> own_ok s';
  own_legal ev s calls s' rest open :
    own_ok s -> own_step ev s = Ok (calls, s') -> owns rest s open -> legal calls (owns rest s') open }.

(** *** Runs *)

Section runs.
Context {S E : Type} `{OwnerLaws S E}.

Fixpoint own_run (events : list E) (s : S) : outcome (list syscall * S) :=
  match events with
  | [] => Ok ([], s)
  | ev :: events' =>
      '(c1, s) ← own_step ev s;
      '(c2, s) ← own_run events' s;
      Ok (c1 ++ c2, s)
  end.

Lemma own_run_keeps events : forall s calls s', own_ok s -> own_run events s = Ok (calls, s') -> own_ok s'.
Proof.
  induction events as [|ev events IH]; intros s calls s' Hok E1; cbn [own_run] in *.
  - by injection E1 as <- <-.
  - inv_ok E1. destruct r as [c1 s1]. inv_ok E1. destruct r as [c2 s2]. injection E1 as <- <-.
    eapply IH; [|exact E2]. by eapply own_keeps.
Qed.

Lemma own_run_legal events : forall s calls s' rest open,
  own_ok s -> own_run events s = Ok (calls, s') -> owns rest s open -> legal calls (owns rest s') open.
Proof.
  induction events as [|ev events IH]; intros s calls s' rest open Hok E1 Ho; cbn [own_run] in *.
  - by injection E1 as <- <-.
  - inv_ok E1. destruct r as [c1 s1]. inv_ok E1. destruct r as [c2 s2]. injection E1 as <- <-.
    eapply legal_seq; [by eapply own_legal|]. intros o Ho1. eapply IH; [|done..]. by eapply own_keeps.
Qed.

Lemma own_run_app e1 : forall e2 s c1 s1 c2 s2,
  own_run e1 s = Ok (c1, s1) -> own_run e2 s1 = Ok (c2, s2) -> own_run (e1 ++ e2) s = Ok (c1 ++ c2, s2).
Proof.
  induction e1 as [|ev e1 IH]; intros e2 s c1 s1 c2 s2 E1 E2; cbn [app own_run] in *; [by injection E1 as <- <-|].
  inv_ok E1. destruct r as [c t]. inv_ok E1. destruct r as [c' t']. injection E1 as <- <-. rewrite E0. cbn [mbind outcome_bind].
  rewrite (IH _ _ _ _ _ _ E3 E2). cbn [mbind outcome_bind]. by rewrite app_assoc.
Qed.

Lemma own_run_split e1 : forall e2 s calls s',
  own_run (e1 ++ e2) s = Ok (calls, s') -> exists c1 s1 c2, own_run e1 s = Ok (c1, s1) /\ own_run e2 s1 = Ok (c2, s') /\ calls = c1 ++ c2.
Proof.
  induction e1 as [|ev e1 IH]; intros e2 s calls s' E1; cbn [app own_run] in *; [by exists [], s, calls|].
  inv_ok E1. destruct r as [c t]. inv_ok E1. destruct r as [c' t']. injection E1 as <- <-. destruct (IH _ _ _ _ E2) as (c1 & s1 & c2 & E3 & E4 & ->).
  exists (c ++ c1), s1, c2. rewrite E0. cbn [mbind outcome_bind]. rewrite E3. split; [done|]. split; [done|]. by rewrite app_assoc.
Qed.
End runs.

(** *** Two components of a process

    Each has to see to its own descriptors only: the other's are part of the
    rest. *)

Section both.
Context {S1 E1 S2 E2 : Type} `{OwnerLaws S1 E1} `{OwnerLaws S2 E2}.

#[export] Instance both_owner : Owner (S1 * S2) (E1 + E2) := {
  own_step ev s :=
    match ev with
    | inl e => '(calls, s1) ← own_step e s.1; Ok (calls, (s1, s.2))
    | inr e => '(calls, s2) ← own_step e s.2; Ok (calls, (s.1, s2))
    end;
  held s := held s.1 ++ held s.2;
  own_ok s := own_ok s.1 /\ own_ok s.2 }.

(** Events of one component only. *)
Lemma own_run_left (events : list E1) : forall s1 (s2 : S2) calls s1',
  own_run events s1 = Ok (calls, s1') -> own_run (inl <$> events) (s1, s2) = Ok (calls, (s1', s2)).
Proof.
  induction events as [|ev events IH]; intros s1 s2 calls s1' E; cbn [fmap list_fmap own_run] in *; [by injection E as <- <-|].
  inv_ok E. destruct r as [c t]. inv_ok E. destruct r as [c' t']. injection E as <- <-. cbn [own_step both_owner fst snd]. rewrite E0. cbn [mbind outcome_bind].
  by rewrite (IH _ _ _ _ E3).
Qed.

Lemma own_run_right (events : list E2) : forall (s1 : S1) s2 calls s2',
  own_run events s2 = Ok (calls, s2') -> own_run (inr <$> events) (s1, s2) = Ok (calls, (s1, s2')).
Proof.
  induction events as [|ev events IH]; intros s1 s2 calls s2' E; cbn [fmap list_fmap own_run] in *; [by injection E as <- <-|].
  inv_ok E. destruct r as [c t]. inv_ok E. destruct r as [c' t']. injection E as <- <-. cbn [own_step both_owner fst snd]. rewrite E0. cbn [mbind outcome_bind].
  by rewrite (IH _ _ _ _ E3).
Qed.

#[export] Instance both_laws : OwnerLaws (S1 * S2) (E1 + E2).
Proof.
  split.
  - intros [e|e] [s1 s2] calls s' [Hok1 Hok2] Es; cbn in *; inv_ok Es; destruct r; injection Es as <- <-; cbn; (split; [first [done|by eapply own_keeps]|first [done|by eapply own_keeps]]).
  - intros [e|e] [s1 s2] calls s' rest open [Hok1 Hok2] Es Ho; cbn in Hok1, Hok2, Es; inv_ok Es; destruct r as [c t]; injection Es as <- <-;
      unfold owns in *; cbn [held both_owner fst snd] in *.
    + eapply legal_left; [|exact Ho]. intros rest' o Ho'. exact (own_legal e s1 c t rest' o Hok1 E Ho').
    + eapply legal_right; [|exact Ho]. intros rest' o Ho'. exact (own_legal e s2 c t rest' o Hok2 E Ho').
Qed.
End both.
End Descriptors.
