(* ===== verification/Listeners.v ===== *)
(** * The daemon's sockets (src/ltp_cla/tcp_ingress.cpp,
    src/ltp_cla/tcp_egress.cpp, src/ltp_cla/convergence_layer_adapter.cpp)

    The two servers and the adapter from their constructors to the end of
    [stop]: starting, the rounds of their threads, stopping, and the
    descriptors they open and close on the way. The steps of the main thread's
    [stop] and of the server's thread are interleaved: it closes the listening
    socket while the thread may be waiting for it. *)
From S2P Require Import Prelude Descriptors Framing Egress.
Import Descriptors.

Definition POLLIN : Z := 1.
Definition POLLERR : Z := 8.
Definition POLLHUP : Z := 16.
Definition POLLNVAL : Z := 32.
Definition revents_in (revents mask : Z) : bool := negb (Z.land revents mask =? 0).

(** Where a server's thread is: not started or joined, at the top of its loop,
    in [poll] with the descriptors it read before, or at its end. *)
Inductive place := Idle | Top | Polling (listen : Z) (fds : list Z) | Finished.

Module IngressServer.

(** The buffers are a variable of [run]; they are empty when it begins. *)
Record TcpIngress := MkServer {
  running : bool; listen_fd : Z; listening_port : Z; thread : place; table : Framing.TcpIngress }.

Definition make : TcpIngress := MkServer false (-1) 0 Idle (Framing.MkIngress [] ∅).

Definition client_fds (s : TcpIngress) : list Z := Framing.client_fds (table s).
Definition client_count (s : TcpIngress) : nat := length (client_fds s).

(** What [poll], [accept] and [read] answer: for every client, in the order of
    [pfds], its [revents] and the result of [read]. *)
Inductive poll_answer :=
  | PollFails (eintr : bool)
  | PollTimeout
  | PollReady (listen_revents accept_ans : Z) (ready : list (Z * (Z * list Z))).

Inductive event := Start (a : setup) | Loop | Round (a : poll_answer) | Stop | Joined.

(** A new connection: the calls, and what it means for the table. *)
Definition accept_calls (listen_fd listen_revents accept_ans : Z) : list syscall :=
  if revents_in listen_revents POLLIN && negb (listen_fd <? 0)
  then Uses listen_fd :: (if 0 <=? accept_ans then [Opens accept_ans] else []) else [].

Definition accept_event (listen_fd listen_revents accept_ans : Z) : list Framing.ingress_event :=
  if revents_in listen_revents POLLIN && negb (listen_fd <? 0) && (0 <=? accept_ans) then [Framing.Accepted accept_ans] else [].

(** The loop over the clients. *)
Fixpoint client_calls (fds : list Z) (ready : list (Z * (Z * list Z))) : list syscall :=
  match fds, ready with
  | fd :: fds', (revents, (n, _)) :: ready' =>
      (if revents_in revents (Z.lor (Z.lor POLLERR POLLHUP) POLLNVAL) then [Closes fd]
       else if revents_in revents POLLIN then Uses fd :: (if n <=? 0 then [Closes fd] else [])
       else []) ++ client_calls fds' ready'
  | _, _ => []
  end.

Fixpoint client_events (fds : list Z) (ready : list (Z * (Z * list Z))) : list Framing.ingress_event :=
  match fds, ready with
  | fd :: fds', (revents, (n, read_buf)) :: ready' =>
      (if revents_in revents (Z.lor (Z.lor POLLERR POLLHUP) POLLNVAL) then [Framing.Disconnected fd]
       else if revents_in revents POLLIN then [Framing.Readable fd n read_buf]
       else []) ++ client_events fds' ready'
  | _, _ => []
  end.

(** The messages passed to [on_data_], the calls and the state. *)
Definition step (ev : event) (s : TcpIngress) : outcome (list (Z * list Z) * list syscall * TcpIngress) :=
  let '(MkServer r l p t c) := s in
  match ev with
  | Start a =>
      match r, t with
      | false, Idle =>
          let '(calls, fd) := start_listener a in
          if fd <? 0 then Ok ([], calls, MkServer false fd p Idle c)
          else Ok ([], calls,
                   MkServer true fd (if getsockname_ans a =? 0 then bound_port a else p) Top (Framing.MkIngress (Framing.client_fds c) ∅))
      | _, _ => Ok ([], [], s)
      end
  | Loop =>
      match t with
      | Top => Ok ([], [], MkServer r l p (if r then Polling l (Framing.client_fds c) else Finished) c)
      | _ => Ok ([], [], s)
      end
  | Round a =>
      match t with
      | Polling l' fds =>
          let polls := (Polls <$> fd_of l') ++ (Uses <$> fds) in
          match a with
          | PollFails eintr => Ok ([], polls, MkServer r l p (if eintr then Top else Finished) c)
          | PollTimeout => Ok ([], polls, MkServer r l p Top c)
          | PollReady listen_revents accept_ans ready =>
              '(msgs, c) ← Framing.run_ingress c (accept_event l listen_revents accept_ans ++ client_events fds ready);
              Ok (msgs, polls ++ accept_calls l listen_revents accept_ans ++ client_calls fds ready, MkServer r l p Top c)
          end
      | _ => Ok ([], [], s)
      end
  | Stop => if r then Ok ([], close_fd l, MkServer false (-1) p t c) else Ok ([], [], s)
  | Joined =>
      match r, t with
      | false, Finished => Ok ([], Closes <$> Framing.client_fds c, MkServer false l p Idle (Framing.MkIngress [] ∅))
      | _, _ => Ok ([], [], s)
      end
  end.

(** A message, and a client that goes while the server is stopping. *)
Example life :
  let ok := MkSetup 3 1 0 0 0 4556 in
  let '(msgs, calls, s) :=
    fold_left (fun acc ev => let '(m, c, s) := acc in match step ev s with Ok (m', c', s') => (m ++ m', c ++ c', s') | Err _ => acc end)
      [Start ok; Loop; Round (PollReady POLLIN 7 []); Loop; Round (PollReady 0 (-1) [(POLLIN, (5, [0; 0; 0; 1; 65]))]); Loop; Stop;
       Round (PollReady POLLNVAL (-1) [(POLLHUP, (0, []))]); Loop; Joined] ([], [], make) in
  msgs = [(7, [65])] /\ s = MkServer false (-1) 4556 Idle (Framing.MkIngress [] ∅) /\
  calls = [Opens 3; Uses 3; Uses 3; Uses 3; Uses 3; Polls 3; Uses 3; Opens 7; Polls 3; Uses 7; Uses 7; Closes 3; Polls 3; Uses 7; Closes 7].
Proof. vm_compute. split_and!; reflexivity. Qed.

(** ** As an owner of descriptors *)

(** The server holds a listening socket exactly while it is running, and the
    thread polls the clients there are. *)
Definition coherent (s : TcpIngress) : Prop :=
  (listen_fd s <? 0) = negb (running s) /\
  match thread s with
  | Idle => running s = false /\ client_fds s = []
  | Polling _ fds => fds = client_fds s
  | _ => True
  end.

#[global] Instance ingress_owner : Owner TcpIngress event := {
  own_step ev s := '(_, calls, s) ← step ev s; Ok (calls, s);
  held s := fd_of (listen_fd s) ++ client_fds s;
  own_ok := coherent }.

Lemma remove_perm (fd : Z) l : NoDup l -> fd ∈ l -> l ≡ₚ fd :: filter (fun f => f <> fd) l.
Proof.
  intros Hn Hfd. apply NoDup_Permutation; [done| |].
  - apply NoDup_cons. split; [|by apply NoDup_filter]. by intros [? _]%list_elem_of_filter.
  - intros x. rewrite elem_of_cons, list_elem_of_filter. destruct (decide (x = fd)) as [->|]; tauto.
Qed.

(** A client that is removed and closed. *)
Lemma remove_has rest pre fd c open :
  has rest (pre ++ Framing.client_fds c) open -> fd ∈ Framing.client_fds c ->
  has rest (fd :: pre ++ Framing.client_fds (Framing.remove_client c fd)) open.
Proof.
  intros Hh Hfd. pose proof Hh as ((_ & _ & Hn)%NoDup_app & _). eapply has_perm; [|exact Hh]. cbn [Framing.remove_client Framing.client_fds].
  rewrite (remove_perm fd (Framing.client_fds c) Hn Hfd) at 1. symmetry. apply Permutation_middle.
Qed.

Lemma clients_legal rest pre fds : forall ready c msgs c' open,
  Framing.run_ingress c (client_events fds ready) = Ok (msgs, c') -> NoDup fds -> fds ⊆ Framing.client_fds c ->
  has rest (pre ++ Framing.client_fds c) open ->
  legal (client_calls fds ready) (has rest (pre ++ Framing.client_fds c')) open.
Proof.
  induction fds as [|fd fds IH]; intros ready c msgs c' open E Hnd Hsub Hh; [by injection E as <- <-|].
  destruct ready as [|[revents [n buf]] ready]; [by injection E as <- <-|].
  apply NoDup_cons in Hnd as [Hfd Hnd]. assert (fd ∈ Framing.client_fds c) as Hin by (apply Hsub; by left).
  assert (fds ⊆ Framing.client_fds c) as Hsub' by (intros x Hx; apply Hsub; by right).
  assert (fds ⊆ Framing.client_fds (Framing.remove_client c fd)) as Hsub1.
  { intros x Hx. apply list_elem_of_filter. split; [|by apply Hsub']. by intros ->. }
  cbn [client_calls client_events] in *. destruct (revents_in revents _); [|destruct (revents_in revents POLLIN)]; cbn [app] in *.
  - cbn [Framing.run_ingress Framing.handle_event mbind outcome_bind] in E. inv_ok E. destruct r as [m s]. injection E as <- <-.
    eapply legal_close; [by apply remove_has|]. intros o Ho. by eapply IH.
  - cbn [Framing.run_ingress Framing.handle_event] in E. eapply legal_use; [exact Hh|apply elem_of_app; by right|]. destruct (n <=? 0); cbn [app] in *.
    + cbn [mbind outcome_bind] in E. inv_ok E. destruct r as [m s]. injection E as <- <-. eapply legal_close; [by apply remove_has|]. intros o Ho. by eapply IH.
    + inv_ok E. destruct r as [m s]. inv_ok E. destruct r as [m' s']. injection E as <- <-.
      destruct (Framing.read_chunk _ _) as [[ms b]|]; cbn [mbind outcome_bind] in E0; [|done]. injection E0 as <- <-. by eapply IH.
  - by eapply IH.
Qed.

Lemma run_ingress_split e1 : forall e2 c msgs c', Framing.run_ingress c (e1 ++ e2) = Ok (msgs, c') ->
  exists m1 c1 m2, Framing.run_ingress c e1 = Ok (m1, c1) /\ Framing.run_ingress c1 e2 = Ok (m2, c').
Proof.
  induction e1 as [|e e1 IH]; intros e2 c msgs c' E; cbn [app Framing.run_ingress] in *; [by exists [], c, msgs|].
  inv_ok E. destruct r as [m s]. inv_ok E. destruct r as [m' s']. injection E as <- <-. destruct (IH _ _ _ _ E1) as (m1 & c1 & m2 & E2 & E3).
  exists (m ++ m1), c1, m2. rewrite E0. cbn [mbind outcome_bind]. by rewrite E2.
Qed.

Lemma accept_legal rest l rev ans c msgs c' open :
  Framing.run_ingress c (accept_event l rev ans) = Ok (msgs, c') -> has rest (fd_of l ++ Framing.client_fds c) open ->
  Framing.client_fds c `prefix_of` Framing.client_fds c' /\
  legal (accept_calls l rev ans) (has rest (fd_of l ++ Framing.client_fds c')) open.
Proof.
  intros E Hh. unfold accept_event, accept_calls, fd_of in *. destruct (revents_in rev POLLIN); cbn [andb] in *; [|by injection E as <- <-].
  destruct (l <? 0); cbn [negb andb] in *; [by injection E as <- <-|]. destruct (0 <=? ans) eqn:Ea.
  - cbn [Framing.run_ingress Framing.handle_event] in E. rewrite Ea in E. injection E as <- <-. cbn [Framing.client_fds]. split; [by eexists|].
    eapply legal_use; [exact Hh|by left|]. eapply legal_open; [exact Hh|]. intros o Ho. eapply has_perm; [|exact Ho]. cbn [app].
    rewrite (Permutation_app_comm (Framing.client_fds c) [ans]). apply perm_swap.
  - injection E as <- <-. split; [done|]. eapply legal_use; [exact Hh|by left|exact Hh].
Qed.

#[global] Instance ingress_laws : OwnerLaws TcpIngress event.
Proof.
  split.
  - intros ev [r l p t c] calls s' [Hl Ht] E. cbn [own_step ingress_owner] in E. inv_ok E. destruct r0 as [[m k] s]. injection E as <- <-.
    unfold own_ok, ingress_owner, coherent, client_fds in *. cbn [running listen_fd thread table] in *.
    destruct ev as [a| |a| |]; cbn [step] in E0.
    + destruct r, t; try (injection E0 as <- <- <-; done). pose proof (start_listener_fd a) as Ef.
      destruct (start_listener a) as [cs fd]. cbn [snd] in Ef. destruct (fd <? 0) eqn:E1; injection E0 as <- <- <-; by cbn.
    + destruct t; injection E0 as <- <- <-; try done. by destruct r.
    + destruct t as [| |l' fds|]; try (injection E0 as <- <- <-; done). destruct a as [[]| |lr acc ready]; try (injection E0 as <- <- <-; done).
      inv_ok E0. destruct r0 as [m' c']. injection E0 as <- <- <-. done.
    + destruct r; injection E0 as <- <- <-; [|done]. cbn. split; [done|]. destruct t; naive_solver.
    + destruct r, t; injection E0 as <- <- <-; done.
  - intros ev [r l p t c] calls s' rest open [Hl Ht] E Hh. cbn [own_step ingress_owner] in E. inv_ok E. destruct r0 as [[m k] s]. injection E as <- <-.
    unfold owns, held, ingress_owner, coherent, client_fds in *. cbn [running listen_fd thread table] in *.
    destruct ev as [a| |a| |]; cbn [step] in E0.
    + destruct r, t; try (injection E0 as <- <- <-; done). destruct Ht as [_ Hc]. cbn [negb] in Hl.
      assert (has rest [] open) as H0 by (unfold fd_of in Hh; by rewrite Hl, Hc in Hh).
      pose proof (start_listener_legal a rest open H0) as Hcalls. destruct (start_listener a) as [cs fd].
      destruct (fd <? 0); injection E0 as <- <- <-; cbn [listen_fd table Framing.client_fds]; by rewrite Hc, app_nil_r.
    + destruct t; injection E0 as <- <- <-; done.
    + destruct t as [| |l' fds|]; try (injection E0 as <- <- <-; done). subst fds.
      assert (forall cs Q, legal cs Q open -> legal (((Polls <$> fd_of l') ++ (Uses <$> Framing.client_fds c)) ++ cs) Q open) as Hpoll.
      { intros cs Q Hcs. rewrite <- app_assoc. apply legal_polls, legal_app, legal_uses; [|done]. intros fd Hfd. eapply has_open; [exact Hh|]. apply elem_of_app. by right. }
      destruct a as [eintr| |lr acc ready].
      1,2: injection E0 as <- <- <-; specialize (Hpoll [] _ Hh); by rewrite app_nil_r in Hpoll.
      inv_ok E0. destruct r0 as [m' c']. injection E0 as <- <- <-. apply Hpoll. cbn [listen_fd table].
      apply run_ingress_split in E as (m1 & c1 & m2 & E1 & E2). destruct (accept_legal _ _ _ _ _ _ _ _ E1 Hh) as [[fs Hpre] Hacc].
      eapply legal_seq; [exact Hacc|]. intros o Ho. eapply clients_legal; [exact E2| | |exact Ho].
      * destruct Hh as ((_ & _ & Hn)%NoDup_app & _). done.
      * rewrite Hpre. intros x Hx. apply elem_of_app. by left.
    + destruct r; injection E0 as <- <- <-; [|done]. cbn [listen_fd table]. unfold close_fd. apply legal_close_all. exact Hh.
    + destruct r, t; injection E0 as <- <- <-; try done. cbn [listen_fd table Framing.client_fds]. rewrite app_nil_r. apply legal_close_all.
      eapply has_perm; [|exact Hh]. apply Permutation_app_comm.
Qed.
End IngressServer.

Module EgressServer.

Record TcpEgress := MkServer { running : bool; listen_fd : Z; listening_port : Z; thread : place; state : Egress.TcpEgress }.

Definition make : TcpEgress := MkServer false (-1) 0 Idle Egress.egress_start.

Definition client_fds (s : TcpEgress) : list Z := Egress.client_fds (state s).
Definition client_count (s : TcpEgress) : nat := length (client_fds s).
Definition buffer_bytes (s : TcpEgress) : Z := Egress.buffer_bytes (state s).

(** With an accepted connection goes what the writes of the flush answer. *)
Inductive poll_answer :=
  | PollFails (eintr : bool)
  | PollTimeout
  | PollReady (listen_revents accept_ans : Z) (ups : nat -> Egress.writes).

Inductive event := Start (a : setup) | Loop | Round (a : poll_answer) | Deliver (up : Egress.writes) (data : list Z) | Stop | Joined.

(** Writing to every client, and closing those whose write failed. The writes
    of one block to one client count as one use. *)
Definition write_calls (up : Egress.writes) (framed : list Z) (clients : list Z) : list syscall :=
  (Uses <$> clients) ++ (Closes <$> filter (fun fd => ~ Egress.takes up framed fd = true) clients).

Fixpoint flush_calls (ups : nat -> Egress.writes) (buffer : list (list Z)) (clients : list Z) : list syscall :=
  match buffer, clients with
  | front :: buffer', _ :: _ =>
      write_calls (ups 0%nat) front clients ++
      flush_calls (fun k => ups (S k)) buffer' (filter (fun fd => Egress.takes (ups 0%nat) front fd = true) clients)
  | _, _ => []
  end.

Definition deliver_calls (up : Egress.writes) (data : list Z) (e : Egress.TcpEgress) : list syscall :=
  write_calls up (Framing.frame_message data) (Egress.client_fds e).

Definition with_state (e : Egress.TcpEgress) (s : TcpEgress) : TcpEgress :=
  MkServer (running s) (listen_fd s) (listening_port s) (thread s) e.
Definition with_thread (t : place) (s : TcpEgress) : TcpEgress :=
  MkServer (running s) (listen_fd s) (listening_port s) t (state s).

(** The blocks written, the calls and the state. *)
Definition step (c : Egress.EgressConfig) (ev : event) (s : TcpEgress) : list (Z * list Z) * list syscall * TcpEgress :=
  match ev with
  | Start a =>
      match running s, thread s with
      | false, Idle =>
          let '(calls, fd) := start_listener a in
          if fd <? 0 then ([], calls, MkServer false fd (listening_port s) Idle (state s))
          else ([], calls,
                MkServer true fd (if getsockname_ans a =? 0 then bound_port a else listening_port s) Top (state s))
      | _, _ => ([], [], s)
      end
  | Loop =>
      match thread s with
      | Top => ([], [], with_thread (if running s then Polling (listen_fd s) [] else Finished) s)
      | _ => ([], [], s)
      end
  | Round a =>
      match thread s with
      | Polling l' _ =>
          let polls := Polls <$> fd_of l' in
          match a with
          | PollFails eintr => ([], polls, with_thread (if eintr then Top else Finished) s)
          | PollTimeout => ([], polls, with_thread Top s)
          | PollReady listen_revents accept_ans ups =>
              if revents_in listen_revents POLLIN && negb (listen_fd s <? 0) then
                if 0 <=? accept_ans then
                  let '(out, e) := Egress.accept_client ups accept_ans (state s) in
                  (out, polls ++ [Uses (listen_fd s); Opens accept_ans] ++
                        flush_calls ups (Egress.buffer (state s)) (client_fds s ++ [accept_ans]),
                   with_thread Top (with_state e s))
                else ([], polls ++ [Uses (listen_fd s)], with_thread Top s)
              else ([], polls, with_thread Top s)
          end
      | _ => ([], [], s)
      end
  | Deliver up data =>
      let '(out, e) := Egress.deliver c up data (state s) in (out, deliver_calls up data (state s), with_state e s)
  | Stop => if running s then ([], close_fd (listen_fd s), MkServer false (-1) (listening_port s) (thread s) (state s)) else ([], [], s)
  | Joined =>
      match running s, thread s with
      | false, Finished =>
          ([], Closes <$> client_fds s,
           with_thread Idle (with_state (Egress.MkEgress [] (Egress.buffer (state s)) (Egress.buffer_bytes (state s))) s))
      | _, _ => ([], [], s)
      end
  end.

(** ** As an owner of descriptors *)

Definition coherent (s : TcpEgress) : Prop :=
  (listen_fd s <? 0) = negb (running s) /\ (thread s = Idle -> running s = false /\ client_fds s = []).

Section owner.
Context (c : Egress.EgressConfig).

#[local] Instance egress_owner : Owner TcpEgress event := {
  own_step ev s := let '(_, calls, s) := step c ev s in Ok (calls, s);
  held s := fd_of (listen_fd s) ++ client_fds s;
  own_ok := coherent }.

Lemma write_legal rest pre up framed clients open :
  has rest (pre ++ clients) open ->
  legal (write_calls up framed clients) (has rest (pre ++ filter (fun fd => Egress.takes up framed fd = true) clients)) open.
Proof.
  intros Hh. unfold write_calls. apply legal_app, legal_uses.
  - intros fd Hfd. eapply has_open; [exact Hh|]. apply elem_of_app. by right.
  - apply legal_close_all. eapply has_perm; [|exact Hh]. rewrite <- (filter_app_complement (fun fd => Egress.takes up framed fd = true) clients) at 1.
    rewrite app_assoc. apply Permutation_app_comm.
Qed.

Lemma flush_legal rest pre buffer : forall ups bytes clients open,
  has rest (pre ++ clients) open ->
  legal (flush_calls ups buffer clients) (has rest (pre ++ Egress.client_fds (snd (Egress.flush_loop ups buffer bytes clients)))) open.
Proof.
  induction buffer as [|front buffer IH]; intros ups bytes clients open Hh; cbn [flush_calls Egress.flush_loop]; [by destruct clients|].
  destruct clients as [|f fs] eqn:Ec; [done|]. rewrite <- Ec in *. unfold Egress.write_to_clients.
  eapply legal_seq; [by apply write_legal|]. intros o Ho. specialize (IH (fun k => ups (S k)) (u64 (bytes - zlen front)) _ o Ho).
  by destruct (Egress.flush_loop _ buffer _ _).
Qed.

Lemma deliver_clients up data e :
  Egress.client_fds (snd (Egress.deliver c up data e)) = filter (fun fd => Egress.takes up (Framing.frame_message data) fd = true) (Egress.client_fds e).
Proof. unfold Egress.deliver. destruct (Egress.client_fds e) eqn:E; [by destruct (Egress.discard _ _ _ _)|]. done. Qed.

#[local] Instance egress_laws : OwnerLaws TcpEgress event.
Proof.
  split.
  - intros ev s calls s' [Hl Ht] E. cbn [own_step egress_owner] in E. unfold own_ok, egress_owner, coherent, client_fds in *.
    destruct s as [r l p t e]. cbn [running listen_fd thread state] in *. destruct ev as [a| |a|up data| |]; cbn [step running listen_fd thread state] in E.
    + destruct r, t; try (injection E as <- <-; done). pose proof (start_listener_fd a) as Ef.
      destruct (start_listener a) as [cs fd]. destruct (fd <? 0) eqn:E1; injection E as <- <-; by cbn.
    + destruct t; injection E as <- <-; try done. cbn. split; [done|]. by destruct r.
    + destruct t as [| |l' fds|]; try (injection E as <- <-; done). destruct a as [[]| |lr acc ups]; try (injection E as <- <-; done).
      destruct (_ && _); [|injection E as <- <-; done]. destruct (0 <=? acc); [|injection E as <- <-; done].
      destruct (Egress.accept_client _ _ _). by injection E as <- <-.
    + pose proof (deliver_clients up data e) as Hd. destruct (Egress.deliver c up data e) as [out e']. injection E as <- <-. cbn in *.
      split; [done|]. intros Hi. destruct (Ht Hi) as [? Hc]. by rewrite Hd, Hc.
    + destruct r; injection E as <- <-; [|done]. cbn. split; [done|]. intros Hi. by destruct (Ht Hi).
    + destruct r, t; injection E as <- <-; done.
  - intros ev s calls s' rest open [Hl Ht] E Hh. cbn [own_step egress_owner] in E. unfold owns, held, egress_owner, client_fds in *.
    destruct s as [r l p t e]. cbn [running listen_fd thread state] in *. destruct ev as [a| |a|up data| |]; cbn [step running listen_fd thread state] in E.
    + destruct r, t; try (injection E as <- <-; done). destruct (Ht eq_refl) as [_ Hc]. unfold client_fds in Hc. cbn [state negb] in Hc, Hl.
      assert (has rest [] open) as H0 by (unfold fd_of in Hh; by rewrite Hl, Hc in Hh).
      pose proof (start_listener_legal a rest open H0) as Hcalls. destruct (start_listener a) as [cs fd].
      destruct (fd <? 0); injection E as <- <-; cbn [listen_fd state]; by rewrite Hc, app_nil_r.
    + destruct t; injection E as <- <-; done.
    + destruct t as [| |l' fds|]; try (injection E as <- <-; done).
      destruct a as [eintr| |lr acc ups]; try (injection E as <- <-; by apply legal_polls_only).
      destruct (revents_in lr POLLIN && negb (l <? 0)) eqn:Er; [|injection E as <- <-; by apply legal_polls_only].
      apply andb_true_iff in Er as [_ El%negb_true_iff]. unfold fd_of in *. rewrite El in *. destruct (0 <=? acc).
      * destruct (Egress.accept_client ups acc e) as [out e'] eqn:Ea. injection E as <- <-. apply legal_polls. cbn [app]. eapply legal_use; [exact Hh|by left|].
        eapply legal_open; [exact Hh|]. intros o Ho. cbn [with_thread with_state listen_fd state]. rewrite El. cbn [app].
        assert (has rest ([l] ++ (Egress.client_fds e ++ [acc])) o) as Ho'.
        { eapply has_perm; [|exact Ho]. cbn [app]. rewrite (Permutation_app_comm (Egress.client_fds e) [acc]). apply perm_swap. }
        eapply flush_legal in Ho'. unfold Egress.accept_client, Egress.flush_buffer_to_clients in Ea. cbn [Egress.client_fds Egress.buffer Egress.buffer_bytes] in Ea.
        eapply legal_mono; [exact Ho'|]. intros o'. by rewrite Ea.
      * injection E as <- <-. apply legal_polls. eapply legal_use; [exact Hh|by left|]. cbn [with_thread listen_fd state]. by rewrite El.
    + pose proof (deliver_clients up data e) as Hd. destruct (Egress.deliver c up data e) as [out e']. injection E as <- <-. cbn [snd] in Hd.
      cbn [with_state listen_fd state]. rewrite Hd. by apply write_legal.
    + destruct r; injection E as <- <-; [|done]. cbn [listen_fd state]. unfold close_fd. apply legal_close_all. exact Hh.
    + destruct r, t; injection E as <- <-; try done. cbn [with_thread with_state listen_fd state Egress.client_fds]. rewrite app_nil_r. apply legal_close_all.
      eapply has_perm; [|exact Hh]. apply Permutation_app_comm.
Qed.
End owner.
End EgressServer.

Module Adapter.

(** What the calls of [connect_to] answer. *)
Record attempt := MkAttempt { socket_ans : Z; pton_ans : Z; connect_ans : Z }.

Definition connect_to (a : attempt) : list syscall * Z :=
  let fd := socket_ans a in
  if fd <? 0 then ([], -1)
  else if pton_ans a <=? 0 then ([Opens fd; Closes fd], -1)
  else if connect_ans a <? 0 then ([Opens fd; Uses fd; Closes fd], -1)
  else ([Opens fd; Uses fd], fd).

(** Where a thread is: not started or joined, in [reconnect_loop], in its own
    loop, or at its end. *)
Inductive progress := Off | Connecting | Serving | Ended.

(** One direction: its descriptor, its flag and its thread. *)
Record Link := MkLink { fd : Z; connected : bool; thread : progress }.

Record ConvergenceLayerAdapter := MkAdapter { running : bool; tx : Link; rx : Link }.

Definition off : Link := MkLink (-1) false Off.
Definition make : ConvergenceLayerAdapter := MkAdapter false off off.

Definition is_tx_connected (s : ConvergenceLayerAdapter) : bool := connected (tx s).
Definition is_rx_connected (s : ConvergenceLayerAdapter) : bool := connected (rx s).

(** The connection is lost: closed, and made again. *)
Definition lose (l : Link) : list syscall * Link := ([Closes (fd l)], MkLink (-1) false Connecting).

Definition ended (l : Link) : Link := MkLink (fd l) (connected l) Ended.

(** A round of [reconnect_loop]. *)
Definition reconnect (running : bool) (a : attempt) (l : Link) : list syscall * Link :=
  match thread l with
  | Connecting =>
      if running then
        let '(calls, fd) := connect_to a in
        if fd <? 0 then (calls, MkLink fd (connected l) Connecting) else (calls, MkLink fd true Serving)
      else ([], ended l)
  | _ => ([], l)
  end.

(** A [write] of the transmitting thread, and a round of the receiving one. *)
Definition write_once (running : bool) (n : Z) (l : Link) : list syscall * Link :=
  match thread l with
  | Serving =>
      if running then
        if n <=? 0 then let '(calls, l') := lose l in (Uses (fd l) :: calls, l') else ([Uses (fd l)], l)
      else ([], ended l)
  | _ => ([], l)
  end.

Inductive poll_answer := PollFails (eintr : bool) | PollTimeout | PollReady (revents n : Z).

Definition rx_round (running : bool) (a : poll_answer) (l : Link) : list syscall * Link :=
  match thread l with
  | Serving =>
      if running then
        match a with
        | PollFails eintr => ([Uses (fd l)], if eintr then l else ended l)
        | PollTimeout => ([Uses (fd l)], l)
        | PollReady revents n =>
            if revents_in revents (Z.lor POLLERR POLLHUP) then let '(calls, l') := lose l in (Uses (fd l) :: calls, l')
            else if revents_in revents POLLIN then
              if n <=? 0 then let '(calls, l') := lose l in (Uses (fd l) :: Uses (fd l) :: calls, l')
              else ([Uses (fd l); Uses (fd l)], l)
            else ([Uses (fd l)], l)
        end
      else ([], ended l)
  | _ => ([], l)
  end.

Inductive event := Start | ReconnectTx (a : attempt) | ReconnectRx (a : attempt) | Write (n : Z) | Round (a : poll_answer) | Stop | Joined.

Definition step (ev : event) (s : ConvergenceLayerAdapter) : list syscall * ConvergenceLayerAdapter :=
  let '(MkAdapter r t x) := s in
  match ev with
  | Start =>
      match r, thread t, thread x with
      | false, Off, Off => ([], MkAdapter true (MkLink (fd t) (connected t) Connecting) (MkLink (fd x) (connected x) Connecting))
      | _, _, _ => ([], s)
      end
  | ReconnectTx a => let '(calls, t) := reconnect r a t in (calls, MkAdapter r t x)
  | ReconnectRx a => let '(calls, x) := reconnect r a x in (calls, MkAdapter r t x)
  | Write n => let '(calls, t) := write_once r n t in (calls, MkAdapter r t x)
  | Round a => let '(calls, x) := rx_round r a x in (calls, MkAdapter r t x)
  | Stop => ([], MkAdapter false t x)
  | Joined =>
      match r, thread t, thread x with
      | false, Ended, Ended => (close_fd (fd t) ++ close_fd (fd x), MkAdapter false off off)
      | _, _, _ => ([], s)
      end
  end.

(** ** As an owner of descriptors *)

(** The flag says whether there is a connection. *)
Definition link_ok (l : Link) : Prop :=
  connected l = negb (fd l <? 0) /\
  match thread l with Off | Connecting => connected l = false | Serving => connected l = true | Ended => True end.

Definition coherent (s : ConvergenceLayerAdapter) : Prop :=
  link_ok (tx s) /\ link_ok (rx s) /\ (thread (tx s) = Off <-> thread (rx s) = Off) /\ (running s = true -> thread (tx s) <> Off).

#[global] Instance adapter_owner : Owner ConvergenceLayerAdapter event := {
  own_step ev s := Ok (step ev s);
  held s := fd_of (fd (tx s)) ++ fd_of (fd (rx s));
  own_ok := coherent }.

(** What one direction does is legal next to anything else. *)
Record link_legal (l : Link) (calls : list syscall) (l' : Link) : Prop := {
  legal_link_ok : link_ok l';
  legal_link_off : thread l' = Off <-> thread l = Off;
  legal_link_calls rest pre open :
    has rest (pre ++ fd_of (fd l)) open -> legal calls (has rest (pre ++ fd_of (fd l'))) open }.

Lemma link_legal_refl l : link_ok l -> link_legal l [] l.
Proof. by split. Qed.

Lemma link_legal_ended l : link_ok l -> thread l <> Off -> link_legal l [] (ended l).
Proof. intros [Hc _] Ht. split; [by split|done|done]. Qed.

Lemma link_legal_use l calls l' :
  (fd l <? 0) = false -> link_legal l calls l' -> link_legal l (Uses (fd l) :: calls) l'.
Proof.
  intros Hf [H1 H2 H3]. split; [done|done|]. intros rest pre open Hh. eapply legal_use; [exact Hh| |by apply H3].
  unfold fd_of. rewrite Hf. apply elem_of_app. right. by left.
Qed.

Lemma link_legal_lose l : (fd l <? 0) = false -> thread l = Serving -> link_legal l [Closes (fd l)] (MkLink (-1) false Connecting).
Proof.
  intros Hf Ht. split; [by split|by rewrite Ht|]. intros rest pre open Hh. cbn [fd]. unfold fd_of in *. rewrite Hf in Hh.
  eapply (has_perm _ _ ([fd l] ++ pre)) in Hh; [|apply Permutation_app_comm].
  eapply legal_close; [exact Hh|]. intros o Ho. by rewrite app_nil_r.
Qed.

#[local] Hint Resolve link_legal_refl link_legal_ended link_legal_use link_legal_lose : core.

Lemma connect_legal a rest l open :
  has rest l open -> legal (fst (connect_to a)) (has rest (fd_of (snd (connect_to a)) ++ l)) open.
Proof.
  intros Hl. unfold connect_to, fd_of.
  assert (forall o, has rest (socket_ans a :: l) o -> socket_ans a ∈ o) as Hin by (intros o Ho; eapply has_open; [exact Ho|by left]).
  repeat (case_match; cbn [fst snd legal app]); try lia; try done; intros Hfd; pose proof (has_new _ _ _ _ Hl Hfd) as Hn; pose proof (Hin _ Hn);
    split_and?; try done; try by apply has_closed.
Qed.

Lemma reconnect_legal r a l : link_ok l -> link_legal l (fst (reconnect r a l)) (snd (reconnect r a l)).
Proof.
  intros Hl. unfold reconnect. destruct (thread l) eqn:Et; auto. assert (thread l <> Off) by congruence. destruct r; [|by auto].
  pose proof (connect_legal a) as Hc. destruct (connect_to a) as [calls f]. cbn [fst snd] in Hc.
  destruct Hl as [Hl1 Hl2]. rewrite Et in Hl2. assert ((fd l <? 0) = true) as Hf by (rewrite Hl1 in Hl2; by destruct (fd l <? 0)).
  assert (forall rest pre open, has rest (pre ++ fd_of (fd l)) open -> legal calls (has rest (pre ++ fd_of f)) open) as Hleg.
  { intros rest pre open Hh. unfold fd_of at 1 in Hh. rewrite Hf, app_nil_r in Hh. eapply legal_mono; [by apply Hc|].
    intros o. apply has_perm, Permutation_app_comm. }
  destruct (f <? 0) eqn:Ef; cbn [fst snd]; (split; [split; cbn; by rewrite ?Ef|by rewrite Et|done]).
Qed.

Lemma serving_open l : link_ok l -> thread l = Serving -> (fd l <? 0) = false.
Proof. intros [H1 H2] Et. rewrite Et, H1 in H2. by destruct (fd l <? 0). Qed.

Lemma write_once_legal r n l : link_ok l -> link_legal l (fst (write_once r n l)) (snd (write_once r n l)).
Proof.
  intros Hl. unfold write_once, lose. destruct (thread l) eqn:Et; auto. pose proof (serving_open l Hl Et). assert (thread l <> Off) by congruence.
  destruct r; [destruct (n <=? 0)|]; cbn [fst snd]; auto.
Qed.

Lemma rx_round_legal r a l : link_ok l -> link_legal l (fst (rx_round r a l)) (snd (rx_round r a l)).
Proof.
  intros Hl. unfold rx_round, lose. destruct (thread l) eqn:Et; auto. pose proof (serving_open l Hl Et). assert (thread l <> Off) by congruence.
  destruct r; [|by auto]. destruct a as [[]| |revents n]; [cbn [fst snd]; by auto..|].
  destruct (revents_in revents _); [|destruct (revents_in revents POLLIN); [destruct (n <=? 0)|]]; cbn [fst snd]; auto.
Qed.

#[global] Instance adapter_laws : OwnerLaws ConvergenceLayerAdapter event.
Proof.
  assert (forall r t x calls t', link_ok x -> (thread t = Off <-> thread x = Off) /\ (r = true -> thread t <> Off) -> link_legal t calls t' ->
    coherent (MkAdapter r t' x) /\
    forall rest open, has rest (fd_of (fd t) ++ fd_of (fd x)) open -> legal calls (has rest (fd_of (fd t') ++ fd_of (fd x))) open) as Htx.
  { intros r t x calls t' Hx Hr [H1 H2 H3]. split; [split; [done|split; [done|]]; cbn; rewrite ?H2; naive_solver|]. intros rest open Hh.
    eapply legal_mono; [apply H3; eapply has_perm; [|exact Hh]; apply Permutation_app_comm|]. intros o. apply has_perm, Permutation_app_comm. }
  assert (forall r t x calls x', link_ok t -> (thread t = Off <-> thread x = Off) /\ (r = true -> thread t <> Off) -> link_legal x calls x' ->
    coherent (MkAdapter r t x') /\
    forall rest open, has rest (fd_of (fd t) ++ fd_of (fd x)) open -> legal calls (has rest (fd_of (fd t) ++ fd_of (fd x'))) open) as Hrx.
  { intros r t x calls x' Ht Hr [H1 H2 H3]. split; [split; [done|split; [done|]]; cbn; rewrite ?H2; naive_solver|]. intros rest open. apply H3. }
  assert (forall ev s, coherent s -> coherent (step ev s).2 /\
    forall rest open, owns rest s open -> legal (step ev s).1 (owns rest (step ev s).2) open) as Hstep.
  { intros ev [r t x] Hok. pose proof Hok as (Ht & Hx & Hr). unfold owns, held, adapter_owner. cbn [tx rx running] in *. destruct ev as [|a|a|n|a| |]; cbn [step].
    - destruct r; [split; [exact Hok|done]|]. destruct (thread t) eqn:Et, (thread x) eqn:Ex; try (split; [exact Hok|done]). cbn [fst snd]. split; [|done].
      destruct Ht as [Ht1 Ht2], Hx as [Hx1 Hx2]. rewrite Et in Ht2. rewrite Ex in Hx2. split; [by split|]. split; [by split|]. by split.
    - pose proof (reconnect_legal r a t Ht) as Hl. destruct (reconnect r a t). by apply Htx.
    - pose proof (reconnect_legal r a x Hx) as Hl. destruct (reconnect r a x). by apply Hrx.
    - pose proof (write_once_legal r n t Ht) as Hl. destruct (write_once r n t). by apply Htx.
    - pose proof (rx_round_legal r a x Hx) as Hl. destruct (rx_round r a x). by apply Hrx.
    - split; [split; [done|split; [done|split; [apply Hr|done]]]|done].
    - destruct r; [split; [exact Hok|done]|]. destruct (thread t) eqn:Et, (thread x) eqn:Ex; try (split; [exact Hok|done]). cbn [fst snd]. split; [split; [by split|split; [by split|by split]]|].
      intros rest open Hh. unfold close_fd. rewrite <- fmap_app. apply legal_close_all. by rewrite app_nil_r. }
  split.
  - intros ev s calls s' Hok [= E]. destruct (Hstep ev s Hok) as [Hs _]. by rewrite E in Hs.
  - intros ev s calls s' rest open Hok [= E] Hh. destruct (Hstep ev s Hok) as [_ Hs]. specialize (Hs rest open Hh). by rewrite E in Hs.
Qed.
End Adapter.
