(* ===== verification/Process.v ===== *)
(** * The daemon as a process (src/ltp_cla/main.cpp)

    Its three components that own sockets, started and stopped by [main],
    their threads in any order, and what they leave open. *)
From S2P Require Import Prelude Descriptors Framing Egress Listeners.
Import Descriptors.

Module LtpProcess.
Section process.
Context (c : Egress.EgressConfig).

#[local] Instance egress_owner : Owner EgressServer.TcpEgress EgressServer.event := EgressServer.egress_owner c.
#[local] Instance egress_laws : OwnerLaws EgressServer.TcpEgress EgressServer.event := EgressServer.egress_laws c.

Abbreviation process := (IngressServer.TcpIngress * EgressServer.TcpEgress * Adapter.ConvergenceLayerAdapter)%type.
Abbreviation process_event := (IngressServer.event + EgressServer.event + Adapter.event)%type.

Definition on_ingress (e : IngressServer.event) : process_event := inl (inl e).
Definition on_egress (e : EgressServer.event) : process_event := inl (inr e).
Definition on_cla (e : Adapter.event) : process_event := inr e.

Definition construct : process := (IngressServer.make, EgressServer.make, Adapter.make).

(** The order in which [main] starts and stops them. *)
Definition start_all (egress_setup ingress_setup : setup) : list process_event :=
  [on_cla Adapter.Start; on_egress (EgressServer.Start egress_setup); on_ingress (IngressServer.Start ingress_setup)].

(** The descriptors the process holds. *)
Definition sockets (s : process) : list Z :=
  ((fd_of (IngressServer.listen_fd s.1.1) ++ IngressServer.client_fds s.1.1) ++
   (fd_of (EgressServer.listen_fd s.1.2) ++ EgressServer.client_fds s.1.2)) ++
  (fd_of (Adapter.fd (Adapter.tx s.2)) ++ fd_of (Adapter.fd (Adapter.rx s.2))).

Definition process_step (ev : process_event) (s : process) : outcome (list syscall * process) := own_step ev s.
Definition process_run (events : list process_event) (s : process) : outcome (list syscall * process) := own_run events s.

(** The components' own invariants. *)
Definition process_ok (s : process) : Prop := own_ok s.

Lemma construct_ok : process_ok construct.
Proof. by split_and!. Qed.

Lemma process_keeps ev s calls s' : process_ok s -> process_step ev s = Ok (calls, s') -> process_ok s'.
Proof. apply own_keeps. Qed.

Lemma process_legal ev s calls s' rest open :
  process_ok s -> process_step ev s = Ok (calls, s') -> has rest (sockets s) open -> legal calls (has rest (sockets s')) open.
Proof. intros H1 H2 H3. exact (own_legal ev s calls s' rest open H1 H2 H3). Qed.

(** What can fail is the extraction of a message from a client's bytes. *)
Definition extraction_fails (s : process) (ev : process_event) (e : fault) : Prop :=
  exists lr acc ready fds table ie,
    ev = on_ingress (IngressServer.Round (IngressServer.PollReady lr acc ready)) /\
    ie ∈ IngressServer.accept_event (IngressServer.listen_fd s.1.1) lr acc ++ IngressServer.client_events fds ready /\
    Framing.handle_event table ie = Err e.

Lemma ingress_fails evs : forall t e, Framing.run_ingress t evs = Err e -> exists t' ev, ev ∈ evs /\ Framing.handle_event t' ev = Err e.
Proof.
  induction evs as [|ev evs IH]; intros t e E; cbn [Framing.run_ingress] in E; [done|].
  destruct (Framing.handle_event t ev) as [[m t']|e'] eqn:Eh; cbn [mbind outcome_bind] in E; [|injection E as ->; exists t, ev; by split; [left|]].
  destruct (Framing.run_ingress t' evs) as [[]|] eqn:Er; [done|]. injection E as ->. destruct (IH _ _ Er) as (t2 & ev2 & Hin & E2).
  exists t2, ev2. by split; [right|].
Qed.

Lemma step_fails ev s e : process_step ev s = Err e -> extraction_fails s ev e.
Proof.
  unfold process_step. intros E. destruct s as [[i eg] cl]. destruct ev as [[ev|ev]|ev];
    [|cbn -[EgressServer.step] in E; destruct (EgressServer.step c ev eg) as [[] ]; by cbn [mbind outcome_bind] in E
     |cbn -[Adapter.step] in E; destruct (Adapter.step ev cl); by cbn [mbind outcome_bind] in E].
  destruct i as [r l p t tb]. cbn in E. destruct ev as [a| |a| |]; cbn in E.
  - by destruct r, t; try destruct (start_listener a) as [? fd]; try destruct (fd <? 0).
  - by destruct t.
  - destruct t as [| |l' fds|]; try done. destruct a as [|  |lr acc ready]; try done.
    destruct (Framing.run_ingress tb _) as [[]|] eqn:Er; [done|]. injection E as ->. apply ingress_fails in Er as (tb' & ie & Hin & Eh).
    by exists lr, acc, ready, fds, tb', ie.
  - by destruct r.
  - by destruct r, t.
Qed.

(** A run up to the step that fails. *)
Lemma process_run_fails events : forall s e,
  process_run events s = Err e ->
  exists before ev after calls s1, events = before ++ ev :: after /\ process_run before s = Ok (calls, s1) /\ process_step ev s1 = Err e.
Proof.
  unfold process_run. induction events as [|ev events IH]; intros s e E; cbn [own_run] in E; [done|].
  destruct (own_step ev s) as [[c1 s1]|e'] eqn:Es; cbn [mbind outcome_bind] in E.
  - destruct (own_run events s1) as [[]|] eqn:Er; [done|]. injection E as ->. destruct (IH _ _ Er) as (before & ev' & after & calls & s2 & -> & E2 & E3).
    exists (ev :: before), ev', after, (c1 ++ calls), s2. split; [done|]. split; [|done]. cbn [own_run]. rewrite Es. cbn [mbind outcome_bind]. by rewrite E2.
  - injection E as ->. by exists [], ev, events, [], s.
Qed.

(** A component that was told to stop, and one whose threads were joined. *)
Definition ingress_told (i : IngressServer.TcpIngress) : Prop := IngressServer.running i = false.
Definition ingress_gone (i : IngressServer.TcpIngress) : Prop := ingress_told i /\ IngressServer.thread i = Idle.
Definition egress_told (e : EgressServer.TcpEgress) : Prop := EgressServer.running e = false.
Definition egress_gone (e : EgressServer.TcpEgress) : Prop := egress_told e /\ EgressServer.thread e = Idle.
Definition cla_told (k : Adapter.ConvergenceLayerAdapter) : Prop := Adapter.running k = false.
Definition cla_gone (k : Adapter.ConvergenceLayerAdapter) : Prop :=
  cla_told k /\ Adapter.thread (Adapter.tx k) = Adapter.Off /\ Adapter.thread (Adapter.rx k) = Adapter.Off.

(** Every [stop] has returned. *)
Definition stopped (s : process) : Prop := ingress_gone s.1.1 /\ egress_gone s.1.2 /\ cla_gone s.2.

(** Components that are gone hold nothing. *)
Lemma stopped_empty s : process_ok s -> stopped s -> sockets s = [].
Proof.
  destruct s as [[[ri li pi ti bi] [re le pe te ee]] [rk [tf tc tt] [xf xc xt]]].
  intros [[[Hi1 Hi2] [He1 He2]] ([Ht1 Ht2] & [Hx1 Hx2] & _)] ([Ai Bi] & [Ae Be] & (Ak & Bk & Ck)).
  unfold ingress_told, egress_told, cla_told, sockets in *. cbn in *. subst. unfold IngressServer.client_fds, EgressServer.client_fds in *. cbn in *.
  destruct Hi2 as [_ Hi2], (He2 eq_refl) as [_ He3]. rewrite Hi2, He3. unfold fd_of. rewrite Hi1, He1.
  by destruct (tf <? 0), (xf <? 0).
Qed.

(** The components can be brought there from everywhere, if the calls that
    their threads are in return and the threads see the flag. *)
Lemma stop_ingress s :
  exists calls s', own_run [IngressServer.Stop; IngressServer.Round IngressServer.PollTimeout; IngressServer.Loop; IngressServer.Joined] s = Ok (calls, s') /\ ingress_gone s'.
Proof. destruct s as [r l p t tb]. destruct r, t; eexists _, _; (split; [reflexivity|]); by split. Qed.

Lemma stop_egress s :
  exists calls s', own_run [EgressServer.Stop; EgressServer.Round EgressServer.PollTimeout; EgressServer.Loop; EgressServer.Joined] s = Ok (calls, s') /\ egress_gone s'.
Proof. destruct s as [r l p t e]. destruct r, t; eexists _, _; (split; [reflexivity|]); by split. Qed.

Lemma stop_adapter a n p s : Adapter.coherent s ->
  exists calls s', own_run [Adapter.Stop; Adapter.ReconnectTx a; Adapter.Write n; Adapter.ReconnectRx a; Adapter.Round p; Adapter.Joined] s = Ok (calls, s') /\ cla_gone s'.
Proof.
  destruct s as [r [tf tc tt] [xf xc xt]]. intros (_ & _ & Hr). cbn in *.
  destruct tt, xt; try (exfalso; destruct Hr as [[H1 H2] _]; first [discriminate (H1 eq_refl)|discriminate (H2 eq_refl)]);
    (eexists _, _; (split; [reflexivity|]); by split_and!).
Qed.

Lemma can_stop s : process_ok s -> exists more calls s', process_run more s = Ok (calls, s') /\ stopped s'.
Proof.
  destruct s as [[i e] k]. intros [[Hi He] Hk]. cbn in Hk.
  destruct (stop_ingress i) as (c1 & i' & E1 & G1). destruct (stop_egress e) as (c2 & e' & E2 & G2).
  destruct (stop_adapter (Adapter.MkAttempt (-1) 0 0) 0 Adapter.PollTimeout k Hk) as (c3 & k' & E3 & G3).
  pose proof (own_run_left _ _ k _ _ (own_run_left _ _ e _ _ E1)) as R1. pose proof (own_run_right _ (i', e) _ _ _ E3) as R2.
  pose proof (own_run_left _ _ k' _ _ (own_run_right _ i' _ _ _ E2)) as R3.
  eexists _, _, (i', e', k'). split; [exact (own_run_app _ _ _ _ _ _ _ R1 (own_run_app _ _ _ _ _ _ _ R2 R3))|by split_and!].
Qed.

Lemma run_legal inherited events calls s :
  process_run events construct = Ok (calls, s) -> process_ok s /\ legal calls (has inherited (sockets s)) inherited.
Proof.
  intros E. assert (owns inherited construct inherited) as H0 by (split; [apply NoDup_nil_2|split; [by intros fd ?%elem_of_nil|set_solver]]).
  split; [exact (own_run_keeps events construct calls s construct_ok E)|].
  exact (own_run_legal events construct calls s inherited inherited construct_ok E H0).
Qed.

Lemma nothing_held inherited (fds : list Z) calls :
  fds = [] -> legal calls (has inherited fds) inherited -> legal calls (fun open => open = inherited) inherited.
Proof. intros -> Hl. eapply legal_mono; [exact Hl|]. intros o (_ & _ & ->). set_solver. Qed.

End process.

(** While the ingress waits in [poll], its [stop] closes the socket, and the
    adapter gets the number. *)
Example stale_poll :
  let ok fd := MkSetup fd 1 0 0 0 4556 in
  match process_run (Egress.MkEgressConfig 100)
          (start_all (ok 3) (ok 4) ++ [on_ingress IngressServer.Loop; on_ingress IngressServer.Stop;
            on_cla (Adapter.ReconnectTx (Adapter.MkAttempt 4 1 0)); on_ingress (IngressServer.Round IngressServer.PollTimeout)]) construct with
  | Ok (calls, s) => drop 10 calls = [Closes 4; Opens 4; Uses 4; Polls 4] /\ sockets s = [3; 4]
  | Err _ => False
  end.
Proof. vm_compute. split; reflexivity. Qed.
End LtpProcess.
