(* ===== verification/Waiting.v ===== *)
(** * Condition variables (src/ltp_cla/timer_manager.cpp,
    src/ltp_cla/convergence_layer_adapter.cpp)

    [Monitor] is one thread that waits for a condition under a mutex and others
    that change the state it waits on; [TimerWait] and [QueueWait] are its two
    uses: the timer thread, and the adapter's transmitting thread. *)
From S2P Require Import Prelude Timers.

Module Monitor.
(** The waiting thread: about to take the mutex, holding it before the
    condition is evaluated, holding it with the condition found false, blocked
    (the mutex released), or holding it after [wait] has returned. *)
Inductive place := Outside | Holding | Committed | Asleep | Returned.

#[export] Instance place_eq_dec : EqDecision place.
Proof. solve_decision. Defined.

Section monitor.
(** The state, and the condition of [cv_.wait(lock, condition)]. *)
Context {S : Type} (condition : S -> bool).

(** [notices]: the notifications whose change is made and that are still to be
    sent. *)
Record state := MkState { shared : S; waiter : place; notices : nat }.

(** What the waiting thread does, and the others: a change with the mutex or
    without it, and then a notification; [None] is a call that returns at once.
    [Leave f] is the rest of the waiting thread's critical section. *)
Inductive event :=
  | Lock | Evaluate | Block | Leave (f : S -> S)
  | Change (locked : bool) (f : S -> option S) | Notify.

Definition lock_free (p : place) : bool := match p with Outside | Asleep => true | _ => false end.

(** [None]: the event cannot happen in this state. *)
Definition step (ev : event) (s : state) : option state :=
  let '(MkState x p n) := s in
  match ev, p with
  | Lock, Outside => Some (MkState x Holding n)
  | Evaluate, Holding => Some (MkState x (if condition x then Returned else Committed) n)
  | Block, Committed => Some (MkState x Asleep n)
  | Leave f, Returned => Some (MkState (f x) Outside n)
  | Change locked f, _ =>
      if locked && negb (lock_free p) then None
      else Some (match f x with Some y => MkState y p (Datatypes.S n) | None => MkState x p n end)
  | Notify, _ =>
      match n with
      | O => None
      | Datatypes.S n' => Some (MkState x (match p with Asleep => Outside | _ => p end) n')
      end
  | _, _ => None
  end.

Fixpoint run (events : list event) (s : state) : option state :=
  match events with
  | [] => Some s
  | ev :: events' => s' ← step ev s; run events' s'
  end.

(** No change is made without the mutex. *)
Definition disciplined (ev : event) : Prop := match ev with Change locked _ => locked = true | _ => True end.

(** Whoever is asleep or going to be either has nothing to wake up for or a
    notification coming. *)
Definition heard (s : state) : Prop :=
  match waiter s with
  | Committed => condition (shared s) = false
  | Asleep => condition (shared s) = true -> (0 < notices s)%nat
  | _ => True
  end.

Lemma step_heard ev s s' : disciplined ev -> heard s -> step ev s = Some s' -> heard s'.
Proof.
  destruct s as [x p n]. unfold heard. intros Hd Hh E. cbn [waiter shared notices] in Hh.
  destruct ev as [| | |f|locked f|]; destruct p; cbn [step lock_free negb andb] in E; try discriminate E;
    repeat match type of E with
    | context [if ?b then _ else _] => destruct b eqn:?; try discriminate E
    | context [match f x with _ => _ end] => destruct (f x)
    | context [match ?m with O => _ | _ => _ end] => destruct m; try discriminate E
    end; injection E as <-; cbn [waiter shared notices]; try done; try lia; try congruence.
  all: try (cbn in Hd; subst locked; discriminate).
Qed.

Lemma run_heard events : forall s s', Forall disciplined events -> heard s -> run events s = Some s' -> heard s'.
Proof.
  induction events as [|ev events IH]; intros s s' Hd Hh E; cbn [run] in E; [by injection E as <-|].
  apply Forall_cons in Hd as [Hd1 Hd]. destruct (step ev s) as [s1|] eqn:E1; cbn [mbind option_bind] in E; [|done].
  eapply IH; [done| |exact E]. by eapply step_heard.
Qed.

(** ** The wait ends *)

(** The steps that are left when nobody changes the state any more. *)
Definition settles (ev : event) : Prop := match ev with Lock | Evaluate | Block | Notify => True | _ => False end.

Definition rank (p : place) : nat := match p with Asleep => 3 | Outside => 2 | Holding | Committed => 1 | Returned => 0 end.
Definition measure (s : state) : nat := (notices s + rank (waiter s))%nat.

Lemma settle_step ev s s' :
  settles ev -> heard s -> condition (shared s) = true -> step ev s = Some s' ->
  (measure s' < measure s)%nat /\ heard s' /\ shared s' = shared s.
Proof.
  destruct s as [x p n]. unfold heard, measure. cbn [waiter shared notices]. intros Hs Hh Hc E.
  destruct ev as [| | |f|locked f|]; destruct p; cbn [step] in E; try done; try discriminate E; try (rewrite Hc in E);
    try (destruct n as [|n]; [discriminate E|]); injection E as <-; cbn [waiter shared notices rank]; repeat split; try done; try lia; try congruence.
Qed.

(** Some step is possible unless the wait has returned. *)
Lemma settle_progress s : heard s -> condition (shared s) = true -> waiter s <> Returned -> exists ev s', settles ev /\ step ev s = Some s'.
Proof.
  destruct s as [x p n]. unfold heard. cbn [waiter shared notices]. intros Hh Hc Hp. destruct p.
  - by exists Lock; eexists.
  - by exists Evaluate; eexists.
  - congruence.
  - destruct n as [|n]; [specialize (Hh Hc); lia|]. by exists Notify; eexists.
  - done.
Qed.

Lemma settle_run events : forall s s',
  Forall settles events -> heard s -> condition (shared s) = true -> run events s = Some s' ->
  (length events + measure s' <= measure s)%nat /\ heard s' /\ condition (shared s') = true.
Proof.
  induction events as [|ev events IH]; intros s s' Hs Hh Hc E; cbn [run] in E.
  - injection E as <-. cbn [length]. split; [lia|done].
  - apply Forall_cons in Hs as [Hs1 Hs]. destruct (step ev s) as [s1|] eqn:E1; cbn [mbind option_bind] in E; [|done].
    destruct (settle_step ev s s1 Hs1 Hh Hc E1) as (Hm & Hh1 & Ex). destruct (IH s1 s' Hs Hh1) as (Hm' & Hh' & Hc'); [congruence|done|].
    cbn [length]. split; [lia|done].
Qed.

(** However the steps that are left are scheduled, there are at most as many
    as the measure says, and when none is possible the wait has returned. *)
Definition wakes (s : state) : Prop :=
  forall events s', Forall settles events -> run events s = Some s' ->
    (length events <= measure s)%nat /\ (waiter s' = Returned \/ exists ev s'', settles ev /\ step ev s' = Some s'').

(** What holds at some moment and is kept by what happens holds later. *)
Lemma wait_run_app e1 : forall e2 s, run (e1 ++ e2) s = (s' ← run e1 s; run e2 s').
Proof. induction e1 as [|ev e1 IH]; intros e2 s; cbn [app run]; [done|]. destruct (step ev s); cbn [mbind option_bind]; [apply IH|done]. Qed.

Definition keeps (Q : S -> Prop) (ev : event) : Prop :=
  match ev with
  | Leave f => forall x, Q x -> Q (f x)
  | Change _ f => forall x y, Q x -> f x = Some y -> Q y
  | _ => True
  end.

Lemma run_keeps (Q : S -> Prop) events : forall s s', Forall (keeps Q) events -> Q (shared s) -> run events s = Some s' -> Q (shared s').
Proof.
  induction events as [|ev events IH]; intros s s' Hk Hq E; cbn [run] in E; [by injection E as <-|].
  apply Forall_cons in Hk as [Hk1 Hk]. destruct (step ev s) as [s1|] eqn:E1; cbn [mbind option_bind] in E; [|done].
  eapply IH; [done| |exact E]. clear IH E. destruct s as [x p n]. cbn [shared] in Hq.
  destruct ev as [| | |f|locked f|]; destruct p; cbn [step] in E1; try discriminate E1;
    try (destruct (locked && _); [discriminate E1|]; destruct (f x) eqn:Ef); try (destruct n; [discriminate E1|]); injection E1 as <-; cbn [shared]; eauto.
Qed.

Lemma disciplined_wakes events s s' :
  Forall disciplined events -> heard s -> run events s = Some s' -> condition (shared s') = true -> wakes s'.
Proof.
  intros Hd Hh E Hc more s'' Hs E'. pose proof (run_heard events s s' Hd Hh E) as Hh'.
  destruct (settle_run more s' s'' Hs Hh' Hc E') as (Hm & Hh'' & Hc''). split; [lia|].
  destruct (decide (waiter s'' = Returned)) as [|Hn]; [by left|]. right. by apply settle_progress.
Qed.
End monitor.
Arguments event : clear implicits.
Arguments state : clear implicits.
End Monitor.


Module TimerWait.
Import Monitor.

(** [cv_.wait(lock, ...)] of [thread_func] with no timers. *)
Definition timer_condition (t : Timers.TimerManager) : bool := negb (Timers.running t) || negb (bool_decide (Timers.heap t = [])).

(** The calls of the other threads, each of which takes the mutex. *)
Inductive timer_call := Start (timeout : Z) (event : Timers.TimerEvent) | Cancel (id : Z) | Stop.

(** [stop] returns at once, without notifying, if it is not running. *)
Definition change_of (c : timer_call) (t : Timers.TimerManager) : option Timers.TimerManager :=
  match c with
  | Start timeout event => Some (snd (Timers.start_timer timeout event t))
  | Cancel id => Some (Timers.cancel_timer id t)
  | Stop => if Timers.running t then Some (Timers.stop t) else None
  end.

(** What the thread does once it has the mutex again: it ends if it was
    stopped, and else makes a pass over the heap's top. *)
Definition pass (top : Timers.TimerEntry) (t : Timers.TimerManager) : Timers.TimerManager :=
  if Timers.running t && bool_decide (Timers.is_top top (Timers.heap t)) then snd (Timers.thread_pass top t) else t.

(** The thread's steps, and those of the calls. ([wait_until] ends by itself,
    so it is no step here.) *)
Inductive timer_event := Locks | Evaluates | Blocks | Passes (top : Timers.TimerEntry) | Call (c : timer_call) | Notified.

Definition event_of (ev : timer_event) : Monitor.event Timers.TimerManager :=
  match ev with
  | Locks => Lock
  | Evaluates => Evaluate
  | Blocks => Block
  | Passes top => Leave (pass top)
  | Call c => Change true (change_of c)
  | Notified => Notify
  end.

(** What the calls and the thread leave as it is. *)
Definition stopped (t : Timers.TimerManager) : Prop := Timers.running t = false.
Definition armed (t : Timers.TimerManager) : Prop := Timers.heap t <> [].

Lemma start_arms timeout event t : armed (snd (Timers.start_timer timeout event t)).
Proof. unfold armed. cbn. by destruct (Timers.heap t). Qed.

Lemma pass_running top t : Timers.running (pass top t) = Timers.running t.
Proof. unfold pass. destruct (_ && _); [|done]. unfold Timers.thread_pass. by repeat case_match. Qed.

Lemma keeps_stopped ev : keeps stopped (event_of ev).
Proof.
  unfold stopped. destruct ev as [| | |top|[]|]; cbn; try done; intros x.
  - by rewrite pass_running.
  - intros y Hx E. by injection E as <-.
  - intros y Hx E. by injection E as <-.
  - intros y Hx. by rewrite Hx.
Qed.

(** A call leaves the heap's entries. *)
Lemma keeps_armed ev : (forall top, ev <> Passes top) -> keeps armed (event_of ev).
Proof.
  intros Hp. destruct ev as [| | |top|[]|]; cbn; try done; [by destruct (Hp top)|..]; intros x y Hx.
  - intros E. injection E as <-. apply start_arms.
  - intros E. by injection E as <-.
  - unfold Timers.stop. destruct (Timers.running x); [|done]. intros E. by injection E as <-.
Qed.

(** A call that the thread must notice: it was stopped; or a timer was started
    and it has made no pass since. *)
Definition must_wake (c : timer_call) (after : list timer_event) : Prop :=
  match c with
  | Stop => True
  | Start _ _ => Forall (fun ev => forall top, ev <> Passes top) after
  | Cancel _ => False
  end.

Lemma noticed before c after t s :
  run timer_condition (event_of <$> before ++ Call c :: after) (MkState t Outside 0) = Some s ->
  must_wake c after -> timer_condition (shared s) = true.
Proof.
  rewrite fmap_app, wait_run_app. intros E Hc. destruct (run _ (event_of <$> before) _) as [s1|]; cbn [mbind option_bind] in E; [|done].
  rewrite fmap_cons in E. cbn [run event_of] in E. destruct (step _ _ s1) as [s2|] eqn:E2; cbn [mbind option_bind] in E; [|done].
  destruct s1 as [x p n]. cbn [step] in E2. destruct (true && _); [done|]. injection E2 as <-. unfold timer_condition.
  destruct c as [timeout event|id|]; cbn [must_wake change_of] in *; [|done|].
  - assert (armed (shared s)) as Ha.
    { eapply (run_keeps _ armed); [| |exact E]; [|apply start_arms]. apply Forall_fmap. eapply Forall_impl; [exact Hc|]. exact keeps_armed. }
    unfold armed in Ha. rewrite (bool_decide_eq_false_2 _ Ha). by rewrite orb_true_r.
  - assert (stopped (shared s)) as ->; [|done].
    eapply (run_keeps _ stopped); [| |exact E]; [apply Forall_fmap, Forall_forall; intros ev _; apply keeps_stopped|].
    unfold stopped, Timers.stop. destruct (Timers.running x) eqn:Ex; cbn [shared]; [done|exact Ex].
Qed.

(** [C32] The timer manager misses no wake-up. In whatever order its thread
    waits, wakes and makes its passes, and other threads start timers, cancel
    them and stop it: once [stop] was called, and as long as a timer was started
    that the thread has not looked at, its wait returns, after at most as many
    more steps as the notifications to come and three; so a timer that is
    started while the thread waits is served, and [stop] does not wait for ever
    in [join] for a thread in this wait. *)
Theorem timer_wait_returns before c after t s :
  run timer_condition (event_of <$> before ++ Call c :: after) (MkState t Outside 0) = Some s ->
  must_wake c after -> wakes timer_condition s /\ (measure s <= notices s + 3)%nat.
Proof.
  intros E Hc. split.
  - refine (disciplined_wakes _ _ (MkState _ Outside 0) _ _ I E (noticed _ _ _ _ _ E Hc)). apply Forall_fmap, Forall_forall. intros ev _. destruct ev; cbn; done.
  - unfold measure. destruct (waiter s); cbn; lia.
Qed.

Lemma timer_wait_returns_witness :
  let s := MkState (Timers.stop (Timers.run Timers.init)) Asleep 1 in
  wakes timer_condition s /\ (measure s <= notices s + 3)%nat.
Proof.
  exact (timer_wait_returns [Locks; Evaluates; Blocks] Stop [] (Timers.run Timers.init)
    (MkState (Timers.stop (Timers.run Timers.init)) Asleep 1) eq_refl I).
Defined.

(** A cancel wakes the thread too, which then waits again. *)
Example cancel_heard :
  run timer_condition (event_of <$> [Locks; Evaluates; Blocks; Call (Cancel 1); Notified; Locks; Evaluates; Blocks]) (MkState (Timers.run Timers.init) Outside 0)
  = Some (MkState (Timers.cancel_timer 1 (Timers.run Timers.init)) Asleep 0).
Proof. vm_compute. reflexivity. Qed.
End TimerWait.

Module QueueWait.
Import Monitor.

(** What the adapter's transmitting thread waits for. *)
Record tx_wait := MkWait { running : bool; tx_queue : list (list Z) }.

Definition queue_condition (w : tx_wait) : bool := negb (bool_decide (tx_queue w = [])) || negb (running w).

(** [send_segment] pushes under the mutex and notifies after it; [stop] stores
    the flag without it. *)
Definition send_segment (segment : list Z) : Monitor.event tx_wait := Change true (fun w => Some (MkWait (running w) (tx_queue w ++ [segment]))).
Definition stop : Monitor.event tx_wait := Change false (fun w => if running w then Some (MkWait false (tx_queue w)) else None).

(** The rest of the thread's critical section: the front of the queue, unless
    it was stopped. *)
Definition take_front : Monitor.event tx_wait := Leave (fun w => if running w then MkWait true (tail (tx_queue w)) else w).

(** As long as [stop] is not called, no segment waits in vain. *)
Lemma segments_heard events s :
  Forall (fun ev => ev = Lock \/ ev = Evaluate \/ ev = Block \/ ev = take_front \/ ev = Notify \/ exists seg, ev = send_segment seg) events ->
  run queue_condition events (MkState (MkWait true []) Outside 0) = Some s -> queue_condition (shared s) = true -> wakes queue_condition s.
Proof.
  intros Hev E Hc. refine (disciplined_wakes _ _ (MkState _ Outside 0) _ _ I E Hc). eapply Forall_impl; [exact Hev|].
  intros ev [->|[->|[->|[->|[->|[seg ->]]]]]]; cbn; done.
Qed.

(** The flag and its notification fall between the thread's look at the
    condition and its blocking: it sleeps, nothing will wake it, and [stop]
    waits in [join] for ever. *)
Example stop_unheard :
  run queue_condition [Lock; Evaluate; stop; Notify; Block] (MkState (MkWait true []) Outside 0) = Some (MkState (MkWait false []) Asleep 0) /\
  forall ev, settles ev -> step queue_condition ev (MkState (MkWait false []) Asleep 0) = None.
Proof. split; [vm_compute; reflexivity|]. by intros []. Qed.
End QueueWait.
