(* ===== verification/Text.v ===== *)
(** * Numbers as text: what the programs use of std::to_string, std::stoull
    and std::stoi *)
From S2P Require Import Prelude.

Module Text.

Definition digit (d : Z) : Ascii.ascii := Ascii.ascii_of_nat (48 + Z.to_nat d).

Fixpoint decimal_loop (fuel : nat) (n : Z) (acc : string) : string :=
  match fuel with
  | O => acc
  | S fuel' =>
      let acc := String (digit (n mod 10)) acc in
      if n <? 10 then acc else decimal_loop fuel' (n / 10) acc
  end.

(** [std::to_string] of an unsigned value of up to twenty digits, and of a
    signed one. *)
Definition to_string (n : Z) : string := decimal_loop 20 n EmptyString.
Definition int_to_string (n : Z) : string := if n <? 0 then "-" +:+ to_string (- n) else to_string n.

Definition code (c : Ascii.ascii) : Z := Z.of_nat (Ascii.nat_of_ascii c).

Definition is_digit (c : Ascii.ascii) : bool := (48 <=? code c) && (code c <=? 57).
Definition is_space (c : Ascii.ascii) : bool := (code c =? 32) || ((9 <=? code c) && (code c <=? 13)).

Fixpoint skip_space (s : string) : string :=
  match s with String c s' => if is_space c then skip_space s' else s | EmptyString => s end.

(** The digits at the front, at least one. *)
Fixpoint parse_digits (s : string) (value : Z) (seen : bool) : option Z :=
  match s with
  | String c s' =>
      if is_digit c then parse_digits s' (value * 10 + (code c - 48)) true
      else if seen then Some value else None
  | EmptyString => if seen then Some value else None
  end.

(** Leading space, a sign, digits; what follows is ignored. The result is the
    sign and the digits' value. *)
Definition parse_integer (s : string) : option (bool * Z) :=
  let s := skip_space s in
  let '(negative, s) :=
    match s with
    | String c s' => if code c =? 45 then (true, s') else if code c =? 43 then (false, s') else (false, s)
    | EmptyString => (false, s)
    end in
  pair (negative : bool) <$> parse_digits s 0 false.

(** [std::stoull] and [std::stoul], both 64 bits wide. [None] is an
    exception. *)
Definition stoull (s : string) : option Z :=
  '(negative, value) ← parse_integer s;
  if 2 ^ 64 <=? value then None else Some (if negative : bool then u64 (- value) else value).

(** [std::stoi], 32 bits wide. *)
Definition stoi (s : string) : outcome Z :=
  match parse_integer s with
  | None => Err (Throw InvalidArgument)
  | Some (negative, value) =>
      let value := if negative : bool then - value else value in
      if (- 2 ^ 31 <=? value) && (value <? 2 ^ 31) then Ok value else Err (Throw OutOfRange)
  end.

Example stoull_wraps : stoull " -1x" = Some (2 ^ 64 - 1) /\ stoull "18446744073709551616" = None /\ stoull "x" = None.
Proof. vm_compute. by split_and!. Qed.

(** Every character below 128. *)
Fixpoint is_ascii (s : string) : bool :=
  match s with EmptyString => true | String c s' => (code c <? 128) && is_ascii s' end.

(** ** Printing and parsing *)

Lemma digit_code d : 0 <= d < 10 -> code (digit d) = 48 + d /\ is_digit (digit d) = true.
Proof.
  intros Hd. unfold digit. assert (In (Z.to_nat d) (seq 0 10)) as Hin by (apply in_seq; lia).
  replace d with (Z.of_nat (Z.to_nat d)) at 2 by lia. cbn in Hin.
  repeat (destruct Hin as [<-|Hin]; [vm_compute; done|]). done.
Qed.

Lemma parse_decimal fuel n acc : forall v seen,
  0 <= n < 10 ^ Z.of_nat fuel -> (0 < fuel)%nat ->
  exists k, parse_digits (decimal_loop fuel n acc) v seen = parse_digits acc (v * 10 ^ k + n) true /\ 0 <= k.
Proof.
  revert n acc. induction fuel as [|fuel IH]; intros n acc v seen Hn Hf; [lia|]. cbn [decimal_loop].
  destruct (digit_code (n mod 10) ltac:(dlia)) as [Hc Hd]. destruct (Z.ltb_spec n 10) as [Hlt|Hge].
  - exists 1. cbn [parse_digits]. rewrite Hd, Hc. split; [|lia]. f_equal. dlia.
  - rewrite Nat2Z.inj_succ, Z.pow_succ_r in Hn by lia. destruct fuel as [|fuel]; [cbn in Hn; lia|].
    destruct (IH (n / 10) (String (digit (n mod 10)) acc) v seen) as (k & E & Hk); [dlia|lia|].
    exists (k + 1). rewrite E. cbn [parse_digits]. rewrite Hd, Hc. split; [|lia]. f_equal.
    rewrite Z.pow_add_r by lia. dlia.
Qed.

Lemma decimal_head fuel n acc :
  0 <= n -> (0 < fuel)%nat -> exists c s, decimal_loop fuel n acc = String c s /\ is_digit c = true.
Proof.
  revert n acc. induction fuel as [|fuel IH]; intros n acc Hn Hf; [lia|]. cbn [decimal_loop].
  destruct (digit_code (n mod 10) ltac:(dlia)) as [_ Hd]. destruct (n <? 10); [by eexists _, _|].
  destruct fuel as [|fuel]; [by eexists _, _|]. apply IH; [dlia|lia].
Qed.

Lemma parse_to_string n : 0 <= n < 10 ^ 20 -> parse_integer (to_string n) = Some (false, n).
Proof.
  intros Hn. unfold parse_integer, to_string. destruct (decimal_head 20 n EmptyString ltac:(lia) ltac:(lia)) as (c & s & E & Hc).
  destruct (parse_decimal 20 n EmptyString 0 false ltac:(lia) ltac:(lia)) as (k & Ep & _). rewrite E in Ep |- *.
  cbn [skip_space]. assert (is_space c = false /\ (code c =? 45) = false /\ (code c =? 43) = false) as (-> & -> & ->).
  { unfold is_digit, is_space in *. lia. }
  rewrite Ep. cbn [fmap option_fmap option_map parse_digits]. by rewrite Z.mul_0_l, Z.add_0_l.
Qed.

Lemma stoull_to_string n : 0 <= n < 2 ^ 64 -> stoull (to_string n) = Some n.
Proof.
  intros Hn. unfold stoull. rewrite parse_to_string by lia. cbn [mbind option_bind].
  by destruct (Z.leb_spec (2 ^ 64) n); [lia|].
Qed.

Lemma stoi_to_string n : - 2 ^ 31 <= n < 2 ^ 31 -> stoi (int_to_string n) = Ok n.
Proof.
  intros Hn. unfold stoi, int_to_string. destruct (Z.ltb_spec n 0) as [Hneg|Hpos].
  - assert (parse_integer ("-" +:+ to_string (- n)) = Some (true, - n)) as ->.
    { pose proof (parse_to_string (- n) ltac:(lia)) as E. unfold parse_integer, to_string in *.
      destruct (decimal_head 20 (- n) EmptyString ltac:(lia) ltac:(lia)) as (c & s & Es & Hc). rewrite Es in *. cbn [skip_space] in E.
      assert (is_space c = false /\ (code c =? 45) = false /\ (code c =? 43) = false) as (Hs & H1 & H2).
      { unfold is_digit, is_space in *. lia. }
      rewrite Hs, H1, H2 in E. change ("-" +:+ String c s) with (String (Ascii.ascii_of_nat 45) (String c s)). cbn [skip_space].
      change (is_space (Ascii.ascii_of_nat 45)) with false. cbv iota. change (code (Ascii.ascii_of_nat 45) =? 45) with true. cbv iota.
      by destruct (parse_digits (String c s) 0 false); [injection E as ->|]. }
    rewrite Z.opp_involutive. by destruct (Z.leb_spec (- 2 ^ 31) n), (Z.ltb_spec n (2 ^ 31)); try lia.
  - rewrite parse_to_string by lia. by destruct (Z.leb_spec (- 2 ^ 31) n), (Z.ltb_spec n (2 ^ 31)); try lia.
Qed.
End Text.
