(* ===== verification/Json.v ===== *)
(** * The JSON library, as an interface

    The operations of nlohmann::json the two configuration files use, and what
    they rely on; [tree_json] is a library that keeps the promises. Documents
    are taken up to the library's own equality: an integer is the same document
    whether it is kept as signed or as unsigned. *)
From Stdlib Require Import SpecFloat.
From S2P Require Import Prelude Text.
Import Text.

Module Json.

Definition finite (x : spec_float) : bool :=
  match x with S754_zero _ | S754_finite _ _ _ => true | S754_infinity _ | S754_nan => false end.

(** [static_cast<int>] of a wider integer. *)
Definition i32 (x : Z) : Z := (x + 2 ^ 31) mod 2 ^ 32 - 2 ^ 31.

Lemma i32_small x : - 2 ^ 31 <= x < 2 ^ 31 -> i32 x = x.
Proof. intros. unfold i32. rewrite Z.mod_small; lia. Qed.

Class Json := {
  json : Type;
  text : Type;                                       (* the characters of a document *)
  dump : json -> outcome text;
  parse : text -> option json;                       (* json::parse, None: parse_error *)
  extract : text -> option json;                     (* stream >> json, which allows text after the document *)
  null : json;
  member : json -> string -> option json;            (* contains, operator[] *)
  assign : json -> string -> json -> json;           (* j[key] = value *)
  of_uint : Z -> json; of_int : Z -> json; of_double : spec_float -> json;
  of_string : string -> json; of_bool : bool -> json; of_bytes : list Z -> json;
  is_object : json -> bool; is_number : json -> bool; is_number_integer : json -> bool;
  is_string : json -> bool; is_boolean : json -> bool; is_array : json -> bool;
  get_uint : Z -> json -> outcome Z;                 (* get<uintN_t>() *)
  get_int : json -> outcome Z;                       (* get<int>() *)
  get_double : json -> outcome spec_float;
  get_string : json -> outcome string;
  get_bool : json -> outcome bool;
  get_bytes : json -> outcome (list Z) }.            (* get<std::vector<uint8_t>>() *)

Class JsonLaws `{Json} := {
  utf8 : string -> Prop;
  utf8_ascii s : is_ascii s = true -> utf8 s;
  buildable : json -> Prop;                          (* null or an object *)
  null_buildable : buildable null;
  object_buildable j : is_object j = true -> buildable j;
  assign_object j k v : buildable j -> is_object (assign j k v) = true;
  member_null k : member null k = None;
  member_assign j k v : buildable j -> member (assign j k v) k = Some v;
  member_assign_ne j k k' v : buildable j -> k <> k' -> member (assign j k v) k' = member j k';
  number_double x : is_number (of_double x) = true;
  number_int x : is_number_integer (of_int x) = true;
  number_uint x : is_number_integer (of_uint x) = true;
  string_string s : is_string (of_string s) = true;
  boolean_bool b : is_boolean (of_bool b) = true;
  array_bytes l : is_array (of_bytes l) = true;
  get_of_uint w x : get_uint w (of_uint x) = Ok (x mod 2 ^ w);
  get_of_int x : get_int (of_int x) = Ok (i32 x);
  get_of_double x : get_double (of_double x) = Ok x;
  get_of_string s : get_string (of_string s) = Ok s;
  get_of_bool b : get_bool (of_bool b) = Ok b;
  get_of_bytes l : bytes l -> get_bytes (of_bytes l) = Ok l;
  printable : json -> Prop;
  parse_dump j : printable j -> exists t, dump j = Ok t /\ parse t = Some j /\ extract t = Some j;
  printable_null : printable null;
  printable_assign j k v : printable j -> buildable j -> utf8 k -> printable v -> printable (assign j k v);
  printable_uint x : 0 <= x < 2 ^ 64 -> printable (of_uint x);
  printable_int x : - 2 ^ 63 <= x < 2 ^ 63 -> printable (of_int x);
  printable_double x : finite x = true -> printable (of_double x);
  printable_string s : utf8 s -> printable (of_string s);
  printable_bool b : printable (of_bool b);
  printable_bytes l : bytes l -> printable (of_bytes l) }.

Lemma assign_buildable `{JsonLaws} j k v : buildable j -> buildable (assign j k v).
Proof. intros Hj. by apply object_buildable, assign_object. Qed.

Lemma printable_assign_ascii `{JsonLaws} j k v :
  printable j -> buildable j -> is_ascii k = true -> printable v -> printable (assign j k v).
Proof. intros. apply printable_assign; [done|done|by apply utf8_ascii|done]. Qed.

(** Documents built by assignments are printable, and their members known. *)
Create HintDb json.
#[export] Hint Resolve null_buildable assign_buildable printable_null printable_uint printable_int printable_double
  printable_string printable_bool printable_bytes : json.
#[export] Hint Extern 1 (is_ascii _ = true) => reflexivity : json.
#[export] Hint Resolve printable_assign_ascii : json.

(** ** Documents as trees *)

Inductive tree :=
  | JNull | JNumber (n : Z) | JFloat (x : spec_float) | JString (s : string) | JBool (b : bool)
  | JArray (l : list tree) | JObject (members : list (string * tree)).

Fixpoint assoc (k : string) (l : list (string * tree)) : option tree :=
  match l with [] => None | (k', v) :: l' => if decide (k = k') then Some v else assoc k l' end.

Definition type_error {A} : outcome A := Err (Throw RuntimeError).

(** [NaN] and the infinities are written as null. *)
Fixpoint printed (j : tree) : tree :=
  match j with
  | JFloat x => if finite x then j else JNull
  | JArray l => JArray (printed <$> l)
  | JObject l => JObject (prod_map id printed <$> l)
  | _ => j
  end.

#[export] Instance tree_json : Json := {|
  json := tree; text := tree; dump j := Ok (printed j); parse := Some; extract := Some; null := JNull;
  member j k := match j with JObject l => assoc k l | _ => None end;
  assign j k v := match j with JObject l => JObject ((k, v) :: l) | _ => JObject [(k, v)] end;
  of_uint := JNumber; of_int := JNumber; of_double := JFloat; of_string := JString; of_bool := JBool;
  of_bytes l := JArray (JNumber <$> l);
  is_object j := match j with JObject _ => true | _ => false end;
  is_number j := match j with JNumber _ | JFloat _ => true | _ => false end;
  is_number_integer j := match j with JNumber _ => true | _ => false end;
  is_string j := match j with JString _ => true | _ => false end;
  is_boolean j := match j with JBool _ => true | _ => false end;
  is_array j := match j with JArray _ => true | _ => false end;
  get_uint w j := match j with JNumber n => Ok (n mod 2 ^ w) | _ => type_error end;
  get_int j := match j with JNumber n => Ok (i32 n) | _ => type_error end;
  get_double j := match j with JFloat x => Ok x | JNumber n => Ok (binary_normalize 53 1024 n 0 false) | _ => type_error end;
  get_string j := match j with JString s => Ok s | _ => type_error end;
  get_bool j := match j with JBool b => Ok b | _ => type_error end;
  get_bytes j := match j with
    | JArray l => foldr (fun v acc => acc ← acc; match v with JNumber n => Ok (u8 n :: acc) | _ => type_error end) (Ok []) l
    | _ => type_error end |}.

Lemma printed_numbers (l : list Z) : printed <$> (JNumber <$> l) = JNumber <$> l.
Proof. induction l as [|n l IH]; [done|]. cbn [fmap list_fmap]. by rewrite IH. Qed.

#[export] Instance tree_laws : JsonLaws.
Proof.
  refine {| utf8 _ := True; buildable j := match j with JNull | JObject _ => True | _ => False end; printable j := printed j = j |}; try done.
  - by intros [].
  - by intros [].
  - intros [] k v; cbn; try done; by rewrite decide_True.
  - intros [] k k' v; cbn; try done; intros _ Hne; by rewrite decide_False.
  - cbn. induction l as [|n l IH]; intros Hl; [done|]. apply Forall_cons in Hl as [Hn Hl]. cbn [fmap list_fmap foldr].
    rewrite (IH Hl). cbn [mbind outcome_bind]. by rewrite u8_small.
  - intros j E. exists j. cbn. by rewrite E.
  - intros [] k v E; cbn in *; try done; intros _ _ ->; [done|]. injection E as E. cbn [fmap list_fmap]. cbn. by rewrite E.
  - intros x E. cbn in *. by rewrite E.
  - intros l _. cbn. by rewrite printed_numbers.
Defined.
End Json.
