(* ===== verification/LtpConfig.v ===== *)
(** * The configuration of the LTP daemon (include/ltp_cla/config.h,
    src/ltp_cla/config.cpp)

    Validation, the command-line overrides with the standard library's number
    parsing, and the conversion to and from JSON, against the interface of the
    JSON library. *)
From S2P Require Import Prelude Engine EngineInvariant Text Json.
Import Text Json.

Module LtpConfig.

Record ClaConfig := MkCla {
  tx_addr : string; tx_port : Z; rx_addr : string; rx_port : Z;
  initial_reconnect_delay_ms : Z; max_reconnect_delay_ms : Z }.

Record IngressConfig := MkIngress { ingress_bind_addr : string; ingress_port : Z; default_reliable : bool }.

Record EgressConfig := MkEgress { egress_bind_addr : string; egress_port : Z; max_buffer_bytes : Z }.

Record LtpClaConfig := MkClaConfig {
  ltp : Engine.LtpEngineConfig; cla : ClaConfig; ingress : IngressConfig; egress : EgressConfig; log_level : string }.

Definition defaults : LtpClaConfig :=
  MkClaConfig (Engine.MkConfig 1 2 1400 30000 10 100) (MkCla "127.0.0.1" 5000 "127.0.0.1" 5001 1000 30000)
    (MkIngress "127.0.0.1" 4556 true) (MkEgress "127.0.0.1" 4557 10485760) "info".

(** ** Equality *)

(** [operator==], member by member. *)
Definition config_eqb (a b : LtpClaConfig) : bool :=
  (Engine.local_engine_id (ltp a) =? Engine.local_engine_id (ltp b)) &&
  (Engine.remote_engine_id (ltp a) =? Engine.remote_engine_id (ltp b)) &&
  (Engine.max_segment_size (ltp a) =? Engine.max_segment_size (ltp b)) &&
  (Engine.retransmission_timeout_ms (ltp a) =? Engine.retransmission_timeout_ms (ltp b)) &&
  (Engine.max_retransmissions (ltp a) =? Engine.max_retransmissions (ltp b)) &&
  (Engine.max_concurrent_sessions (ltp a) =? Engine.max_concurrent_sessions (ltp b)) &&
  (tx_addr (cla a) =? tx_addr (cla b))%string &&
  (tx_port (cla a) =? tx_port (cla b)) &&
  (rx_addr (cla a) =? rx_addr (cla b))%string &&
  (rx_port (cla a) =? rx_port (cla b)) &&
  (initial_reconnect_delay_ms (cla a) =? initial_reconnect_delay_ms (cla b)) &&
  (max_reconnect_delay_ms (cla a) =? max_reconnect_delay_ms (cla b)) &&
  (ingress_bind_addr (ingress a) =? ingress_bind_addr (ingress b))%string &&
  (ingress_port (ingress a) =? ingress_port (ingress b)) &&
  Bool.eqb (default_reliable (ingress a)) (default_reliable (ingress b)) &&
  (egress_bind_addr (egress a) =? egress_bind_addr (egress b))%string &&
  (egress_port (egress a) =? egress_port (egress b)) &&
  (max_buffer_bytes (egress a) =? max_buffer_bytes (egress b)) &&
  (log_level a =? log_level b)%string.

(** It forgets no member. *)
Lemma config_eqb_eq a b : config_eqb a b = true <-> a = b.
Proof.
  unfold config_eqb. rewrite !andb_true_iff, !Z.eqb_eq, !String.eqb_eq, Bool.eqb_true_iff. split; [|by intros ->].
  destruct a as [[] [] [] [] la], b as [[] [] [] [] lb]. cbn. intros Heq. destruct_and! Heq. congruence.
Qed.

#[export] Instance config_eq_dec : EqDecision LtpClaConfig.
Proof. refine (fun a b => cast_if (decide (config_eqb a b = true))); by rewrite <- config_eqb_eq. Defined.

(** ** Validation *)

Definition log_levels : list string := ["trace"; "debug"; "info"; "warn"; "error"; "critical"; "off"]%string.

Definition when (b : bool) (message : string) : list string := if b then [message] else [].

Definition validate (c : LtpClaConfig) : list string :=
  when (Engine.local_engine_id (ltp c) =? 0) "ltp.local_engine_id must be > 0, got 0" ++
  when (Engine.remote_engine_id (ltp c) =? 0) "ltp.remote_engine_id must be > 0, got 0" ++
  when (Engine.max_segment_size (ltp c) =? 0) "ltp.max_segment_size must be > 0, got 0" ++
  when (Engine.retransmission_timeout_ms (ltp c) <? 100)
    ("ltp.retransmission_timeout_ms must be >= 100, got " +:+ to_string (Engine.retransmission_timeout_ms (ltp c))) ++
  when (Engine.max_retransmissions (ltp c) =? 0) "ltp.max_retransmissions must be > 0, got 0" ++
  when (Engine.max_concurrent_sessions (ltp c) =? 0) "ltp.max_concurrent_sessions must be > 0, got 0" ++
  when (bool_decide (tx_addr (cla c) = EmptyString)) "cla.tx_addr must not be empty" ++
  when (tx_port (cla c) =? 0) "cla.tx_port must be > 0, got 0" ++
  when (bool_decide (rx_addr (cla c) = EmptyString)) "cla.rx_addr must not be empty" ++
  when (rx_port (cla c) =? 0) "cla.rx_port must be > 0, got 0" ++
  when (initial_reconnect_delay_ms (cla c) =? 0) "cla.initial_reconnect_delay_ms must be > 0, got 0" ++
  when (max_reconnect_delay_ms (cla c) <? initial_reconnect_delay_ms (cla c))
    "cla.max_reconnect_delay_ms must be >= initial_reconnect_delay_ms" ++
  when (bool_decide (ingress_bind_addr (ingress c) = EmptyString)) "ingress.bind_addr must not be empty" ++
  when (bool_decide (egress_bind_addr (egress c) = EmptyString)) "egress.bind_addr must not be empty" ++
  when (max_buffer_bytes (egress c) =? 0) "egress.max_buffer_bytes must be > 0, got 0" ++
  when (bool_decide (log_level c ∉ log_levels))
    ("log_level must be one of: trace, debug, info, warn, error, critical, off; got '" +:+ log_level c +:+ "'").

(** ** Command line *)

(** At the first [=]: what is before it and what is after. *)
Fixpoint split_eq (arg : string) : option (string * string) :=
  match arg with
  | EmptyString => None
  | String c arg' =>
      if code c =? 61 then Some (EmptyString, arg')
      else '(key, val) ← split_eq arg'; Some (String c key, val)
  end.

(** The chain of comparisons; [None] is an exception of the number parsing,
    or a key that is none of them. *)
Definition set_field (key val : string) (c : LtpClaConfig) : option LtpClaConfig :=
  let '(MkClaConfig (Engine.MkConfig le re ms rt mr mc as l) (MkCla ta tp ra rp id md as a) (MkIngress ib ip dr as i)
          (MkEgress eb ep mb as g) ll) := c in
  let with_ltp f := (fun v => MkClaConfig (f v) a i g ll) <$> stoull val in
  let with_cla f := (fun v => MkClaConfig l (f v) i g ll) <$> stoull val in
  if decide (key = "ltp.local_engine_id")%string then with_ltp (fun v => Engine.MkConfig v re ms rt mr mc)
  else if decide (key = "ltp.remote_engine_id")%string then with_ltp (fun v => Engine.MkConfig le v ms rt mr mc)
  else if decide (key = "ltp.max_segment_size")%string then with_ltp (fun v => Engine.MkConfig le re (u32 v) rt mr mc)
  else if decide (key = "ltp.retransmission_timeout_ms")%string then with_ltp (fun v => Engine.MkConfig le re ms (u32 v) mr mc)
  else if decide (key = "ltp.max_retransmissions")%string then with_ltp (fun v => Engine.MkConfig le re ms rt (u8 v) mc)
  else if decide (key = "ltp.max_concurrent_sessions")%string then with_ltp (fun v => Engine.MkConfig le re ms rt mr (u32 v))
  else if decide (key = "cla.tx_addr")%string then Some (MkClaConfig l (MkCla val tp ra rp id md) i g ll)
  else if decide (key = "cla.tx_port")%string then with_cla (fun v => MkCla ta (u16 v) ra rp id md)
  else if decide (key = "cla.rx_addr")%string then Some (MkClaConfig l (MkCla ta tp val rp id md) i g ll)
  else if decide (key = "cla.rx_port")%string then with_cla (fun v => MkCla ta tp ra (u16 v) id md)
  else if decide (key = "cla.initial_reconnect_delay_ms")%string then with_cla (fun v => MkCla ta tp ra rp (u32 v) md)
  else if decide (key = "cla.max_reconnect_delay_ms")%string then with_cla (fun v => MkCla ta tp ra rp id (u32 v))
  else if decide (key = "ingress.bind_addr")%string then Some (MkClaConfig l a (MkIngress val ip dr) g ll)
  else if decide (key = "ingress.port")%string then (fun v => MkClaConfig l a (MkIngress ib (u16 v) dr) g ll) <$> stoull val
  else if decide (key = "ingress.default_reliable")%string
    then Some (MkClaConfig l a (MkIngress ib ip (bool_decide (val = "true" \/ val = "1")%string)) g ll)
  else if decide (key = "egress.bind_addr")%string then Some (MkClaConfig l a i (MkEgress val ep mb) ll)
  else if decide (key = "egress.port")%string then (fun v => MkClaConfig l a i (MkEgress eb (u16 v) mb) ll) <$> stoull val
  else if decide (key = "egress.max_buffer_bytes")%string then (fun v => MkClaConfig l a i (MkEgress eb ep v) ll) <$> stoull val
  else if decide (key = "log_level")%string then Some (MkClaConfig l a i g val)
  else None.

(** One argument: skipped without [=] or the two dashes; an exception leaves
    the configuration as it is. *)
Definition apply_arg (c : LtpClaConfig) (arg : string) : LtpClaConfig :=
  match split_eq arg with
  | Some (String d1 (String d2 key), val) =>
      if (code d1 =? 45) && (code d2 =? 45) then default c (set_field key val c) else c
  | _ => c
  end.

(** [argv] without the program's name. *)
Definition apply_cli_overrides (args : list string) (c : LtpClaConfig) : LtpClaConfig := foldl apply_arg c args.

Example out_of_width : Engine.max_retransmissions (ltp (apply_cli_overrides ["--ltp.max_retransmissions=256"%string] defaults)) = 0.
Proof. vm_compute. reflexivity. Qed.

(** ** Every field as an argument *)

Definition to_args (c : LtpClaConfig) : list string :=
  let '(MkClaConfig (Engine.MkConfig le re ms rt mr mc) (MkCla ta tp ra rp id md) (MkIngress ib ip dr)
          (MkEgress eb ep mb) ll) := c in
  ["--ltp.local_engine_id=" +:+ to_string le; "--ltp.remote_engine_id=" +:+ to_string re;
   "--ltp.max_segment_size=" +:+ to_string ms; "--ltp.retransmission_timeout_ms=" +:+ to_string rt;
   "--ltp.max_retransmissions=" +:+ to_string mr; "--ltp.max_concurrent_sessions=" +:+ to_string mc;
   "--cla.tx_addr=" +:+ ta; "--cla.tx_port=" +:+ to_string tp; "--cla.rx_addr=" +:+ ra; "--cla.rx_port=" +:+ to_string rp;
   "--cla.initial_reconnect_delay_ms=" +:+ to_string id; "--cla.max_reconnect_delay_ms=" +:+ to_string md;
   "--ingress.bind_addr=" +:+ ib; "--ingress.port=" +:+ to_string ip;
   "--ingress.default_reliable=" +:+ (if dr then "true" else "false");
   "--egress.bind_addr=" +:+ eb; "--egress.port=" +:+ to_string ep; "--egress.max_buffer_bytes=" +:+ to_string mb;
   "--log_level=" +:+ ll]%string.

(** The ranges of the fields' types. *)
Record typed (c : LtpClaConfig) : Prop := {
  t_local : 0 <= Engine.local_engine_id (ltp c) < 2 ^ 64;
  t_remote : 0 <= Engine.remote_engine_id (ltp c) < 2 ^ 64;
  t_segment : 0 <= Engine.max_segment_size (ltp c) < 2 ^ 32;
  t_timeout : 0 <= Engine.retransmission_timeout_ms (ltp c) < 2 ^ 32;
  t_retrans : 0 <= Engine.max_retransmissions (ltp c) < 2 ^ 8;
  t_sessions : 0 <= Engine.max_concurrent_sessions (ltp c) < 2 ^ 32;
  t_tx_port : 0 <= tx_port (cla c) < 2 ^ 16;
  t_rx_port : 0 <= rx_port (cla c) < 2 ^ 16;
  t_initial : 0 <= initial_reconnect_delay_ms (cla c) < 2 ^ 32;
  t_max : 0 <= max_reconnect_delay_ms (cla c) < 2 ^ 32;
  t_ingress : 0 <= ingress_port (ingress c) < 2 ^ 16;
  t_egress : 0 <= egress_port (egress c) < 2 ^ 16;
  t_buffer : 0 <= max_buffer_bytes (egress c) < 2 ^ 64 }.

Lemma defaults_typed : typed defaults.
Proof. constructor; cbn; lia. Qed.

Lemma apply_step c c1 a l r : apply_arg c a = c1 -> foldl apply_arg c1 l = r -> foldl apply_arg c (a :: l) = r.
Proof. by intros <-. Qed.

(** One argument, its number by a hypothesis [stoull v = Some n]. *)
Ltac cli_step :=
  eapply apply_step;
  [lazy -[stoull u8 u16 u32 bool_decide];
   try match goal with E : stoull ?v = Some _ |- context [stoull ?v] => rewrite E end; cbv beta iota; reflexivity|].

(** The command line reaches every field: the arguments written from a
    configuration set all of it, whatever was there before, for every value of
    the fields' types, the numbers through the standard library's parsing and
    the narrowing casts. *)
Theorem cli_roundtrip c c0 : typed c -> apply_cli_overrides (to_args c) c0 = c.
Proof.
  intros [H1 H2 H3 H4 H5 H6 H7 H8 H9 H10 H11 H12 H13].
  destruct c as [[le re ms rt mr mc] [ta tp ra rp id md] [ib ip dr] [eb ep mb] ll].
  destruct c0 as [[le0 re0 ms0 rt0 mr0 mc0] [ta0 tp0 ra0 rp0 id0 md0] [ib0 ip0 dr0] [eb0 ep0 mb0] ll0].
  cbn -[apply_cli_overrides to_args] in *.
  unfold apply_cli_overrides, to_args.
  pose proof (stoull_to_string le H1) as E1. pose proof (stoull_to_string re H2) as E2.
  pose proof (stoull_to_string ms ltac:(lia)) as E3. pose proof (stoull_to_string rt ltac:(lia)) as E4.
  pose proof (stoull_to_string mr ltac:(lia)) as E5. pose proof (stoull_to_string mc ltac:(lia)) as E6.
  pose proof (stoull_to_string tp ltac:(lia)) as E7. pose proof (stoull_to_string rp ltac:(lia)) as E8.
  pose proof (stoull_to_string id ltac:(lia)) as E9. pose proof (stoull_to_string md ltac:(lia)) as E10.
  pose proof (stoull_to_string ip ltac:(lia)) as E11. pose proof (stoull_to_string ep ltac:(lia)) as E12.
  pose proof (stoull_to_string mb H13) as E13.
  repeat match goal with E : stoull (to_string ?n) = Some _ |- _ =>
    let v := fresh "v" in set (v := to_string n) in *; clearbody v end.
  do 19 cli_step. cbn [foldl]. rewrite !u32_small, !u16_small, u8_small by lia.
  by destruct dr.
Qed.

Lemma cli_roundtrip_witness : apply_cli_overrides (to_args defaults) (MkClaConfig (ltp defaults) (cla defaults) (ingress defaults) (egress defaults) "off") = defaults.
Proof. apply cli_roundtrip. exact defaults_typed. Defined.

(** ** What validation establishes *)

Lemma when_nil b m : when b m = [] <-> b = false.
Proof. by destruct b. Qed.

(** [C40] A configuration that validates is one the daemon is safe with: the
    engine gets what its theorems assume, a positive segment size among it, so
    that segmentation ends; timers, sessions and buffer have room; and the
    reconnection delays start positive and below their maximum. *)
Theorem validate_safe c :
  typed c -> validate c = [] ->
  EngineInvariant.config_ok (ltp c) /\ 0 < Engine.max_retransmissions (ltp c) /\
  0 < Engine.max_concurrent_sessions (ltp c) /\ 100 <= Engine.retransmission_timeout_ms (ltp c) /\
  0 < max_buffer_bytes (egress c) /\ 0 < initial_reconnect_delay_ms (cla c) <= max_reconnect_delay_ms (cla c) /\
  log_level c ∈ log_levels.
Proof.
  intros [H1 H2 H3 H4 H5 H6 H7 H8 H9 H10 H11 H12 H13] Hv. unfold validate in Hv.
  repeat (apply app_eq_nil in Hv as [?%when_nil Hv]). apply when_nil, bool_decide_eq_false_1, dec_stable in Hv.
  split_and!; try done; try lia. constructor; lia.
Qed.

Lemma validate_safe_witness :
  EngineInvariant.config_ok (ltp defaults) /\ 0 < Engine.max_retransmissions (ltp defaults) /\
  0 < Engine.max_concurrent_sessions (ltp defaults) /\ 100 <= Engine.retransmission_timeout_ms (ltp defaults) /\
  0 < max_buffer_bytes (egress defaults) /\
  0 < initial_reconnect_delay_ms (cla defaults) <= max_reconnect_delay_ms (cla defaults) /\ log_level defaults ∈ log_levels.
Proof. apply (validate_safe defaults defaults_typed). vm_compute. reflexivity. Defined.

(** ** JSON documents *)

Section conversion.
Context `{JsonLaws}.

(** [j[section][key] = v] *)
Definition assign2 (sec key : string) (v : json) (j : json) : json :=
  assign j sec (assign (default null (member j sec)) key v).

Definition to_document (c : LtpClaConfig) : json :=
  let '(MkClaConfig (Engine.MkConfig le re ms rt mr mc) (MkCla ta tp ra rp id md) (MkIngress ib ip dr)
          (MkEgress eb ep mb) ll) := c in
  let j := assign2 "ltp" "local_engine_id" (of_uint le) null in
  let j := assign2 "ltp" "remote_engine_id" (of_uint re) j in
  let j := assign2 "ltp" "max_segment_size" (of_uint ms) j in
  let j := assign2 "ltp" "retransmission_timeout_ms" (of_uint rt) j in
  let j := assign2 "ltp" "max_retransmissions" (of_uint mr) j in
  let j := assign2 "ltp" "max_concurrent_sessions" (of_uint mc) j in
  let j := assign2 "cla" "tx_addr" (of_string ta) j in
  let j := assign2 "cla" "tx_port" (of_uint tp) j in
  let j := assign2 "cla" "rx_addr" (of_string ra) j in
  let j := assign2 "cla" "rx_port" (of_uint rp) j in
  let j := assign2 "cla" "initial_reconnect_delay_ms" (of_uint id) j in
  let j := assign2 "cla" "max_reconnect_delay_ms" (of_uint md) j in
  let j := assign2 "ingress" "bind_addr" (of_string ib) j in
  let j := assign2 "ingress" "port" (of_uint ip) j in
  let j := assign2 "ingress" "default_reliable" (of_bool dr) j in
  let j := assign2 "egress" "bind_addr" (of_string eb) j in
  let j := assign2 "egress" "port" (of_uint ep) j in
  let j := assign2 "egress" "max_buffer_bytes" (of_uint mb) j in
  assign j "log_level" (of_string ll).

Definition to_json (c : LtpClaConfig) : outcome text := dump (to_document c).

(** [if (j.contains(key)) field = j[key].get<...>()] *)
Definition read_field {A} (get : json -> outcome A) (j : json) (key : string) (field : A) : outcome A :=
  match member j key with Some v => get v | None => Ok field end.

(** [if (j.contains(sec)) ...]: the fields of a section, or the defaults. *)
Definition read_section {A} (j : json) (sec : string) (read : json -> outcome A) (fields : A) : outcome A :=
  match member j sec with Some js => read js | None => Ok fields end.

Definition from_document (j : json) : outcome LtpClaConfig :=
  let d := defaults in
  l ← read_section j "ltp" (fun jl =>
    le ← read_field (get_uint 64) jl "local_engine_id" (Engine.local_engine_id (ltp d));
    re ← read_field (get_uint 64) jl "remote_engine_id" (Engine.remote_engine_id (ltp d));
    ms ← read_field (get_uint 32) jl "max_segment_size" (Engine.max_segment_size (ltp d));
    rt ← read_field (get_uint 32) jl "retransmission_timeout_ms" (Engine.retransmission_timeout_ms (ltp d));
    mr ← read_field (get_uint 8) jl "max_retransmissions" (Engine.max_retransmissions (ltp d));
    mc ← read_field (get_uint 32) jl "max_concurrent_sessions" (Engine.max_concurrent_sessions (ltp d));
    Ok (Engine.MkConfig le re ms rt mr mc)) (ltp d);
  a ← read_section j "cla" (fun jc =>
    ta ← read_field get_string jc "tx_addr" (tx_addr (cla d));
    tp ← read_field (get_uint 16) jc "tx_port" (tx_port (cla d));
    ra ← read_field get_string jc "rx_addr" (rx_addr (cla d));
    rp ← read_field (get_uint 16) jc "rx_port" (rx_port (cla d));
    id ← read_field (get_uint 32) jc "initial_reconnect_delay_ms" (initial_reconnect_delay_ms (cla d));
    md ← read_field (get_uint 32) jc "max_reconnect_delay_ms" (max_reconnect_delay_ms (cla d));
    Ok (MkCla ta tp ra rp id md)) (cla d);
  i ← read_section j "ingress" (fun ji =>
    ib ← read_field get_string ji "bind_addr" (ingress_bind_addr (ingress d));
    ip ← read_field (get_uint 16) ji "port" (ingress_port (ingress d));
    dr ← read_field get_bool ji "default_reliable" (default_reliable (ingress d));
    Ok (MkIngress ib ip dr)) (ingress d);
  g ← read_section j "egress" (fun je =>
    eb ← read_field get_string je "bind_addr" (egress_bind_addr (egress d));
    ep ← read_field (get_uint 16) je "port" (egress_port (egress d));
    mb ← read_field (get_uint 64) je "max_buffer_bytes" (max_buffer_bytes (egress d));
    Ok (MkEgress eb ep mb)) (egress d);
  ll ← read_field get_string j "log_level" (log_level d);
  Ok (MkClaConfig l a i g ll).

(** [parse] throws on a text that is no document. *)
Definition from_json (json_str : text) : outcome LtpClaConfig :=
  match parse json_str with Some j => from_document j | None => Err (Throw RuntimeError) end.

Lemma assign2_buildable sec key v j : buildable j -> buildable (assign2 sec key v j).
Proof. intros Hj. by apply assign_buildable. Qed.

Lemma member_assign2 sec key v j : buildable j -> member (assign2 sec key v j) sec = Some (assign (default null (member j sec)) key v).
Proof. intros Hj. by apply member_assign. Qed.

Lemma member_assign2_ne sec sec' key v j : buildable j -> sec <> sec' -> member (assign2 sec key v j) sec' = member j sec'.
Proof. intros Hj Hne. by apply member_assign_ne. Qed.

Hint Resolve assign2_buildable : json.

Ltac obj := solve [auto 40 with json].

(** Members of documents built by assignments. *)
Ltac members :=
  repeat first
    [ rewrite member_assign2_ne by (discriminate || obj) | rewrite member_assign2 by obj
    | rewrite member_assign_ne by (discriminate || obj) | rewrite member_assign by obj
    | rewrite member_null ]; cbn [default from_option id].

Lemma document_roundtrip c : typed c -> from_document (to_document c) = Ok c.
Proof.
  intros [H1 H2 H3 H4 H5 H6 H7 H8 H9 H10 H11 H12 H13].
  destruct c as [[le re ms rt mr mc] [ta tp ra rp id md] [ib ip dr] [eb ep mb] ll]. cbn -[Z.pow] in *.
  unfold from_document, read_section, to_document. members. unfold read_field. members.
  rewrite !get_of_uint, !get_of_string, !get_of_bool. cbn [mbind outcome_bind].
  rewrite !Z.mod_small by lia. done.
Qed.

(** The strings a document can hold. *)
Definition strings_utf8 (c : LtpClaConfig) : Prop :=
  utf8 (tx_addr (cla c)) /\ utf8 (rx_addr (cla c)) /\ utf8 (ingress_bind_addr (ingress c)) /\
  utf8 (egress_bind_addr (egress c)) /\ utf8 (log_level c).

(** A document whose sections can be assigned to and printed. *)
Definition sections : list string := ["ltp"; "cla"; "ingress"; "egress"]%string.

Definition sound (j : json) : Prop :=
  printable j /\ buildable j /\
  Forall (fun sec => printable (default null (member j sec)) /\ buildable (default null (member j sec))) sections.

Lemma sound_null : sound null.
Proof.
  split_and!; [auto with json..|]. apply Forall_forall. intros sec _. rewrite member_null. cbn. auto with json.
Qed.

Lemma sound_assign2 sec key v j :
  sec ∈ sections -> is_ascii sec = true -> is_ascii key = true -> printable v -> sound j -> sound (assign2 sec key v j).
Proof.
  intros Hin Hs Hk Hv (Hp & Hb & Hall). rewrite Forall_forall in Hall. destruct (Hall sec Hin) as [Hps Hbs].
  split_and!.
  - apply printable_assign_ascii; [done|done|done|]. by apply printable_assign_ascii.
  - by apply assign2_buildable.
  - apply Forall_forall. intros sec' Hin'. destruct (decide (sec = sec')) as [<-|Hne].
    + rewrite member_assign2 by done. cbn. split; [by apply printable_assign_ascii|by apply assign_buildable].
    + rewrite member_assign2_ne by done. by apply Hall.
Qed.

Lemma document_printable c : typed c -> strings_utf8 c -> printable (to_document c).
Proof.
  intros [H1 H2 H3 H4 H5 H6 H7 H8 H9 H10 H11 H12 H13] (U1 & U2 & U3 & U4 & U5).
  destruct c as [[le re ms rt mr mc] [ta tp ra rp id md] [ib ip dr] [eb ep mb] ll]. cbn -[Z.pow] in *.
  unfold to_document. match goal with |- printable (assign ?j _ _) => assert (sound j) as (Hp & Hb & _) end.
  { repeat (apply sound_assign2; [unfold sections; set_solver|reflexivity|reflexivity|
      first [apply printable_string; assumption | apply printable_bool | apply printable_uint; lia]|]). apply sound_null. }
  apply printable_assign_ascii; [done|done|reflexivity|by apply printable_string].
Qed.

(** A configuration written as JSON text is read back from it, every
    field at its own width, as long as its strings are UTF-8. *)
Theorem json_roundtrip c :
  typed c -> strings_utf8 c -> exists t, to_json c = Ok t /\ from_json t = Ok c.
Proof.
  intros Hc Hu. destruct (parse_dump _ (document_printable c Hc Hu)) as (t & Ed & Ep & _).
  exists t. split; [exact Ed|]. unfold from_json. rewrite Ep. by apply document_roundtrip.
Qed.
End conversion.

Lemma json_roundtrip_witness : exists t, to_json defaults = Ok t /\ from_json t = Ok defaults.
Proof. apply (json_roundtrip defaults defaults_typed). unfold strings_utf8. by split_and!. Defined.
End LtpConfig.
