(* ===== verification/Daemon.v ===== *)
(** * The LTP daemon (src/ltp_cla/main.cpp)

    The components wired together: the ingress server starts a session for
    every message, the convergence layer passes on what it receives, the timer
    thread what expires; the engine's segments go to the convergence layer's
    queue and its deliveries to the egress server. The threads are steps that
    a schedule puts in any order; a call into the engine is an interval, since
    nothing makes the three threads that call it wait for each other. *)
From S2P Require Import Prelude Segment Timers Engine EngineLogic EngineInvariant Delivery Framing Egress Text Json LtpConfig.
Import SegType Segment Timers Engine EngineLogic EngineInvariant Delivery Framing Egress Text Json.

Module Daemon.

(** ** Starting up *)

Section startup.
Context `{JsonLaws} (files : string -> option text).

Definition is_config (arg : string) : bool := String.prefix "--config=" arg.

(** [from_json_file]; a file that cannot be opened is an exception. *)
Definition from_json_file (path : string) : outcome LtpConfig.LtpClaConfig :=
  match files path with
  | Some t => LtpConfig.from_json t
  | None => Err (Throw RuntimeError)
  end.

(** From the arguments to the configuration, or the exit code: the first
    configuration file, then all the arguments, then validation. *)
Definition configure (args : list string) : outcome (LtpConfig.LtpClaConfig + Z) :=
  if bool_decide ("--help" ∈ args \/ "-h" ∈ args)%string then Ok (inr 0)
  else
    loaded ← match List.find is_config args with
             | None => Ok (Some LtpConfig.defaults)
             | Some arg =>
                 match from_json_file (String.substring 9 (String.length arg - 9) arg) with
                 | Ok c => Ok (Some c)
                 | Err (Throw _) => Ok None
                 | Err e => Err e
                 end
             end;
    match loaded with
    | None => Ok (inr 1)
    | Some c =>
        let c := LtpConfig.apply_cli_overrides args c in
        match LtpConfig.validate c with
        | [] => Ok (inl c)
        | _ => Ok (inr 1)
        end
    end.

Lemma configure_valid args c : configure args = Ok (inl c) -> LtpConfig.validate c = [].
Proof.
  unfold configure. intros E. destruct (bool_decide _); [done|]. destruct (match List.find _ _ with Some _ => _ | None => _ end) as [[c0|]|]; [|done..].
  cbn [mbind outcome_bind] in E. destruct (LtpConfig.validate (LtpConfig.apply_cli_overrides args c0)) eqn:Ev; [|done]. by injection E as <-.
Qed.
End startup.

(** ** The threads *)

Inductive thread := IngressThread | RxThread | TimerThread.

#[export] Instance thread_eq_dec : EqDecision thread.
Proof. solve_decision. Defined.

Create HintDb appends.

Section daemon.
Context `{Allocator} (c : LtpConfig.LtpClaConfig).

Definition egress_config : Egress.EgressConfig := MkEgressConfig (LtpConfig.max_buffer_bytes (LtpConfig.egress c)).

(** [inside] are the engine calls under way; [read_messages] and
    [rx_messages] what two of the threads have extracted from their buffers
    and not yet passed on, [fired] what the third has taken off the heap. *)
Record Daemon := MkDaemon {
  engine : LtpEngine (T := TimerManager); inside : list (thread * call);
  ingress : TcpIngress; read_messages : list (list Z);
  rx_buffer : list Z; rx_running : bool; rx_messages : list (list Z);
  fired : option TimerEvent;
  tx_queue : list (list Z);
  egress : TcpEgress }.

Inductive daemon_event :=
  | IngressEvent (e : ingress_event)        (* an event of [TcpIngress::run] *)
  | RxEvent (e : cla_rx_event)              (* a round of [run_rx] *)
  | TimerPass (top : TimerEntry)            (* a pass of the timer thread *)
  | Elapse (time : Z)
  | Enter (t : thread)                      (* a callback calls the engine *)
  | Return (t : thread) (ups : nat -> writes)
  | Connect (ups : nat -> writes) (fd : Z)  (* a client of the egress *)
  | Transmit.                               (* [run_tx] takes a segment *)

(** What a step shows: messages from the ingress clients and from the radio,
    calls that returned, segments taken for transmission, and the blocks
    written to egress clients. *)
Record log := MkLog {
  ingested : list (Z * list Z); heard : list (list Z); calls : list call;
  transmitted : list (list Z); written : list (Z * list Z) }.

Definition quiet : log := MkLog [] [] [] [] [].
Definition log_app (l1 l2 : log) : log :=
  MkLog (ingested l1 ++ ingested l2) (heard l1 ++ heard l2) (calls l1 ++ calls l2) (transmitted l1 ++ transmitted l2) (written l1 ++ written l2).

(** The callbacks the engine makes, in order; [ups] answers for the writes of
    its deliveries in turn. *)
Fixpoint dispatch (ups : nat -> writes) (outs : list output) (queue : list (list Z)) (e : TcpEgress)
  : list (Z * list Z) * list (list Z) * TcpEgress :=
  match outs with
  | [] => ([], queue, e)
  | SendSegment encoded :: outs' => dispatch ups outs' (queue ++ [encoded]) e
  | DataArrival data :: outs' =>
      let '(out, e) := deliver egress_config (ups 0%nat) data e in
      let '(out', queue, e) := dispatch (fun k => ups (S k)) outs' queue e in
      (out ++ out', queue, e)
  | SessionComplete _ :: outs' | SessionFailure _ _ :: outs' => dispatch ups outs' queue e
  end.

(** The call a thread makes next, and the state with it taken. *)
Definition next_call (t : thread) (s : Daemon) : option (call * Daemon) :=
  let '(MkDaemon en ins ing ms b r rx f q eg) := s in
  match t with
  | IngressThread =>
      match ms with
      | m :: ms' => Some (CStart m (LtpConfig.default_reliable (LtpConfig.ingress c)), MkDaemon en ins ing ms' b r rx f q eg)
      | [] => None
      end
  | RxThread =>
      match rx with m :: rx' => Some (CReceive m, MkDaemon en ins ing ms b r rx' f q eg) | [] => None end
  | TimerThread =>
      match f with Some ev => Some (CExpire ev, MkDaemon en ins ing ms b r rx None q eg) | None => None end
  end.

Definition busy (t : thread) (s : Daemon) : bool := bool_decide (t ∈ fst <$> inside s).

(** A step; where the thread is busy with something else, or there is nothing
    to do, nothing happens. Entering the engine while another thread is
    inside is a data race on its members. *)
Definition daemon_step (ev : daemon_event) (s : Daemon) : outcome (log * Daemon) :=
  let '(MkDaemon en ins ing ms b r rx f q eg) := s in
  match ev with
  | IngressEvent e =>
      if busy IngressThread s || negb (bool_decide (ms = [])) then Ok (quiet, s)
      else '(out, ing) ← handle_event ing e;
           Ok (MkLog out [] [] [] [], MkDaemon en ins ing (snd <$> out) b r rx f q eg)
  | RxEvent e =>
      if busy RxThread s || negb (bool_decide (rx = [])) || negb r then Ok (quiet, s)
      else '(out, b, r) ← run_rx_round (LtpConfig.max_reconnect_delay_ms (LtpConfig.cla c))
                            (LtpConfig.initial_reconnect_delay_ms (LtpConfig.cla c)) b e;
           Ok (MkLog [] out [] [] [], MkDaemon en ins ing ms b r out f q eg)
  | TimerPass top =>
      match timer_manager en with
      | Some t =>
          if busy TimerThread s || bool_decide (is_Some f) || negb (running t) ||
             negb (bool_decide (top ∈ heap t /\ Forall (fun e => expiry top <= expiry e) (heap t)))
          then Ok (quiet, s)
          else
            let '(v, t) := thread_pass top t in
            Ok (quiet, MkDaemon (with_timer_manager t en) ins ing ms b r rx
                         (match v with Takes e => Some (entry_event e) | _ => None end) q eg)
      | None => Ok (quiet, s)
      end
  | Elapse time =>
      match timer_manager en with
      | Some t =>
          Ok (quiet, MkDaemon (with_timer_manager (MkTimers (running t) (next_id t) (heap t) (cancelled t) (now t + Z.max 0 time)) en)
                       ins ing ms b r rx f q eg)
      | None => Ok (quiet, s)
      end
  | Enter t =>
      if busy t s then Ok (quiet, s)
      else match next_call t s with
           | None => Ok (quiet, s)
           | Some (ca, MkDaemon en _ ing ms b r rx f q eg) =>
               match ins with
               | [] => Ok (quiet, MkDaemon en [(t, ca)] ing ms b r rx f q eg)
               | _ => Err Undefined
               end
           end
  | Return t ups =>
      match ins with
      | [(t', ca)] =>
          if decide (t = t') then
            en' ← run (perform ca) en;
            let '(out, q, eg) := dispatch ups (new_outputs en en') q eg in
            Ok (MkLog [] [] [ca] [] out, MkDaemon en' [] ing ms b r rx f q eg)
          else Ok (quiet, s)
      | _ => Ok (quiet, s)
      end
  | Connect ups fd =>
      let '(out, eg) := accept_client ups fd eg in
      Ok (MkLog [] [] [] [] out, MkDaemon en ins ing ms b r rx f q eg)
  | Transmit =>
      match q with
      | segment :: q' => Ok (MkLog [] [] [] [segment] [], MkDaemon en ins ing ms b r rx f q' eg)
      | [] => Ok (quiet, s)
      end
  end.

Fixpoint daemon_run (events : list daemon_event) (s : Daemon) : outcome (log * Daemon) :=
  match events with
  | [] => Ok (quiet, s)
  | ev :: events' =>
      '(l1, s) ← daemon_step ev s;
      '(l2, s) ← daemon_run events' s;
      Ok (log_app l1 l2, s)
  end.

Definition daemon_start : Daemon :=
  MkDaemon (init_engine (LtpConfig.ltp c) (Some (Timers.run Timers.init))) [] (Framing.MkIngress [] ∅) [] [] true [] None [] egress_start.

(** ** The engine's outputs grow *)

Definition appends {A} (m : M (T := TimerManager) A) : Prop := forall e a e', m e = Ok (a, e') -> outputs e `prefix_of` outputs e'.

Lemma appends_ret {A} (a : A) : appends (mret a).
Proof. intros e ? ? [= <- <-]. done. Qed.

Lemma appends_bind {A B} (m : M A) (f : A -> M B) : appends m -> (forall a, appends (f a)) -> appends (m ≫= f).
Proof.
  intros Hm Hf e b e' E. unfold mbind, M_bind in E. destruct (m e) as [[a e1]|] eqn:Em; [|done].
  etrans; [by eapply Hm|by eapply Hf].
Qed.

Lemma appends_lift {A} (m : outcome A) : appends (lift m).
Proof. intros e a e' E. unfold lift in E. inv_ok E. by injection E as _ <-. Qed.

Lemma appends_get : appends get.
Proof. intros e a e' [= _ <-]. done. Qed.

Lemma appends_modify f : (forall e, outputs e `prefix_of` outputs (f e)) -> appends (modify f).
Proof. intros Hf e a e' [= _ <-]. apply Hf. Qed.

Lemma appends_deref key : appends (deref key).
Proof. intros e a e' E. unfold deref in E. destruct (sessions e !! key); [|done]. by injection E as _ <-. Qed.

Lemma appends_emit x : appends (emit x).
Proof. apply appends_modify. intros e. by exists [x]. Qed.

Lemma appends_for_each {A} (f : A -> M ()) l : (forall a, appends (f a)) -> appends (for_each f l).
Proof. intros Hf. induction l as [|a l IH]; [apply appends_ret|]. by apply appends_bind. Qed.

#[local] Hint Resolve appends_ret appends_lift appends_get appends_deref appends_emit : appends.

Ltac appends :=
  unfold set_counter, set_sessions, count, set_timer_manager, set_checkpoint_timers, set_report_timers, assign, erase, emplace;
  repeat (intros; first
    [ solve [eauto 2 with appends] | apply appends_modify; reflexivity | apply appends_for_each | apply appends_bind | case_match ]).

Lemma appends_send seg : appends (send_segment seg).
Proof. unfold send_segment, start_checkpoint_timer, start_report_timer, start_engine_timer. appends. Qed.
#[local] Hint Resolve appends_send : appends.

Lemma appends_report key serial upper : appends (generate_report key serial upper).
Proof. unfold generate_report. appends. Qed.

Lemma appends_complete key : appends (complete_receiver key).
Proof. unfold complete_receiver. appends. Qed.

Lemma appends_cancel engine session reason : appends (cancel_session engine session reason).
Proof. unfold cancel_session. appends. Qed.

Lemma appends_timer timers set key : (forall f, appends (set f)) -> appends (cancel_engine_timer timers set key).
Proof. unfold cancel_engine_timer. appends. Qed.

Lemma appends_count key : appends (count_retransmission key).
Proof. unfold count_retransmission. appends. Qed.

Lemma appends_gaps key gaps : appends (retransmit_gaps key gaps).
Proof. unfold retransmit_gaps. appends. Qed.

Lemma appends_segments key : appends (segment_data key).
Proof. unfold segment_data. appends. Qed.
#[local] Hint Resolve appends_report appends_complete appends_cancel appends_count appends_gaps appends_segments : appends.

Lemma appends_data seg : appends (receive_data_segment seg).
Proof. unfold receive_data_segment, receive_in_session, store_segment. appends. Qed.

Lemma appends_receive_report seg : appends (receive_report_segment seg).
Proof. unfold receive_report_segment, send_report_ack. appends. all: apply appends_timer; appends. Qed.

Lemma appends_receive_ack seg : appends (receive_report_ack seg).
Proof. unfold receive_report_ack. appends. all: apply appends_timer; appends. Qed.
#[local] Hint Resolve appends_data appends_receive_report appends_receive_ack : appends.

Lemma appends_perform ca : appends (perform ca).
Proof.
  destruct ca; cbn [perform]; unfold start_session, on_cla_segment, receive_segment, receive_cancel_segment, receive_cancel_ack,
    handle_timer_expiry; appends.
Qed.

Lemma perform_outputs ca e e' : run (perform ca) e = Ok e' -> outputs e' = outputs e ++ new_outputs e e'.
Proof.
  unfold run. intros E. destruct (perform ca e) as [[[] e1]|] eqn:Ep; [|done]. injection E as ->.
  apply appends_perform in Ep as [l E]. unfold new_outputs. by rewrite E, drop_app_length.
Qed.

(** ** The wiring *)

(** The messages of the calls for the ingress and of those for the radio. *)
Definition starts (cs : list call) : list (list Z) := omap (fun ca => match ca with CStart m _ => Some m | _ => None end) cs.
Definition receives (cs : list call) : list (list Z) := omap (fun ca => match ca with CReceive m => Some m | _ => None end) cs.

(** A state, and what was seen until it, from the start. Each component has
    made a run of its own. *)
Record wired (l : log) (s : Daemon) : Prop := {
  w_inside : (length (inside s) <= 1)%nat;
  w_queue : sent_segments (outputs (engine s)) = transmitted l ++ tx_queue s;
  w_egress : exists evs, delivered evs = frame_message <$> deliveries (outputs (engine s)) /\
    run_egress egress_config evs egress_start = (written l, egress s);
  w_ingress : exists evs, run_ingress (Framing.MkIngress [] ∅) evs = Ok (ingested l, ingress s);
  w_rx : exists evs, run_rx (LtpConfig.max_reconnect_delay_ms (LtpConfig.cla c)) (LtpConfig.initial_reconnect_delay_ms (LtpConfig.cla c))
    [] evs = Ok (heard l, rx_buffer s, rx_running s);
  w_started : starts (calls l ++ (snd <$> inside s)) ++ read_messages s = snd <$> ingested l;
  w_heard : receives (calls l ++ (snd <$> inside s)) ++ rx_messages s = heard l }.

Lemma run_egress_app evs1 evs2 : forall e,
  run_egress egress_config (evs1 ++ evs2) e =
  let '(out1, e1) := run_egress egress_config evs1 e in
  let '(out2, e2) := run_egress egress_config evs2 e1 in (out1 ++ out2, e2).
Proof.
  induction evs1 as [|ev evs1 IH]; intros e; cbn [app run_egress].
  - by destruct (run_egress egress_config evs2 e).
  - destruct (egress_step egress_config ev e) as [o1 e1]. rewrite IH. destruct (run_egress egress_config evs1 e1) as [o2 e2].
    destruct (run_egress egress_config evs2 e2). by rewrite app_assoc.
Qed.

Lemma delivered_app evs1 evs2 : delivered (evs1 ++ evs2) = delivered evs1 ++ delivered evs2.
Proof. induction evs1 as [|[] evs1 IH]; cbn [app delivered]; [done|by rewrite IH|done]. Qed.

Lemma run_ingress_snoc evs ev : forall s out1 s1 out2 s2,
  run_ingress s evs = Ok (out1, s1) -> handle_event s1 ev = Ok (out2, s2) -> run_ingress s (evs ++ [ev]) = Ok (out1 ++ out2, s2).
Proof.
  induction evs as [|e evs IH]; intros s out1 s1 out2 s2 E1 E2; cbn [app run_ingress] in *.
  - injection E1 as <- <-. rewrite E2. cbn [mbind outcome_bind]. by rewrite app_nil_r.
  - inv_ok E1. destruct r as [o s']. inv_ok E1. destruct r as [o' s'']. injection E1 as <- <-. rewrite E. cbn [mbind outcome_bind].
    rewrite (IH _ _ _ _ _ E0 E2). cbn [mbind outcome_bind]. by rewrite app_assoc.
Qed.

Lemma run_rx_snoc maxd delay evs ev : forall b out1 b1 out2 b2 r,
  run_rx maxd delay b evs = Ok (out1, b1, true) -> run_rx_round maxd delay b1 ev = Ok (out2, b2, r) ->
  run_rx maxd delay b (evs ++ [ev]) = Ok (out1 ++ out2, b2, r).
Proof.
  induction evs as [|e evs IH]; intros b out1 b1 out2 b2 r E1 E2; cbn [app run_rx] in *.
  - injection E1 as <- <-. rewrite E2. cbn [mbind outcome_bind]. destruct r; [by rewrite app_nil_r|done].
  - inv_ok E1. destruct r0 as [[o b'] []]; [|done]. inv_ok E1. destruct r0 as [[o' b''] g]. injection E1 as <- <- ->. rewrite E. cbn [mbind outcome_bind].
    rewrite (IH _ _ _ _ _ _ E0 E2). cbn [mbind outcome_bind]. by rewrite app_assoc.
Qed.

Lemma dispatch_spec outs : forall ups queue e out queue' e',
  dispatch ups outs queue e = (out, queue', e') ->
  queue' = queue ++ sent_segments outs /\
  exists evs, delivered evs = frame_message <$> deliveries outs /\ run_egress egress_config evs e = (out, e').
Proof.
  induction outs as [|[b|d|n|n r] outs IH]; intros ups queue e out queue' e' E; cbn [dispatch] in E.
  - injection E as <- <- <-. rewrite app_nil_r. split; [done|]. by exists [].
  - apply IH in E as [-> He]. split; [by rewrite <- app_assoc|done].
  - destruct (deliver egress_config (ups 0%nat) d e) as [o1 e1] eqn:Ed. destruct (dispatch _ outs queue e1) as [[o2 q2] e2] eqn:E2.
    injection E as <- <- <-. apply IH in E2 as (-> & evs & Hd & Hr). split; [done|]. exists (Deliver (ups 0%nat) d :: evs).
    cbn [delivered run_egress egress_step]. rewrite Ed, Hr. split; [|done]. cbn. by rewrite Hd.
  - by apply IH in E.
  - by apply IH in E.
Qed.

Lemma log_app_quiet l : log_app l quiet = l.
Proof. destruct l. unfold log_app. cbn. by rewrite !app_nil_r. Qed.

Lemma wired_start : wired quiet daemon_start.
Proof. constructor; cbn; try done; [lia|by exists []..]. Qed.

(** Taking the next call off a thread's messages. *)
Lemma wired_enter l s t ca s' :
  wired l s -> inside s = [] -> next_call t s = Some (ca, s') ->
  wired l (MkDaemon (engine s') [(t, ca)] (ingress s') (read_messages s') (rx_buffer s') (rx_running s') (rx_messages s') (fired s')
             (tx_queue s') (egress s')).
Proof.
  intros [] Hi E. destruct s as [en ins ing ms b r rx f q eg]. cbn in *. subst ins. rewrite app_nil_r in *.
  destruct t; [destruct ms as [|m ms]|destruct rx as [|m rx]|destruct f as [ev|]]; try done; injection E as <- <-; constructor; cbn; try done.
  all: unfold starts, receives in *; rewrite omap_app; cbn; rewrite ?app_nil_r, <- ?app_assoc; done.
Qed.

Lemma wired_return l en t ca ing ms b r rx f q eg en' ups out q' eg' :
  wired l (MkDaemon en [(t, ca)] ing ms b r rx f q eg) -> run (perform ca) en = Ok en' ->
  dispatch ups (new_outputs en en') q eg = (out, q', eg') ->
  wired (log_app l (MkLog [] [] [ca] [] out)) (MkDaemon en' [] ing ms b r rx f q' eg').
Proof.
  intros [? Hq (evs & Hd & He) ? ? ? ?] Er Ed. apply perform_outputs in Er as Eo. apply dispatch_spec in Ed as [-> (evs' & Hd' & He')].
  constructor; cbn in *; rewrite ?app_nil_r in *; try done; [lia|..].
  - rewrite Eo, app_assoc, <- Hq. apply omap_app.
  - exists (evs ++ evs'). rewrite Eo, delivered_app, Hd, Hd', run_egress_app, He, He', <- fmap_app. split; [|done]. f_equal. symmetry. apply omap_app.
Qed.

Ltac fields :=
  unfold log_app in *;
  cbn [ingested heard calls transmitted written engine inside ingress read_messages rx_buffer rx_running rx_messages fired tx_queue egress] in *;
  rewrite ?app_nil_r in *.

Lemma daemon_step_wired ev l s l1 s' : wired l s -> daemon_step ev s = Ok (l1, s') -> wired (log_app l l1) s'.
Proof.
  intros Hw E. pose proof Hw as [Hi Hq Heg Hing Hrx Hst Hh]. destruct s as [en ins ing ms b r rx f q eg].
  destruct ev as [e|e|top|time|t|t ups|ups fd|]; cbn [daemon_step] in E.
  - destruct (_ || negb (bool_decide (ms = []))) eqn:Eg; [injection E as <- <-; by rewrite log_app_quiet|].
    apply orb_false_iff in Eg as [_ Hms]. apply negb_false_iff, bool_decide_eq_true_1 in Hms as ->. inv_ok E. destruct r0 as [out ing'].
    injection E as <- <-. constructor; fields; try done.
    + destruct Hing as [evs Hevs]. exists (evs ++ [e]). by eapply run_ingress_snoc.
    + by rewrite Hst, fmap_app.
  - destruct (_ || negb r) eqn:Eg; [injection E as <- <-; by rewrite log_app_quiet|].
    apply orb_false_iff in Eg as [Eg Hr]. apply orb_false_iff in Eg as [_ Hms]. apply negb_false_iff in Hr as ->.
    apply negb_false_iff, bool_decide_eq_true_1 in Hms as ->. inv_ok E. destruct r as [[out b'] r'].
    injection E as <- <-. constructor; fields; try done.
    + destruct Hrx as [evs Hevs]. exists (evs ++ [e]). by eapply run_rx_snoc.
    + by rewrite Hh.
  - destruct (timer_manager en) as [t|]; [|injection E as <- <-; by rewrite log_app_quiet].
    destruct (_ || _); [injection E as <- <-; by rewrite log_app_quiet|]. destruct (thread_pass top t) as [v t']. injection E as <- <-.
    rewrite log_app_quiet. by constructor.
  - destruct (timer_manager en) as [t|]; injection E as <- <-; rewrite log_app_quiet; [by constructor|done].
  - destruct (busy _ _); [injection E as <- <-; by rewrite log_app_quiet|].
    destruct (next_call t _) as [[ca s1]|] eqn:En; [|injection E as <- <-; by rewrite log_app_quiet].
    pose proof (wired_enter l _ t ca s1 Hw) as Hent. destruct s1 as [en1 ins1 ing1 ms1 b1 r1 rx1 f1 q1 eg1].
    destruct ins as [|x ins]; [|done]. injection E as <- <-. rewrite log_app_quiet. by apply Hent.
  - destruct ins as [|[t' ca] [|x ins]]; try (injection E as <- <-; by rewrite log_app_quiet).
    destruct (decide (t = t')) as [<-|]; [|injection E as <- <-; by rewrite log_app_quiet]. inv_ok E.
    destruct (dispatch ups _ q eg) as [[out q'] eg'] eqn:Ed. injection E as <- <-. by eapply wired_return.
  - destruct (accept_client ups fd eg) as [out eg'] eqn:Ea. injection E as <- <-. constructor; fields; try done.
    destruct Heg as (evs & Hd & He). exists (evs ++ [Accept ups fd]). rewrite delivered_app, run_egress_app, He. cbn [delivered run_egress egress_step].
    rewrite Ea, !app_nil_r. done.
  - destruct q as [|m q]; injection E as <- <-; [by rewrite log_app_quiet|]. constructor; fields; try done.
    by rewrite <- app_assoc.
Qed.

Lemma daemon_run_wired evs : forall l s l1 s',
  wired l s -> daemon_run evs s = Ok (l1, s') -> wired (log_app l l1) s'.
Proof.
  induction evs as [|ev evs IH]; intros l s l1 s' Hw E; cbn [daemon_run] in E.
  - injection E as <- <-. by rewrite log_app_quiet.
  - inv_ok E. destruct r as [l2 s2]. inv_ok E. destruct r as [l3 s3]. injection E as <- <-.
    pose proof (IH _ _ _ _ (daemon_step_wired _ _ _ _ _ Hw E0) E1) as H2. unfold log_app in *. cbn in H2. by rewrite <- !app_assoc in H2.
Qed.

(** What can stop the daemon: a thread that enters the engine while another is
    inside, a call of the engine that fails, and a message whose extraction
    reads outside the buffer. *)
Definition mishap (s : Daemon) (ev : daemon_event) (e : fault) : Prop :=
  match ev with
  | Enter t => exists t' ca, t <> t' /\ inside s = [(t', ca)]
  | Return t _ => exists ca, inside s = [(t, ca)] /\ run (perform ca) (engine s) = Err e
  | IngressEvent ie => handle_event (ingress s) ie = Err e
  | RxEvent re => run_rx_round (LtpConfig.max_reconnect_delay_ms (LtpConfig.cla c)) (LtpConfig.initial_reconnect_delay_ms (LtpConfig.cla c))
      (rx_buffer s) re = Err e
  | _ => False
  end.

Lemma daemon_step_fails ev l s e : wired l s -> daemon_step ev s = Err e -> mishap s ev e.
Proof.
  intros [Hi _ _ _ _ _ _] E. destruct s as [en ins ing ms b r rx f q eg].
  destruct ev as [ie|re|top|time|t|t ups|ups fd|]; cbn [daemon_step mishap inside engine ingress rx_buffer] in *.
  - destruct (_ || _); [done|]. destruct (handle_event ing ie) as [[]|]; [done|by injection E as ->].
  - destruct (_ || _); [done|]. destruct (run_rx_round _ _ _ _) as [[[] ]|]; [done|by injection E as ->].
  - destruct (timer_manager en); [|done]. destruct (_ || _); [done|]. by destruct (thread_pass _ _).
  - by destruct (timer_manager en).
  - unfold busy in E. cbn [inside] in E. case_bool_decide as Hb; [done|]. destruct (next_call _ _) as [[ca []]|]; [|done].
    destruct ins as [|[t' ca'] [|x ins]]; [done| |cbn in Hi; lia]. exists t', ca'. split; [|done]. intros ->. apply Hb. by left.
  - destruct ins as [|[t' ca] [|x ins]]; [done| |done]. destruct (decide (t = t')) as [<-|]; [|done]. exists ca. split; [done|].
    destruct (run (perform ca) en) as [en'|]; [|by injection E as ->]. cbn [mbind outcome_bind] in E. by destruct (dispatch _ _ _ _) as [[] ].
  - by destruct (accept_client ups fd eg).
  - by destruct q.
Qed.

Lemma daemon_run_fails evs : forall l s e,
  wired l s -> daemon_run evs s = Err e ->
  exists before ev after l1 s1, evs = before ++ ev :: after /\ daemon_run before s = Ok (l1, s1) /\ mishap s1 ev e.
Proof.
  induction evs as [|ev evs IH]; intros l s e Hw E; cbn [daemon_run] in E; [done|].
  destruct (daemon_step ev s) as [[l1 s1]|e1] eqn:Es; cbn [mbind outcome_bind] in E.
  - destruct (daemon_run evs s1) as [[l2 s2]|e2] eqn:Er; [done|]. injection E as ->.
    destruct (IH (log_app l l1) s1 e (daemon_step_wired _ _ _ _ _ Hw Es) Er) as (before & ev' & after & l2 & s2 & -> & Eb & Hm).
    exists (ev :: before), ev', after, (log_app l1 l2), s2. split; [done|]. split; [|done]. cbn [daemon_run]. rewrite Es. cbn [mbind outcome_bind].
    by rewrite Eb.
  - injection E as ->. exists [], ev, evs, quiet, s. split; [done|]. split; [done|]. by eapply daemon_step_fails.
Qed.

(** [C6] The daemon is its components, connected. Under every schedule of its
    threads the ingress, the convergence layer's reader and the egress have
    each made a run of their own; the messages of the ingress clients are
    passed to the engine once and in order, and so are those of the radio; the
    engine's segments are transmitted in order, the waiting ones queued; and
    its deliveries are the blocks the egress was given. It stops only when two
    threads are inside the engine at once, when a call of the engine fails, or
    on a message length that wraps. *)
Theorem daemon_wired events :
  match daemon_run events daemon_start with
  | Ok (l, s) =>
      (exists evs, run_ingress (Framing.MkIngress [] ∅) evs = Ok (ingested l, ingress s)) /\
      (exists evs, run_rx (LtpConfig.max_reconnect_delay_ms (LtpConfig.cla c)) (LtpConfig.initial_reconnect_delay_ms (LtpConfig.cla c))
         [] evs = Ok (heard l, rx_buffer s, rx_running s)) /\
      starts (calls l ++ (snd <$> inside s)) ++ read_messages s = snd <$> ingested l /\
      receives (calls l ++ (snd <$> inside s)) ++ rx_messages s = heard l /\
      sent_segments (outputs (engine s)) = transmitted l ++ tx_queue s /\
      exists evs, delivered evs = frame_message <$> deliveries (outputs (engine s)) /\
        run_egress egress_config evs egress_start = (written l, egress s)
  | Err e =>
      exists before ev after l s, events = before ++ ev :: after /\ daemon_run before daemon_start = Ok (l, s) /\ mishap s ev e
  end.
Proof.
  destruct (daemon_run events daemon_start) as [[l s]|e] eqn:E; [|by apply (daemon_run_fails events quiet); [apply wired_start|]].
  destruct (daemon_run_wired events quiet daemon_start l s wired_start E) as [_ ? ? ? ? ? ?]. split_and!; done.
Qed.

(** ** What the clients are given *)

Section clients.
Context (blocks : gmap SessionKey Block).

(** The engine of a state, reached by calls of a well-behaved program and a
    network that brings pieces of the peers' blocks. *)
Definition lawful (l : log) (s : Daemon) : Prop :=
  Forall (call_ok (LtpConfig.ltp c)) (calls l) -> Forall (honest blocks) (calls l) -> zlen (calls l) < 2 ^ 64 ->
  inv (engine s) /\ sound blocks (engine s) /\ config (engine s) = LtpConfig.ltp c /\ session_counter (engine s) <= zlen (calls l).

Lemma inv_timers t (e : LtpEngine (T := TimerManager)) : inv e -> inv (with_timer_manager t e).
Proof. by intros []. Qed.

Lemma sound_timers t (e : LtpEngine (T := TimerManager)) : sound blocks e -> sound blocks (with_timer_manager t e).
Proof. by intros []. Qed.

(** All steps but the return of a call leave the engine as it is, or change
    its timers only. *)
Lemma step_engine ev s l1 s' :
  daemon_step ev s = Ok (l1, s') ->
  (calls l1 = [] /\ (engine s' = engine s \/ exists t, engine s' = with_timer_manager t (engine s))) \/
  exists t ca, inside s = [(t, ca)] /\ calls l1 = [ca] /\ run (perform ca) (engine s) = Ok (engine s').
Proof.
  intros E. destruct s as [en ins ing ms b r rx f q eg].
  destruct ev as [ie|re|top|time|t|t ups|ups fd|]; cbn [daemon_step] in E.
  - left. destruct (_ || _); [injection E as <- <-; auto|]. inv_ok E. destruct r0 as [out ing']. injection E as <- <-. auto.
  - left. destruct (_ || _); [injection E as <- <-; auto|]. inv_ok E. destruct r0 as [[out b'] r']. injection E as <- <-. auto.
  - left. destruct (timer_manager en); [|injection E as <- <-; auto]. destruct (_ || _); [injection E as <- <-; auto|].
    destruct (thread_pass _ _) as [v t']. injection E as <- <-. eauto.
  - left. destruct (timer_manager en); injection E as <- <-; eauto.
  - left. destruct (busy _ _); [injection E as <- <-; auto|]. destruct (next_call t _) as [[ca s1]|] eqn:En; [|injection E as <- <-; auto].
    assert (engine s1 = en) as Ee.
    { destruct t; cbn in En; [destruct ms|destruct rx|destruct f]; try done; by injection En as _ <-. }
    destruct s1. destruct ins; [|done]. injection E as <- <-. cbn in *. auto.
  - destruct ins as [|[t' ca] [|x ins]]; try (injection E as <- <-; left; by auto).
    destruct (decide (t = t')) as [<-|]; [|injection E as <- <-; left; by auto]. inv_ok E.
    destruct (dispatch ups _ q eg) as [[out q'] eg']. injection E as <- <-. right. by exists t, ca.
  - left. destruct (accept_client ups fd eg). injection E as <- <-. auto.
  - left. destruct q; injection E as <- <-; auto.
Qed.

Lemma daemon_step_lawful ev l s l1 s' :
  blocks_ok blocks -> lawful l s -> daemon_step ev s = Ok (l1, s') -> lawful (log_app l l1) s'.
Proof.
  intros Hbs Hl E. apply step_engine in E as [[Ec Ee]|(t & ca & _ & Ec & Er)]; unfold lawful, log_app in *; cbn [calls]; rewrite Ec.
  - rewrite app_nil_r. intros H1 H2 H3. destruct (Hl H1 H2 H3) as (Hi & Hs & Ecfg & Hn). destruct Ee as [->|[t ->]]; [done|].
    split_and!; [by apply inv_timers|by apply sound_timers|done|done].
  - intros [H1 [Hca _]%Forall_cons]%Forall_app [H2 [Hh _]%Forall_cons]%Forall_app H3. rewrite length_app in *. cbn [length] in H3 |- *.
    destruct (Hl H1 H2 ltac:(lia)) as (Hi & Hs & Ecfg & Hn). rewrite <- Ecfg in Hca.
    pose proof (perform_inv ca (engine s) Hi Hca ltac:(lia)) as Hp. pose proof (perform_sound blocks ca (engine s) Hbs Hi Hs Hca Hh ltac:(lia)) as Hq.
    unfold wp in Hp, Hq. unfold run in Er. destruct (perform ca (engine s)) as [[[] e1]|]; [|done]. injection Er as ->.
    destruct Hp as (Hi1 & Ec1 & Hn1). split_and!; [done|done|by rewrite Ec1|lia].
Qed.

Lemma daemon_run_lawful evs : forall l s l1 s',
  blocks_ok blocks -> lawful l s -> daemon_run evs s = Ok (l1, s') -> lawful (log_app l l1) s'.
Proof.
  induction evs as [|ev evs IH]; intros l s l1 s' Hbs Hl E; cbn [daemon_run] in E.
  - injection E as <- <-. by rewrite log_app_quiet.
  - inv_ok E. destruct r as [l2 s2]. inv_ok E. destruct r as [l3 s3]. injection E as <- <-.
    pose proof (IH _ _ _ _ Hbs (daemon_step_lawful _ _ _ _ _ Hbs Hl E0) E1) as H2. unfold lawful, log_app in *. cbn [calls] in *. by rewrite app_assoc.
Qed.

(** What the log and the state promise when the engine was called as above:
    all that egress clients were written are the frames of blocks, or the
    beginnings of such frames where a write failed. *)
Definition proper (m : list Z) : Prop := exists d, m = frame_message d /\ (d = [] \/ exists key b, blocks !! key = Some b /\ delivers b d).

Definition well_called (cs : list call) : Prop :=
  Forall (call_ok (LtpConfig.ltp c)) cs /\ Forall (honest blocks) cs /\ zlen cs < 2 ^ 64.

Definition promised (l : log) (s : Daemon) : Prop :=
  well_called (calls l) ->
  Forall (part_of proper) (written l) /\ Z.of_nat (size (sessions (engine s))) <= max_concurrent_sessions (LtpConfig.ltp c).

Lemma start_lawful : config_ok (LtpConfig.ltp c) -> lawful quiet daemon_start.
Proof. intros Hc _ _ _. cbn. split_and!; [by apply inv_init| |done|lia]. split; [apply map_Forall_empty|done]. Qed.

Lemma run_promised events l s :
  config_ok (LtpConfig.ltp c) -> blocks_ok blocks -> daemon_run events daemon_start = Ok (l, s) -> lawful l s /\ promised l s.
Proof.
  intros Hc Hbs E. pose proof (daemon_run_wired events quiet daemon_start l s wired_start E) as [_ _ (evs & Hd & He) _ _ _ _].
  pose proof (daemon_run_lawful events quiet daemon_start l s Hbs (start_lawful Hc) E) as Hl. split; [exact Hl|].
  intros (H1 & H2 & H3). destruct (Hl H1 H2 H3) as (Hi & [_ Hs] & Ecfg & _).
  split; [|rewrite <- Ecfg; apply Hi]. pose proof (run_egress_only proper egress_config evs egress_start) as Ho. rewrite He in Ho. apply Ho; [|done].
  rewrite Hd. apply Forall_fmap. apply (Forall_impl _ _ _ Hs). intros d Hg. exists d. split; [done|exact Hg].
Qed.

End clients.
End daemon.

(** ** Runs with the default configuration *)

Section runs.
#[local] Existing Instance one_gib.

(** A message of the radio, passed on at once. *)
Definition radio (m : list Z) : list daemon_event :=
  [RxEvent (RxRead (zlen (frame_message m)) (frame_message m) []); Enter RxThread; Return RxThread (fun _ _ _ => 5)].

Definition arrivals : list daemon_event := concat (radio <$> receives sample_arrivals).

(** A red block sent for an ingress client, its checkpoint's timeout, and one
    received for an egress client. *)
Example both_ways :
  let timeout := MkEntry 1 30000 (MkEvent Timers.CHECKPOINT 1 1 1) in
  match daemon_run LtpConfig.defaults
          ([IngressEvent (Accepted 9); IngressEvent (Readable 9 6 [0; 0; 0; 2; 65; 66]); Enter IngressThread;
            Return IngressThread (fun _ _ _ => 5); Transmit; Elapse 30000; TimerPass timeout; Enter TimerThread;
            Return TimerThread (fun _ _ _ => 5); Transmit] ++ arrivals ++ [Connect (fun _ _ _ => 5) 5])
          (daemon_start LtpConfig.defaults) with
  | Ok (l, s) =>
      ingested l = [(9, [65; 66])] /\ written l = [(5, frame_message [7; 8; 9])] /\ length (tx_queue s) = 1%nat /\
      transmitted l = [wire (plain_segment RED_DATA_CP_EORP_EOB 1 1 (CData (MkData 1 0 2 (Some 1) (Some 0) [65; 66])));
                       wire (plain_segment RED_DATA_CP_EORP_EOB 1 1 (CData (MkData 1 0 2 (Some 2) (Some 0) [65; 66])))]
  | Err _ => False
  end.
Proof. vm_compute. split_and!; reflexivity. Qed.

(** Nothing keeps two threads out of the engine: a client's message and a
    segment from the radio are enough. *)
Example calls_race :
  daemon_run LtpConfig.defaults
    ([IngressEvent (Accepted 9); IngressEvent (Readable 9 6 [0; 0; 0; 2; 65; 66])] ++ take 1 arrivals ++ [Enter IngressThread; Enter RxThread])
    (daemon_start LtpConfig.defaults) = Err Undefined.
Proof. vm_compute. reflexivity. Qed.

End runs.
End Daemon.
