(* ===== verification/LtpMain.v ===== *)
(** * The whole of [main] of the daemon (src/ltp_cla/main.cpp)

    The configuration, the components' starts, their threads until a signal
    comes, the stops in [main]'s order with what the threads do meanwhile, the
    joins, and the exit code. The state is that of the sockets ([LtpProcess])
    and that of the engine with the threads that call it ([Daemon]). The two
    halves know of each other where a thread is, not what it reads: the runs
    are those of the program and others in which, say, the bytes of a socket
    and those of the engine's half differ. *)
From S2P Require Import Prelude Descriptors Framing Egress Listeners Process Timers Json LtpConfig Engine EngineInvariant Daemon.
Import Descriptors Json LtpProcess.

Module LtpMain.

Abbreviation process := (IngressServer.TcpIngress * EgressServer.TcpEgress * Adapter.ConvergenceLayerAdapter)%type.
Abbreviation process_event := (IngressServer.event + EgressServer.event + Adapter.event)%type.

Inductive happening := Sockets (ev : process_event) | Logic (ev : Daemon.daemon_event).

Record state := MkState { sock : process; logic : Daemon.Daemon }.

(** A thread has passed on all it extracted, and no call of the engine is under
    way for it. *)
Definition at_rest (t : Daemon.thread) (d : Daemon.Daemon) : bool :=
  negb (Daemon.busy t d) &&
  match t with
  | Daemon.IngressThread => bool_decide (Daemon.read_messages d = [])
  | Daemon.RxThread => bool_decide (Daemon.rx_messages d = [])
  | Daemon.TimerThread => negb (bool_decide (is_Some (Daemon.fired d)))
  end.

Definition reading (p : process) : bool := match IngressServer.thread p.1.1 with Polling _ _ => true | _ => false end.
Definition receiving (p : process) : bool := match Adapter.thread (Adapter.rx p.2) with Adapter.Serving => true | _ => false end.

(** What the components' threads do, where they are: the ingress thread extracts
    messages and calls the engine in a round, and so does the receiving one,
    which goes on when the callbacks have returned. *)
Definition of_thread (ev : process_event) : bool :=
  match ev with
  | inl (inl (IngressServer.Loop | IngressServer.Round _)) => true
  | inl (inr (EgressServer.Loop | EgressServer.Round _ | EgressServer.Deliver _ _)) => true
  | inr (Adapter.ReconnectTx _ | Adapter.ReconnectRx _ | Adapter.Write _ | Adapter.Round _) => true
  | _ => false
  end.

Definition enabled (h : happening) (s : state) : bool :=
  match h with
  | Sockets ev =>
      of_thread ev &&
      match ev with
      | inl (inl (IngressServer.Round _)) => at_rest Daemon.IngressThread (logic s)
      | inr (Adapter.Round _) => at_rest Daemon.RxThread (logic s)
      | _ => true
      end
  | Logic (Daemon.IngressEvent _ | Daemon.Enter Daemon.IngressThread | Daemon.Return Daemon.IngressThread _) => reading (sock s)
  | Logic (Daemon.RxEvent _ | Daemon.Enter Daemon.RxThread | Daemon.Return Daemon.RxThread _) => receiving (sock s)
  | Logic _ => true
  end.

(** A thread that [main] joins, and whether it is at its end. *)
Inductive joined := JoinIngress | JoinTimers | JoinCla | JoinEgress.

Definition at_end (k : joined) (s : state) : bool :=
  match k with
  | JoinIngress => match IngressServer.thread (sock s).1.1 with Idle | Finished => true | _ => false end
  | JoinTimers => at_rest Daemon.TimerThread (logic s)
  | JoinCla =>
      let ended l := match Adapter.thread l with Adapter.Off | Adapter.Ended => true | _ => false end in
      ended (Adapter.tx (sock s).2) && ended (Adapter.rx (sock s).2)
  | JoinEgress => match EgressServer.thread (sock s).1.2 with Idle | Finished => true | _ => false end
  end.

(** What [main] does, and what happens meanwhile. A [join] of a thread that
    never gets to its end does not return. *)
Inductive instant := Main (ev : process_event) | Thread (h : happening) | StopTimers | Join (k : joined).

Section main.
Context `{JsonLaws} `{Allocator} (files : string -> option text).

Section instants.
Context (c : LtpConfig.LtpClaConfig).

Definition on_sockets (ev : process_event) (s : state) : outcome (list syscall * state) :=
  '(calls, p) ← process_step (Daemon.egress_config c) ev (sock s); Ok (calls, MkState p (logic s)).

Definition stop_timers (d : Daemon.Daemon) : Daemon.Daemon :=
  match Engine.timer_manager (Daemon.engine d) with
  | Some t => Daemon.MkDaemon (Engine.with_timer_manager (Timers.stop t) (Daemon.engine d)) (Daemon.inside d) (Daemon.ingress d) (Daemon.read_messages d)
                (Daemon.rx_buffer d) (Daemon.rx_running d) (Daemon.rx_messages d) (Daemon.fired d) (Daemon.tx_queue d) (Daemon.egress d)
  | None => d
  end.

Definition happens (i : instant) (s : state) : outcome (list syscall * state) :=
  match i with
  | Main ev => on_sockets ev s
  | Thread h =>
      if enabled h s then
        match h with
        | Sockets ev => on_sockets ev s
        | Logic ev => '(_, d) ← Daemon.daemon_step c ev (logic s); Ok ([], MkState (sock s) d)
        end
      else Ok ([], s)
  | StopTimers => Ok ([], MkState (sock s) (stop_timers (logic s)))
  | Join k => if at_end k s then Ok ([], s) else Err Diverges
  end.

Fixpoint run (plan : list instant) (s : state) : outcome (list syscall * state) :=
  match plan with
  | [] => Ok ([], s)
  | i :: plan' => '(c1, s) ← happens i s; '(c2, s) ← run plan' s; Ok (c1 ++ c2, s)
  end.

(** The components as they are constructed; the timer manager is running. *)
Definition constructed : state := MkState construct (Daemon.daemon_start c).
End instants.

(** What the starts answer, and what the threads do between [main]'s steps:
    after each start, until the signal, and during each of the stops. *)
Record world := MkWorld {
  egress_setup : setup; ingress_setup : setup;
  after_cla : list happening; after_egress : list happening; until_signal : list happening;
  ingress_stopping : list happening; timers_stopping : list happening; cla_stopping : list happening; egress_stopping : list happening }.

Definition life (w : world) : list instant :=
  (Main (on_cla Adapter.Start) :: (Thread <$> after_cla w)) ++
  (Main (on_egress (EgressServer.Start (egress_setup w))) :: (Thread <$> after_egress w)) ++
  (Main (on_ingress (IngressServer.Start (ingress_setup w))) :: (Thread <$> until_signal w)).

Definition shutdown (w : world) : list instant :=
  (Main (on_ingress IngressServer.Stop) :: (Thread <$> ingress_stopping w) ++ [Join JoinIngress; Main (on_ingress IngressServer.Joined)]) ++
  (StopTimers :: (Thread <$> timers_stopping w) ++ [Join JoinTimers]) ++
  (Main (on_cla Adapter.Stop) :: (Thread <$> cla_stopping w) ++ [Join JoinCla; Main (on_cla Adapter.Joined)]) ++
  (Main (on_egress EgressServer.Stop) :: (Thread <$> egress_stopping w) ++ [Join JoinEgress; Main (on_egress EgressServer.Joined)]).

(** The system calls on descriptors and the exit code. *)
Definition main (args : list string) (w : world) : outcome (list syscall * Z) :=
  r ← Daemon.configure files args;
  match r with
  | inr code => Ok ([], code)
  | inl c => '(calls, _) ← run c (life w ++ shutdown w) (constructed c); Ok (calls, 0)
  end.

(** ** The sockets *)

Section instants.
Context (c : LtpConfig.LtpClaConfig).

Lemma run_split plan1 : forall plan2 s calls s',
  run c (plan1 ++ plan2) s = Ok (calls, s') -> exists c1 s1 c2, run c plan1 s = Ok (c1, s1) /\ run c plan2 s1 = Ok (c2, s') /\ calls = c1 ++ c2.
Proof.
  induction plan1 as [|i plan1 IH]; intros plan2 s calls s' E; cbn [app run] in *; [by exists [], s, calls|].
  inv_ok E. destruct r as [k t]. inv_ok E. destruct r as [k' t']. injection E as <- <-. destruct (IH _ _ _ _ E1) as (c1 & s1 & c2 & E2 & E3 & ->).
  exists (k ++ c1), s1, c2. rewrite E0. cbn [mbind outcome_bind]. rewrite E2. split; [done|]. split; [done|]. by rewrite app_assoc.
Qed.

(** An instant is a step of the sockets' half or leaves it alone. *)
Lemma happens_sock i s calls s' :
  happens c i s = Ok (calls, s') ->
  (exists ev, (i = Main ev \/ i = Thread (Sockets ev) /\ of_thread ev = true) /\ process_step (Daemon.egress_config c) ev (sock s) = Ok (calls, sock s')) \/
  (calls = [] /\ sock s' = sock s).
Proof.
  assert (forall ev, on_sockets c ev s = Ok (calls, s') -> process_step (Daemon.egress_config c) ev (sock s) = Ok (calls, sock s')) as Hs.
  { intros ev E. unfold on_sockets in E. inv_ok E. destruct r as [k p]. injection E as <- <-. exact E0. }
  destruct i as [ev|h| |k]; cbn [happens]; intros E.
  - left. exists ev. split; [by left|by apply Hs].
  - destruct (enabled h s) eqn:Eh; [|injection E as <- <-; by right]. destruct h as [ev|ev].
    + left. exists ev. cbn [enabled] in Eh. apply andb_true_iff in Eh as [Eh _]. split; [by right|by apply Hs].
    + inv_ok E. destruct r as [l d]. injection E as <- <-. by right.
  - injection E as <- <-. by right.
  - destruct (at_end k s); [|done]. injection E as <- <-. by right.
Qed.

(** The calls are legal, from a state that is well-formed to one that is. *)
Lemma run_sock plan : forall s calls s',
  process_ok (Daemon.egress_config c) (sock s) -> run c plan s = Ok (calls, s') ->
  process_ok (Daemon.egress_config c) (sock s') /\
  forall rest open, has rest (sockets (sock s)) open -> legal calls (has rest (sockets (sock s'))) open.
Proof.
  induction plan as [|i plan IH]; intros s calls s' Hok E; cbn [run] in E; [by injection E as <- <-|].
  inv_ok E. destruct r as [c1 s1]. inv_ok E. destruct r as [c2 s2]. injection E as <- <-.
  assert (process_ok (Daemon.egress_config c) (sock s1) /\
    forall rest open, has rest (sockets (sock s)) open -> legal c1 (has rest (sockets (sock s1))) open) as [Hok1 Hl1].
  { apply happens_sock in E0 as [(ev & _ & E)|[-> ->]]; [|by split]. split; [by eapply process_keeps|]. intros rest open. by eapply process_legal. }
  destruct (IH _ _ _ Hok1 E1) as [Hok2 Hl2]. split; [done|]. intros rest open Hh. eapply legal_seq; [by apply Hl1|]. intros o. apply Hl2.
Qed.

(** ** Stopping *)

(** A component that stays where stopping has brought it. *)
Definition stays {A} (told gone : A -> Prop) (a a' : A) : Prop := (told a -> told a') /\ (gone a -> gone a').

Definition quieter (s s' : process) : Prop :=
  stays ingress_told ingress_gone s.1.1 s'.1.1 /\ stays egress_told egress_gone s.1.2 s'.1.2 /\ stays cla_told cla_gone s.2 s'.2.

Lemma quieter_refl s : quieter s s.
Proof. by split_and!. Qed.

Lemma quieter_trans s1 s2 s3 : quieter s1 s2 -> quieter s2 s3 -> quieter s1 s3.
Proof. unfold quieter, stays. naive_solver. Qed.

(** The threads start nothing anew. *)
Lemma ingress_stays ev (s : IngressServer.TcpIngress) m calls s' :
  of_thread (on_ingress ev) = true -> IngressServer.step ev s = Ok (m, calls, s') -> stays ingress_told ingress_gone s s'.
Proof.
  destruct s as [r l p t b]. unfold stays, ingress_gone, ingress_told. intros Hev E. destruct ev as [a| |a| |]; try discriminate Hev; cbn in E.
  - destruct t; injection E as <- <- <-; cbn; naive_solver.
  - destruct t as [| |l' fds|]; try by injection E as <- <- <-.
    destruct a as [| |lr acc ready]; [injection E as <- <- <-; cbn; naive_solver..|]. inv_ok E. destruct r0 as [ms b']. injection E as <- <- <-. cbn. naive_solver.
Qed.

Lemma egress_stays ev (s : EgressServer.TcpEgress) :
  of_thread (on_egress ev) = true -> stays egress_told egress_gone s (EgressServer.step (Daemon.egress_config c) ev s).2.
Proof.
  destruct s as [r l p t e]. unfold stays, egress_gone, egress_told. intros Hev. destruct ev as [a| |a|up data| |]; try discriminate Hev; cbn.
  - destruct t; cbn; naive_solver.
  - destruct t as [| |l' fds|]; try done. destruct a as [|  |lr acc ups]; [cbn; naive_solver..|].
    repeat case_match; cbn; naive_solver.
  - by destruct (Egress.deliver _ up data e).
Qed.

Lemma cla_stays ev (s : Adapter.ConvergenceLayerAdapter) : of_thread (on_cla ev) = true -> stays cla_told cla_gone s (Adapter.step ev s).2.
Proof.
  destruct s as [r [tf tc tt] [xf xc xt]]. unfold stays, cla_gone, cla_told. intros Hev. destruct ev as [|a|a|n|a| |]; try discriminate Hev; cbn.
  - destruct (Adapter.reconnect r a (Adapter.MkLink tf tc tt)) as [cs l] eqn:El. unfold Adapter.reconnect in El. cbn in El |- *. naive_solver.
  - destruct (Adapter.reconnect r a (Adapter.MkLink xf xc xt)) as [cs l] eqn:El. unfold Adapter.reconnect in El. cbn in El |- *. naive_solver.
  - destruct (Adapter.write_once r n (Adapter.MkLink tf tc tt)) as [cs l] eqn:El. unfold Adapter.write_once in El. cbn in El |- *. naive_solver.
  - destruct (Adapter.rx_round r a (Adapter.MkLink xf xc xt)) as [cs l] eqn:El. unfold Adapter.rx_round in El. cbn in El |- *. naive_solver.
Qed.

(** A step of one component, the others as they were. *)
Lemma step_parts ev (s s' : process) calls :
  process_step (Daemon.egress_config c) ev s = Ok (calls, s') ->
  match ev with
  | inl (inl e) => (exists m, IngressServer.step e s.1.1 = Ok (m, calls, s'.1.1)) /\ s'.1.2 = s.1.2 /\ s'.2 = s.2
  | inl (inr e) => s'.1.2 = (EgressServer.step (Daemon.egress_config c) e s.1.2).2 /\ s'.1.1 = s.1.1 /\ s'.2 = s.2
  | inr e => s'.2 = (Adapter.step e s.2).2 /\ s'.1 = s.1
  end.
Proof.
  intros E. destruct s as [[i eg] k]. unfold process_step in E. destruct ev as [[e|e]|e].
  - cbn -[IngressServer.step] in E. destruct (IngressServer.step e i) as [[[m cs] i']|] eqn:Es; [|done].
    injection E as <- <-. split; [exists m; exact Es|done].
  - cbn -[EgressServer.step] in E. destruct (EgressServer.step _ e eg) as [[o cs] e'] eqn:Es. injection E as <- <-. cbn -[EgressServer.step]. by rewrite Es.
  - cbn -[Adapter.step] in E. destruct (Adapter.step e k) as [cs k'] eqn:Es. injection E as <- <-. cbn -[Adapter.step]. by rewrite Es.
Qed.

Lemma step_quieter ev s calls s' : of_thread ev = true -> process_step (Daemon.egress_config c) ev s = Ok (calls, s') -> quieter s s'.
Proof.
  intros Hev E. apply step_parts in E. unfold quieter. destruct ev as [[e|e]|e].
  - destruct E as ([m E] & -> & ->). split; [by eapply ingress_stays|by split_and!].
  - destruct E as (-> & -> & ->). split; [by split|]. split; [by apply egress_stays|by split].
  - destruct E as [-> ->]. split; [by split|]. split; [by split|by apply cla_stays].
Qed.

Lemma threads_quieter hs : forall s calls s', run c (Thread <$> hs) s = Ok (calls, s') -> quieter (sock s) (sock s').
Proof.
  induction hs as [|h hs IH]; intros s calls s' E; cbn [fmap list_fmap run] in E; [injection E as <- <-; apply quieter_refl|].
  inv_ok E. destruct r as [c1 s1]. inv_ok E. destruct r as [c2 s2]. injection E as <- <-.
  apply (quieter_trans _ (sock s1)); [|exact (IH _ _ _ E1)].
  apply happens_sock in E0 as [(ev & [Hm|[_ Hev]] & E)|[_ ->]]; [discriminate Hm|by eapply step_quieter|apply quieter_refl].
Qed.

(** A [stop]: its flag, what the threads do meanwhile, and the join. *)
Lemma stop_phase stop hs k joins s calls s' :
  process_ok (Daemon.egress_config c) (sock s) ->
  run c (Main stop :: (Thread <$> hs) ++ [Join k; Main joins]) s = Ok (calls, s') ->
  exists c0 p0 s1 c1, process_step (Daemon.egress_config c) stop (sock s) = Ok (c0, p0) /\ quieter p0 (sock s1) /\
    process_ok (Daemon.egress_config c) (sock s1) /\ at_end k s1 = true /\ process_step (Daemon.egress_config c) joins (sock s1) = Ok (c1, sock s').
Proof.
  intros Hok E. cbn [run happens] in E. apply bind_ok in E as ([c0 s0] & E0 & E). apply bind_ok in E as ([c2 s2] & E1 & E). injection E as <- <-.
  unfold on_sockets in E0. apply bind_ok in E0 as ([k0 p0] & E0 & E). injection E as <- <-.
  apply run_split in E1 as (c1 & s1 & c3 & E1 & E2 & _). cbn [run happens] in E2. apply bind_ok in E2 as ([c4 s4] & E3 & E2).
  destruct (at_end k s1) eqn:Ek; [|done]. injection E3 as <- <-. apply bind_ok in E2 as ([c5 s5] & E2 & E). injection E as <- <-.
  apply bind_ok in E2 as ([c6 s6] & E2 & E). injection E as <- <-. unfold on_sockets in E2. apply bind_ok in E2 as ([c7 p7] & E2 & E). injection E as <- <-.
  assert (process_ok (Daemon.egress_config c) p0) as Hok0 by (by eapply process_keeps).
  destruct (run_sock (Thread <$> hs) (MkState p0 (logic s)) c1 s1 Hok0 E1) as [Hok1 _]. apply threads_quieter in E1.
  by exists k0, p0, s1, c7.
Qed.

Lemma ingress_stopped hs s calls s' :
  process_ok (Daemon.egress_config c) (sock s) ->
  run c (Main (on_ingress IngressServer.Stop) :: (Thread <$> hs) ++ [Join JoinIngress; Main (on_ingress IngressServer.Joined)]) s = Ok (calls, s') ->
  ingress_gone (sock s').1.1.
Proof.
  intros Hok E. apply stop_phase in E as (c0 & p0 & s1 & c1 & E0 & (Hq & _ & _) & _ & He & E1); [|done].
  apply step_parts in E0 as ([m E0] & _). apply step_parts in E1 as ([m' E1] & _). cbn [at_end] in He.
  assert (ingress_told (sock s1).1.1) as Ht.
  { apply (proj1 Hq). destruct (sock s).1.1 as [r l p t b]. cbn in E0. unfold ingress_told. destruct r; injection E0 as _ _ <-; done. }
  destruct (sock s1).1.1 as [r l p t b]. unfold ingress_told in Ht. cbn in Ht, He, E1. subst r. destruct t; try done; injection E1 as _ _ <-; by split.
Qed.

Lemma cla_stopped hs s calls s' :
  process_ok (Daemon.egress_config c) (sock s) ->
  run c (Main (on_cla Adapter.Stop) :: (Thread <$> hs) ++ [Join JoinCla; Main (on_cla Adapter.Joined)]) s = Ok (calls, s') ->
  cla_gone (sock s').2 /\ stays ingress_told ingress_gone (sock s).1.1 (sock s').1.1.
Proof.
  intros Hok E. apply stop_phase in E as (c0 & p0 & s1 & c1 & E0 & (Hi & _ & Hq) & Hok1 & He & E1); [|done].
  apply step_parts in E0 as [E0 F0]. apply step_parts in E1 as [E1 F1]. rewrite F0 in Hi. rewrite F1. split; [|exact Hi].
  assert (cla_told (sock s1).2) as Ht.
  { apply (proj1 Hq). rewrite E0. by destruct (sock s).2. }
  destruct Hok1 as [_ (_ & _ & Ho & _)]. cbn [at_end] in He. rewrite E1. destruct (sock s1).2 as [r [tf tc tt] [xf xc xt]].
  unfold cla_told in Ht. cbn in Ht, He, Ho |- *. subst r. destruct tt, xt; try done; try (by split_and!); exfalso; destruct Ho as [Ho1 Ho2];
    first [discriminate (Ho1 eq_refl)|discriminate (Ho2 eq_refl)].
Qed.

Lemma egress_stopped hs s calls s' :
  process_ok (Daemon.egress_config c) (sock s) ->
  run c (Main (on_egress EgressServer.Stop) :: (Thread <$> hs) ++ [Join JoinEgress; Main (on_egress EgressServer.Joined)]) s = Ok (calls, s') ->
  egress_gone (sock s').1.2 /\ stays ingress_told ingress_gone (sock s).1.1 (sock s').1.1 /\ stays cla_told cla_gone (sock s).2 (sock s').2.
Proof.
  intros Hok E. apply stop_phase in E as (c0 & p0 & s1 & c1 & E0 & (Hi & Hq & Hk) & _ & He & E1); [|done].
  apply step_parts in E0 as (E0 & F0 & G0). apply step_parts in E1 as (E1 & F1 & G1). rewrite F0 in Hi. rewrite G0 in Hk. rewrite F1, G1.
  split; [|done]. assert (egress_told (sock s1).1.2) as Ht.
  { apply (proj1 Hq). rewrite E0. destruct (sock s).1.2 as [[] l p t e]; done. }
  cbn [at_end] in He. rewrite E1. destruct (sock s1).1.2 as [r l p t e]. unfold egress_told in Ht. cbn in Ht, He |- *. subst r. destruct t; try done; by split.
Qed.

Lemma timers_stopped hs s calls s' :
  run c (StopTimers :: (Thread <$> hs) ++ [Join JoinTimers]) s = Ok (calls, s') -> quieter (sock s) (sock s').
Proof.
  intros E. cbn [run happens] in E. apply bind_ok in E as ([c0 s0] & E0 & E). injection E0 as <- <-. apply bind_ok in E as ([c1 s1] & E1 & E). injection E as <- <-.
  apply run_split in E1 as (c2 & s2 & c3 & E1 & E2 & _). apply threads_quieter in E1. cbn [run happens] in E2.
  apply bind_ok in E2 as ([c4 s4] & E3 & E2). destruct (at_end _ s2); [|done]. injection E3 as <- <-. by injection E2 as _ <-.
Qed.

Lemma shutdown_stops w s calls s' :
  process_ok (Daemon.egress_config c) (sock s) -> run c (shutdown w) s = Ok (calls, s') -> stopped (sock s').
Proof.
  intros Hok E. unfold shutdown in E.
  apply run_split in E as (c1 & s1 & c2 & E1 & E & _). destruct (run_sock _ _ _ _ Hok E1) as [Hok1 _].
  apply run_split in E as (c3 & s2 & c4 & E2 & E & _). destruct (run_sock _ _ _ _ Hok1 E2) as [Hok2 _].
  apply run_split in E as (c5 & s3 & c6 & E3 & E4 & _). destruct (run_sock _ _ _ _ Hok2 E3) as [Hok3 _].
  apply ingress_stopped in E1; [|done]. apply timers_stopped in E2 as (Hi & _ & _). apply cla_stopped in E3 as [Hk Hi']; [|done].
  apply egress_stopped in E4 as (He & Hi'' & Hk'); [|done]. split; [by apply Hi'', Hi', Hi|]. split; [done|by apply Hk'].
Qed.

(** ** What keeps [main] from returning *)

(** A call of the engine that fails, two threads in the engine, a message whose
    extraction fails, or a thread that is not at its end when it is joined. *)
Definition trouble (i : instant) (s : state) (e : fault) : Prop :=
  match i with
  | Join k => at_end k s = false /\ e = Diverges
  | Thread (Logic ev) => Daemon.mishap c (logic s) ev e
  | Thread (Sockets ev) => extraction_fails (sock s) ev e
  | _ => False
  end.

Lemma stop_timers_wired l d : Daemon.wired c l d -> Daemon.wired c l (stop_timers d).
Proof. intros []. unfold stop_timers. destruct (Engine.timer_manager (Daemon.engine d)); by constructor. Qed.

Lemma happens_wired i s calls s' :
  (exists l, Daemon.wired c l (logic s)) -> happens c i s = Ok (calls, s') -> exists l, Daemon.wired c l (logic s').
Proof.
  intros [l Hw] E. assert (forall ev, on_sockets c ev s = Ok (calls, s') -> logic s' = logic s) as Hs.
  { intros ev E'. unfold on_sockets in E'. apply bind_ok in E' as ([k p] & _ & E'). by injection E' as _ <-. }
  destruct i as [ev|h| |k]; cbn [happens] in E.
  - exists l. by rewrite (Hs ev E).
  - destruct (enabled h s); [|injection E as _ <-; by exists l]. destruct h as [ev|ev]; [exists l; by rewrite (Hs ev E)|].
    apply bind_ok in E as ([l1 d] & E & E1). injection E1 as _ <-. exists (Daemon.log_app l l1). by eapply Daemon.daemon_step_wired.
  - injection E as _ <-. exists l. by apply stop_timers_wired.
  - destruct (at_end k s); [|done]. injection E as _ <-. by exists l.
Qed.

(** [main]'s own steps do not fail. *)
Definition of_main (i : instant) : Prop := match i with Main (inl (inl (IngressServer.Round _))) => False | _ => True end.

Lemma happens_fails i s e : (exists l, Daemon.wired c l (logic s)) -> of_main i -> happens c i s = Err e -> trouble i s e.
Proof.
  intros [l Hw] Hm E. assert (forall ev, on_sockets c ev s = Err e -> extraction_fails (sock s) ev e) as Hs.
  { intros ev E'. unfold on_sockets in E'. destruct (process_step _ ev (sock s)) as [[]|e'] eqn:Ep; [done|]. injection E' as ->. by eapply step_fails. }
  destruct i as [ev|h| |k]; cbn [happens trouble] in *.
  - apply Hs in E as (lr & acc & ready & fds & table & ie & -> & _). done.
  - destruct (enabled h s); [|done]. destruct h as [ev|ev]; [by apply Hs|].
    destruct (Daemon.daemon_step c ev (logic s)) as [[]|e'] eqn:Ed; [done|]. injection E as ->. by eapply Daemon.daemon_step_fails.
  - done.
  - destruct (at_end k s) eqn:Ek; [done|]. by injection E as <-.
Qed.

Lemma plan_fails plan : forall s e,
  (exists l, Daemon.wired c l (logic s)) -> Forall of_main plan -> run c plan s = Err e ->
  exists before i after calls s1, plan = before ++ i :: after /\ run c before s = Ok (calls, s1) /\ trouble i s1 e.
Proof.
  induction plan as [|i plan IH]; intros s e Hw Hm E; cbn [run] in E; [done|]. apply Forall_cons in Hm as [Hm1 Hm].
  destruct (happens c i s) as [[c1 s1]|e1] eqn:Eh; cbn [mbind outcome_bind] in E.
  - destruct (run c plan s1) as [[]|e2] eqn:Er; [done|]. injection E as ->. destruct (IH s1 e (happens_wired _ _ _ _ Hw Eh) Hm Er) as (before & i' & after & calls & s2 & -> & E2 & Ht).
    exists (i :: before), i', after, (c1 ++ calls), s2. split; [done|]. split; [|done]. cbn [run]. rewrite Eh. cbn [mbind outcome_bind]. by rewrite E2.
  - injection E as ->. exists [], i, plan, [], s. split; [done|]. split; [done|]. by apply happens_fails.
Qed.

Lemma script_of_main w : Forall of_main (life w ++ shutdown w).
Proof.
  assert (forall hs, Forall of_main (Thread <$> hs)) as Hh by (intros hs; by apply Forall_fmap, Forall_forall).
  unfold life, shutdown. rewrite !Forall_app. cbn [app]. rewrite !Forall_cons, !Forall_app, !Forall_cons, !Forall_nil. repeat split; apply Hh.
Qed.
End instants.

End main.

Section examples.
#[local] Existing Instance one_gib.

Definition listens (fd : Z) : setup := MkSetup fd 1 0 0 0 4556.

(** The threads see the flag and end. *)
Definition ingress_ends : list happening :=
  [Sockets (on_ingress (IngressServer.Round IngressServer.PollTimeout)); Sockets (on_ingress IngressServer.Loop)].
Definition egress_ends : list happening :=
  [Sockets (on_egress (EgressServer.Round EgressServer.PollTimeout)); Sockets (on_egress EgressServer.Loop)].
Definition rx_ends : list happening := [Sockets (on_cla (Adapter.ReconnectRx (Adapter.MkAttempt (-1) 0 0))); Sockets (on_cla (Adapter.Round Adapter.PollTimeout))].
Definition tx_ends : list happening := [Sockets (on_cla (Adapter.ReconnectTx (Adapter.MkAttempt (-1) 0 0))); Sockets (on_cla (Adapter.Write 1))].

Definition moved (calls : list syscall) : list syscall := List.filter (fun call => match call with Opens _ | Closes _ => true | _ => false end) calls.

Definition outcome_of (w : world) : outcome (list syscall * Z) := '(calls, code) ← main (fun _ => None) [] w; Ok (moved calls, code).

(** A client of each server and a transmitter to the modem, a connection that
    the adapter gets only while the daemon is stopping, and then every
    descriptor is closed once. *)
Definition one_day (cla_stopping : list happening) : world :=
  MkWorld (listens 3) (listens 4) [] [Sockets (on_cla (Adapter.ReconnectTx (Adapter.MkAttempt 5 1 0)))]
    [Sockets (on_ingress IngressServer.Loop); Sockets (on_ingress (IngressServer.Round (IngressServer.PollReady POLLIN 6 []))); Sockets (on_ingress IngressServer.Loop);
     Sockets (on_egress EgressServer.Loop); Sockets (on_egress (EgressServer.Round (EgressServer.PollReady POLLIN 7 (fun _ _ _ => 1))))]
    ([Sockets (on_ingress (IngressServer.Round (IngressServer.PollReady 0 (-1) [(POLLIN, (0, []))]))); Sockets (on_cla (Adapter.ReconnectRx (Adapter.MkAttempt 6 1 0)))] ++ ingress_ends)
    [] cla_stopping egress_ends.

Example daemon_life :
  outcome_of (one_day (rx_ends ++ tx_ends)) =
    Ok ([Opens 3; Opens 5; Opens 4; Opens 6; Opens 7; Closes 4; Closes 6; Opens 6; Closes 5; Closes 6; Closes 3; Closes 7], 0).
Proof. vm_compute. reflexivity. Qed.

(** The transmitting thread misses the notification ([Waiting]) and takes no
    step any more: [main] waits for it for ever. *)
Example join_hangs : outcome_of (one_day rx_ends) = Err Diverges.
Proof. vm_compute. reflexivity. Qed.

(** A report with a claim count that no vector can hold: the exception of
    [decode] leaves the receiving thread, and with it the program. *)
Example report_kills :
  let report := [6; 1; 1; 0; 0; 1; 1; 1; 0; 255; 255; 255; 255; 255; 255; 255; 255; 127] in
  outcome_of (MkWorld (listens 3) (listens 4) [Sockets (on_cla (Adapter.ReconnectRx (Adapter.MkAttempt 5 1 0)))] []
    [Logic (Daemon.RxEvent (Framing.RxRead (zlen (Framing.frame_message report)) (Framing.frame_message report) []));
     Logic (Daemon.Enter Daemon.RxThread); Logic (Daemon.Return Daemon.RxThread (fun _ _ _ => 1))]
    [] [] [] []) = Err (Throw LengthError).
Proof. vm_compute. reflexivity. Qed.

(** With both its ports taken the daemon runs on without servers and ends as if
    nothing had been wrong. *)
Example ports_taken :
  let taken := MkSetup 3 1 (-1) 0 0 0 in
  outcome_of (MkWorld taken taken [] [] [] [] [] (rx_ends ++ tx_ends) []) = Ok ([Opens 3; Closes 3; Opens 3; Closes 3], 0).
Proof. vm_compute. reflexivity. Qed.
End examples.
End LtpMain.
