(* ===== verification/EndToEnd.v ===== *)
(** * From one client to another (src/ltp_cla/main.cpp)

    Two daemons and the links between them: a block that a client gives to the
    ingress of one is written to a client of the other's egress, although
    segments are lost on the way. *)
From S2P Require Import Prelude Segment Timers Engine EngineLogic EngineInvariant EngineRetry Delivery Transfer Framing Egress LtpConfig Daemon.
Import SegType Segment Timers Engine EngineLogic EngineInvariant EngineRetry Delivery Transfer Framing Egress Daemon.

Module EndToEnd.

(** ** What a daemon does in turn *)

(** A connection brings the messages [ms], cut into the reads [chunks]. *)
Definition cut (chunks ms : list (list Z)) : Prop := Forall (fun chunk => chunk <> []) chunks /\ concat chunks = frames ms.

Section turns.
Context `{Allocator} (c : LtpConfig.LtpClaConfig).

(** Every read is followed by the calls for the messages it completed. *)
Fixpoint listen (ups : nat -> writes) (chunks : list (list Z)) (s : Daemon) : outcome (log * Daemon) :=
  match chunks with
  | [] => Ok (quiet, s)
  | chunk :: chunks' =>
      '(l1, s) ← daemon_step c (RxEvent (RxRead (zlen chunk) chunk [])) s;
      '(l2, s) ← daemon_run c (concat (replicate (length (rx_messages s)) [Enter RxThread; Return RxThread ups])) s;
      '(l3, s) ← listen ups chunks' s;
      Ok (log_app l1 (log_app l2 l3), s)
  end.

(** All that is queued is transmitted. *)
Definition transmit (s : Daemon) : outcome (log * Daemon) := daemon_run c (replicate (length (tx_queue s)) Transmit) s.

Definition turn (ups : nat -> writes) (chunks : list (list Z)) (s : Daemon) : outcome (log * Daemon) :=
  '(l1, s) ← listen ups chunks s;
  '(l2, s) ← transmit s;
  Ok (log_app l1 l2, s).

(** The ingress client [fd] sends a message, read in pieces. *)
Definition submit (ups : nat -> writes) (fd : Z) (chunks : list (list Z)) (s : Daemon) : outcome (log * Daemon) :=
  '(l1, s) ← daemon_run c (((fun chunk => IngressEvent (Readable fd (zlen chunk) chunk)) <$> chunks) ++
                          [Enter IngressThread; Return IngressThread ups]) s;
  '(l2, s) ← transmit s;
  Ok (log_app l1 l2, s).

(** ** Their effect *)

(** Nothing under way. *)
Record idle (s : Daemon) : Prop := {
  idle_inside : inside s = []; idle_read : read_messages s = []; idle_buffer : rx_buffer s = []; idle_running : rx_running s = true;
  idle_heard : rx_messages s = []; idle_queue : tx_queue s = [] }.

(** The egress client [cl] is connected. *)
Definition serving (cl : Z) (e : TcpEgress) : Prop := NoDup (Egress.client_fds e) /\ cl ∈ Egress.client_fds e /\ Egress.buffer e = [].

(** The egress goes from [e] to [e'] with the writes [out]; a client that
    stays is written the blocks. *)
Definition keeps (ups : nat -> writes) (e : TcpEgress) (out : list (Z * list Z)) (blocks : list (list Z)) (e' : TcpEgress) : Prop :=
  forall cl, serving cl e -> (forall k, answering (ups k) cl) -> received_by cl out = frame_message <$> blocks /\ serving cl e'.

Lemma keeps_refl ups e : keeps ups e [] [] e.
Proof. by intros cl Hs _. Qed.

Lemma keeps_app ups e1 out1 b1 e2 out2 b2 e3 :
  keeps ups e1 out1 b1 e2 -> keeps ups e2 out2 b2 e3 -> keeps ups e1 (out1 ++ out2) (b1 ++ b2) e3.
Proof.
  intros H1 H2 cl Hs Hu. destruct (H1 cl Hs Hu) as [E1 Hs1]. destruct (H2 cl Hs1 Hu) as [E2 Hs2].
  by rewrite received_app, E1, E2, fmap_app.
Qed.

Lemma deliver_keeps ups d e : keeps ups e (fst (deliver (egress_config c) (ups 0%nat) d e)) [d] (snd (deliver (egress_config c) (ups 0%nat) d e)).
Proof.
  intros cl (Hnd & Hin & Hb) Hu. unfold deliver. destruct (Egress.client_fds e) as [|g fs] eqn:Ec; [by apply not_elem_of_nil in Hin|].
  rewrite <- Ec in *. pose proof (write_served (ups 0%nat) (frame_message d) _ (buffer e) (buffer_bytes e) cl Hnd) as Hw.
  assert (cl ∈ snd (write_to_clients (ups 0%nat) (frame_message d) (Egress.client_fds e))) as Hin'.
  { apply list_elem_of_filter. split; [by apply answering_takes|done]. }
  destruct (write_to_clients _ _ _) as [out clients]. destruct Hw as (_ & Hnd' & Hs & _). destruct (Hs Hin) as [_ Hr]. split; [exact (Hr Hin')|by split_and!].
Qed.

Lemma dispatch_keeps outs : forall ups q e,
  exists out e', dispatch c ups outs q e = (out, q ++ sent_segments outs, e') /\ keeps ups e out (deliveries outs) e'.
Proof.
  induction outs as [|[b|d|n|n r] outs IH]; intros ups q e; cbn [dispatch].
  - exists [], e. rewrite app_nil_r. split; [done|apply keeps_refl].
  - destruct (IH ups (q ++ [b]) e) as (out & e' & -> & Hk). exists out, e'. by rewrite <- app_assoc.
  - pose proof (deliver_keeps ups d e) as Hd. destruct (deliver _ _ d e) as [o1 e1]. cbn [fst snd] in Hd.
    destruct (IH (fun k => ups (S k)) q e1) as (out & e' & -> & Hk). exists (o1 ++ out), e'. split; [done|].
    intros cl Hs Hu. destruct (Hd cl Hs Hu) as [E1 Hs1]. destruct (Hk cl Hs1 (fun k => Hu (S k))) as [E2 Hs2].
    by rewrite received_app, E1, E2.
  - apply IH.
  - apply IH.
Qed.

Lemma daemon_run_app ev1 : forall ev2 s l1 s1 l2 s2,
  daemon_run c ev1 s = Ok (l1, s1) -> daemon_run c ev2 s1 = Ok (l2, s2) -> daemon_run c (ev1 ++ ev2) s = Ok (log_app l1 l2, s2).
Proof.
  induction ev1 as [|ev ev1 IH]; intros ev2 s l1 s1 l2 s2 E1 E2; cbn [app daemon_run] in *.
  - injection E1 as <- <-. by destruct l2.
  - inv_ok E1. destruct r as [l s']. inv_ok E1. destruct r as [l' s'']. injection E1 as <- <-. rewrite E. cbn [mbind outcome_bind].
    rewrite (IH _ _ _ _ _ _ E0 E2). cbn [mbind outcome_bind]. unfold log_app. cbn. by rewrite !app_assoc.
Qed.

Lemma new_outputs_refl (e : LtpEngine (T := TimerManager)) : new_outputs e e = [].
Proof. apply new_outputs_app. by rewrite app_nil_r. Qed.

Lemma new_outputs_trans (e1 e2 e3 : LtpEngine (T := TimerManager)) :
  outputs e2 = outputs e1 ++ new_outputs e1 e2 -> outputs e3 = outputs e2 ++ new_outputs e2 e3 ->
  new_outputs e1 e3 = new_outputs e1 e2 ++ new_outputs e2 e3.
Proof. intros E1 E2. apply new_outputs_app. by rewrite E2, E1, <- app_assoc. Qed.

Lemma perform_all_outputs cs : forall e e' : LtpEngine, run (perform_all cs) e = Ok e' -> outputs e' = outputs e ++ new_outputs e e'.
Proof.
  unfold perform_all. induction cs as [|ca cs IH]; intros e e' E.
  - injection E as <-. by rewrite new_outputs_refl, app_nil_r.
  - rewrite run_cons in E. inv_ok E. apply perform_outputs in E0. apply IH in E.
    rewrite (new_outputs_trans e r e') by done. by rewrite E, E0, <- app_assoc at 1.
Qed.

Lemma not_busy t s : inside s = [] -> busy t s = false.
Proof. intros E. unfold busy. by rewrite E. Qed.

(** A call, from its entry to its return. *)
Lemma call_spec ups t ca s s1 en' :
  inside s = [] -> next_call c t s = Some (ca, s1) -> run (perform ca) (engine s1) = Ok en' ->
  exists out eg', daemon_run c [Enter t; Return t ups] s =
    Ok (MkLog [] [] [ca] [] out, MkDaemon en' [] (ingress s1) (read_messages s1) (rx_buffer s1) (rx_running s1) (rx_messages s1) (fired s1)
          (tx_queue s1 ++ sent_segments (new_outputs (engine s1) en')) eg') /\
    keeps ups (egress s1) out (deliveries (new_outputs (engine s1) en')) eg'.
Proof.
  intros Hi En E. destruct (dispatch_keeps (new_outputs (engine s1) en') ups (tx_queue s1) (egress s1)) as (out & eg' & Ed & Hk).
  exists out, eg'. split; [|done]. destruct s as [en ins ing ms b r rx f q eg]. cbn in Hi. subst ins.
  cbn -[run perform dispatch busy next_call]. rewrite not_busy, En by done. destruct s1 as [en1 ins1 ing1 ms1 b1 r1 rx1 f1 q1 eg1].
  cbn -[run perform dispatch] in *. rewrite decide_True by done. rewrite E. cbn -[dispatch]. rewrite Ed. unfold log_app. cbn. by rewrite app_nil_r.
Qed.

(** The calls for the messages a thread has extracted. *)
Lemma run_calls ups ms : forall en ing b f q eg en',
  run (perform_all (CReceive <$> ms)) en = Ok en' ->
  exists out eg', daemon_run c (concat (replicate (length ms) [Enter RxThread; Return RxThread ups])) (MkDaemon en [] ing [] b true ms f q eg) =
    Ok (MkLog [] [] (CReceive <$> ms) [] out, MkDaemon en' [] ing [] b true [] f (q ++ sent_segments (new_outputs en en')) eg') /\
    keeps ups eg out (deliveries (new_outputs en en')) eg'.
Proof.
  induction ms as [|m ms IH]; intros en ing b f q eg en' E.
  - injection E as <-. rewrite new_outputs_refl. exists [], eg. cbn. rewrite app_nil_r. split; [done|apply keeps_refl].
  - unfold perform_all in E. cbn [fmap list_fmap] in E. rewrite run_cons in E. inv_ok E. rename r into en1.
    pose proof (perform_outputs _ _ _ E0) as O1. pose proof (perform_all_outputs _ _ _ E) as O2.
    rewrite (new_outputs_trans en en1 en') by done. unfold sent_segments, deliveries. rewrite !omap_app.
    destruct (call_spec ups RxThread (CReceive m) (MkDaemon en [] ing [] b true (m :: ms) f q eg) _ en1 eq_refl eq_refl E0) as (o1 & eg1 & Ed & Hk1).
    destruct (IH en1 ing b f (q ++ sent_segments (new_outputs en en1)) eg1 en' E) as (o2 & eg2 & Er & Hk2).
    exists (o1 ++ o2), eg2. split; [|by eapply keeps_app]. rewrite app_assoc. exact (daemon_run_app _ _ _ _ _ _ _ Ed Er).
Qed.

Lemma listen_spec ups chunks : forall msgs en ing buf f q eg en',
  Forall (fun chunk => chunk <> []) chunks -> Forall sendable msgs -> buf ++ concat chunks = frames msgs -> waits buf msgs ->
  run (perform_all (CReceive <$> msgs)) en = Ok en' ->
  exists l eg', listen ups chunks (MkDaemon en [] ing [] buf true [] f q eg) =
    Ok (l, MkDaemon en' [] ing [] [] true [] f (q ++ sent_segments (new_outputs en en')) eg') /\
    transmitted l = [] /\ keeps ups eg (written l) (deliveries (new_outputs en en')) eg'.
Proof.
  induction chunks as [|chunk chunks IH]; intros msgs en ing buf f q eg en' Hne Hs Ec Hw E.
  - cbn [concat] in Ec. rewrite app_nil_r in Ec. subst buf. assert (msgs = []) as ->.
    { destruct msgs as [|m msgs]; [done|exfalso]. cbn [waits] in Hw. unfold frames in Hw. cbn [fmap list_fmap concat] in Hw.
      rewrite length_app, Nat2Z.inj_add, frame_length in Hw. lia. }
    injection E as <-. rewrite new_outputs_refl. exists quiet, eg. cbn. rewrite app_nil_r. split_and!; [done|done|apply keeps_refl].
  - apply Forall_cons in Hne as [Hch Hne]. cbn [concat] in Ec. rewrite app_assoc in Ec.
    destruct (drain_stream (S (length (buf ++ chunk))) msgs (buf ++ chunk) (concat chunks) Hs Ec ltac:(lia)) as (dn & todo & left & -> & Hd & Hl & Hw').
    apply Forall_app in Hs as [_ Hs]. unfold perform_all in E. rewrite fmap_app, run_app in E. inv_ok E. rename r into en1.
    destruct (run_calls ups dn en ing left f q eg en1 E0) as (o1 & eg1 & Er & Hk1).
    destruct (IH todo en1 ing left f (q ++ sent_segments (new_outputs en en1)) eg1 en' Hne Hs Hl Hw' E) as (l & eg' & Et & Htr & Hk2).
    rewrite (new_outputs_trans en en1 en') by (by eapply perform_all_outputs). unfold sent_segments, deliveries. rewrite !omap_app, app_assoc.
    exists (log_app (MkLog [] dn [] [] []) (log_app (MkLog [] [] (CReceive <$> dn) [] o1) l)), eg'.
    split; [|split; [done|exact (keeps_app _ _ _ _ _ _ _ _ Hk1 Hk2)]].
    cbn [listen daemon_step]. rewrite not_busy by done. cbn -[listen daemon_run read_chunk].
    assert ((zlen chunk <=? 0) = false) as -> by (destruct chunk; [done|]; apply Z.leb_gt; cbn [length]; lia).
    rewrite Nat2Z.id, firstn_all. unfold read_chunk. rewrite Hd. cbn -[listen daemon_run]. rewrite Er. cbn -[listen]. by rewrite Et.
Qed.
Lemma transmit_spec q : forall en ing f eg,
  daemon_run c (replicate (length q) Transmit) (MkDaemon en [] ing [] [] true [] f q eg) =
    Ok (MkLog [] [] [] q [], MkDaemon en [] ing [] [] true [] f [] eg).
Proof. induction q as [|m q IH]; intros en ing f eg; [done|]. cbn -[daemon_step]. cbn [daemon_step mbind outcome_bind]. by rewrite IH. Qed.

(** In its turn an idle daemon makes the calls for all it hears, transmits all
    that its engine sends, and is idle again. *)
Lemma turn_spec ups chunks msgs s en' :
  idle s -> Forall sendable msgs -> cut chunks msgs -> run (perform_all (CReceive <$> msgs)) (engine s) = Ok en' ->
  exists l s', turn ups chunks s = Ok (l, s') /\ engine s' = en' /\ idle s' /\
    transmitted l = sent_segments (new_outputs (engine s) en') /\
    keeps ups (egress s) (written l) (deliveries (new_outputs (engine s) en')) (egress s').
Proof.
  intros [] Hs [Hne Hc] E. destruct s as [en ins ing ms b r rx f q eg]. cbn in *. subst.
  destruct (listen_spec ups chunks msgs en ing [] f [] eg en' Hne Hs Hc) as (l & eg' & El & Ht & Hk); [by destruct msgs; cbn; [|lia]|done|].
  cbn [app] in El. exists (log_app l (MkLog [] [] [] (sent_segments (new_outputs en en')) [])), (MkDaemon en' [] ing [] [] true [] f [] eg').
  unfold turn, transmit. rewrite El. cbn [mbind outcome_bind tx_queue]. rewrite transmit_spec. cbn [mbind outcome_bind].
  split_and!; [done|done|done| |].
  - unfold log_app. cbn. by rewrite Ht.
  - unfold log_app. cbn. by rewrite app_nil_r.
Qed.

Lemma frames_one m : frames [m] = frame_message m.
Proof. by rewrite <- (app_nil_l [m]), frames_snoc. Qed.

(** However the messages are cut into reads, the turn ends as [P] says. *)
Definition answers (ups : nat -> writes) (msgs : list (list Z)) (s : Daemon) (P : log -> Daemon -> Prop) : Prop :=
  forall chunks, cut chunks msgs -> exists l s', turn ups chunks s = Ok (l, s') /\ P l s'.

Lemma answers_turn ups msgs s en' P :
  idle s -> Forall sendable msgs -> run (perform_all (CReceive <$> msgs)) (engine s) = Ok en' ->
  (forall l s', engine s' = en' -> idle s' -> transmitted l = sent_segments (new_outputs (engine s) en') ->
    keeps ups (egress s) (written l) (deliveries (new_outputs (engine s) en')) (egress s') -> P l s') ->
  answers ups msgs s P.
Proof.
  intros Hi Hs E HP chunks Hc. destruct (turn_spec ups chunks msgs s en' Hi Hs Hc E) as (l & s' & Et & H1 & H2 & H3 & H4).
  exists l, s'. auto.
Qed.

Lemma ingest_spec fd data : sendable data -> forall chunks en ing f eg,
  Forall (fun chunk => chunk <> []) chunks ->
  default [] (buffers ing !! fd) ++ concat chunks = frame_message data -> zlen (default [] (buffers ing !! fd)) < 4 + zlen data ->
  exists l ing', daemon_run c ((fun chunk => IngressEvent (Readable fd (zlen chunk) chunk)) <$> chunks) (MkDaemon en [] ing [] [] true [] f [] eg) =
    Ok (l, MkDaemon en [] ing' [data] [] true [] f [] eg) /\ transmitted l = [] /\ written l = [] /\ default [] (buffers ing' !! fd) = [].
Proof.
  intros Hs. induction chunks as [|chunk chunks IH]; intros en ing f eg Hne Ec Hw.
  - cbn [concat] in Ec. rewrite app_nil_r in Ec. rewrite Ec, frame_length in Hw. lia.
  - apply Forall_cons in Hne as [Hch Hne]. set (buf := default [] (buffers ing !! fd)) in *. cbn [concat] in Ec. rewrite app_assoc in Ec.
    rewrite <- frames_one in Ec.
    destruct (drain_stream (S (length (buf ++ chunk))) [data] (buf ++ chunk) (concat chunks) (Forall_cons_2 _ _ _ Hs (Forall_nil_2 _)) Ec ltac:(lia))
      as (dn & todo & left & Em & Hd & Hl & Hw').
    assert (daemon_step c (IngressEvent (Readable fd (zlen chunk) chunk)) (MkDaemon en [] ing [] [] true [] f [] eg) =
      Ok (MkLog (pair fd <$> dn) [] [] [] [], MkDaemon en [] (Framing.MkIngress (Framing.client_fds ing) (<[fd := left]> (buffers ing))) dn [] true [] f [] eg)) as Hstep.
    { cbn [daemon_step]. rewrite not_busy by done. unfold handle_event. assert ((zlen chunk <=? 0) = false) as -> by (destruct chunk; [done|]; apply Z.leb_gt; cbn [length]; lia).
      rewrite Nat2Z.id, firstn_all. unfold read_chunk. fold buf. rewrite Hd. cbn. by rewrite <- list_fmap_compose, list_fmap_id. }
    cbn [fmap list_fmap daemon_run]. rewrite Hstep. cbn [mbind outcome_bind].
    destruct dn as [|d [|]]; [|destruct todo|]; try (injection Em as -> Em; discriminate Em); try discriminate Em.
    + cbn in Em. subst todo. destruct (IH en (Framing.MkIngress (Framing.client_fds ing) (<[fd := left]> (buffers ing))) f eg Hne) as (l & ing' & E & Ht & Hwr & Hb).
      { cbn [buffers]. rewrite lookup_insert_eq, <- frames_one. exact Hl. }
      { cbn [buffers]. rewrite lookup_insert_eq. exact Hw'. }
      rewrite E. eexists _, ing'. split; [reflexivity|]. unfold log_app. cbn. done.
    + injection Em as ->. apply app_eq_nil in Hl as [-> Hl]. assert (chunks = []) as ->.
      { destruct Hne as [|x l Hx]; [done|]. apply app_eq_nil in Hl as [? _]. done. }
      eexists _, _. split; [reflexivity|]. cbn. by rewrite lookup_insert_eq.
Qed.

Lemma submit_spec ups fd chunks data s en' :
  idle s -> default [] (buffers (ingress s) !! fd) = [] -> sendable data -> cut chunks [data] ->
  run (perform (CStart data (LtpConfig.default_reliable (LtpConfig.ingress c)))) (engine s) = Ok en' ->
  exists l s', submit ups fd chunks s = Ok (l, s') /\ engine s' = en' /\ idle s' /\
    transmitted l = sent_segments (new_outputs (engine s) en').
Proof.
  intros [] Hb Hs [Hne Hc] E. destruct s as [en ins ing ms b r rx f q eg]. 
  cbn [inside ingress read_messages rx_buffer rx_running rx_messages tx_queue engine] in *. subst.
  destruct (ingest_spec fd data Hs chunks en ing f eg Hne) as (l & ing' & Ei & Ht & Hw & _).
  { by rewrite Hb, app_nil_l, Hc, frames_one. }
  { rewrite Hb. cbn. lia. }
  destruct (call_spec ups IngressThread _ (MkDaemon en [] ing' [data] [] true [] f [] eg) _ en' eq_refl eq_refl E) as (out & eg' & Er & _).
  cbn [engine ingress read_messages rx_buffer rx_running rx_messages fired tx_queue app] in Er.
  exists (log_app (log_app l (MkLog [] [] [CStart data (LtpConfig.default_reliable (LtpConfig.ingress c))] [] out))
    (MkLog [] [] [] (sent_segments (new_outputs en en')) [])), (MkDaemon en' [] ing' [] [] true [] f [] eg').
  unfold submit, transmit. rewrite (daemon_run_app _ _ _ _ _ _ _ Ei Er). cbn [mbind outcome_bind tx_queue]. rewrite transmit_spec.
  cbn [mbind outcome_bind]. split_and!; [done|done|done|]. unfold log_app. cbn. by rewrite Ht.
Qed.
End turns.

(** ** Property *)

Section crossing.
Context `{Allocator} (cA cB : LtpConfig.LtpClaConfig).

(** [C3] A block crosses. A client of one daemon's ingress sends a message,
    and of the segments transmitted for it the last one [cp] reaches the other
    daemon, and before it [arr], any of the others, in any order, lost or
    repeated. Then the daemons take turns, each receiving what the other
    transmitted, cut into reads anyhow. No step fails; what the client of the
    other's egress is written is the frame of that message, once; and both
    daemons have forgotten the session and are idle again. *)
Theorem block_crosses (A B : Daemon) fd cl data upsA upsB chunks
    (Hreliable : LtpConfig.default_reliable (LtpConfig.ingress cA) = true)
    (Hidle : idle A /\ idle B) (Hfd : default [] (buffers (ingress A) !! fd) = [])
    (Hclient : serving cl (egress B)) (Hup : forall k, answering (upsB k) cl)
    (Hbytes : bytes data) (Hsize : zlen data < 2 ^ 27) (Hroom : 16 * zlen data + 16 <= alloc_limit)
    (Ha : inv (engine A)) (Hb : inv (engine B)) (Hid : is_u64 (local_engine_id (config (engine A))))
    (Hpeer : local_engine_id (config (engine A)) <> local_engine_id (config (engine B)))
    (Hcount : session_counter (engine A) + 1 < 2 ^ 64)
    (Hretx : 0 < max_retransmissions (config (engine A)) < 255)
    (Hcapa : Z.of_nat (size (sessions (engine A))) < max_concurrent_sessions (config (engine A)))
    (Hcapb : Z.of_nat (size (sessions (engine B))) < max_concurrent_sessions (config (engine B)))
    (Hfresh : sessions (engine B) !! (local_engine_id (config (engine A)), session_counter (engine A) + 1) = None)
    (Hchunks : cut chunks [data]) :
  let key := (local_engine_id (config (engine A)), session_counter (engine A) + 1) in
  exists l0 A1 first cp,
    submit cA upsA fd chunks A = Ok (l0, A1) /\ transmitted l0 = first ++ [cp] /\
    forall arr, (forall m, m ∈ arr -> m ∈ first) ->
    answers cB upsB (arr ++ [cp]) B (fun l1 B1 => answers cA upsA (transmitted l1) A1 (fun l2 A2 =>
    answers cB upsB (transmitted l2) B1 (fun l3 B2 => answers cA upsA (transmitted l3) A2 (fun l4 A3 =>
    answers cB upsB (transmitted l4) B2 (fun l5 B3 =>
      received_by cl (written l1 ++ written l3 ++ written l5) = [frame_message data] /\ transmitted l5 = [] /\
      sessions (engine A3) !! key = None /\ sessions (engine B3) !! key = None /\ idle A3 /\ idle B3))))).
Proof.
  intros key. destruct Hidle as [HA HB].
  assert (forall ms, Forall (brief data) ms -> Forall sendable ms) as Hsend.
  { intros ms Hms. apply (Forall_impl _ _ _ Hms). unfold brief, sendable. lia. }
  destruct (whole_transfer (engine A) (engine B) data) as (a1 & first & cp & Hstart & Hsent & Hbrief & Harr); try done; [lia|].
  apply Hsend in Hbrief. rewrite <- Hreliable in Hstart.
  destruct (submit_spec cA upsA fd chunks data A a1) as (l0 & A1 & Hsub & EA1 & HA1 & Ht0); try done.
  { unfold sendable. lia. }
  exists l0, A1, first, cp. split; [done|]. split; [by rewrite Ht0|]. intros arr Hin.
  destruct (Harr arr Hin) as (b1 & Hb1 & a2 & b2 & a3 & b3 & R1 & R2 & R3 & R4 & Hdel & _ & Hfa & Hfb & Hbr & Hlast).
  apply Hsend in Hbr. apply Forall_app in Hbr as [Hbr1 [Hbr2 [Hbr3 Hbr4]%Forall_app]%Forall_app].
  apply Forall_app in Hbrief as [Hf Hcp]. unfold relay in *.
  apply (answers_turn _ _ _ _ b1); [done| |done|].
  { apply Forall_app_2; [|done]. rewrite Forall_forall in *. auto. }
  intros l1 B1 EB1 HB1 T1 K1. apply (answers_turn _ _ _ _ a2); [done|by rewrite T1|by rewrite T1, EA1|].
  intros l2 A2 EA2 HA2 T2 _. rewrite EA1 in T2. apply (answers_turn _ _ _ _ b2); [done|by rewrite T2|by rewrite T2, EB1|].
  intros l3 B2 EB2 HB2 T3 K3. rewrite EB1 in T3, K3. apply (answers_turn _ _ _ _ a3); [done|by rewrite T3|by rewrite T3, EA2|].
  intros l4 A3 EA3 HA3 T4 _. rewrite EA2 in T4. apply (answers_turn _ _ _ _ b3); [done|by rewrite T4|by rewrite T4, EB2|].
  intros l5 B3 EB3 HB3 T5 K5. rewrite EB2 in T5, K5. rewrite EA3, EB3, T5. split_and!; try done.
  destruct (keeps_app _ _ _ _ _ _ _ _ K1 (keeps_app _ _ _ _ _ _ _ _ K3 K5) cl Hclient Hup) as [E _]. rewrite E.
  assert (outputs b1 = outputs (engine B) ++ new_outputs (engine B) b1) as O1 by (by eapply perform_all_outputs).
  assert (outputs b2 = outputs b1 ++ new_outputs b1 b2) as O2 by (by eapply perform_all_outputs).
  assert (outputs b3 = outputs b2 ++ new_outputs b2 b3) as O3 by (by eapply perform_all_outputs).
  assert (deliveries (new_outputs (engine B) b3) = deliveries (new_outputs (engine B) b1) ++ deliveries (new_outputs b1 b2) ++ deliveries (new_outputs b2 b3)) as Ed.
  { unfold deliveries. rewrite <- !omap_app. f_equal. rewrite <- (new_outputs_trans b1 b2 b3) by done.
    apply new_outputs_trans; [done|]. by rewrite (new_outputs_trans b1 b2 b3), O3, O2, <- app_assoc at 1. }
  by rewrite <- Ed, Hdel.
Qed.
End crossing.

(** ** Two daemons with segments of two bytes *)

Section witness.
#[local] Existing Instance one_gib.

Definition node (local remote : Z) : LtpConfig.LtpClaConfig :=
  LtpConfig.MkClaConfig (sample_config local remote) (LtpConfig.cla LtpConfig.defaults) (LtpConfig.ingress LtpConfig.defaults)
    (LtpConfig.egress LtpConfig.defaults) "info".

(** The second with its client, descriptor 5, connected. *)
Definition near : Daemon := daemon_start (node 1 2).
Definition far : Daemon := MkDaemon (engine (daemon_start (node 2 1))) [] (ingress near) [] [] true [] None [] (MkEgress [5] [] 0).

(** The text arrives in two reads; only its checkpoint gets through at first. *)
Definition text : list Z := [10; 11; 12; 13; 14].
Definition halves (ms : list (list Z)) : list (list Z) := [take 7 (frames ms); drop 7 (frames ms)].

Example crossing_run :
  (let up := fun _ _ _ => 3 in
   '(l0, a) ← submit (node 1 2) up 9 (halves [text]) near;
   '(l1, b) ← turn (node 2 1) up (halves (drop 2 (transmitted l0))) far;
   '(l2, a) ← turn (node 1 2) up (halves (transmitted l1)) a;
   '(l3, b) ← turn (node 2 1) up (halves (transmitted l2)) b;
   '(l4, a) ← turn (node 1 2) up (halves (transmitted l3)) a;
   '(l5, b) ← turn (node 2 1) up (halves (transmitted l4)) b;
   Ok (length (transmitted l0), length (transmitted l2), written l1 ++ written l3, written l5)) =
  Ok (3%nat, 3%nat, [], [(5, frame_message text)]).
Proof. vm_compute. reflexivity. Qed.

Lemma block_crosses_witness :
  exists l0 A1 first cp, submit (node 1 2) (fun _ _ _ => 3) 9 (halves [text]) near = Ok (l0, A1) /\ transmitted l0 = first ++ [cp] /\
    answers (node 2 1) (fun _ _ _ => 3) [cp] far (fun l1 B1 => answers (node 1 2) (fun _ _ _ => 3) (transmitted l1) A1 (fun l2 A2 =>
    answers (node 2 1) (fun _ _ _ => 3) (transmitted l2) B1 (fun l3 B2 => answers (node 1 2) (fun _ _ _ => 3) (transmitted l3) A2 (fun l4 A3 =>
    answers (node 2 1) (fun _ _ _ => 3) (transmitted l4) B2 (fun l5 B3 =>
      received_by 5 (written l1 ++ written l3 ++ written l5) = [frame_message text] /\ transmitted l5 = [] /\
      sessions (engine A3) !! (1, 1) = None /\ sessions (engine B3) !! (1, 1) = None /\ idle A3 /\ idle B3))))).
Proof.
  destruct (block_crosses (node 1 2) (node 2 1) near far 9 5 text (fun _ _ _ => 3) (fun _ _ _ => 3) (halves [text]))
    as (l0 & A1 & first & cp & Hs & Ht & Harr).
  - reflexivity.
  - split; constructor; reflexivity.
  - reflexivity.
  - split; [apply NoDup_singleton|]. split; [by apply list_elem_of_singleton|reflexivity].
  - intros k j. cbn. lia.
  - by apply (bool_decide_unpack _ (dec := Forall_dec _ _)).
  - simpl. lia.
  - simpl. lia.
  - apply inv_init. split; simpl; lia.
  - apply inv_init. split; simpl; lia.
  - unfold is_u64. simpl. lia.
  - simpl. lia.
  - simpl. lia.
  - simpl. lia.
  - by vm_compute.
  - by vm_compute.
  - reflexivity.
  - split; [by repeat (apply Forall_cons_2; [by vm_compute|])|reflexivity].
  - exists l0, A1, first, cp. split; [exact Hs|]. split; [exact Ht|]. apply (Harr []). intros m Hm. by apply elem_of_nil in Hm.
Defined.
End witness.
End EndToEnd.
