(* ===== verification/Dsp.v ===== *)
(** * The modem's signal processing (src/pulse_shaper.cpp, src/carrier_sync.cpp,
    src/timing_recovery.cpp, src/frame_sync.cpp)

    The filters and synchronisers, operation by operation in binary floating
    point; [sin], [cos], [pow] and [hypot] are parameters. The loops whose end
    depends on the samples (the phase wrap, the walk over the samples) have
    fuel: [Diverges] is a loop that has not ended. *)
From S2P Require Import Prelude Float.
Import Float.

Module PulseShaper.
Section shaper.
Context `{Libm}.

Record PulseShaper := MkShaper { rrc_taps : list float; sps : Z }.

(** The literals 1e-12, 1e-8, 1e-15 and 1e-6, and M_PI. *)
Definition E12 : double := S754_finite false 4951760157141521 (-92).
Definition E8 : double := S754_finite false 6044629098073146 (-79).
Definition E15 : double := S754_finite false 5070602400912918 (-102).
Definition E6 : double := S754_finite false 4722366482869645 (-72).
Definition PI : double := S754_finite false 7074237752028440 (-51).

Definition one : double := double_of_Z 1.
Definition two : double := double_of_Z 2.
Definition four : double := double_of_Z 4.
Definition half : double := ddiv one two.

(** The nudged calls are made where the denominator vanishes. *)
Fixpoint rrc_tap (fuel : nat) (t_over_T alpha : double) : outcome double :=
  if dlt (SFabs t_over_T) E12 then Ok (dadd (dsub one alpha) (ddiv (dmul four alpha) PI)) else
  let critical := ddiv one (dmul four alpha) in
  if dlt E12 alpha && dlt (SFabs (dsub (SFabs t_over_T) critical)) E8 then
    Ok (dmul (ddiv alpha (dsqrt two))
             (dadd (dmul (dadd one (ddiv two PI)) (dsin (ddiv PI (dmul four alpha))))
                   (dmul (dsub one (ddiv two PI)) (dcos (ddiv PI (dmul four alpha))))))
  else
    let numerator := dadd (dsin (dmul (dmul PI t_over_T) (dsub one alpha)))
                          (dmul (dmul (dmul four alpha) t_over_T) (dcos (dmul (dmul PI t_over_T) (dadd one alpha)))) in
    let denominator := dmul (dmul PI t_over_T) (dsub one (dpow (dmul (dmul four alpha) t_over_T) two)) in
    if dlt (SFabs denominator) E15 then
      match fuel with
      | O => Err Diverges
      | S fuel' =>
          a ← rrc_tap fuel' (dadd t_over_T E6) alpha;
          b ← rrc_tap fuel' (dsub t_over_T E6) alpha;
          Ok (dmul half (dadd a b))
      end
    else Ok (ddiv numerator denominator).

Fixpoint mapM_outcome {A B} (f : A -> outcome B) (l : list A) : outcome (list B) :=
  match l with [] => Ok [] | x :: l' => y ← f x; ys ← mapM_outcome f l'; Ok (y :: ys) end.

(** The constructor: its tests, the taps, and their scaling to unit energy. *)
Definition make_shaper (fuel : nat) (rolloff : double) (sps num_taps : Z) : outcome PulseShaper :=
  if dle rolloff (S754_zero false) || dlt one rolloff then Err (Throw InvalidArgument)
  else if sps <? 1 then Err (Throw InvalidArgument)
  else if num_taps <? 1 then Err (Throw InvalidArgument)
  else
    let centre := ddiv (double_of_Z (num_taps - 1)) two in
    taps ← mapM_outcome (fun i => narrow <$> rrc_tap fuel (ddiv (dsub (double_of_Z (Z.of_nat i)) centre) (double_of_Z sps)) rolloff)
             (seq 0 (Z.to_nat num_taps));
    let energy := foldl (fun energy tap => dadd energy (dmul (widen tap) (widen tap))) (S754_zero false) taps in
    let taps := if dlt (S754_zero false) energy
                then let scale := narrow (ddiv one (dsqrt energy)) in (fun tap => fmul tap scale) <$> taps
                else taps in
    Ok (MkShaper taps sps).

Lemma mapM_no_throw {A B} (f : A -> outcome B) l : (forall x, no_throw (f x)) -> no_throw (mapM_outcome f l).
Proof. intros Hf. induction l as [|x l IH]; cbn [mapM_outcome]; [done|]. apply no_throw_bind; [apply Hf|]. intros y _. by apply no_throw_bind. Qed.

(** What the tests accept is constructed, if the nudged calls end. *)
Lemma rrc_tap_no_throw fuel : forall t alpha, no_throw (rrc_tap fuel t alpha).
Proof.
  induction fuel as [|fuel IH]; intros t alpha; cbn [rrc_tap]; repeat (case_match; try done).
  apply no_throw_bind; [apply IH|]. intros a _. by apply no_throw_bind.
Qed.

Lemma make_shaper_no_throw fuel rolloff sps num_taps :
  (dle rolloff (S754_zero false) || dlt one rolloff) = false -> 1 <= sps -> 1 <= num_taps -> no_throw (make_shaper fuel rolloff sps num_taps).
Proof.
  intros Hr Hs Hn. unfold make_shaper. rewrite Hr. destruct (Z.ltb_spec sps 1); [lia|]. destruct (Z.ltb_spec num_taps 1); [lia|].
  apply no_throw_bind; [|done]. apply mapM_no_throw. intros i. pose proof (rrc_tap_no_throw fuel) as Ht.
  specialize (Ht (ddiv (dsub (double_of_Z (Z.of_nat i)) (ddiv (double_of_Z (num_taps - 1)) two)) (double_of_Z sps)) rolloff).
  by destruct (rrc_tap fuel _ _) as [|[]].
Qed.

(** One output: the sum over the taps that meet the signal, in their order. *)
Definition convolve_at (taps : list float) (signal : list complex) (n : nat) : complex :=
  foldl (fun sum k =>
    if bool_decide (k <= n)%nat && bool_decide (n - k < length signal)%nat
    then cadd sum (cscale (nth (n - k) signal czero) (nth k taps fzero)) else sum)
    czero (seq 0 (length taps)).

Definition convolve (taps : list float) (signal : list complex) : list complex :=
  convolve_at taps signal <$> seq 0 (length signal + length taps - 1).

(** A symbol and [sps - 1] zeros, for every symbol. *)
Definition upsample (sps : nat) (symbols : list complex) : list complex :=
  concat ((fun s => s :: replicate (sps - 1) czero) <$> symbols).

Definition shape (p : PulseShaper) (symbols : list complex) : list complex :=
  match symbols with [] => [] | _ => convolve (rrc_taps p) (upsample (Z.to_nat (sps p)) symbols) end.

Definition matched_filter (p : PulseShaper) (samples : list complex) : list complex :=
  match samples with [] => [] | _ => convolve (rrc_taps p) samples end.

(** ** Lengths and locality *)

Lemma mapM_length {A B} (f : A -> outcome B) l r : mapM_outcome f l = Ok r -> length r = length l.
Proof.
  revert r. induction l as [|x l IH]; intros r E; cbn [mapM_outcome] in E; [by injection E as <-|].
  inv_ok E. injection E as <-. cbn [length]. by rewrite (IH r1).
Qed.

Lemma make_shaper_taps fuel rolloff s n p :
  make_shaper fuel rolloff s n = Ok p -> zlen (rrc_taps p) = n /\ sps p = s /\ 1 <= n /\ 1 <= s.
Proof.
  unfold make_shaper. destruct (_ || _); [done|]. destruct (Z.ltb_spec s 1); [done|]. destruct (Z.ltb_spec n 1); [done|].
  intros E. inv_ok E. injection E as <-. apply mapM_length in E0. rewrite length_seq in E0. cbn [rrc_taps sps].
  assert (zlen r = n) by lia. split_and!; [|done|done|done]. destruct (dlt _ _); [by rewrite length_fmap|done].
Qed.

Lemma upsample_length n symbols : (0 < n)%nat -> length (upsample n symbols) = (length symbols * n)%nat.
Proof.
  intros Hn. unfold upsample. induction symbols as [|s l IH]; [done|]. cbn [fmap list_fmap concat].
  rewrite length_app, IH. cbn [length]. rewrite length_replicate. lia.
Qed.

Lemma filtered_length taps signal : length (convolve taps signal) = (length signal + length taps - 1)%nat.
Proof. unfold convolve. by rewrite length_fmap, length_seq. Qed.

Lemma shape_length fuel rolloff s n p symbols :
  make_shaper fuel rolloff s n = Ok p -> symbols <> [] -> zlen (shape p symbols) = zlen symbols * s + (n - 1).
Proof.
  intros E Hs. apply make_shaper_taps in E as (Hn & <- & Hn1 & Hs1). unfold shape. destruct symbols as [|x l]; [done|].
  rewrite filtered_length, upsample_length by lia. lia.
Qed.
End shaper.
End PulseShaper.

Module CarrierSync.
Section sync.
Context `{Libm}.

Record CarrierSynchronizer := MkSync { phase : double; freq : double; alpha : double; beta : double }.

Definition sign (x : float) : float := if SFleb fzero x then float_of_Z 1 else float_of_Z (-1).

Definition make_sync (loop_bw : double) : outcome CarrierSynchronizer :=
  if dle loop_bw (S754_zero false) || dle (double_of_Z 1) loop_bw then Err (Throw InvalidArgument) else
  let one := double_of_Z 1 in let two := double_of_Z 2 in let four := double_of_Z 4 in
  let damping := ddiv one (dsqrt two) in
  let theta := ddiv loop_bw (dadd damping (ddiv one (dmul four damping))) in
  let d := dadd (dadd one (dmul (dmul two damping) theta)) (dmul theta theta) in
  Ok (MkSync (S754_zero false) (S754_zero false) (ddiv (dmul (dmul four damping) theta) d) (ddiv (dmul (dmul four theta) theta) d)).

Definition TWO_PI : double := dmul (double_of_Z 2) PulseShaper.PI.

(** The two wrapping loops. *)
Fixpoint wrap_down (fuel : nat) (phase : double) : outcome double :=
  if dlt PulseShaper.PI phase then
    match fuel with O => Err Diverges | S fuel' => wrap_down fuel' (dsub phase TWO_PI) end
  else Ok phase.

Fixpoint wrap_up (fuel : nat) (phase : double) : outcome double :=
  if dlt phase (SFopp PulseShaper.PI) then
    match fuel with O => Err Diverges | S fuel' => wrap_up fuel' (dadd phase TWO_PI) end
  else Ok phase.

(** One sample: the corrected sample and the state after it. *)
Definition sync_step (fuel : nat) (c : CarrierSynchronizer) (sample : complex) : outcome (complex * CarrierSynchronizer) :=
  let rotator := (narrow (dcos (SFopp (phase c))), narrow (dsin (SFopp (phase c)))) in
  let corrected := cmul sample rotator in
  let '(i, q) := corrected in
  let error := widen (fsub (fmul (sign q) i) (fmul (sign i) q)) in
  let freq := dsub (freq c) (dmul (beta c) error) in
  let phase := dadd (dsub (phase c) (dmul (alpha c) error)) freq in
  phase ← wrap_down fuel phase;
  phase ← wrap_up fuel phase;
  Ok (corrected, MkSync phase freq (alpha c) (beta c)).

Fixpoint synchronize (fuel : nat) (c : CarrierSynchronizer) (samples : list complex) : outcome (list complex * CarrierSynchronizer) :=
  match samples with
  | [] => Ok ([], c)
  | sample :: samples' =>
      '(corrected, c) ← sync_step fuel c sample;
      '(out, c) ← synchronize fuel c samples';
      Ok (corrected :: out, c)
  end.

Definition get_freq_offset (c : CarrierSynchronizer) : double := freq c.
Definition get_phase_offset (c : CarrierSynchronizer) : double := phase c.
Definition reset (c : CarrierSynchronizer) : CarrierSynchronizer := MkSync (S754_zero false) (S754_zero false) (alpha c) (beta c).

(** The loop keeps its state between blocks: cutting the samples into blocks
    makes no difference. *)
Lemma synchronize_app fuel c s1 s2 :
  synchronize fuel c (s1 ++ s2) =
    ('(o1, c) ← synchronize fuel c s1; '(o2, c) ← synchronize fuel c s2; Ok (o1 ++ o2, c)).
Proof.
  revert c. induction s1 as [|s s1 IH]; intros c; cbn [app synchronize mbind outcome_bind].
  - by destruct (synchronize fuel c s2) as [[]|].
  - destruct (sync_step fuel c s) as [[x c1]|]; [|done]. cbn [mbind outcome_bind]. rewrite IH.
    destruct (synchronize fuel c1 s1) as [[o1 c2]|]; [|done]. cbn [mbind outcome_bind].
    by destruct (synchronize fuel c2 s2) as [[]|].
Qed.

Lemma synchronize_length fuel c samples out c' : synchronize fuel c samples = Ok (out, c') -> length out = length samples.
Proof.
  revert c out c'. induction samples as [|s l IH]; intros c out c' E; cbn [synchronize] in E; [by injection E as <- <-|].
  inv_ok E. destruct r as [x c1]. inv_ok E. destruct r as [o c2]. injection E as <- <-. cbn [length]. f_equal. by eapply IH.
Qed.

Lemma wrap_no_throw fuel : forall p, no_throw (wrap_down fuel p) /\ no_throw (wrap_up fuel p).
Proof. induction fuel as [|fuel IH]; intros p; cbn [wrap_down wrap_up]; split; case_match; try done; apply IH. Qed.

Lemma synchronize_no_throw fuel samples : forall c, no_throw (synchronize fuel c samples).
Proof.
  induction samples as [|s l IH]; intros c; cbn [synchronize]; [done|]. apply no_throw_bind.
  - unfold sync_step. destruct (cmul _ _). apply no_throw_bind; [apply wrap_no_throw|]. intros. by apply no_throw_bind; [apply wrap_no_throw|].
  - intros [x c1] _. by apply no_throw_bind; [|intros []].
Qed.

(** An infinite phase is never wrapped. *)
Lemma wrap_infinite fuel : wrap_down fuel (S754_infinity false) = Err Diverges.
Proof. induction fuel as [|fuel IH]; [reflexivity|]. cbn [wrap_down]. change (dsub (S754_infinity false) TWO_PI) with (S754_infinity false). by rewrite IH. Qed.
End sync.
End CarrierSync.

Module TimingRecovery.

Record TimingRecovery := MkTiming {
  mu : double; gain_mu : double; gain_omega : double; omega : double; sps : Z; prev_sample : complex; prev_decision : complex }.

(** 0.25 *)
Definition quarter : double := binary_normalize 53 1024 1 (-2) false.
Definition INV_SQRT2 : float := S754_finite false 11863283 (-24).

Definition make_timing (sps : Z) (gain_mu : double) : outcome TimingRecovery :=
  if sps <? 2 then Err (Throw InvalidArgument)
  else if dle gain_mu (S754_zero false) || dle (double_of_Z 1) gain_mu then Err (Throw InvalidArgument)
  else Ok (MkTiming (S754_zero false) gain_mu (dmul (dmul quarter gain_mu) gain_mu) (double_of_Z sps) sps czero czero).

Definition qpsk_decision (s : complex) : complex :=
  (if SFleb fzero (fst s) then INV_SQRT2 else SFopp INV_SQRT2, if SFleb fzero (snd s) then INV_SQRT2 else SFopp INV_SQRT2).

Definition interpolate (a b : complex) (mu : float) : complex := cadd a (cscale (csub b a) mu).

(** Steps 1 to 5 for the samples around the current index: the symbol, the
    state after it, and the index's advance. *)
Definition update (t : TimingRecovery) (a b : complex) (frac : float) : complex * TimingRecovery * double :=
  let current_sample := interpolate a b frac in
  let current_decision := qpsk_decision current_sample in
  let error := widen (fst (csub (cmul (prev_decision t) (conj current_sample)) (cmul current_decision (conj (prev_sample t))))) in
  let mu := dadd (mu t) (dmul (gain_mu t) error) in
  let omega := dadd (omega t) (dmul (gain_omega t) error) in
  let omega_min := dmul (double_of_Z (sps t)) (binary_normalize 53 1024 1 (-1) false) in
  let omega_max := dmul (double_of_Z (sps t)) (binary_normalize 53 1024 3 (-1) false) in
  let omega := if dlt omega omega_min then omega_min else omega in
  let omega := if dlt omega_max omega then omega_max else omega in
  (current_sample, MkTiming (S754_zero false) (gain_mu t) (gain_omega t) omega (sps t) current_sample current_decision, dadd omega mu).

Fixpoint recover_loop (fuel : nat) (samples : list complex) (index : double) (t : TimingRecovery)
  : outcome (list complex * TimingRecovery) :=
  if dlt (dadd index (double_of_Z 1)) (double_of_Z (zlen samples)) then
    match fuel with
    | O => Err Diverges
    | S fuel' =>
        i ← cast 0 (2 ^ 64) index;
        let frac := narrow (dsub index (double_of_Z i)) in
        if zlen samples <=? i + 1 then Ok ([], t)
        else
          a ← read samples i;
          b ← read samples (i + 1);
          let '(symbol, t, advance) := update t a b frac in
          '(out, t) ← recover_loop fuel' samples (dadd index advance) t;
          Ok (symbol :: out, t)
    end
  else Ok ([], t).

Definition recover (fuel : nat) (t : TimingRecovery) (samples : list complex) : outcome (list complex * TimingRecovery) :=
  match samples with [] => Ok ([], t) | _ => recover_loop fuel samples (S754_zero false) t end.

Lemma recover_no_throw fuel t samples : no_throw (recover fuel t samples).
Proof.
  assert (forall fuel index t, no_throw (recover_loop fuel samples index t)) as Hl.
  { clear. induction fuel as [|fuel IH]; intros index t; cbn [recover_loop]; (destruct (dlt _ _); [|done]); [done|].
    apply no_throw_bind; [apply cast_no_throw|]. intros i _. destruct (_ <=? _); [done|]. apply no_throw_bind; [apply read_no_throw|]. intros a _.
    apply no_throw_bind; [apply read_no_throw|]. intros b _. destruct (update _ _ _ _) as [[s t1] ad]. by apply no_throw_bind; [|intros []]. }
  unfold recover. destruct samples; [done|apply Hl].
Qed.

Definition get_timing_offset (t : TimingRecovery) : double := mu t.

Definition reset (t : TimingRecovery) : TimingRecovery :=
  MkTiming (S754_zero false) (gain_mu t) (gain_omega t) (double_of_Z (sps t)) (sps t) czero czero.

(** The correction is unbounded: samples far above the nominal amplitude move
    the index below zero, and the cast to an unsigned index is undefined. *)
Example index_underflow :
  let big := float_of_Z (10 ^ 6) in
  let t := match make_timing 4 (S754_finite false 5764607523034235 (-59)) with Ok t => t | Err _ => MkTiming fzero fzero fzero fzero 4 czero czero end in
  recover 100 t (replicate 3 (big, big) ++ replicate 8 (float_of_Z 1, float_of_Z 1)) = Err Undefined.
Proof. vm_compute. reflexivity. Qed.

(** What the getter reports is zero after every block with a symbol in it: the
    correction has gone into the index. *)
Lemma recover_loop_offset fuel samples index t out t' :
  recover_loop fuel samples index t = Ok (out, t') -> out = [] /\ t' = t \/ get_timing_offset t' = S754_zero false.
Proof.
  revert index t out. induction fuel as [|fuel IH]; intros index t out E; cbn [recover_loop] in E; (destruct (dlt _ _); [|injection E as <- <-; by left]); [done|].
  inv_ok E. destruct (_ <=? _); [injection E as <- <-; by left|]. inv_ok E. unfold update in E. inv_ok E. destruct r2 as [o t1].
  injection E as <- <-. right. apply IH in E3 as [[_ ->]|E3]; done.
Qed.
End TimingRecovery.

Module FrameSync.
Section sync.
Context `{Libm}.

Record FrameSynchronizer := MkFrameSync { preamble_symbols : list complex; threshold : float }.

(** 0.85f, the default threshold. *)
Definition THRESHOLD : float := S754_finite false 14260634 (-24).

Definition make_frame_sync (preamble : list Z) (threshold : float) : FrameSynchronizer :=
  MkFrameSync ((fun bit => (if bit =? 0 then float_of_Z 1 else float_of_Z (-1), fzero)) <$> preamble) threshold.

Definition energy (symbols : list complex) : float := foldl (fun e s => fadd e (norm s)) fzero symbols.

(** 1e-12f *)
Definition EPS : float := S754_finite false 9223372 (-63).

Definition correlate (received reference : list complex) : complex :=
  foldl (fun corr '(s, r) => cadd corr (cmul s (conj r))) czero (zip received reference).

(** Whether the normalised correlation with the symbols from a position on
    meets the threshold. *)
Definition matches (f : FrameSynchronizer) (window : list complex) : bool :=
  let corr := correlate window (preamble_symbols f) in
  let denom := fsqrt (fmul (energy (preamble_symbols f)) (energy window)) in
  if SFltb denom EPS then false
  else SFleb (threshold f) (fdiv (cabs corr) denom).

(** The search from position [i], with [todo] positions left. *)
Fixpoint search (f : FrameSynchronizer) (symbols : list complex) (todo i : nat) : option nat :=
  match todo with
  | O => None
  | S todo' =>
      let plen := length (preamble_symbols f) in
      if matches f (take plen (drop i symbols)) then Some (i + plen)%nat else search f symbols todo' (S i)
  end.

Definition detect (f : FrameSynchronizer) (symbols : list complex) : option nat :=
  let plen := length (preamble_symbols f) in
  if bool_decide (length symbols < plen)%nat || bool_decide (plen = 0)%nat then None
  else search f symbols (length symbols - plen + 1) 0.

(** A detection is the first position whose window matches, and the window
    lies in the symbols. *)
Definition window_at (f : FrameSynchronizer) (symbols : list complex) (i : nat) : bool :=
  matches f (take (length (preamble_symbols f)) (drop i symbols)).

Lemma search_spec f symbols : forall todo i,
  match search f symbols todo i with
  | Some k => exists p, k = (p + length (preamble_symbols f))%nat /\ (i <= p < i + todo)%nat /\ window_at f symbols p = true /\
      forall q, (i <= q < p)%nat -> window_at f symbols q = false
  | None => forall q, (i <= q < i + todo)%nat -> window_at f symbols q = false
  end.
Proof.
  induction todo as [|todo IH]; intros i; cbn [search]; [intros q Hq; lia|]. fold (window_at f symbols i).
  destruct (window_at f symbols i) eqn:E.
  - exists i. split_and!; [done|lia|lia|done|]. intros q Hq. lia.
  - specialize (IH (S i)). destruct (search f symbols todo (S i)) as [k|].
    + destruct IH as (p & -> & Hp & Hm & Hf). exists p. split_and!; [done|lia|lia|done|]. intros q Hq.
      destruct (decide (q = i)) as [->|]; [done|]. apply Hf. lia.
    + intros q Hq. destruct (decide (q = i)) as [->|]; [done|]. apply IH. lia.
Qed.

Lemma detect_spec f symbols :
  match detect f symbols with
  | Some k => exists p, k = (p + length (preamble_symbols f))%nat /\ (k <= length symbols)%nat /\ (0 < length (preamble_symbols f))%nat /\
      window_at f symbols p = true /\ forall q, (q < p)%nat -> window_at f symbols q = false
  | None => length (preamble_symbols f) = 0%nat \/
      forall q, (q + length (preamble_symbols f) <= length symbols)%nat -> window_at f symbols q = false
  end.
Proof.
  unfold detect. set (plen := length (preamble_symbols f)). case_bool_decide as H1; cbn [orb].
  - right. intros q Hq. lia.
  - case_bool_decide as H2; [by left|]. pose proof (search_spec f symbols (length symbols - plen + 1) 0) as Hs.
    destruct (search _ _ _ _) as [k|].
    + destruct Hs as (p & -> & Hp & Hm & Hf). exists p. fold plen in Hp |- *. split_and!; [done|lia|lia|done|]. intros q Hq. apply Hf. lia.
    + right. intros q Hq. apply Hs. lia.
Qed.
End sync.
End FrameSync.
