(* ===== verification/Codec.v ===== *)
(** * The encoder and the decoder, samples and all (src/encoder.cpp,
    src/decoder.cpp)

    [Modem] has the part between payloads and symbols; here the pulse shaper
    is put after it, and the filter, the synchronisers and the three ways of
    recovering symbols before it. *)
From S2P Require Import Prelude Float Dsp Fec Viterbi Frames Modem.
Import Float Dsp Fec Frames Modem.

Module Codec.
Section codec.
Context `{Libm}.

(** The settings the two constructors read. *)
Record CodecConfig := MkCodec { modem : Config; samples_per_symbol : Z; rrc_rolloff : double; rrc_span_symbols : Z }.

(** The arithmetic of [int] overflows undefined. *)
Definition int (x : Z) : outcome Z := if (- 2 ^ 31 <=? x) && (x <? 2 ^ 31) then Ok x else Err Undefined.

Definition num_taps (c : CodecConfig) : outcome Z :=
  p ← int (rrc_span_symbols c * samples_per_symbol c); int (p + 1).

Definition make_codec_shaper (fuel : nat) (c : CodecConfig) : outcome PulseShaper.PulseShaper :=
  n ← num_taps c; PulseShaper.make_shaper fuel (rrc_rolloff c) (samples_per_symbol c) n.

(** ** Encoder *)

Record TxEncoder := MkTxEncoder { symbol_encoder : Encoder; tx_shaper : PulseShaper.PulseShaper }.

Definition make_tx_encoder (fuel : nat) (c : CodecConfig) : outcome TxEncoder :=
  shaper ← make_codec_shaper fuel c;
  Ok (MkTxEncoder (make_encoder (modem c)) shaper).

Definition encode (e : TxEncoder) (payload : list Z) : outcome (list complex * TxEncoder) :=
  '(all_symbols, se) ← encode_symbols (symbol_encoder e) payload;
  Ok (PulseShaper.shape (tx_shaper e) all_symbols, MkTxEncoder se (tx_shaper e)).

(** ** Decoder *)

(** All of [RxDiagnostics] but the estimate of the bit error rate, which
    nothing sets. *)
Record Diagnostics := MkDiag { counters : RxDiagnostics; last_freq_offset : double; last_phase_offset : double; last_timing_offset : double }.

Record Decoder := MkDecoder {
  settings : CodecConfig; shaper : PulseShaper.PulseShaper; carrier_sync : CarrierSync.CarrierSynchronizer;
  timing_recovery : TimingRecovery.TimingRecovery; frame_sync : FrameSync.FrameSynchronizer; fec_decoder : FecDecoder; diag : Diagnostics }.

(** 0.01 *)
Definition LOOP_GAIN : double := S754_finite false 5764607523034235 (-59).

Definition no_diagnostics : Diagnostics := MkDiag (MkRx 0 0 0) (S754_zero false) (S754_zero false) (S754_zero false).

Definition make_decoder (fuel : nat) (c : CodecConfig) : outcome Decoder :=
  shaper ← make_codec_shaper fuel c;
  carrier ← CarrierSync.make_sync LOOP_GAIN;
  timing ← TimingRecovery.make_timing (samples_per_symbol c) LOOP_GAIN;
  Ok (MkDecoder c shaper carrier timing
        (FrameSync.make_frame_sync (make_doubled_preamble (cfg_preamble (modem c))) FrameSync.THRESHOLD)
        (Fec.MkDecoder (cfg_fec_code_rate (modem c)) 0) no_diagnostics).

(** 1e-10f *)
Definition MAG_EPS : float := S754_finite false 14411519 (-57).

Definition estimate_phase_correction (received_preamble reference_preamble : list complex) : complex :=
  let corr := FrameSync.correlate received_preamble reference_preamble in
  let mag := cabs corr in
  if SFltb mag MAG_EPS then (float_of_Z 1, fzero) else cunscale (conj corr) mag.

(** The vectors made from ranges of [recovered] are read where they lie in it. *)
Definition try_decode_frame (recovered : list complex) (doubled_preamble : list Z) (f : FrameSync.FrameSynchronizer)
    (fec : FecDecoder) (d : RxDiagnostics) : outcome (option (list Z) * FecDecoder * RxDiagnostics) :=
  let preamble_len := zlen doubled_preamble in
  match FrameSync.detect f recovered with
  | None => Ok (None, fec, d)
  | Some start =>
      let frame_start := Z.of_nat start in
      phase_correction ←
        (if preamble_len <=? frame_start then
           received_preamble ← range recovered (frame_start - preamble_len) preamble_len;
           Ok (estimate_phase_correction received_preamble (bpsk_map_preamble doubled_preamble))
         else Ok (float_of_Z 1, fzero));
      data_symbols ← range recovered frame_start (zlen recovered - frame_start);
      decode_data_symbols fec d ((fun sym => cmul sym phase_correction) <$> data_symbols)
  end.

(** The loop [for (k = 0; delay + k * sps < size; ++k)]; with a positive step
    the number of samples is fuel enough. *)
Fixpoint decimate_loop (fuel : nat) (samples : list complex) (sps pos : nat) : list complex :=
  match fuel with
  | O => []
  | S fuel' => match samples !! pos with Some s => s :: decimate_loop fuel' samples sps (pos + sps) | None => [] end
  end.

Definition decimate (delay sps : Z) (samples : list complex) : list complex :=
  decimate_loop (length samples) samples (Z.to_nat sps) (Z.to_nat delay).

Definition set_counters (c : RxDiagnostics) (d : Diagnostics) : Diagnostics :=
  MkDiag c (last_freq_offset d) (last_phase_offset d) (last_timing_offset d).

Definition set_carrier (s : CarrierSync.CarrierSynchronizer) (d : Decoder) : Decoder :=
  MkDecoder (settings d) (shaper d) s (timing_recovery d) (frame_sync d) (fec_decoder d)
    (MkDiag (counters (diag d)) (CarrierSync.get_freq_offset s) (CarrierSync.get_phase_offset s) (last_timing_offset (diag d))).

Definition set_timing (t : TimingRecovery.TimingRecovery) (d : Decoder) : Decoder :=
  MkDecoder (settings d) (shaper d) (carrier_sync d) t (frame_sync d) (fec_decoder d)
    (MkDiag (counters (diag d)) (last_freq_offset (diag d)) (last_phase_offset (diag d)) (TimingRecovery.get_timing_offset t)).

Definition set_result (fec : FecDecoder) (c : RxDiagnostics) (d : Decoder) : Decoder :=
  MkDecoder (settings d) (shaper d) (carrier_sync d) (timing_recovery d) (frame_sync d) fec (set_counters c (diag d)).

(** One attempt at a stream of symbols. *)
Definition attempt (recovered : list complex) (d : Decoder) : outcome (option (list Z) * Decoder) :=
  '(result, fec, c) ← try_decode_frame recovered (make_doubled_preamble (cfg_preamble (modem (settings d)))) (frame_sync d)
                        (fec_decoder d) (counters (diag d));
  Ok (result, set_result fec c d).

Definition decode (fuel : nat) (d : Decoder) (samples : list complex) : outcome (option (list Z) * Decoder) :=
  match samples with
  | [] => Ok (None, d)
  | _ =>
      taps ← num_taps (settings d);
      let sps := samples_per_symbol (settings d) in
      let filtered := PulseShaper.matched_filter (shaper d) samples in
      (* carrier synchronisation, then timing recovery *)
      '(synced, carrier) ← CarrierSync.synchronize fuel (carrier_sync d) filtered;
      let d := set_carrier carrier d in
      '(recovered, timing) ← TimingRecovery.recover fuel (timing_recovery d) synced;
      let d := set_timing timing d in
      '(result, d) ← attempt recovered d;
      match result with
      | Some p => Ok (Some p, d)
      | None =>
          (* every sps-th filtered sample *)
          '(result, d) ← attempt (decimate (taps - 1) sps filtered) d;
          match result with
          | Some p => Ok (Some p, d)
          | None =>
              (* a fresh carrier synchronisation, then every sps-th sample *)
              '(synced, carrier) ← CarrierSync.synchronize fuel (CarrierSync.reset (carrier_sync d)) filtered;
              let d := set_carrier carrier d in
              '(result, d) ← attempt (decimate (taps - 1) sps synced) d;
              match result with
              | Some p => Ok (Some p, d)
              | None =>
                  let c := counters (diag d) in
                  Ok (None, set_result (fec_decoder d) (MkRx (frames_received c) (u64 (crc_errors c + 1)) (fec_errors_corrected c)) d)
              end
          end
      end
  end.

Definition reset (d : Decoder) : Decoder :=
  MkDecoder (settings d) (shaper d) (CarrierSync.reset (carrier_sync d)) (TimingRecovery.reset (timing_recovery d)) (frame_sync d)
    (fec_decoder d) no_diagnostics.

(** ** The decoder never fails on symbols *)

Lemma demap_bits l : bits (demap l).
Proof.
  induction l as [|[re im] l IH]; [apply Forall_nil_2|]. rewrite demap_cons. apply bits_app. split; [|done].
  unfold demap, symbol_to_dibit. cbn [fmap list_fmap concat]. rewrite app_nil_r.
  repeat (match goal with |- context [if ?b then _ else _] => destruct b end);
    (apply Forall_cons_2; [first [by left | by right]|]; apply Forall_singleton; first [by left | by right]).
Qed.

Lemma parse_unchecked_ok l : bits l -> is_ok (parse_unchecked l).
Proof.
  intros Hl. destruct (Z.lt_ge_cases (zlen l) 67) as [Hlt|Hge].
  - unfold parse_unchecked, HEADER_BITS, CRC_BITS. destruct (Z.ltb_spec (zlen l) (35 + 32)); [by eexists|lia].
  - destruct (split_frame l Hl Hge) as (h & p & slack & c & -> & Hh & Hp & Hs & Hs8 & Hc).
    rewrite parse_unchecked_frame by done. by eexists.
Qed.

Lemma parse_ok l : bits l -> is_ok (parse l).
Proof. intros Hl. destruct (parse_unchecked_ok l Hl) as [[f|] E]; unfold parse; rewrite E; cbn [mbind outcome_bind]; [destruct (verify_crc f)|]; by eexists. Qed.

(** The counters after an attempt: a frame more if there is a payload. *)
Definition counted (result : option (list Z)) (d d' : RxDiagnostics) : Prop :=
  crc_errors d' = crc_errors d /\
  frames_received d' = match result with Some _ => u64 (frames_received d + 1) | None => frames_received d end.

Lemma decode_data_total fec d symbols :
  exists result fec' d', decode_data_symbols fec d symbols = Ok (result, fec', d') /\ counted result d d'.
Proof.
  unfold decode_data_symbols. destruct (_ <? _); [by eexists _, _, _|]. destruct (if negb _ then _ else _) as [n|]; [|by eexists _, _, _].
  destruct (_ <? _); [by eexists _, _, _|].
  set (l := if _ <? _ then _ else _). assert (bits l) as Hl.
  { unfold l. destruct (_ <? _); [apply Forall_take|]; apply demap_bits. }
  clearbody l. match goal with |- context [frame_opt ← ?m; _] => assert (is_ok m) as [[f|] ->] end.
  { destruct (negb _); [by apply parse_unchecked_ok|by apply parse_ok]. }
  - cbn [mbind outcome_bind]. destruct (fec_enabled (header f)).
    + destruct (Fec.decode fec (payload f) _) as [p fec']. destruct (verify_crc _); by eexists _, _, _.
    + destruct (crc_valid f); by eexists _, _, _.
  - by eexists _, _, _.
Qed.

(** A synchroniser for the preamble the decoder looks for. *)
Definition synchronises (f : FrameSync.FrameSynchronizer) (doubled_preamble : list Z) : Prop :=
  length (FrameSync.preamble_symbols f) = length doubled_preamble.

Lemma try_decode_total recovered pre f fec d :
  synchronises f pre ->
  exists result fec' d', try_decode_frame recovered pre f fec d = Ok (result, fec', d') /\ counted result d d' /\
    (is_Some result -> exists p, FrameSync.window_at f recovered p = true /\ (p + length pre <= length recovered)%nat).
Proof.
  intros Hf. unfold try_decode_frame. pose proof (FrameSync.detect_spec f recovered) as Hd.
  destruct (FrameSync.detect f recovered) as [start|].
  - destruct Hd as (p & -> & Hk & Hpos & Hw & _). rewrite Hf in *. destruct (Z.leb_spec (zlen pre) (Z.of_nat (p + length pre))); [|lia].
    rewrite !range_ok by lia. cbn [mbind outcome_bind].
    destruct (decode_data_total fec d ((fun sym => cmul sym
      (estimate_phase_correction (take (Z.to_nat (zlen pre)) (drop (Z.to_nat (Z.of_nat (p + length pre) - zlen pre)) recovered)) (bpsk_map_preamble pre))) <$>
      take (Z.to_nat (zlen recovered - Z.of_nat (p + length pre))) (drop (Z.to_nat (Z.of_nat (p + length pre))) recovered)))
      as (result & fec' & d' & E & Hc).
    exists result, fec', d'. split; [exact E|]. split; [exact Hc|]. intros _. exists p. by split.
  - exists None, fec, d. split; [done|]. split; [done|]. by intros [? ?].
Qed.

(** ** What the receiver reports *)

(** Decoders as the constructor makes them, and as the calls leave them. *)
Definition decoder_ok (d : Decoder) : Prop :=
  is_ok (num_taps (settings d)) /\ synchronises (frame_sync d) (make_doubled_preamble (cfg_preamble (modem (settings d)))).

Lemma make_decoder_ok fuel c d : make_decoder fuel c = Ok d -> decoder_ok d.
Proof.
  unfold make_decoder, make_codec_shaper. intros E. inv_ok E. inv_ok E0. injection E as <-. split; [by exists r2|].
  unfold synchronises, FrameSync.make_frame_sync. cbn. by rewrite length_fmap.
Qed.

Lemma attempt_total recovered d :
  decoder_ok d -> exists result d', attempt recovered d = Ok (result, d') /\ decoder_ok d' /\
    counted result (counters (diag d)) (counters (diag d')) /\
    settings d' = settings d /\ carrier_sync d' = carrier_sync d.
Proof.
  intros Hd. pose proof Hd as [Ht Hs]. unfold attempt.
  destruct (try_decode_total recovered _ _ (fec_decoder d) (counters (diag d)) Hs) as (result & fec' & c' & -> & Hc & _).
  cbn [mbind outcome_bind]. eexists _, _. by split_and!.
Qed.

(** How the synchronisers can keep a call of [decode] from returning: a loop
    that does not end, or an index out of range. *)
Definition synchroniser_fails (fuel : nat) (d : Decoder) (samples : list complex) (e : fault) : Prop :=
  let filtered := PulseShaper.matched_filter (shaper d) samples in
  CarrierSync.synchronize fuel (carrier_sync d) filtered = Err e \/
  (exists synced c, CarrierSync.synchronize fuel (carrier_sync d) filtered = Ok (synced, c) /\
     (TimingRecovery.recover fuel (timing_recovery d) synced = Err e \/
      CarrierSync.synchronize fuel (CarrierSync.reset c) filtered = Err e)).

Lemma decode_spec fuel d samples :
  decoder_ok d -> samples <> [] ->
  match decode fuel d samples with
  | Ok (result, d') =>
      decoder_ok d' /\
      let c := counters (diag d) in let c' := counters (diag d') in
      match result with
      | Some _ => frames_received c' = u64 (frames_received c + 1) /\ crc_errors c' = crc_errors c
      | None => frames_received c' = frames_received c /\ crc_errors c' = u64 (crc_errors c + 1)
      end
  | Err e => synchroniser_fails fuel d samples e
  end.
Proof.
  intros Hd Hs. unfold decode, synchroniser_fails. destruct samples as [|x l] eqn:Es; [done|]. rewrite <- Es. clear Hs Es x l.
  pose proof Hd as [[taps ->] _]. cbn [mbind outcome_bind]. set (filtered := PulseShaper.matched_filter _ _).
  destruct (CarrierSync.synchronize fuel (carrier_sync d) filtered) as [[synced carrier]|e]; cbn [mbind outcome_bind]; [|by left].
  set (d1 := set_carrier carrier d). change (timing_recovery d1) with (timing_recovery d).
  destruct (TimingRecovery.recover fuel (timing_recovery d) synced) as [[recovered timing]|e] eqn:Er; cbn [mbind outcome_bind];
    [|right; exists synced, carrier; split; [done|left; exact Er]].
  set (d2 := set_timing timing d1). assert (decoder_ok d2) as Hd2 by done.
  destruct (attempt_total recovered d2 Hd2) as (r3 & d3 & -> & Hd3 & [C3 F3] & S3 & K3). cbn [mbind outcome_bind].
  change (counters (diag d2)) with (counters (diag d)) in *. change (settings d2) with (settings d) in S3. change (carrier_sync d2) with carrier in K3.
  destruct r3 as [p|]; [by split|].
  match goal with |- context [attempt ?r d3] => destruct (attempt_total r d3 Hd3) as (r4 & d4 & -> & Hd4 & [C4 F4] & S4 & K4) end.
  cbn [mbind outcome_bind]. destruct r4 as [p|]; [cbn in *; split_and!; congruence|]. rewrite K4, K3.
  destruct (CarrierSync.synchronize fuel (CarrierSync.reset carrier) filtered) as [[synced' carrier']|e] eqn:Ec; cbn [mbind outcome_bind];
    [|right; exists synced, carrier; split; [done|right; exact Ec]].
  set (d5 := set_carrier carrier' d4). assert (decoder_ok d5) as Hd5 by done.
  match goal with |- context [attempt ?r d5] => destruct (attempt_total r d5 Hd5) as (r6 & d6 & -> & Hd6 & [C6 F6] & S6 & K6) end.
  cbn [mbind outcome_bind]. change (counters (diag d5)) with (counters (diag d4)) in *.
  destruct r6 as [p|]; cbn in *; split_and!; (done || congruence).
Qed.

(** [C35] Every call of [decode] with samples counts exactly one frame or one
    error: a frame if it returns a payload, whichever way of recovering the
    symbols found it, an error otherwise. Nothing that the samples hold makes
    the frame search, the header, the demapping, the parsing or the decoding
    fail: a call can only be kept from returning by the synchronisers. *)
Theorem decode_accounts fuel d samples :
  decoder_ok d -> samples <> [] ->
  match decode fuel d samples with
  | Ok (result, d') =>
      decoder_ok d' /\
      let c := counters (diag d) in let c' := counters (diag d') in
      match result with
      | Some _ => frames_received c' = u64 (frames_received c + 1) /\ crc_errors c' = crc_errors c
      | None => frames_received c' = frames_received c /\ crc_errors c' = u64 (crc_errors c + 1)
      end
  | Err e => synchroniser_fails fuel d samples e
  end.
Proof. exact (decode_spec fuel d samples). Qed.
End codec.

(** A mathematical library for the instances: Taylor sums, squares and square
    roots. *)
Fixpoint taylor (n : nat) (k : Z) (x2 term sum : double) : double :=
  match n with
  | O => sum
  | S n' =>
      let term := ddiv (SFopp (dmul term x2)) (double_of_Z (k * (k + 1))) in
      taylor n' (k + 2) x2 term (dadd sum term)
  end.

#[export] Instance taylor_libm : Libm := {|
  dsin x := taylor 12 2 (dmul x x) x x;
  dcos x := taylor 12 1 (dmul x x) (double_of_Z 1) (double_of_Z 1);
  dpow x _ := dmul x x;
  fhypot a b := fsqrt (norm (a, b)) |}.

Definition sample_config (fec : bool) : CodecConfig :=
  MkCodec (MkConfig barker fec RATE_1_2 0) 2 (S754_finite false 6305039478318694 (-54)) 2.

(** A payload through the whole codec, with a filter of five taps: what the
    encoder sends comes back from the decoder, with a frame counted. *)
Example loopback :
  (e ← make_tx_encoder 1 (sample_config false);
   d ← make_decoder 1 (sample_config false);
   '(samples, _) ← encode e [0x41];
   '(result, d) ← decode 1000 d samples;
   Ok (length samples, result, frames_received (counters (diag d)))) = Ok (144%nat, Some [0x41], 1).
Proof. vm_compute. reflexivity. Qed.

Definition sample_decoder : Decoder :=
  let c := sample_config true in
  MkDecoder c (PulseShaper.MkShaper [float_of_Z 1; float_of_Z 1] 2)
    (CarrierSync.MkSync fzero fzero LOOP_GAIN LOOP_GAIN) (TimingRecovery.MkTiming fzero LOOP_GAIN LOOP_GAIN (double_of_Z 2) 2 czero czero)
    (FrameSync.make_frame_sync (make_doubled_preamble barker) FrameSync.THRESHOLD) (Fec.MkDecoder RATE_1_2 0) no_diagnostics.

Lemma decode_accounts_witness :
  match decode 10 sample_decoder [czero; czero] with
  | Ok (result, d') =>
      decoder_ok d' /\
      let c := counters (diag sample_decoder) in let c' := counters (diag d') in
      match result with
      | Some _ => frames_received c' = u64 (frames_received c + 1) /\ crc_errors c' = crc_errors c
      | None => frames_received c' = frames_received c /\ crc_errors c' = u64 (crc_errors c + 1)
      end
  | Err e => synchroniser_fails 10 sample_decoder [czero; czero] e
  end.
Proof.
  assert (decoder_ok sample_decoder) as Hd by (split; [by exists 5|reflexivity]).
  exact (decode_accounts 10 sample_decoder [czero; czero] Hd ltac:(discriminate)).
Defined.
End Codec.
