(* ===== verification/Radio.v ===== *)
(** * The radio's two threads (src/b200_interface.cpp, [tx_thread_fn] and
    [rx_thread_fn] of src/main.cpp)

    [B200] are the loops over the driver's streamers, whose answers are
    arguments; [Burst] is what the transmit thread sends for a payload; and
    [Receiver] the receive thread's buffer. *)
From S2P Require Import Prelude Float Dsp Fec Frames Modem Codec.
Import Float.

Module B200.

Record B200Interface := MkB200 { tx_stream : bool; rx_stream : bool }.

(** Samples of one call to the driver, with the start-of-burst flag. *)
Definition chunk : Type := bool * list complex.

(** [sent]: the counts the streamer returns, call by call; while they last
    and samples remain, the next call follows. [Diverges] is a call that is
    still retrying. *)
Fixpoint send_loop (sent : list Z) (start_of_burst : bool) (rest : list complex) : outcome (list chunk) :=
  match rest with
  | [] => Ok []
  | _ =>
      match sent with
      | [] => Err Diverges
      | n :: sent' =>
          let n := Z.to_nat n in
          out ← send_loop sent' false (drop n rest);
          Ok ((start_of_burst, take n rest) :: out)
      end
  end.

Definition send (b : B200Interface) (sent : list Z) (samples : list complex) : outcome (list chunk) :=
  if tx_stream b then send_loop sent true samples else Err (Throw RuntimeError).

(** [md.error_code]. *)
Inductive rx_error := ERROR_CODE_NONE | ERROR_CODE_TIMEOUT | ERROR_CODE_OVERFLOW | ERROR_CODE_OTHER.

(** What a call of the streamer wrote and reported: the samples are those that
    fit in what is left of the buffer. *)
Fixpoint recv_loop (answers : list (rx_error * list complex)) (missing : nat) : outcome (list complex) :=
  match missing with
  | O => Ok []
  | _ =>
      match answers with
      | [] => Err Diverges
      | (ERROR_CODE_TIMEOUT, _) :: answers' => recv_loop answers' missing
      | (ERROR_CODE_OTHER, _) :: _ => Err (Throw RuntimeError)
      | (_, received) :: answers' =>
          let received := take missing received in
          buffer ← recv_loop answers' (missing - length received);
          Ok (received ++ buffer)
      end
  end.

Definition recv (b : B200Interface) (answers : list (rx_error * list complex)) (num_samples : nat) : outcome (list complex) :=
  if rx_stream b then recv_loop answers num_samples else Err (Throw RuntimeError).

(** While the device delivers nothing, [recv] does not return: no timeout ends
    it, and it does not look at the flag that stops the threads. *)
Example recv_waits : recv (MkB200 false true) (replicate 100 (ERROR_CODE_TIMEOUT, [])) 4096 = Err Diverges.
Proof. vm_compute. reflexivity. Qed.

Lemma send_loop_whole sent start rest out :
  send_loop sent start rest = Ok out ->
  concat (snd <$> out) = rest /\ match out with [] => True | c :: cs => fst c = start /\ Forall (fun c => fst c = false) cs end.
Proof.
  revert start rest out. induction sent as [|n sent IH]; intros start rest out E; destruct rest as [|x rest]; cbn [send_loop] in E;
    try (injection E as <-; by split); [done|].
  inv_ok E. injection E as <-. destruct (IH _ _ _ E0) as [Hc Ht]. cbn [fmap list_fmap concat snd]. split; [by rewrite Hc, take_drop|].
  split; [done|]. destruct r as [|c cs]; [done|]. destruct Ht. by apply Forall_cons_2.
Qed.

(** What the driver was given by [send], or why it was not: every sample once
    and in order, only the first call starting the burst; nothing without a
    streamer, when it throws. *)
Definition sent_whole (b : B200Interface) (samples : list complex) (r : outcome (list chunk)) : Prop :=
  match r with
  | Ok chunks =>
      tx_stream b = true /\ concat (snd <$> chunks) = samples /\
      match chunks with [] => True | c :: cs => fst c = true /\ Forall (fun c => fst c = false) cs end
  | Err (Throw e) => tx_stream b = false /\ e = RuntimeError
  | Err _ => False
  end.

Lemma send_loop_err sent : forall start rest e, send_loop sent start rest = Err e -> e = Diverges.
Proof.
  induction sent as [|n sent IH]; intros start [|x rest] e E; cbn [send_loop] in E; try done; [by injection E|].
  destruct (send_loop sent false _) eqn:E1; cbn [mbind outcome_bind] in E; [done|]. injection E as <-. by eapply IH.
Qed.

Lemma send_spec b sent samples : send b sent samples = Err Diverges \/ sent_whole b samples (send b sent samples).
Proof.
  unfold send. destruct (tx_stream b) eqn:Eb; [|by right]. destruct (send_loop sent true samples) as [out|e] eqn:E.
  - right. split; [done|]. by eapply send_loop_whole.
  - left. by rewrite (send_loop_err _ _ _ _ E).
Qed.

Lemma recv_loop_length answers n out : recv_loop answers n = Ok out -> length out = n.
Proof.
  revert n out. induction answers as [|[e l] answers IH]; intros [|n] out E; cbn [recv_loop] in E; try (by injection E as <-); [done|].
  destruct e; try done; [| |]; [|by apply IH|]; inv_ok E; injection E as <-; rewrite length_app, (IH _ _ E0), length_take; lia.
Qed.
End B200.

Module Burst.
Section burst.
Context `{Libm}.

Definition LEAD_SAMPLES : Z := 4096.

(** [samples[i] *= i / ramp] at the front, and mirrored at the end. *)
Definition ramp_gain (ramp i n : nat) : float :=
  if bool_decide (i < ramp)%nat then fdiv (float_of_Z (Z.of_nat i)) (float_of_Z (Z.of_nat ramp))
  else fdiv (float_of_Z (Z.of_nat (n - i))) (float_of_Z (Z.of_nat ramp)).

Definition apply_ramp (ramp : nat) (samples : list complex) : list complex :=
  let n := length samples in
  if bool_decide (0 < ramp)%nat && bool_decide (2 * ramp < n)%nat then
    imap (fun i s => if bool_decide (i < ramp)%nat || bool_decide (n - ramp <= i)%nat then cscale s (ramp_gain ramp i n) else s) samples
  else samples.

Definition pad (samples : list complex) : list complex :=
  replicate (Z.to_nat LEAD_SAMPLES) czero ++ samples ++ replicate (Z.to_nat LEAD_SAMPLES) czero.

(** The thread's constant [ramp_samples]; the cast of a negative product
    cannot happen for a valid configuration. *)
Definition ramp_samples (ramp_symbols samples_per_symbol : Z) : outcome nat :=
  p ← Codec.int (ramp_symbols * samples_per_symbol); Ok (Z.to_nat (u64 p)).

(** What is sent for one payload. *)
Definition burst (ramp : nat) (e : Codec.TxEncoder) (payload : list Z) : outcome (list complex * Codec.TxEncoder) :=
  '(samples, e) ← Codec.encode e payload;
  Ok (pad (apply_ramp ramp samples), e).

Lemma apply_ramp_length ramp l : length (apply_ramp ramp l) = length l.
Proof. unfold apply_ramp. destruct (_ && _); [apply length_imap|done]. Qed.

(** Past the ramps the samples are as the encoder made them. *)
Lemma apply_ramp_inside ramp l i :
  (ramp <= i)%nat -> (i + ramp < length l)%nat -> apply_ramp ramp l !! i = l !! i.
Proof.
  intros H1 H2. unfold apply_ramp. destruct (_ && _); [|done]. rewrite list_lookup_imap. destruct (l !! i) as [s|]; [|done].
  cbn. rewrite !bool_decide_eq_false_2 by lia. done.
Qed.
End burst.
End Burst.

Module Receiver.
Section receiver.
Context `{Libm}.

Definition MIN_DECODE_SAMPLES : Z := 16384.
Definition MAX_BUFFER_SIZE : Z := 262144.

Record RxThread := MkRx { rx_buffer : list complex; samples_since_last_decode : Z; decoder : Codec.Decoder }.

(** The buffer after an attempt without a payload. *)
Definition trim (buffer : list complex) : list complex :=
  if MAX_BUFFER_SIZE <? zlen buffer then drop (Z.to_nat (zlen buffer - MAX_BUFFER_SIZE / 2)) buffer else buffer.

(** One round of the loop with the samples [recv] returned: the payload that is
    pushed on the queue, if any, and the state after it. *)
Definition rx_round (fuel : nat) (samples : list complex) (r : RxThread) : outcome (option (list Z) * RxThread) :=
  match samples with
  | [] => Ok (None, r)
  | _ =>
      let buffer := rx_buffer r ++ samples in
      let since := samples_since_last_decode r + zlen samples in
      if since <? MIN_DECODE_SAMPLES then Ok (None, MkRx buffer since (decoder r))
      else
        '(decoded, d) ← Codec.decode fuel (Codec.reset (decoder r)) buffer;
        match decoded with
        | Some ((_ :: _) as payload) => Ok (Some payload, MkRx [] 0 d)
        | _ => Ok (None, MkRx (trim buffer) 0 d)
        end
  end.

Fixpoint rx_rounds (fuel : nat) (batches : list (list complex)) (r : RxThread) : outcome (list (list Z) * RxThread) :=
  match batches with
  | [] => Ok ([], r)
  | samples :: batches' =>
      '(payload, r) ← rx_round fuel samples r;
      '(payloads, r) ← rx_rounds fuel batches' r;
      Ok (option_list payload ++ payloads, r)
  end.

Definition rx_start (d : Codec.Decoder) : RxThread := MkRx [] 0 d.

(** [history] is what was received since the last payload: the buffer is its
    end, all of it or at least half the maximum. *)
Definition buffer_inv (history : list complex) (r : RxThread) : Prop :=
  zlen (rx_buffer r) <= MAX_BUFFER_SIZE + samples_since_last_decode r /\
  0 <= samples_since_last_decode r < MIN_DECODE_SAMPLES /\
  exists old, history = old ++ rx_buffer r /\ (old = [] \/ MAX_BUFFER_SIZE / 2 <= zlen (rx_buffer r)).

Lemma trim_spec buffer :
  zlen (trim buffer) <= MAX_BUFFER_SIZE /\
  exists old, buffer = old ++ trim buffer /\ (old = [] \/ MAX_BUFFER_SIZE / 2 <= zlen (trim buffer)).
Proof.
  unfold trim, MAX_BUFFER_SIZE. change (262144 / 2) with 131072. destruct (Z.ltb_spec 262144 (zlen buffer)) as [Hlt|Hge].
  - rewrite length_drop. split; [lia|]. eexists. split; [symmetry; apply take_drop|right; lia].
  - split; [done|]. exists []. split; [done|by left].
Qed.

Lemma rx_round_inv fuel samples r history payload r' :
  buffer_inv history r -> rx_round fuel samples r = Ok (payload, r') ->
  buffer_inv (match payload with Some _ => [] | None => history ++ samples end) r'.
Proof.
  intros (Hl & Hs & old & -> & Hold) E. unfold rx_round in E. destruct samples as [|x xs] eqn:Es.
  - injection E as <- <-. rewrite app_nil_r. split; [done|]. split; [done|by exists old].
  - rewrite <- Es in *. clear Es x xs. set (buffer := rx_buffer r ++ samples) in *.
    assert (zlen buffer = zlen (rx_buffer r) + zlen samples) as Hb by (unfold buffer; rewrite length_app; lia).
    destruct (Z.ltb_spec (samples_since_last_decode r + zlen samples) MIN_DECODE_SAMPLES) as [Hsince|Hsince].
    + injection E as <- <-. unfold buffer_inv. cbn [rx_buffer samples_since_last_decode]. split; [lia|]. split; [lia|].
      exists old. rewrite <- app_assoc. split; [done|]. destruct Hold; [by left|right; lia].
    + inv_ok E. destruct r0 as [decoded d].
      assert (buffer_inv ((old ++ rx_buffer r) ++ samples) (MkRx (trim buffer) 0 d)) as Htrim.
      { destruct (trim_spec buffer) as (Ht & old' & Eo & Ho). unfold buffer_inv. cbn [rx_buffer samples_since_last_decode].
        split; [lia|]. split; [unfold MIN_DECODE_SAMPLES; lia|]. exists (old ++ old'). rewrite <- !app_assoc, <- Eo. split; [done|].
        destruct Ho as [->|]; [|by right]. cbn [app] in Eo. rewrite <- Eo, app_nil_r. destruct Hold; [by left|right; lia]. }
      destruct decoded as [[|y p]|]; injection E as <- <-; [done| |done].
      unfold buffer_inv. cbn [rx_buffer samples_since_last_decode length]. unfold MAX_BUFFER_SIZE, MIN_DECODE_SAMPLES.
      split; [lia|]. split; [lia|]. exists []. split; [done|by left].
Qed.

(** What was received after the payloads found so far. *)
Fixpoint history (fuel : nat) (batches : list (list complex)) (r : RxThread) (h : list complex) : list complex :=
  match batches with
  | [] => h
  | samples :: batches' =>
      match rx_round fuel samples r with
      | Ok (Some _, r) => history fuel batches' r []
      | Ok (None, r) => history fuel batches' r (h ++ samples)
      | Err _ => h
      end
  end.

(** A round keeps the decoder well-formed, and fails only in a synchroniser. *)
Lemma rx_round_total fuel samples r :
  Codec.decoder_ok (decoder r) ->
  match rx_round fuel samples r with
  | Ok (_, r') => Codec.decoder_ok (decoder r')
  | Err e => exists d buffer, Codec.synchroniser_fails fuel d buffer e
  end.
Proof.
  intros Hd. unfold rx_round. destruct samples as [|x xs]; [done|]. destruct (_ <? _); [done|].
  set (buffer := rx_buffer r ++ x :: xs). assert (Codec.decoder_ok (Codec.reset (decoder r))) as Hd' by exact Hd.
  pose proof (Codec.decode_spec fuel (Codec.reset (decoder r)) buffer Hd' ltac:(unfold buffer; by destruct (rx_buffer r))) as H1.
  destruct (Codec.decode fuel _ buffer) as [[decoded d]|e]; cbn [mbind outcome_bind]; [|by exists (Codec.reset (decoder r)), buffer].
  destruct H1 as [H1 _]. by destruct decoded as [[|y p]|].
Qed.

Lemma rx_rounds_inv fuel batches : forall r h,
  Codec.decoder_ok (decoder r) -> buffer_inv h r ->
  match rx_rounds fuel batches r with
  | Ok (_, r') => buffer_inv (history fuel batches r h) r'
  | Err e => exists d buffer, Codec.synchroniser_fails fuel d buffer e
  end.
Proof.
  induction batches as [|s batches IH]; intros r h Hd Hr; cbn [rx_rounds history]; [done|].
  pose proof (rx_round_total fuel s r Hd) as Ht. destruct (rx_round fuel s r) as [[p r1]|e] eqn:E; cbn [mbind outcome_bind]; [|done].
  pose proof (rx_round_inv fuel s r h p r1 Hr E) as Hr1.
  destruct p as [p|]; [specialize (IH r1 [] Ht Hr1)|specialize (IH r1 (h ++ s) Ht Hr1)];
    (destruct (rx_rounds fuel batches r1) as [[ps r2]|e']; exact IH).
Qed.

(** [C36] The receive thread's buffer is bounded, whatever arrives: it never
    holds more than 262144 samples and those received since the last attempt,
    fewer than 16384. And it forgets nothing it might need: it is the end of
    what was received since the last payload, all of it or at least the last
    131072 samples. Only a synchroniser that does not end, or leaves its
    range, can stop the thread. *)
Theorem rx_buffer_bounded fuel batches d :
  Codec.decoder_ok d ->
  match rx_rounds fuel batches (rx_start d) with
  | Ok (_, r) =>
      zlen (rx_buffer r) < 262144 + 16384 /\
      exists old, history fuel batches (rx_start d) [] = old ++ rx_buffer r /\ (old = [] \/ 131072 <= zlen (rx_buffer r))
  | Err e => exists d' buffer, Codec.synchroniser_fails fuel d' buffer e
  end.
Proof.
  intros Hd. assert (buffer_inv [] (rx_start d)) as H0 by (split; [done|]; split; [done|]; exists []; split; [done|by left]).
  pose proof (rx_rounds_inv fuel batches (rx_start d) [] Hd H0) as Hinv.
  destruct (rx_rounds fuel batches (rx_start d)) as [[ps r]|e]; [|exact Hinv]. destruct Hinv as (Hl & Hs & Hold).
  unfold MAX_BUFFER_SIZE, MIN_DECODE_SAMPLES in *. change (262144 / 2) with 131072 in Hold. split; [lia|exact Hold].
Qed.
End receiver.

#[local] Existing Instance Codec.taylor_libm.

Lemma rx_buffer_bounded_witness :
  zlen [czero; czero] < 262144 + 16384 /\
  exists old, history 10 [[czero]; [czero]] (rx_start Codec.sample_decoder) [] = old ++ [czero; czero] /\ (old = [] \/ 131072 <= zlen [czero; czero]).
Proof.
  assert (Codec.decoder_ok Codec.sample_decoder) as Hd by (split; [by exists 5|reflexivity]).
  exact (rx_buffer_bounded 10 [[czero]; [czero]] Codec.sample_decoder Hd).
Defined.
End Receiver.
