(* ===== verification/QpskConfig.v ===== *)
(** * The modem's configuration (include/qpsk_b200/types.h, src/config.cpp,
    [parse_args] of src/main.cpp)

    The settings, their validation, the JSON file and the command line. The
    JSON library is the interface of [Json]; [std::stod] and the characters of
    the configuration file are arguments. *)
From S2P Require Import Prelude Float Text Json.
Import Float Text Json.

Module QpskConfig.

(** [fec_code_rate] is the enumeration's underlying value. *)
Record Config := MkConfig {
  center_freq : double; tx_freq : double; rx_freq : double; sample_rate : double; tx_gain : double; rx_gain : double;
  tx_antenna : string; rx_antenna : string;
  samples_per_symbol : Z; rrc_rolloff : double; rrc_span_symbols : Z; preamble : list Z;
  acquisition_symbols : Z; ramp_symbols : Z;
  tcp_input_addr : string; tcp_input_port : Z; tcp_output_addr : string; tcp_output_port : Z;
  use_udp : bool; udp_input_addr : string; udp_input_port : Z; udp_output_addr : string; udp_output_port : Z;
  fec_enabled : bool; fec_code_rate : Z; device_serial : string }.

(** 0.35 is 6305039478318694 * 2^-54. *)
Definition defaults : Config :=
  MkConfig (double_of_Z 2400000000) (S754_zero false) (S754_zero false) (double_of_Z 1000000) (double_of_Z 40) (double_of_Z 40)
    "TX/RX" "RX2" 4 (S754_finite false 6305039478318694 (-54)) 6 [1; 1; 1; 1; 1; 0; 0; 1; 1; 0; 1; 0; 1] 128 8
    "127.0.0.1" 5000 "127.0.0.1" 5001 false "127.0.0.1" 1113 "127.0.0.1" 1114 true 0 EmptyString.

Definition effective_tx_freq (c : Config) : double := if SFltb (S754_zero false) (tx_freq c) then tx_freq c else center_freq c.
Definition effective_rx_freq (c : Config) : double := if SFltb (S754_zero false) (rx_freq c) then rx_freq c else center_freq c.

(** ** Validation *)

(** [static_cast<long long>(x)] *)
Definition long_long (x : double) : outcome Z := cast (- 2 ^ 63) (2 ^ 63) x.

(** 89.75 is 359 * 2^-2. *)
Definition max_tx_gain : double := binary_normalize 53 1024 359 (-2) false.

(** The parameter the exception's message names, or [None]. *)
Definition validate (c : Config) : outcome (option string) :=
  if dlt (center_freq c) (double_of_Z 70000000) || dlt (double_of_Z 6000000000) (center_freq c)
    then _ ← long_long (center_freq c); Ok (Some "center_freq"%string)
  else if dle (sample_rate c) (S754_zero false) || dlt (double_of_Z 56000000) (sample_rate c) then Ok (Some "sample_rate"%string)
  else if dlt (tx_gain c) (S754_zero false) || dlt max_tx_gain (tx_gain c) then Ok (Some "tx_gain"%string)
  else if dlt (rx_gain c) (S754_zero false) || dlt (double_of_Z 76) (rx_gain c) then Ok (Some "rx_gain"%string)
  else if samples_per_symbol c <? 2 then Ok (Some "samples_per_symbol"%string)
  else if dle (rrc_rolloff c) (S754_zero false) || dlt (double_of_Z 1) (rrc_rolloff c) then Ok (Some "rrc_rolloff"%string)
  else if rrc_span_symbols c <? 1 then Ok (Some "rrc_span_symbols"%string)
  else if negb (fec_code_rate c =? 0) && negb (fec_code_rate c =? 1) then Ok (Some "fec_code_rate"%string)
  else if tcp_input_port c =? 0 then Ok (Some "tcp_input_port"%string)
  else if tcp_output_port c =? 0 then Ok (Some "tcp_output_port"%string)
  else if bool_decide (preamble c = []) then Ok (Some "preamble"%string)
  else if acquisition_symbols c <? 0 then Ok (Some "acquisition_symbols"%string)
  else if ramp_symbols c <? 0 then Ok (Some "ramp_symbols"%string)
  else Ok None.

Definition invalid {A} : outcome A := Err (Throw InvalidArgument).

(** The call [validate()]. *)
Definition check (c : Config) : outcome () :=
  r ← validate c;
  match r with None => Ok tt | Some _ => invalid end.

(** A NaN fails no comparison; a frequency out of range is cast to an integer
    for the message; and the transmit frequency in use is not looked at. *)
Example nan_passes :
  let set f c := MkConfig f (tx_freq c) (rx_freq c) (sample_rate c) f (rx_gain c) (tx_antenna c) (rx_antenna c) (samples_per_symbol c)
    f (rrc_span_symbols c) (preamble c) (acquisition_symbols c) (ramp_symbols c) (tcp_input_addr c) (tcp_input_port c) (tcp_output_addr c)
    (tcp_output_port c) (use_udp c) (udp_input_addr c) (udp_input_port c) (udp_output_addr c) (udp_output_port c) (fec_enabled c)
    (fec_code_rate c) (device_serial c) in
  validate (set S754_nan defaults) = Ok None /\
  validate (set (double_of_Z (10 ^ 300)) defaults) = Err Undefined /\
  validate (set (double_of_Z 5) defaults) = Ok (Some "center_freq"%string).
Proof. vm_compute. by split_and!. Qed.

(** ** The JSON file *)

Definition code_rate_to_string (rate : Z) : outcome string :=
  if rate =? 0 then Ok "1/2"%string else if rate =? 1 then Ok "3/4"%string else invalid.

Definition string_to_code_rate (s : string) : outcome Z :=
  if decide (s = "1/2"%string) then Ok 0 else if decide (s = "3/4"%string) then Ok 1 else invalid.

Section file.
Context `{JsonLaws}.

Definition to_document (c : Config) : outcome json :=
  rate ← code_rate_to_string (fec_code_rate c);
  let j := assign null "center_freq" (of_double (center_freq c)) in
  let j := assign j "sample_rate" (of_double (sample_rate c)) in
  let j := assign j "tx_gain" (of_double (tx_gain c)) in
  let j := assign j "rx_gain" (of_double (rx_gain c)) in
  let j := assign j "tx_antenna" (of_string (tx_antenna c)) in
  let j := assign j "rx_antenna" (of_string (rx_antenna c)) in
  let j := assign j "samples_per_symbol" (of_int (samples_per_symbol c)) in
  let j := assign j "rrc_rolloff" (of_double (rrc_rolloff c)) in
  let j := assign j "rrc_span_symbols" (of_int (rrc_span_symbols c)) in
  let j := assign j "preamble" (of_bytes (preamble c)) in
  let j := assign j "tcp_input_addr" (of_string (tcp_input_addr c)) in
  let j := assign j "tcp_input_port" (of_uint (tcp_input_port c)) in
  let j := assign j "tcp_output_addr" (of_string (tcp_output_addr c)) in
  let j := assign j "tcp_output_port" (of_uint (tcp_output_port c)) in
  let j := assign j "fec_enabled" (of_bool (fec_enabled c)) in
  let j := assign j "fec_code_rate" (of_string rate) in
  let j := assign j "acquisition_symbols" (of_int (acquisition_symbols c)) in
  Ok (assign j "ramp_symbols" (of_int (ramp_symbols c))).

(** What is written to the file, whose opening and writing succeed. *)
Definition to_json (c : Config) : outcome text := j ← to_document c; dump j.

(** [require_field], [check_type] and the conversion of one member. *)
Definition required {A} (j : json) (field : string) (predicate : json -> bool) (get : json -> outcome A) : outcome A :=
  match member j field with
  | None => invalid
  | Some v => if predicate v then get v else invalid
  end.

Definition optional {A} (j : json) (field : string) (predicate : json -> bool) (get : json -> outcome A) (default : A) : outcome A :=
  match member j field with
  | None => Ok default
  | Some v => if predicate v then get v else invalid
  end.

Definition from_document (j : json) : outcome Config :=
  if negb (is_object j) then invalid else
  let cfg := defaults in
  center_freq ← required j "center_freq" is_number get_double;
  sample_rate ← required j "sample_rate" is_number get_double;
  tx_gain ← required j "tx_gain" is_number get_double;
  rx_gain ← required j "rx_gain" is_number get_double;
  tx_antenna ← required j "tx_antenna" is_string get_string;
  rx_antenna ← required j "rx_antenna" is_string get_string;
  samples_per_symbol ← required j "samples_per_symbol" is_number_integer get_int;
  rrc_rolloff ← required j "rrc_rolloff" is_number get_double;
  rrc_span_symbols ← required j "rrc_span_symbols" is_number_integer get_int;
  preamble ← required j "preamble" is_array get_bytes;
  tcp_input_addr ← required j "tcp_input_addr" is_string get_string;
  tcp_input_port ← required j "tcp_input_port" is_number_integer (get_uint 16);
  tcp_output_addr ← required j "tcp_output_addr" is_string get_string;
  tcp_output_port ← required j "tcp_output_port" is_number_integer (get_uint 16);
  fec_enabled ← required j "fec_enabled" is_boolean get_bool;
  rate ← required j "fec_code_rate" is_string get_string;
  fec_code_rate ← string_to_code_rate rate;
  acquisition_symbols ← optional j "acquisition_symbols" is_number_integer get_int (acquisition_symbols cfg);
  ramp_symbols ← optional j "ramp_symbols" is_number_integer get_int (ramp_symbols cfg);
  let cfg := MkConfig center_freq (tx_freq cfg) (rx_freq cfg) sample_rate tx_gain rx_gain tx_antenna rx_antenna
    samples_per_symbol rrc_rolloff rrc_span_symbols preamble acquisition_symbols ramp_symbols
    tcp_input_addr tcp_input_port tcp_output_addr tcp_output_port
    (use_udp cfg) (udp_input_addr cfg) (udp_input_port cfg) (udp_output_addr cfg) (udp_output_port cfg)
    fec_enabled fec_code_rate (device_serial cfg) in
  _ ← check cfg;
  Ok cfg.

(** [file] is [None] when the file cannot be opened. *)
Definition from_json (file : option text) : outcome Config :=
  match file with
  | None => invalid
  | Some t => match extract t with None => invalid | Some j => from_document j end
  end.
End file.

(** ** The command line *)

Inductive AppMode := TX_ONLY | RX_ONLY | TX_RX.

Record AppOptions := MkOptions { config : Config; mode : AppMode }.

Section arguments.
(** [std::stod], and the file a path leads to. *)
Context `{JsonLaws} (stod : string -> outcome double) (files : string -> option text).

(** The chain of comparisons for an option and its value; [inr] is
    [std::exit] with a code. *)
Definition set_option (arg val : string) (opts : AppOptions) : outcome (AppOptions + Z) :=
  let '(MkOptions c m) := opts in
  let '(MkConfig cf tf rf sr tg rg ta ra sps ro sp pre acq ramp tia tip toa top udp uia uip uoa uop fec rate ser) := c in
  let ok c := Ok (inl (MkOptions c m)) in
  if decide (arg = "--config")%string then c ← from_json (files val); ok c
  else if decide (arg = "--mode")%string then
    if decide (val = "tx")%string then Ok (inl (MkOptions c TX_ONLY))
    else if decide (val = "rx")%string then Ok (inl (MkOptions c RX_ONLY))
    else if decide (val = "txrx")%string then Ok (inl (MkOptions c TX_RX))
    else Ok (inr 1)
  else if decide (arg = "--serial")%string then ok (MkConfig cf tf rf sr tg rg ta ra sps ro sp pre acq ramp tia tip toa top udp uia uip uoa uop fec rate val)
  else if decide (arg = "--center-freq")%string then v ← stod val; ok (MkConfig v tf rf sr tg rg ta ra sps ro sp pre acq ramp tia tip toa top udp uia uip uoa uop fec rate ser)
  else if decide (arg = "--tx-freq")%string then v ← stod val; ok (MkConfig cf v rf sr tg rg ta ra sps ro sp pre acq ramp tia tip toa top udp uia uip uoa uop fec rate ser)
  else if decide (arg = "--rx-freq")%string then v ← stod val; ok (MkConfig cf tf v sr tg rg ta ra sps ro sp pre acq ramp tia tip toa top udp uia uip uoa uop fec rate ser)
  else if decide (arg = "--sample-rate")%string then v ← stod val; ok (MkConfig cf tf rf v tg rg ta ra sps ro sp pre acq ramp tia tip toa top udp uia uip uoa uop fec rate ser)
  else if decide (arg = "--tx-gain")%string then v ← stod val; ok (MkConfig cf tf rf sr v rg ta ra sps ro sp pre acq ramp tia tip toa top udp uia uip uoa uop fec rate ser)
  else if decide (arg = "--rx-gain")%string then v ← stod val; ok (MkConfig cf tf rf sr tg v ta ra sps ro sp pre acq ramp tia tip toa top udp uia uip uoa uop fec rate ser)
  else if decide (arg = "--tx-antenna")%string then ok (MkConfig cf tf rf sr tg rg val ra sps ro sp pre acq ramp tia tip toa top udp uia uip uoa uop fec rate ser)
  else if decide (arg = "--rx-antenna")%string then ok (MkConfig cf tf rf sr tg rg ta val sps ro sp pre acq ramp tia tip toa top udp uia uip uoa uop fec rate ser)
  else if decide (arg = "--sps")%string then v ← stoi val; ok (MkConfig cf tf rf sr tg rg ta ra v ro sp pre acq ramp tia tip toa top udp uia uip uoa uop fec rate ser)
  else if decide (arg = "--rrc-rolloff")%string then v ← stod val; ok (MkConfig cf tf rf sr tg rg ta ra sps v sp pre acq ramp tia tip toa top udp uia uip uoa uop fec rate ser)
  else if decide (arg = "--tcp-input-addr")%string then ok (MkConfig cf tf rf sr tg rg ta ra sps ro sp pre acq ramp val tip toa top udp uia uip uoa uop fec rate ser)
  else if decide (arg = "--tcp-input-port")%string then v ← stoi val; ok (MkConfig cf tf rf sr tg rg ta ra sps ro sp pre acq ramp tia (u16 v) toa top udp uia uip uoa uop fec rate ser)
  else if decide (arg = "--tcp-output-addr")%string then ok (MkConfig cf tf rf sr tg rg ta ra sps ro sp pre acq ramp tia tip val top udp uia uip uoa uop fec rate ser)
  else if decide (arg = "--tcp-output-port")%string then v ← stoi val; ok (MkConfig cf tf rf sr tg rg ta ra sps ro sp pre acq ramp tia tip toa (u16 v) udp uia uip uoa uop fec rate ser)
  else if decide (arg = "--fec-enabled")%string then ok (MkConfig cf tf rf sr tg rg ta ra sps ro sp pre acq ramp tia tip toa top udp uia uip uoa uop (bool_decide (val = "1" \/ val = "true")%string) rate ser)
  else if decide (arg = "--fec-code-rate")%string then
    if decide (val = "1/2")%string then ok (MkConfig cf tf rf sr tg rg ta ra sps ro sp pre acq ramp tia tip toa top udp uia uip uoa uop fec 0 ser)
    else if decide (val = "3/4")%string then ok (MkConfig cf tf rf sr tg rg ta ra sps ro sp pre acq ramp tia tip toa top udp uia uip uoa uop fec 1 ser)
    else Ok (inr 1)
  else if decide (arg = "--udp-input-addr")%string then ok (MkConfig cf tf rf sr tg rg ta ra sps ro sp pre acq ramp tia tip toa top udp val uip uoa uop fec rate ser)
  else if decide (arg = "--udp-input-port")%string then v ← stoi val; ok (MkConfig cf tf rf sr tg rg ta ra sps ro sp pre acq ramp tia tip toa top udp uia (u16 v) uoa uop fec rate ser)
  else if decide (arg = "--udp-output-addr")%string then ok (MkConfig cf tf rf sr tg rg ta ra sps ro sp pre acq ramp tia tip toa top udp uia uip val uop fec rate ser)
  else if decide (arg = "--udp-output-port")%string then v ← stoi val; ok (MkConfig cf tf rf sr tg rg ta ra sps ro sp pre acq ramp tia tip toa top udp uia uip uoa (u16 v) fec rate ser)
  else if decide (arg = "--acquisition-symbols")%string then v ← stoi val; ok (MkConfig cf tf rf sr tg rg ta ra sps ro sp pre v ramp tia tip toa top udp uia uip uoa uop fec rate ser)
  else if decide (arg = "--ramp-symbols")%string then v ← stoi val; ok (MkConfig cf tf rf sr tg rg ta ra sps ro sp pre acq v tia tip toa top udp uia uip uoa uop fec rate ser)
  else Ok (inr 1).

Definition set_udp (opts : AppOptions) : AppOptions :=
  let '(MkOptions (MkConfig cf tf rf sr tg rg ta ra sps ro sp pre acq ramp tia tip toa top udp uia uip uoa uop fec rate ser) m) := opts in
  MkOptions (MkConfig cf tf rf sr tg rg ta ra sps ro sp pre acq ramp tia tip toa top true uia uip uoa uop fec rate ser) m.

Fixpoint parse_loop (args : list string) (opts : AppOptions) : outcome (AppOptions + Z) :=
  match args with
  | [] => Ok (inl opts)
  | arg :: args' =>
      if decide (arg = "--help" \/ arg = "-h")%string then Ok (inr 0)
      else if decide (arg = "--udp")%string then parse_loop args' (set_udp opts)
      else match args' with
           | [] => Ok (inr 1)
           | val :: args'' =>
               r ← set_option arg val opts;
               match r with inl opts => parse_loop args'' opts | inr code => Ok (inr code) end
           end
  end.

Definition parse_args (args : list string) : outcome (AppOptions + Z) :=
  r ← parse_loop args (MkOptions defaults TX_RX);
  match r with
  | inl opts => _ ← check (config opts); Ok (inl opts)
  | inr code => Ok (inr code)
  end.
End arguments.

(** ** What validation accepts *)

(** The values of the fields' types. *)
Record typed (c : Config) : Prop := {
  t_doubles : Forall valid64 [center_freq c; tx_freq c; rx_freq c; sample_rate c; tx_gain c; rx_gain c; rrc_rolloff c];
  t_ints : Forall (fun x => - 2 ^ 31 <= x < 2 ^ 31) [samples_per_symbol c; rrc_span_symbols c; acquisition_symbols c; ramp_symbols c];
  t_ports : Forall (fun x => 0 <= x < 2 ^ 16) [tcp_input_port c; tcp_output_port c; udp_input_port c; udp_output_port c];
  t_preamble : bytes (preamble c) }.

(** [x] is a number from [lo] to [hi], in units of 2^-1074, or a NaN. *)
Definition within (lo hi : Z) (x : double) : Prop := x = S754_nan \/ real x /\ lo <= scaled x <= hi.

Record in_range (c : Config) : Prop := {
  r_center : within (units 70000000) (units 6000000000) (center_freq c);
  r_rate : within 1 (units 56000000) (sample_rate c);
  r_tx : within 0 (units 359 / 4) (tx_gain c);
  r_rx : within 0 (units 76) (rx_gain c);
  r_rolloff : within 1 (units 1) (rrc_rolloff c);
  r_sps : 2 <= samples_per_symbol c; r_span : 1 <= rrc_span_symbols c;
  r_code : fec_code_rate c = 0 \/ fec_code_rate c = 1;
  r_in : tcp_input_port c <> 0; r_out : tcp_output_port c <> 0; r_preamble : preamble c <> [];
  r_acq : 0 <= acquisition_symbols c; r_ramp : 0 <= ramp_symbols c }.

(** The two forms of a range test. *)
Lemma closed_range lo hi x :
  valid64 x -> real lo -> real hi -> dlt x lo || dlt hi x = false <-> within (scaled lo) (scaled hi) x.
Proof.
  intros Vx Hlo Hhi. unfold within, dlt. assert (x = S754_nan \/ (exists s, x = S754_infinity s) \/ real x) as [->|[[s ->]|Hx]].
  { unfold real. destruct x; eauto 10. }
  - destruct Hlo as [_ Hlo], Hhi as [_ Hhi]. destruct lo, hi; try done; split; (done || by left).
  - destruct Hlo as [_ Hlo], Hhi as [_ Hhi]. split; [|intros [|[[_ []] _]]; done]. destruct s, lo, hi; try done.
  - rewrite !ltb_scaled by done. split; [intros H; right; split; [done|lia]|]. intros [->|[_ H]]; [by destruct Hx as [_ []]|]. lia.
Qed.

Lemma open_range hi x :
  valid64 x -> real hi -> dle x (S754_zero false) || dlt hi x = false <-> within 1 (scaled hi) x.
Proof.
  intros Vx Hhi. unfold within, dlt, dle. assert (x = S754_nan \/ (exists s, x = S754_infinity s) \/ real x) as [->|[[s ->]|Hx]].
  { unfold real. destruct x; eauto 10. }
  - destruct Hhi as [_ Hhi]. destruct hi; try done; split; (done || by left).
  - destruct Hhi as [_ Hhi]. split; [|intros [|[[_ []] _]]; done]. destruct s, hi; done.
  - rewrite ltb_scaled, leb_scaled by done. change (scaled (S754_zero false)) with 0.
    split; [intros H; right; split; [done|lia]|]. intros [->|[_ H]]; [by destruct Hx as [_ []]|]. lia.
Qed.

Lemma check_none (b : bool) (rest : outcome (option string)) s :
  (if b then Ok (Some s) else rest) = Ok None <-> b = false /\ rest = Ok None.
Proof. destruct b; [split; [done|by intros []]|split; [done|by intros []]]. Qed.

Lemma check_none_cast (b : bool) (x : double) (rest : outcome (option string)) s :
  (if b then _ ← long_long x; Ok (Some s) else rest) = Ok None <-> b = false /\ rest = Ok None.
Proof. destruct b; [|split; [done|by intros []]]. split; [|by intros []]. by destruct (long_long x). Qed.

(** What each test of [validate] leaves. *)
Lemma validate_ranges c : typed c -> validate c = Ok None <-> in_range c.
Proof.
  intros [Hd Hi Hp Hb]. repeat (apply Forall_cons in Hd as [? Hd]).
  unfold validate. rewrite check_none_cast, !check_none.
  rewrite (closed_range (double_of_Z 70000000) (double_of_Z 6000000000)), (open_range (double_of_Z 56000000)),
    (closed_range (S754_zero false) max_tx_gain), (closed_range (S754_zero false) (double_of_Z 76)), (open_range (double_of_Z 1))
    by (done || (split; [vm_compute; reflexivity|exact I])).
  change (scaled (double_of_Z 70000000)) with (units 70000000). change (scaled (double_of_Z 6000000000)) with (units 6000000000).
  change (scaled (double_of_Z 56000000)) with (units 56000000). change (scaled max_tx_gain) with (units 359 / 4).
  change (scaled (double_of_Z 76)) with (units 76). change (scaled (double_of_Z 1)) with (units 1).
  change (scaled (S754_zero false)) with 0. rewrite bool_decide_eq_false.
  split.
  - intros (?&?&?&?&?&?&?&?&?&?&?&?&?&_). constructor; try done; lia.
  - intros []. split_and!; try done; lia.
Qed.

(** The gain and the roll-off of a configuration. *)
Definition shaped (gain rolloff : double) (c : Config) : Config :=
  MkConfig (center_freq c) (tx_freq c) (rx_freq c) (sample_rate c) gain (rx_gain c) (tx_antenna c) (rx_antenna c) (samples_per_symbol c)
    rolloff (rrc_span_symbols c) (preamble c) (acquisition_symbols c) (ramp_symbols c) (tcp_input_addr c) (tcp_input_port c) (tcp_output_addr c)
    (tcp_output_port c) (use_udp c) (udp_input_addr c) (udp_input_port c) (udp_output_addr c) (udp_output_port c) (fec_enabled c)
    (fec_code_rate c) (device_serial c).

(** A transmit gain of 89.5 dB is accepted (docs/ARCHITECTURE.md ends the range
    at 89), and a roll-off of 0 is not (README.md begins it there). *)
Example ranges_of_the_docs :
  validate (shaped (ddiv (double_of_Z 179) (double_of_Z 2)) (rrc_rolloff defaults) defaults) = Ok None /\
  validate (shaped (tx_gain defaults) (S754_zero false) defaults) = Ok (Some "rrc_rolloff"%string).
Proof. vm_compute. by split. Qed.

(** [C37] Validation accepts exactly the configurations whose settings lie in
    the ranges its own messages state: 70 MHz to 6 GHz, a rate above 0 and up
    to 56 MHz, gains from 0 to 89.75 and to 76 dB, a roll-off above 0 and up to
    1, and so on, the frequencies, rates and gains compared as numbers; except
    that a NaN is accepted for any of these. (Two documents give other ranges:
    [ranges_of_the_docs].) *)
Theorem validate_exact c : typed c -> validate c = Ok None <-> in_range c.
Proof. apply validate_ranges. Qed.

Lemma defaults_in_range : typed defaults.
Proof.
  constructor; [| | |exact (bool_decide_unpack (bytes (preamble defaults)) (dec := Forall_dec _ _) I)];
    repeat (apply Forall_cons_2; [vm_compute; (reflexivity || by split)|]); apply Forall_nil_2.
Qed.

Lemma validate_exact_witness : validate defaults = Ok None <-> in_range defaults.
Proof. apply (validate_exact defaults defaults_in_range). Defined.

(** ** The file *)

(** The settings the file has no member for. *)
Definition unsaved (c : Config) : Config :=
  MkConfig (center_freq c) (tx_freq defaults) (rx_freq defaults) (sample_rate c) (tx_gain c) (rx_gain c) (tx_antenna c) (rx_antenna c)
    (samples_per_symbol c) (rrc_rolloff c) (rrc_span_symbols c) (preamble c) (acquisition_symbols c) (ramp_symbols c)
    (tcp_input_addr c) (tcp_input_port c) (tcp_output_addr c) (tcp_output_port c) (use_udp defaults) (udp_input_addr defaults)
    (udp_input_port defaults) (udp_output_addr defaults) (udp_output_port defaults) (fec_enabled c) (fec_code_rate c) (device_serial defaults).

Lemma validate_unsaved c : validate (unsaved c) = validate c.
Proof. done. Qed.

Lemma check_valid c : check c = Ok tt <-> validate c = Ok None.
Proof. unfold check. destruct (validate c) as [[s|]|]; by split. Qed.

Section roundtrip.
Context `{JsonLaws}.

(** The strings and doubles a document can hold. *)
Record storable (c : Config) : Prop := {
  s_strings : Forall utf8 [tx_antenna c; rx_antenna c; tcp_input_addr c; tcp_output_addr c];
  s_doubles : Forall (fun x => finite x = true) [center_freq c; sample_rate c; tx_gain c; rx_gain c; rrc_rolloff c] }.

Lemma rate_roundtrip r s : code_rate_to_string r = Ok s -> string_to_code_rate s = Ok r /\ is_ascii s = true.
Proof.
  unfold code_rate_to_string. destruct (Z.eqb_spec r 0) as [->|]; [intros E; by injection E as <-|].
  destruct (Z.eqb_spec r 1) as [->|]; [intros E; by injection E as <-|done].
Qed.

Ltac obj := solve [auto 40 with json].

(** The members of a document built by assignments, last to first. *)
Ltac find_member :=
  repeat first [rewrite member_assign by obj | rewrite member_assign_ne by (discriminate || obj)].

Lemma required_number {A} j k v (pred : json -> bool) (get : json -> outcome A) a :
  member j k = Some v -> pred v = true -> get v = Ok a -> required j k pred get = Ok a.
Proof. intros E Hp Hg. unfold required. by rewrite E, Hp. Qed.

Lemma optional_number {A} j k v (pred : json -> bool) (get : json -> outcome A) d a :
  member j k = Some v -> pred v = true -> get v = Ok a -> optional j k pred get d = Ok a.
Proof. intros E Hp Hg. unfold optional. by rewrite E, Hp. Qed.

Lemma settings_roundtrip c j :
  typed c -> validate c = Ok None -> to_document c = Ok j -> from_document j = Ok (unsaved c).
Proof.
  intros [Hd Hi Hp Hb] Hv Hj. unfold to_document in Hj. destruct (code_rate_to_string (fec_code_rate c)) as [rate|] eqn:Er; [|done].
  cbn [mbind outcome_bind] in Hj. injection Hj as <-. apply rate_roundtrip in Er as [Er _].
  repeat (apply Forall_cons in Hi as [? Hi]). repeat (apply Forall_cons in Hp as [? Hp]).
  unfold from_document. rewrite assign_object by obj. cbn [negb].
  do 16 (erewrite required_number by
    (first [find_member; reflexivity | apply number_double | apply number_int | apply number_uint | apply string_string
           | apply boolean_bool | apply array_bytes | apply get_of_double | apply get_of_int | apply get_of_uint | apply get_of_string
           | apply get_of_bool | by apply get_of_bytes]); cbn [mbind outcome_bind]).
  rewrite Er. cbn [mbind outcome_bind].
  do 2 (erewrite optional_number by (first [find_member; reflexivity | apply number_int | apply get_of_int]); cbn [mbind outcome_bind]).
  rewrite !i32_small, !Z.mod_small by lia.
  change (MkConfig _ _ _ _ _ _ _ _ _ _ _ _ _ _ _ _ _ _ _ _ _ _ _ _ _ _) with (unsaved c).
  assert (check (unsaved c) = Ok tt) as -> by (by apply check_valid). done.
Qed.

Lemma settings_printable c j : typed c -> storable c -> to_document c = Ok j -> printable j.
Proof.
  intros [Hd Hi Hp Hb] [Hs Hf] Hj. unfold to_document in Hj. destruct (code_rate_to_string (fec_code_rate c)) as [rate|] eqn:Er; [|done].
  cbn [mbind outcome_bind] in Hj. injection Hj as <-. apply rate_roundtrip in Er as [_ Er].
  repeat (apply Forall_cons in Hi as [? Hi]). repeat (apply Forall_cons in Hp as [? Hp]).
  repeat (apply Forall_cons in Hs as [? Hs]). repeat (apply Forall_cons in Hf as [? Hf]).
  repeat (apply printable_assign_ascii; [|obj|reflexivity|
    first [apply printable_double; assumption | apply printable_string; first [assumption | by apply utf8_ascii]
          | apply printable_int; lia | apply printable_uint; lia | apply printable_bool | by apply printable_bytes]]).
  apply printable_null.
Qed.

(** [C38] A valid configuration that JSON can hold, whose numbers are finite and
    whose strings are UTF-8, is read back from the JSON file it is written to,
    except that the separate transmit and receive frequencies, the UDP
    settings and the device's serial number, which the file has no member
    for, come back as the defaults. (One that is valid with a NaN is written,
    but not read back: [nan_not_read].) *)
Theorem config_file_roundtrip c :
  typed c -> storable c -> validate c = Ok None ->
  exists t, to_json c = Ok t /\ from_json (Some t) = Ok (unsaved c).
Proof.
  intros Ht Hs Hv. destruct (to_document c) as [j|e] eqn:Ej.
  - destruct (parse_dump j (settings_printable c j Ht Hs Ej)) as (t & Ed & _ & Ep). exists t. unfold to_json, from_json.
    rewrite Ej, Ep. split; [exact Ed|]. by apply settings_roundtrip.
  - exfalso. apply validate_ranges in Hv; [|done]. unfold to_document, code_rate_to_string in Ej.
    destruct (r_code c Hv) as [E|E]; rewrite E in Ej; discriminate.
Qed.
End roundtrip.

(** A gain that is not a number passes validation and is written as null,
    which is not a number to the reader. *)
Example nan_not_read :
  let c := shaped S754_nan (rrc_rolloff defaults) defaults in
  validate c = Ok None /\ (t ← to_json c; from_json (Some t)) = Err (Throw InvalidArgument).
Proof. vm_compute. by split. Qed.

Lemma config_file_roundtrip_witness : exists t, to_json defaults = Ok t /\ from_json (Some t) = Ok (unsaved defaults).
Proof.
  apply (config_file_roundtrip defaults defaults_in_range).
  - constructor; repeat (apply Forall_cons_2; [vm_compute; (reflexivity || exact I)|]); apply Forall_nil_2.
  - vm_compute. reflexivity.
Defined.

(** ** The command line *)

Section startup.
Context `{JsonLaws} (stod : string -> outcome double) (files : string -> option text).

Lemma parse_args_valid args opts :
  parse_args stod files args = Ok (inl opts) -> validate (config opts) = Ok None.
Proof.
  unfold parse_args. destruct (parse_loop stod files args _) as [[o|z]|]; cbn [mbind outcome_bind]; [|done|done].
  destruct (check (config o)) as [[]|] eqn:E; [|done]. cbn [mbind outcome_bind]. intros [= <-]. by apply check_valid.
Qed.

Lemma parse_step arg val args o r o' :
  bool_decide (arg ∈ ["--help"; "-h"; "--udp"]%string) = false -> set_option stod files arg val o = Ok (inl o') ->
  parse_loop stod files args o' = r -> parse_loop stod files (arg :: val :: args) o = r.
Proof.
  intros Hn Hs Hr. apply bool_decide_eq_false in Hn. cbn [parse_loop].
  rewrite !decide_False by set_solver. rewrite Hs. exact Hr.
Qed.

(** [std::stod] reads back a finite double that is written with enough
    digits, as [double_text] does. *)
Context (double_text : double -> string).
Context (stod_text : forall x, finite x = true -> stod (double_text x) = Ok x).

Definition mode_text (m : AppMode) : string := match m with TX_ONLY => "tx" | RX_ONLY => "rx" | TX_RX => "txrx" end.

(** Every option with its value; the two settings without an option are left
    out. *)
Definition to_args (opts : AppOptions) : list string :=
  let '(MkOptions (MkConfig cf tf rf sr tg rg ta ra sps ro _ _ acq ramp tia tip toa top udp uia uip uoa uop fec rate ser) m) := opts in
  ["--mode"; mode_text m; "--serial"; ser; "--center-freq"; double_text cf; "--tx-freq"; double_text tf; "--rx-freq"; double_text rf;
   "--sample-rate"; double_text sr; "--tx-gain"; double_text tg; "--rx-gain"; double_text rg; "--tx-antenna"; ta; "--rx-antenna"; ra;
   "--sps"; int_to_string sps; "--rrc-rolloff"; double_text ro; "--tcp-input-addr"; tia; "--tcp-input-port"; int_to_string tip;
   "--tcp-output-addr"; toa; "--tcp-output-port"; int_to_string top; "--fec-enabled"; if fec then "1" else "0";
   "--fec-code-rate"; if (rate =? 0)%Z then "1/2" else "3/4"; "--udp-input-addr"; uia; "--udp-input-port"; int_to_string uip;
   "--udp-output-addr"; uoa; "--udp-output-port"; int_to_string uop; "--acquisition-symbols"; int_to_string acq;
   "--ramp-symbols"; int_to_string ramp]%string ++ (if udp then ["--udp"%string] else []).

(** One option, its number by a hypothesis on [stod] or [stoi]. *)
Ltac option_step :=
  eapply parse_step; [reflexivity| |];
  [lazy -[stoi u16 bool_decide];
   repeat match goal with E : stoi ?v = Ok _ |- context [stoi ?v] => rewrite E
                    | E : stod ?v = Ok _ |- context [stod ?v] => rewrite E end; cbv beta iota; reflexivity|].

Lemma stoi_port n : 0 <= n < 2 ^ 16 -> stoi (int_to_string n) = Ok n.
Proof. intros. apply stoi_to_string. lia. Qed.

Lemma parse_loop_args c m :
  typed c -> in_range c ->
  Forall (fun x => finite x = true) [center_freq c; tx_freq c; rx_freq c; sample_rate c; tx_gain c; rx_gain c; rrc_rolloff c] ->
  rrc_span_symbols c = rrc_span_symbols defaults -> preamble c = preamble defaults ->
  parse_loop stod files (to_args (MkOptions c m)) (MkOptions defaults TX_RX) = Ok (inl (MkOptions c m)).
Proof.
  intros [Hd Hi Hp Hb] Hr Hf Hspan Hpre. pose proof (r_code c Hr) as Hrate. clear Hr Hd.
  destruct c as [cf tf rf sr tg rg ta ra sps ro sp pre acq ramp tia tip toa top udp uia uip uoa uop fec rate ser]. cbn -[Z.pow] in Hi, Hp, Hb, Hspan, Hpre, Hrate. cbn [center_freq tx_freq rx_freq sample_rate tx_gain rx_gain rrc_rolloff] in Hf. subst sp pre.
  rewrite !Forall_cons in Hi. rewrite !Forall_cons in Hp. rewrite !Forall_cons in Hf. destruct Hi as (I1 & _ & I2 & I3 & _), Hp as (P1 & P2 & P3 & P4 & _).
  destruct Hf as (F1 & F2 & F3 & F4 & F5 & F6 & F7 & _).
  apply stoi_to_string in I1 as E1, I2 as E6, I3 as E7. apply stoi_port in P1 as E2, P2 as E3, P3 as E4, P4 as E5.
  apply stod_text in F1, F2, F3, F4, F5, F6, F7. unfold to_args.
  repeat match goal with E : _ (int_to_string ?n) = _ |- _ => let v := fresh "v" in set (v := int_to_string n) in *; clearbody v
                    | E : _ (double_text ?n) = _ |- _ => let v := fresh "v" in set (v := double_text n) in *; clearbody v end.
  clear stod_text. cbn [app].
  apply (parse_step _ _ _ _ _ (MkOptions defaults m)); [reflexivity|by destruct m|].
  do 15 option_step.
  option_step. eapply (parse_step _ _ _ _ _ (MkOptions (MkConfig _ _ _ _ _ _ _ _ _ _ _ _ _ _ _ _ _ _ _ _ _ _ _ _ rate _) _));
    [reflexivity|destruct Hrate as [-> | ->]; reflexivity|].
  do 6 option_step. rewrite !u16_small by lia. by destruct udp, fec.
Qed.

(** The command line reaches the settings: the options written from valid
    settings, with finite numbers, set them all and the mode, through the
    standard library's parsing and the narrowing casts; only the filter span
    and the preamble have no option. *)
Theorem args_roundtrip c m :
  typed c -> validate c = Ok None ->
  Forall (fun x => finite x = true) [center_freq c; tx_freq c; rx_freq c; sample_rate c; tx_gain c; rx_gain c; rrc_rolloff c] ->
  rrc_span_symbols c = rrc_span_symbols defaults -> preamble c = preamble defaults ->
  parse_args stod files (to_args (MkOptions c m)) = Ok (inl (MkOptions c m)).
Proof.
  intros Ht Hv Hf Hs Hp. unfold parse_args. rewrite parse_loop_args; [|done|by apply validate_ranges|done..].
  cbn [mbind outcome_bind config]. assert (check c = Ok tt) as -> by (by apply check_valid). done.
Qed.
End startup.

(** A way of writing doubles, for the instance: sign, mantissa and exponent in
    binary digits. *)
Fixpoint digits (p : positive) (rest : string) : string :=
  match p with xH => String (Ascii.ascii_of_nat 46) rest | xO p => String (Ascii.ascii_of_nat 48) (digits p rest)
             | xI p => String (Ascii.ascii_of_nat 49) (digits p rest) end.

Fixpoint undigits (s : string) : option (positive * string) :=
  match s with
  | EmptyString => None
  | String c s' =>
      if code c =? 46 then Some (xH, s')
      else '(p, rest) ← undigits s'; Some (if code c =? 48 then xO p else xI p, rest)
  end.

Lemma undigits_digits p rest : undigits (digits p rest) = Some (p, rest).
Proof. revert rest. induction p as [p IH|p IH|]; intros rest; cbn [digits undigits]; [by rewrite IH|by rewrite IH|done]. Qed.

Definition sign_text (s : bool) (rest : string) : string := String (Ascii.ascii_of_nat (if s then 45 else 43)) rest.
Definition z_text (z : Z) : string :=
  match z with Z0 => "z" | Zpos p => sign_text false (digits p EmptyString) | Zneg p => sign_text true (digits p EmptyString) end.

Definition binary_text (x : double) : string :=
  match x with
  | S754_finite s m e => sign_text s (digits m (z_text e))
  | S754_zero s => sign_text s "z"
  | S754_infinity s => "inf" | S754_nan => "nan"
  end.

Definition z_of_text (s : string) : option Z :=
  match s with
  | String c s' =>
      if code c =? 122 then Some 0
      else '(p, _) ← undigits s'; Some (if code c =? 45 then Zneg p else Zpos p)
  | EmptyString => None
  end.

Definition binary_stod (s : string) : outcome double :=
  match s with
  | String c s' =>
      let sign := code c =? 45 in
      match undigits s' with
      | Some (m, e) => match z_of_text e with Some e => Ok (S754_finite sign m e) | None => invalid end
      | None => if decide (s' = "z"%string) then Ok (S754_zero sign) else invalid
      end
  | EmptyString => invalid
  end.

Lemma binary_roundtrip x : finite x = true -> binary_stod (binary_text x) = Ok x.
Proof.
  destruct x as [s|s| |s m e]; intros Hf; try done; [by destruct s|]. cbn [binary_text binary_stod sign_text]. rewrite undigits_digits.
  destruct s, e as [|p|p]; cbn [z_text z_of_text sign_text]; try done; by rewrite undigits_digits.
Qed.

Lemma args_roundtrip_witness :
  parse_args binary_stod (fun _ => None) (to_args binary_text (MkOptions defaults RX_ONLY)) = Ok (inl (MkOptions defaults RX_ONLY)).
Proof.
  apply (args_roundtrip binary_stod (fun _ => None) binary_text binary_roundtrip defaults RX_ONLY defaults_in_range).
  - vm_compute. reflexivity.
  - repeat (apply Forall_cons_2; [vm_compute; reflexivity|]). apply Forall_nil_2.
  - reflexivity.
  - reflexivity.
Defined.

(** A configuration file named after other options undoes them. *)
Example config_resets :
  match to_json defaults with
  | Ok t => parse_args binary_stod (fun _ => Some t) ["--sps"; "8"; "--udp"; "--config"; "f"]%string = Ok (inl (MkOptions defaults TX_RX))
  | Err _ => False
  end.
Proof. vm_compute. reflexivity. Qed.
End QpskConfig.
