(* ===== verification/Servers.v ===== *)
(** * The modem's TCP servers and the threads that serve them
    (src/tcp_input_server.cpp, src/tcp_output_server.cpp, src/main.cpp)

    [TcpInput] holds the input server, which cuts one client's byte stream into
    payloads, with the thread that empties it; [TcpOutput] the output server,
    which writes every payload to every client, with its thread. What [poll],
    [accept], [recv], [send] and the clock answer are arguments. *)
From S2P Require Import Prelude.

Module TcpInput.

(** A client's address is only logged. *)
Record TcpInputServer := MkInput {
  frame_size : nat; listening : bool; client_fd : option Z; client_bytes_received : Z; buffer : list Z }.

Definition set_client (fd : option Z) (s : TcpInputServer) : TcpInputServer :=
  MkInput (frame_size s) (listening s) fd 0 (buffer s).
Definition set_buffer (b : list Z) (s : TcpInputServer) : TcpInputServer :=
  MkInput (frame_size s) (listening s) (client_fd s) (client_bytes_received s) b.

(** What [poll] reports: an error, a timeout, or for the listening socket the
    descriptor that [accept] returns (if it succeeds) and for the client's
    whether it is readable; then [recv] on a descriptor gives bytes, none for
    a closed connection or an error. *)
Inductive poll_answer :=
  | PollError
  | PollTimeout
  | PollReady (accepted : option Z) (client_ready : bool) (recv : Z -> list Z).

Definition disconnect_client (s : TcpInputServer) : TcpInputServer :=
  match client_fd s with Some _ => set_client None s | None => s end.

(** The bytes read are returned next to the new state, with the descriptor
    they came from. *)
Definition poll_once (answer : poll_answer) (s : TcpInputServer) : list (Z * list Z) * TcpInputServer :=
  if negb (listening s) then ([], s) else
  match answer with
  | PollError | PollTimeout => ([], s)
  | PollReady accepted client_ready recv =>
      let had_client := bool_decide (is_Some (client_fd s)) in
      let s := match accepted with Some new_fd => set_client (Some new_fd) s | None => s end in
      if had_client && client_ready then
        match client_fd s with
        | None => ([], s)
        | Some fd =>
            match recv fd with
            | [] => ([], disconnect_client s)
            | tmp => ([(fd, tmp)], MkInput (frame_size s) (listening s) (client_fd s)
                                     (u64 (client_bytes_received s + zlen tmp)) (buffer s ++ tmp))
            end
        end
      else ([], s)
  end.

Definition has_frame (s : TcpInputServer) : bool := bool_decide (frame_size s <= length (buffer s))%nat.

Definition read_frame (s : TcpInputServer) : list Z * TcpInputServer :=
  if bool_decide (length (buffer s) < frame_size s)%nat then ([], s)
  else (take (frame_size s) (buffer s), set_buffer (drop (frame_size s) (buffer s)) s).

Definition flush (s : TcpInputServer) : list Z * TcpInputServer := (buffer s, set_buffer [] s).

Definition connected (s : TcpInputServer) : bool := bool_decide (is_Some (client_fd s)).
Definition buffered_bytes (s : TcpInputServer) : nat := length (buffer s).

Definition stop (s : TcpInputServer) : TcpInputServer :=
  let s := disconnect_client s in MkInput (frame_size s) false (client_fd s) (client_bytes_received s) [].

(** ** The input thread *)

(** The loop's variables; times are in nanoseconds. *)
Record InputThread := MkInputThread {
  server : TcpInputServer; was_connected : bool; last_data_time : Z; last_buffered : nat }.

(** The loop over complete frames: the frames taken. The fuel is more than
    the frames there can be. *)
Fixpoint frames_loop (fuel : nat) (s : TcpInputServer) : list (list Z) * TcpInputServer :=
  match fuel with
  | O => ([], s)
  | S fuel' =>
      if has_frame s then
        let '(frame_data, s) := read_frame s in
        match frame_data with
        | [] => ([], s)
        | _ => let '(frames, s) := frames_loop fuel' s in (frame_data :: frames, s)
        end
      else ([], s)
  end.

Definition flush_chunk (s : TcpInputServer) : list (list Z) * TcpInputServer :=
  let '(data, s) := flush s in (match data with [] => [] | _ => [data] end, s).

(** What one round of the loop is given: [poll]'s answer, the clock after the
    last complete frame, and the clock at the idle test. *)
Record round := MkRound { answer : poll_answer; frame_time : Z; idle_time : Z }.

(** One round: the bytes received, the payloads offered to the transmit queue,
    in order, and the thread's new state. *)
Definition input_round (r : round) (t : InputThread) : list (Z * list Z) * list (list Z) * InputThread :=
  let '(got, s) := poll_once (answer r) (server t) in
  let '(frames, s) := frames_loop (S (length (buffer s))) s in
  let last_data_time := match frames with [] => last_data_time t | _ => frame_time r end in
  let last_buffered := match frames with [] => last_buffered t | _ => 0%nat end in
  let '(leftover, s) := if was_connected t && negb (connected s) then flush_chunk s else ([], s) in
  let current_buffered := buffered_bytes s in
  let '(idle, s, last_data_time, last_buffered) :=
    if bool_decide (0 < current_buffered)%nat && bool_decide (current_buffered = last_buffered) then
      if 100 <? Z.quot (idle_time r - last_data_time) 1000000
      then let '(data, s) := flush_chunk s in (data, s, last_data_time, 0%nat)
      else ([], s, last_data_time, last_buffered)
    else if negb (bool_decide (current_buffered = last_buffered))
      then ([], s, idle_time r, current_buffered)
      else ([], s, last_data_time, last_buffered) in
  (got, frames ++ leftover ++ idle, MkInputThread s (connected s) last_data_time last_buffered).

Fixpoint input_rounds (rs : list round) (t : InputThread) : list (Z * list Z) * list (list Z) * InputThread :=
  match rs with
  | [] => ([], [], t)
  | r :: rs' =>
      let '(got, offered, t) := input_round r t in
      let '(got', offered', t) := input_rounds rs' t in
      (got ++ got', offered ++ offered', t)
  end.

Definition make_server (frame_size : nat) : TcpInputServer := MkInput frame_size true None 0 [].
Definition input_start (frame_size : nat) (now : Z) : InputThread := MkInputThread (make_server frame_size) false now 0.

(** A client that replaces another is read in the same round, without being
    polled, and its bytes join what the first one left. *)
Example clients_mixed :
  let ready fd bytes := MkRound (PollReady fd true (fun _ => bytes)) 0 0 in
  let '(got, offered, t) := input_rounds [ready (Some 5) []; ready None [1; 2]; ready (Some 6) [3; 4]] (input_start 4 0) in
  got = [(5, [1; 2]); (6, [3; 4])] /\ offered = [[1; 2; 3; 4]].
Proof. vm_compute. split; reflexivity. Qed.

(** ** The payloads *)

Lemma frames_loop_spec fuel : forall s frames s',
  (length (buffer s) < fuel)%nat -> frames_loop fuel s = (frames, s') ->
  buffer s = concat frames ++ buffer s' /\ Forall (fun f => f <> [] /\ length f = frame_size s) frames /\
  frame_size s' = frame_size s /\ client_fd s' = client_fd s /\
  ((0 < frame_size s)%nat -> (length (buffer s') < frame_size s)%nat).
Proof.
  induction fuel as [|fuel IH]; intros s frames s' Hf E; [lia|]. cbn [frames_loop] in E. unfold has_frame in E.
  case_bool_decide as Hh; [|injection E as <- <-; split_and!; [done|by apply Forall_nil_2|done|done|lia]].
  unfold read_frame in E. rewrite bool_decide_eq_false_2 in E by lia.
  assert (length (take (frame_size s) (buffer s)) = frame_size s) as Hlen by (rewrite length_take; lia).
  destruct (take (frame_size s) (buffer s)) as [|x xs] eqn:Ht.
  - cbn [length] in Hlen. injection E as <- <-. rewrite <- Hlen. cbn. split_and!; [done|by apply Forall_nil_2|done|done|lia].
  - destruct (frames_loop fuel _) as [frames' s''] eqn:El. injection E as <- <-. apply IH in El.
    2: { cbn [set_buffer buffer]. rewrite length_drop. cbn [length] in Hlen. lia. }
    cbn [set_buffer buffer frame_size client_fd] in El. destruct El as (Eb & Hfr & -> & -> & Hb). split_and!; [|by apply Forall_cons_2|done|done|done].
    cbn [concat]. rewrite <- app_assoc, <- Eb, <- Ht. by rewrite take_drop.
Qed.

Lemma poll_spec a s got s' :
  poll_once a s = (got, s') ->
  buffer s' = buffer s ++ concat (snd <$> got) /\ frame_size s' = frame_size s.
Proof.
  unfold poll_once. destruct (listening s); cbn [negb]; [|intros E; injection E as <- <-; by rewrite app_nil_r].
  destruct a as [| |[fd|] ready recv]; cbn [set_client client_fd]; try (intros E; injection E as <- <-; by rewrite app_nil_r).
  - destruct (_ && ready); [|intros E; injection E as <- <-; by rewrite app_nil_r].
    destruct (recv fd); intros E; injection E as <- <-; [by rewrite app_nil_r|]. cbn. by rewrite app_nil_r.
  - destruct (_ && ready); [|intros E; injection E as <- <-; by rewrite app_nil_r].
    destruct (client_fd s) as [fd|] eqn:Ec; [|intros E; injection E as <- <-; by rewrite app_nil_r].
    destruct (recv fd); intros E; injection E as <- <-.
    + unfold disconnect_client. rewrite Ec. cbn. by rewrite app_nil_r.
    + cbn. by rewrite app_nil_r.
Qed.

(** A payload the encoder is offered. *)
Definition payload_ok (size : nat) (chunk : list Z) : Prop := (0 < length chunk <= size)%nat.

Lemma flush_chunk_spec s chunks s' :
  flush_chunk s = (chunks, s') -> (length (buffer s) <= frame_size s)%nat ->
  buffer s = concat chunks /\ buffer s' = [] /\ Forall (payload_ok (frame_size s)) chunks /\
  frame_size s' = frame_size s /\ client_fd s' = client_fd s.
Proof.
  unfold flush_chunk, flush. intros E Hl. injection E as <- <-. cbn. destruct (buffer s) as [|x l] eqn:Eb; cbn [concat].
  - by split_and!.
  - rewrite app_nil_r. split_and!; [done..| |done|done]. apply Forall_singleton. unfold payload_ok. cbn [length] in *. lia.
Qed.

(** What one round does to the bytes: the invariant is that less than a frame
    is buffered. *)
Lemma input_round_spec r t got offered t' size :
  (0 < size)%nat -> frame_size (server t) = size -> (length (buffer (server t)) < size)%nat ->
  input_round r t = (got, offered, t') ->
  buffer (server t) ++ concat (snd <$> got) = concat offered ++ buffer (server t') /\
  Forall (payload_ok size) offered /\
  frame_size (server t') = size /\ (length (buffer (server t')) < size)%nat /\
  was_connected t' = connected (server t') /\
  (was_connected t = true -> connected (server t') = false -> buffer (server t') = []).
Proof.
  intros Hs Hfs Hb. unfold input_round. destruct (poll_once (answer r) (server t)) as [got0 s1] eqn:Ep.
  apply poll_spec in Ep as [Eb1 Ef1]. destruct (frames_loop (S (length (buffer s1))) s1) as [frames s2] eqn:El.
  apply frames_loop_spec in El as (Eb2 & Hfr & Ef2 & Ec2 & Hb2); [|lia]. rewrite Ef1, Hfs in *. specialize (Hb2 Hs).
  assert (Forall (payload_ok size) frames) as Hok.
  { eapply Forall_impl; [exact Hfr|]. unfold payload_ok. intros f [Hne ->]. lia. }
  set (b := was_connected t && negb (connected s2)).
  assert (exists left s3, (if b then flush_chunk s2 else ([], s2)) = (left, s3) /\
    buffer s2 = concat left ++ buffer s3 /\ Forall (payload_ok size) left /\ frame_size s3 = size /\
    client_fd s3 = client_fd s2 /\ (length (buffer s3) < size)%nat /\ (b = true -> buffer s3 = [])) as (left & s3 & -> & Eb3 & Hl3 & Ef3 & Ec3 & Hb3 & Hd3).
  { destruct b; [|exists [], s2; split_and!; [done..|by apply Forall_nil_2|done|done|done|done]].
    destruct (flush_chunk s2) as [left s3] eqn:Efl. exists left, s3. apply flush_chunk_spec in Efl as (E1 & E2 & E3 & E4 & E5); [|lia].
    rewrite Ef2 in *. rewrite E2. split_and!; [done|by rewrite app_nil_r|done..]. }
  intros E.
  assert (exists idle, offered = frames ++ left ++ idle /\ got = got0 /\ buffer s3 = concat idle ++ buffer (server t') /\
    Forall (payload_ok size) idle /\ frame_size (server t') = size /\ client_fd (server t') = client_fd s3 /\
    (length (buffer (server t')) < size)%nat /\ was_connected t' = connected (server t') /\ (buffer s3 = [] -> buffer (server t') = []))
    as (idle & -> & -> & Eb4 & Hi4 & Ef4 & Ec4 & Hb4 & Hw4 & Hd4).
  { revert E. set (b1 := bool_decide (0 < _)%nat && _). set (b2 := 100 <? _). set (b3 := negb _). destruct b1; [destruct b2|destruct b3].
    - destruct (flush_chunk s3) as [idle s4] eqn:Efl. intros E. injection E as <- <- <-. exists idle.
      apply flush_chunk_spec in Efl as (E1 & E2 & E3 & E4 & E5); [|lia]. cbn. rewrite Ef3 in *. rewrite E2. split_and!; [done|done|by rewrite app_nil_r|done..].
    - intros E. injection E as <- <- <-. exists []. by split_and!.
    - intros E. injection E as <- <- <-. exists []. by split_and!.
    - intros E. injection E as <- <- <-. exists []. by split_and!. }
  split_and!; [|rewrite !Forall_app; by split_and!|done|done|done|].
  - rewrite <- Eb1, Eb2, Eb3, Eb4, !concat_app. by rewrite !app_assoc.
  - intros Hw Hc. apply Hd4, Hd3. unfold b, connected in *. rewrite Hw. rewrite Ec4, Ec3 in Hc. by rewrite Hc.
Qed.

Lemma input_rounds_spec size : (0 < size)%nat -> forall rs t got offered t',
  frame_size (server t) = size -> (length (buffer (server t)) < size)%nat ->
  input_rounds rs t = (got, offered, t') ->
  buffer (server t) ++ concat (snd <$> got) = concat offered ++ buffer (server t') /\
  Forall (payload_ok size) offered /\ frame_size (server t') = size /\ (length (buffer (server t')) < size)%nat.
Proof.
  intros Hs. induction rs as [|r rs IH]; intros t got offered t' Hf Hb E; cbn [input_rounds] in E.
  - injection E as <- <- <-. cbn. rewrite app_nil_r. by split_and!.
  - destruct (input_round r t) as [[got1 off1] t1] eqn:E1. destruct (input_rounds rs t1) as [[got2 off2] t2] eqn:E2. injection E as <- <- <-.
    apply (input_round_spec _ _ _ _ _ size Hs Hf Hb) in E1 as (C1 & O1 & F1 & B1 & _).
    destruct (IH t1 got2 off2 t2 F1 B1 E2) as (C2 & O2 & F2 & B2). split_and!; [|by apply Forall_app|done|done].
    rewrite fmap_app, !concat_app, app_assoc, C1, <- !app_assoc, C2. done.
Qed.

(** Whatever the network and the clock do, no byte a client sent is lost,
    repeated or reordered by the input thread: the bytes received are the
    payloads offered to the transmitter, in order, and then the bytes still
    buffered, which are less than a frame. Every payload has at least one byte
    and at most a frame. *)
Theorem input_conserves size now rs got offered t :
  (0 < size)%nat -> input_rounds rs (input_start size now) = (got, offered, t) ->
  concat (snd <$> got) = concat offered ++ buffer (server t) /\
  Forall (payload_ok size) offered /\ (length (buffer (server t)) < size)%nat.
Proof.
  intros Hs E. destruct (input_rounds_spec size Hs rs (input_start size now) got offered t eq_refl Hs E) as (C & O & _ & B). by split_and!.
Qed.

Lemma input_conserves_witness :
  concat (snd <$> [(5, [1; 2; 3; 4; 5]); (5, [6])]) = concat [[1; 2; 3; 4]; [5; 6]] ++ [] /\
  Forall (payload_ok 4) [[1; 2; 3; 4]; [5; 6]] /\ (0 < 4)%nat.
Proof.
  refine (input_conserves 4 0
    [MkRound (PollReady (Some 5) false (fun _ => [])) 0 0; MkRound (PollReady None true (fun _ => [1; 2; 3; 4; 5])) 1 1;
     MkRound (PollReady None true (fun _ => [6])) 2 2; MkRound PollTimeout 3 3; MkRound PollTimeout 4 200000000]
    [(5, [1; 2; 3; 4; 5]); (5, [6])] [[1; 2; 3; 4]; [5; 6]]
    (MkInputThread (MkInput 4 true (Some 5) 6 []) true 2 0) _ _).
  - lia.
  - vm_compute. reflexivity.
Defined.
End TcpInput.

Module TcpOutput.

(** A client's address is only logged. *)
Record Client := MkClient { fd : Z; bytes_sent : Z }.

Record TcpOutputServer := MkOutput { listening : bool; clients : list Client }.

(** [accepted] is the descriptor of a new connection, if [poll] and [accept]
    give one. *)
Definition poll_once (accepted : option Z) (s : TcpOutputServer) : TcpOutputServer :=
  if negb (listening s) then s else
  match accepted with
  | Some client_fd => MkOutput (listening s) (clients s ++ [MkClient client_fd 0])
  | None => s
  end.

(** The calls of [send] for one client and one payload: [answers k] is what the
    [k]-th returns, at most the bytes it was given. The result is the number
    of bytes sent and whether all were. Each successful call sends a byte, so
    that the payload's length is fuel enough. *)
Fixpoint send_loop (fuel : nat) (answers : nat -> Z) (remaining : nat) : nat * bool :=
  match remaining, fuel with
  | O, _ => (0%nat, true)
  | _, O => (0%nat, false)
  | _, S fuel' =>
      let n := Nat.min (Z.to_nat (answers 0%nat)) remaining in
      if 0 <? answers 0%nat then
        let '(sent, whole) := send_loop fuel' (fun k => answers (S k)) (remaining - n) in ((n + sent)%nat, whole)
      else (0%nat, false)
  end.

Definition remove_client (index : nat) (clients : list Client) : list Client := delete index clients.

(** The loop over the clients, from the last index down to the first. *)
Fixpoint write_loop (sends : Z -> nat -> Z) (data : list Z) (i : nat) (clients : list Client)
  : outcome (list (Z * list Z) * list Client) :=
  match i with
  | O => Ok ([], clients)
  | S idx =>
      c ← read clients (Z.of_nat idx);
      let '(sent, whole) := send_loop (length data) (sends (fd c)) (length data) in
      let clients := if whole then <[idx := MkClient (fd c) (u64 (bytes_sent c + Z.of_nat sent))]> clients
                     else remove_client idx clients in
      '(out, clients) ← write_loop sends data idx clients;
      Ok ((fd c, take sent data) :: out, clients)
  end.

Definition write_to_all (sends : Z -> nat -> Z) (data : list Z) (s : TcpOutputServer)
  : outcome (list (Z * list Z) * TcpOutputServer) :=
  match data with
  | [] => Ok ([], s)
  | _ =>
      '(out, clients) ← write_loop sends data (length (clients s)) (clients s);
      Ok (out, MkOutput (listening s) clients)
  end.

Definition client_count (s : TcpOutputServer) : nat := length (clients s).
Definition stop (s : TcpOutputServer) : TcpOutputServer := MkOutput false [].

(** ** The output thread *)

(** The loop that empties the queue: [popped] are the payloads [try_pop]
    returns, with what [send] answers for each. *)
Fixpoint drain_loop (popped : list (list Z * (Z -> nat -> Z))) (s : TcpOutputServer)
  : outcome (list (Z * list Z) * TcpOutputServer) :=
  match popped with
  | [] => Ok ([], s)
  | (payload, sends) :: popped' =>
      '(out, s) ← write_to_all sends payload s;
      '(out', s) ← drain_loop popped' s;
      Ok (out ++ out', s)
  end.

Record round := MkRound { accepted : option Z; popped : list (list Z * (Z -> nat -> Z)) }.

Definition output_round (r : round) (s : TcpOutputServer) : outcome (list (Z * list Z) * TcpOutputServer) :=
  drain_loop (popped r) (poll_once (accepted r) s).

(** The rounds while running, and the payloads left at shutdown. *)
Fixpoint output_rounds (rs : list round) (s : TcpOutputServer) : outcome (list (Z * list Z) * TcpOutputServer) :=
  match rs with
  | [] => Ok ([], s)
  | r :: rs' =>
      '(out, s) ← output_round r s;
      '(out', s) ← output_rounds rs' s;
      Ok (out ++ out', s)
  end.

Definition output_thread (rs : list round) (left : list (list Z * (Z -> nat -> Z))) (s : TcpOutputServer)
  : outcome (list (Z * list Z) * TcpOutputServer) :=
  '(out, s) ← output_rounds rs s;
  '(out', s) ← drain_loop left s;
  Ok (out ++ out', s).

Definition output_start : TcpOutputServer := MkOutput true [].

Example broadcast :
  let all := fun _ _ => 100 in
  let '(out, s) := match output_rounds [MkRound (Some 5) []; MkRound (Some 6) [([1; 2; 3], fun fd k => if fd =? 5 then 2 - Z.of_nat k else 100)];
                                        MkRound None [([4], all)]] output_start with Ok r => r | Err _ => ([], output_start) end in
  out = [(6, [1; 2; 3]); (5, [1; 2; 3]); (6, [4]); (5, [4])] /\ clients s = [MkClient 5 4; MkClient 6 4].
Proof. vm_compute. split; reflexivity. Qed.

(** ** What is written to a client *)

Definition sent_to (f : Z) (out : list (Z * list Z)) : list Z := concat (snd <$> filter (fun m => m.1 = f) out).

Lemma sent_to_app f o1 o2 : sent_to f (o1 ++ o2) = sent_to f o1 ++ sent_to f o2.
Proof. unfold sent_to. by rewrite filter_app, fmap_app, concat_app. Qed.

Lemma sent_to_cons f g d out : sent_to f ((g, d) :: out) = (if decide (g = f) then d else []) ++ sent_to f out.
Proof. unfold sent_to. rewrite filter_cons. cbn. by destruct (decide (g = f)). Qed.

Definition fds (s : TcpOutputServer) : list Z := fd <$> clients s.

Lemma send_loop_spec fuel : forall answers n,
  let '(sent, whole) := send_loop fuel answers n in (sent <= n)%nat /\ (whole = true -> sent = n).
Proof.
  induction fuel as [|fuel IH]; intros answers [|n]; cbn [send_loop]; [by split|split; [lia|done]|by split|].
  destruct (0 <? answers 0%nat) eqn:E; [|split; [lia|done]]. apply Z.ltb_lt in E. set (m := Nat.min _ _).
  assert (0 < m <= S n)%nat as Hm by lia. specialize (IH (fun k => answers (S k)) (S n - m)%nat).
  destruct (send_loop _ _ _) as [sent whole]. destruct IH as [Hs Hw]. split; [lia|]. intros E'. specialize (Hw E'). lia.
Qed.

(** A payload's loop: the clients that stay are those it reached whole, in
    their order; the others got a prefix. *)
Lemma write_clients_spec sends data : forall front rest,
  NoDup (fd <$> front ++ rest) ->
  exists out front', write_loop sends data (length front) (front ++ rest) = Ok (out, front' ++ rest) /\
    (fd <$> front') `sublist_of` (fd <$> front) /\
    (forall f, f ∉ fd <$> front -> sent_to f out = []) /\
    (forall f, f ∈ fd <$> front -> sent_to f out `prefix_of` data) /\
    (forall f, f ∈ fd <$> front' -> sent_to f out = data).
Proof.
  intros front. induction front as [|c front IH] using rev_ind; intros rest Hnd.
  - exists [], []. by split_and!; [..|intros f []%not_elem_of_nil|intros f []%not_elem_of_nil].
  - rewrite length_app, Nat.add_1_r. cbn [write_loop]. unfold read. rewrite bool_decide_eq_true_2, Nat2Z.id by lia.
    rewrite <- app_assoc in *. cbn [app] in *. rewrite list_lookup_middle by done. cbn [mbind outcome_bind].
    pose proof (send_loop_spec (length data) (sends (fd c)) (length data)) as Hs.
    destruct (send_loop _ _ _) as [sent whole]. destruct Hs as [Hs Hw].
    set (c' := MkClient (fd c) (u64 (bytes_sent c + Z.of_nat sent))).
    assert ((if whole then <[length front := c']> (front ++ c :: rest) else remove_client (length front) (front ++ c :: rest))
            = front ++ (if whole then [c'] else []) ++ rest) as ->.
    { destruct whole; [|apply delete_middle]. replace (length front) with (length front + 0)%nat at 1 by lia. by rewrite insert_app_r. }
    rewrite !fmap_app, fmap_cons in Hnd.
    assert (NoDup (fd <$> front ++ (if whole then [c'] else []) ++ rest)) as Hnd'.
    { rewrite !fmap_app. destruct whole; [done|]. apply NoDup_app in Hnd as (H1 & H2 & H3). apply NoDup_cons in H3 as [_ H3].
      apply NoDup_app. split_and!; [done| |done]. intros x Hx Hx'. apply (H2 x Hx). by right. }
    destruct (IH _ Hnd') as (out & front' & -> & Hsub & Hnone & Hpre & Hall). cbn [mbind outcome_bind].
    assert (fd c ∉ fd <$> front) as Hc. { apply NoDup_app in Hnd as (_ & H2 & _). intros H. apply (H2 _ H). by left. }
    exists ((fd c, take sent data) :: out), (front' ++ (if whole then [c'] else [])). rewrite <- app_assoc. split_and!; [done| | | |].
    + rewrite !fmap_app. apply sublist_app; [done|]. destruct whole; [done|apply sublist_nil_l].
    + intros f Hf. rewrite fmap_app in Hf. change (fd <$> [c]) with [fd c] in Hf. rewrite elem_of_app, list_elem_of_singleton in Hf. rewrite sent_to_cons, decide_False, Hnone; [done|set_solver|set_solver].
    + intros f Hf. rewrite sent_to_cons. rewrite fmap_app in Hf. change (fd <$> [c]) with [fd c] in Hf. rewrite elem_of_app, list_elem_of_singleton in Hf. destruct (decide (fd c = f)) as [<-|Hne].
      * rewrite Hnone, app_nil_r by done. apply prefix_take.
      * cbn [app]. apply Hpre. destruct Hf as [|E]; [done|by subst].
    + intros f Hf. rewrite sent_to_cons. rewrite fmap_app, elem_of_app in Hf. destruct (decide (fd c = f)) as [<-|Hne].
      * rewrite Hnone, app_nil_r by done. destruct Hf as [Hf|Hf]; [by eapply elem_of_sublist in Hf|].
        destruct whole; [|by apply not_elem_of_nil in Hf]. rewrite Hw by done. by rewrite take_ge.
      * cbn [app]. apply Hall. destruct Hf as [|Hf]; [done|]. destruct whole; [|by apply not_elem_of_nil in Hf].
        change (fd <$> [c']) with [fd c] in Hf. apply list_elem_of_singleton in Hf. by subst.
Qed.

(** From [s] to [s'], the clients of [s'] were sent all of [due], the other
    clients of [s] a prefix of it, and nobody else anything. *)
Definition wrote (due : list Z) (s s' : TcpOutputServer) (out : list (Z * list Z)) : Prop :=
  listening s' = listening s /\ fds s' `sublist_of` fds s /\
  (forall f, f ∉ fds s -> sent_to f out = []) /\
  (forall f, f ∈ fds s -> sent_to f out `prefix_of` due) /\
  (forall f, f ∈ fds s' -> sent_to f out = due).

Lemma wrote_nothing s : wrote [] s s [].
Proof. by split_and!. Qed.

Lemma wrote_app d1 d2 s s1 s2 o1 o2 :
  wrote d1 s s1 o1 -> wrote d2 s1 s2 o2 -> wrote (d1 ++ d2) s s2 (o1 ++ o2).
Proof.
  intros (L1 & S1 & N1 & P1 & A1) (L2 & S2 & N2 & P2 & A2). split_and!.
  - by rewrite L2.
  - by etrans.
  - intros f Hf. rewrite sent_to_app, N1, N2; [done| |done]. intros H. eapply elem_of_sublist in H; [|exact S1]. done.
  - intros f Hf. rewrite sent_to_app. destruct (decide (f ∈ fds s1)) as [H|H].
    + rewrite (A1 f H). by apply prefix_app, P2.
    + rewrite (N2 f H), app_nil_r. by apply prefix_app_r, P1.
  - intros f Hf. rewrite sent_to_app, (A2 f Hf), A1; [done|]. by eapply elem_of_sublist in Hf.
Qed.

Lemma write_to_all_spec sends data s :
  NoDup (fds s) -> exists out s', write_to_all sends data s = Ok (out, s') /\ wrote data s s' out.
Proof.
  intros Hnd. unfold write_to_all. destruct data as [|x data']; [exists [], s; split; [done|apply wrote_nothing]|].
  destruct (write_clients_spec sends (x :: data') (clients s) []) as (out & front' & E & Hsub & Hn & Hp & Ha); [by rewrite app_nil_r|].
  rewrite !app_nil_r in E. rewrite E. cbn [mbind outcome_bind]. eexists _, _. split; [done|]. by split_and!.
Qed.

Definition payload_bytes (popped : list (list Z * (Z -> nat -> Z))) : list Z := concat (fst <$> popped).

Lemma drain_loop_spec popped : forall s, NoDup (fds s) ->
  exists out s', drain_loop popped s = Ok (out, s') /\ wrote (payload_bytes popped) s s' out.
Proof.
  induction popped as [|[payload sends] popped IH]; intros s Hnd; [exists [], s; split; [done|apply wrote_nothing]|].
  cbn [drain_loop]. destruct (write_to_all_spec sends payload s Hnd) as (out & s1 & -> & W1). cbn [mbind outcome_bind].
  destruct (IH s1) as (out' & s2 & -> & W2); [eapply sublist_NoDup; [exact Hnd|apply W1]|]. cbn [mbind outcome_bind].
  eexists _, _. split; [done|]. exact (wrote_app payload _ _ _ _ _ _ W1 W2).
Qed.

(** What the payloads of some rounds amount to. *)
Definition taken_bytes (rs : list round) : list Z := concat (payload_bytes ∘ popped <$> rs).
Definition accepted_fds (rs : list round) : list Z := omap accepted rs.

(** A client at [f] has been sent [due], or only a prefix of it if a write to
    it failed, and then it is a client no more. *)
Definition served (f : Z) (due : list Z) (out : list (Z * list Z)) (s : TcpOutputServer) : Prop :=
  sent_to f out `prefix_of` due /\ (f ∈ fds s -> sent_to f out = due).

(** The system gives a connection a descriptor that is not open. *)
Definition free (a : option Z) (s : TcpOutputServer) : Prop := match a with Some f => f ∉ fds s | None => True end.

#[global] Instance free_dec a s : Decision (free a s).
Proof. unfold free. destruct a; apply _. Defined.

Fixpoint fresh (rs : list round) (s : TcpOutputServer) : Prop :=
  match rs with
  | [] => True
  | r :: rs' => free (accepted r) s /\ match output_round r s with Ok (_, s1) => fresh rs' s1 | Err _ => True end
  end.

#[global] Instance fresh_dec rs : forall s, Decision (fresh rs s).
Proof. induction rs as [|r rs IH]; intros s; cbn [fresh]; [apply _|]. destruct (output_round r s) as [[o s1]|]; apply _. Defined.

Lemma served_app f d1 d2 s1 s2 o1 o2 :
  served f d1 o1 s1 -> (f ∈ fds s1 -> served f d2 o2 s2) -> (f ∉ fds s1 -> sent_to f o2 = [] /\ f ∉ fds s2) ->
  served f (d1 ++ d2) (o1 ++ o2) s2.
Proof.
  intros [P1 A1] H2 N2. unfold served. rewrite sent_to_app. destruct (decide (f ∈ fds s1)) as [H|H].
  - rewrite (A1 H). destruct (H2 H) as [P2 A2]. split; [by apply prefix_app|]. intros Hf. by rewrite (A2 Hf).
  - destruct (N2 H) as [-> Hf]. rewrite app_nil_r. split; [by apply prefix_app_r|done].
Qed.

Lemma wrote_served f d s s' out : wrote d s s' out -> f ∈ fds s -> served f d out s'.
Proof. intros (_ & _ & _ & P & A) Hf. split; [by apply P|apply A]. Qed.

Lemma wrote_not f d s s' out : wrote d s s' out -> f ∉ fds s -> sent_to f out = [] /\ f ∉ fds s'.
Proof. intros (_ & S & N & _) Hf. split; [by apply N|]. intros H. apply Hf. by eapply elem_of_sublist in H. Qed.

Lemma served_wrote f d1 d2 s1 s2 o1 o2 : served f d1 o1 s1 -> wrote d2 s1 s2 o2 -> served f (d1 ++ d2) (o1 ++ o2) s2.
Proof. intros H W. eapply served_app; [exact H|by apply wrote_served|by eapply wrote_not]. Qed.

Lemma poll_once_fds a s : listening s = true -> fds (poll_once a s) = fds s ++ option_list a /\ listening (poll_once a s) = true.
Proof.
  intros Hl. unfold poll_once. rewrite Hl. destruct a as [f|]; cbn [negb option_list]; [|by rewrite app_nil_r].
  unfold fds. cbn [clients listening]. by rewrite fmap_app.
Qed.

(** The descriptors of the clients stay different from each other. *)
Definition healthy (s : TcpOutputServer) : Prop := listening s = true /\ NoDup (fds s).

Lemma round_spec r s :
  healthy s -> free (accepted r) s ->
  exists out s1, output_round r s = Ok (out, s1) /\ healthy s1 /\
    forall f, (f ∈ fds s ++ option_list (accepted r) -> served f (payload_bytes (popped r)) out s1) /\
              (f ∉ fds s ++ option_list (accepted r) -> sent_to f out = [] /\ f ∉ fds s1).
Proof.
  intros [Hl Hnd] Hfree. destruct (poll_once_fds (accepted r) s Hl) as [Ef Hl0]. unfold output_round.
  assert (NoDup (fds (poll_once (accepted r) s))) as Hnd0.
  { rewrite Ef. apply NoDup_app. split_and!; [done| |].
    - intros f Hf Ha. destruct (accepted r) as [g|] eqn:Eg; [|by apply not_elem_of_nil in Ha]. apply list_elem_of_singleton in Ha as ->. done.
    - destruct (accepted r); [apply NoDup_singleton|apply NoDup_nil_2]. }
  destruct (drain_loop_spec (popped r) _ Hnd0) as (out & s1 & E & W). exists out, s1. split; [done|]. split.
  - destruct W as (Hl1 & S & _). split; [by rewrite Hl1|by eapply sublist_NoDup].
  - intros f. rewrite <- Ef. split; [by apply wrote_served|by apply (wrote_not _ _ _ _ _ W)].
Qed.

(** A client that is not accepted anew, over any rounds. *)
Lemma rounds_spec : forall rs s,
  healthy s -> fresh rs s ->
  exists out s', output_rounds rs s = Ok (out, s') /\ healthy s' /\
    forall f, f ∉ accepted_fds rs -> (f ∈ fds s -> served f (taken_bytes rs) out s') /\ (f ∉ fds s -> sent_to f out = [] /\ f ∉ fds s').
Proof.
  induction rs as [|r rs IH]; intros s Hs Hf; cbn [output_rounds].
  - exists [], s. split_and!; [done..|]. intros f _. split; [|done]. intros H. by split.
  - cbn [fresh] in Hf. destruct Hf as [Hfree Hf]. destruct (round_spec r s Hs Hfree) as (out1 & s1 & E & Hs1 & H1). rewrite E in Hf |- *.
    cbn [mbind outcome_bind]. destruct (IH s1 Hs1 Hf) as (out2 & s2 & -> & Hs2 & H2). cbn [mbind outcome_bind]. eexists _, _. split; [done|]. split; [done|].
    intros f Hnot. assert ((f ∉ accepted_fds rs) /\ accepted r <> Some f) as [Hrs Hr].
    { unfold accepted_fds in *. cbn [omap list_omap] in Hnot. destruct (accepted r) as [g|]; [|done]. split; set_solver. }
    assert (f ∈ fds s ++ option_list (accepted r) <-> f ∈ fds s) as Hiff.
    { rewrite elem_of_app. split; [intros [|Ha]; [done|]|by left]. destruct (accepted r) as [g|]; [|by apply not_elem_of_nil in Ha].
      apply list_elem_of_singleton in Ha as ->. done. }
    destruct (H1 f) as [H1in H1out], (H2 f Hrs) as [H2in H2out]. rewrite Hiff in H1in, H1out. split.
    + intros Hin. eapply served_app; [by apply H1in|exact H2in|exact H2out].
    + intros Hout. destruct (H1out Hout) as [N1 F1]. destruct (H2out F1) as [N2 F2]. split; [by rewrite sent_to_app, N1, N2|done].
Qed.

(** A client from the round that accepts it on. *)
Lemma connection_spec r rs s f :
  healthy s -> fresh (r :: rs) s -> accepted r = Some f -> f ∉ accepted_fds rs ->
  exists out s', output_rounds (r :: rs) s = Ok (out, s') /\ healthy s' /\ served f (taken_bytes (r :: rs)) out s'.
Proof.
  intros Hs [Hfree Hf] Ha Hrs. destruct (round_spec r s Hs Hfree) as (out1 & s1 & E & Hs1 & H1). rewrite E in Hf. cbn [output_rounds]. rewrite E.
  cbn [mbind outcome_bind]. destruct (rounds_spec rs s1 Hs1 Hf) as (out2 & s2 & -> & Hs2 & H2). cbn [mbind outcome_bind]. eexists _, _. split; [done|].
  split; [done|]. destruct (H2 f Hrs) as [H2in H2out]. eapply served_app; [apply (proj1 (H1 f))|exact H2in|exact H2out].
  rewrite Ha. apply elem_of_app. right. by left.
Qed.

Lemma fresh_app rs1 rs2 : forall s, fresh (rs1 ++ rs2) s <-> (fresh rs1 s /\
  match output_rounds rs1 s with Ok (_, s1) => fresh rs2 s1 | Err _ => True end).
Proof.
  induction rs1 as [|r rs1 IH]; intros s; [by cbn; split; [|intros []]|]. cbn [app fresh output_rounds].
  destruct (output_round r s) as [[o1 s1]|]; cbn [mbind outcome_bind]; [|tauto]. rewrite IH.
  destruct (output_rounds rs1 s1) as [[o2 s2]|]; cbn [mbind outcome_bind]; tauto.
Qed.

Lemma start_healthy : healthy output_start.
Proof. split; [done|apply NoDup_nil_2]. Qed.

(** From the round that accepts a connection until its descriptor is given to
    another one, or until the thread has emptied the queue at its end, the
    client is sent exactly the bytes of the payloads taken off the queue, in
    order; or, if a write to it fails, a prefix of them, and the failure of one
    client does not disturb the others. *)
Theorem output_broadcasts before r rs left f :
  fresh (before ++ r :: rs) output_start -> accepted r = Some f -> f ∉ accepted_fds rs ->
  exists o1 s1 o2 s2 o3 s3, output_rounds before output_start = Ok (o1, s1) /\ output_rounds (r :: rs) s1 = Ok (o2, s2) /\
    drain_loop left s2 = Ok (o3, s3) /\ served f (taken_bytes (r :: rs)) o2 s2 /\
    served f (taken_bytes (r :: rs) ++ payload_bytes left) (o2 ++ o3) s3.
Proof.
  intros [Hb Hrs]%fresh_app Ha Hf. destruct (rounds_spec before output_start start_healthy Hb) as (o1 & s1 & E1 & Hs1 & _). rewrite E1 in Hrs.
  destruct (connection_spec r rs s1 f Hs1 Hrs Ha Hf) as (o2 & s2 & E2 & Hs2 & Hd).
  destruct (drain_loop_spec left s2 (proj2 Hs2)) as (o3 & s3 & E3 & W). exists o1, s1, o2, s2, o3, s3. split_and!; [done..|].
  by eapply served_wrote.
Qed.

(** Descriptor 5 is given to a second client after the first one failed. *)
Lemma output_broadcasts_witness :
  let fails := fun (fd : Z) (k : nat) => if fd =? 5 then 1 - Z.of_nat k else 1 in
  let all := fun (fd : Z) (k : nat) => 1 in
  exists o1 s1 o2 s2 o3 s3,
    output_rounds [MkRound (Some 5) [([7], fails)]; MkRound (Some 6) [([1; 2], fails)]] output_start = Ok (o1, s1) /\
    output_rounds [MkRound (Some 5) [([3], all)]] s1 = Ok (o2, s2) /\ drain_loop [([9], all)] s2 = Ok (o3, s3) /\
    served 5 [3] o2 s2 /\ served 5 [3; 9] (o2 ++ o3) s3.
Proof.
  pose proof (output_broadcasts
    [MkRound (Some 5) [([7], fun fd k => if fd =? 5 then 1 - Z.of_nat k else 1)];
     MkRound (Some 6) [([1; 2], fun fd k => if fd =? 5 then 1 - Z.of_nat k else 1)]]
    (MkRound (Some 5) [([3], fun _ _ => 1)]) [] [([9], fun _ _ => 1)] 5) as Hx.
  apply Hx.
  - apply (bool_decide_unpack _). vm_compute. exact I.
  - reflexivity.
  - apply not_elem_of_nil.
Defined.

(** Whether a client takes the whole payload. *)
Definition takes (sends : Z -> nat -> Z) (data : list Z) (fd : Z) : Prop :=
  snd (send_loop (length data) (sends fd) (length data)) = true.

#[global] Instance takes_dec sends data fd : Decision (takes sends data fd).
Proof. unfold takes. apply _. Defined.

Lemma write_loop_fds sends data : forall front rest,
  exists out front', write_loop sends data (length front) (front ++ rest) = Ok (out, front' ++ rest) /\
    fd <$> front' = filter (takes sends data) (fd <$> front).
Proof.
  intros front. induction front as [|c front IH] using rev_ind; intros rest; [by exists [], []|].
  rewrite length_app, Nat.add_1_r. cbn [write_loop]. unfold read. rewrite bool_decide_eq_true_2, Nat2Z.id by lia.
  rewrite <- app_assoc in *. cbn [app] in *. rewrite list_lookup_middle by done. cbn [mbind outcome_bind].
  assert (takes sends data (fd c) <-> (send_loop (length data) (sends (fd c)) (length data)).2 = true) as Ht by done.
  destruct (send_loop _ _ _) as [sent whole]. cbn [snd] in Ht.
  set (c' := MkClient (fd c) (u64 (bytes_sent c + Z.of_nat sent))).
  assert ((if whole then <[length front := c']> (front ++ c :: rest) else remove_client (length front) (front ++ c :: rest))
          = front ++ (if whole then [c'] else []) ++ rest) as ->.
  { destruct whole; [|apply delete_middle]. replace (length front) with (length front + 0)%nat at 1 by lia. by rewrite insert_app_r. }
  destruct (IH ((if whole then [c'] else []) ++ rest)) as (out & front' & -> & Hf). cbn [mbind outcome_bind].
  exists ((fd c, take sent data) :: out), (front' ++ (if whole then [c'] else [])). split; [by rewrite <- app_assoc|].
  rewrite !fmap_app, filter_app, Hf. f_equal. cbn [fmap list_fmap]. destruct whole.
  - by rewrite filter_cons_True by (by apply Ht).
  - rewrite filter_cons_False; [done|]. intros H. apply Ht in H. done.
Qed.

Lemma drain_total popped : forall s, exists out s', drain_loop popped s = Ok (out, s').
Proof.
  induction popped as [|[payload sends] popped IH]; intros s; [by exists [], s|]. cbn [drain_loop]. unfold write_to_all. destruct payload as [|x data].
  - destruct (IH s) as (out & s' & E). cbn [mbind outcome_bind]. rewrite E. by exists out, s'.
  - destruct (write_loop_fds sends (x :: data) (clients s) []) as (o1 & front' & E & _). rewrite !app_nil_r in E. rewrite E. cbn [mbind outcome_bind].
    match goal with |- context [drain_loop popped ?t] => destruct (IH t) as (out & s' & E') end. rewrite E'. by eexists _, _.
Qed.
End TcpOutput.

Module Udp.

Definition MAX_DATAGRAM_SIZE : Z := 65535.

Record UdpInput := MkUdpInput { in_open : bool; datagrams_received : Z; bytes_received : Z }.

(** [poll] and [recvfrom]: a datagram of the network, of which [recvfrom]
    returns what fits in the buffer; [None] stands for an error or a timeout. *)
Definition recv_datagram (datagram : option (list Z)) (u : UdpInput) : list Z * UdpInput :=
  if negb (in_open u) then ([], u) else
  match take (Z.to_nat MAX_DATAGRAM_SIZE) <$> datagram with
  | None | Some [] => ([], u)
  | Some buf => (buf, MkUdpInput (in_open u) (u64 (datagrams_received u + 1)) (u64 (bytes_received u + zlen buf)))
  end.

(** A round of the input thread: the payloads offered to the transmitter. *)
Definition udp_input_round (datagram : option (list Z)) (u : UdpInput) : list (list Z) * UdpInput :=
  let '(datagram, u) := recv_datagram datagram u in
  (match datagram with [] => [] | _ => [datagram] end, u).

Record UdpOutput := MkUdpOutput { out_open : bool; datagrams_sent : Z; bytes_sent : Z }.

(** [sendto]'s answer, which is [None] for an error; [valid_addr] is whether
    [inet_pton] accepts the destination. The datagram sent, if any, and the
    call's result. *)
Definition send_datagram (valid_addr : bool) (sendto : option Z) (data : list Z) (u : UdpOutput)
  : option (list Z) * bool * UdpOutput :=
  if negb (out_open u) || bool_decide (data = []) || negb valid_addr then (None, false, u) else
  match sendto with
  | None => (None, false, u)
  | Some n => (Some data, true, MkUdpOutput (out_open u) (u64 (datagrams_sent u + 1)) (u64 (bytes_sent u + n)))
  end.

(** The output thread over the payloads it takes off the queue: the datagrams
    sent. *)
Fixpoint udp_output_loop (valid_addr : bool) (popped : list (list Z * option Z)) (u : UdpOutput) : list (list Z) * UdpOutput :=
  match popped with
  | [] => ([], u)
  | (payload, sendto) :: popped' =>
      let '(sent, _, u) := send_datagram valid_addr sendto payload u in
      let '(sent', u) := udp_output_loop valid_addr popped' u in
      (option_list sent ++ sent', u)
  end.

(** A datagram is one payload: nothing is split or joined. *)
Lemma udp_input_payload u d :
  in_open u = true -> 0 < zlen d <= MAX_DATAGRAM_SIZE -> fst (udp_input_round (Some d) u) = [d].
Proof.
  intros Ho Hd. unfold udp_input_round, recv_datagram. rewrite Ho. cbn [negb fmap option_fmap option_map]. rewrite take_ge by lia.
  by destruct d; [cbn in Hd; lia|].
Qed.

Lemma udp_output_payloads u popped :
  out_open u = true ->
  fst (udp_output_loop true popped u) = fst <$> filter (fun '(p, sendto) => p <> [] /\ is_Some sendto) popped.
Proof.
  revert u. induction popped as [|[p [n|]] popped IH]; intros u Ho; [done| |].
  - cbn [udp_output_loop]. unfold send_datagram. rewrite Ho. cbn [negb orb]. rewrite orb_false_r. destruct p as [|x p].
    + rewrite bool_decide_eq_true_2 by done. specialize (IH u Ho). destruct (udp_output_loop true popped u) as [l u'].
      cbn [fst] in *. rewrite IH, filter_cons_False; [done|]. by intros [? _].
    + rewrite bool_decide_eq_false_2 by done. match goal with |- context [udp_output_loop true popped ?v] => specialize (IH v eq_refl); destruct (udp_output_loop true popped v) end.
      cbn [fst] in *. rewrite IH, filter_cons_True; [done|]. split; [done|by eexists].
  - cbn [udp_output_loop]. assert (send_datagram true None p u = (None, false, u)) as ->.
    { unfold send_datagram. by destruct (_ || _). }
    specialize (IH u Ho). destruct (udp_output_loop true popped u) as [l u']. cbn [fst] in *. rewrite IH, filter_cons_False; [done|].
    intros [_ [? ?]]. done.
Qed.
End Udp.

(** ** What the transmit direction needs of either *)

Module Sources.

(** Where payloads come from: a round with the system's answers gives the
    bytes received, the payloads offered to the transmitter and the new state,
    which still holds some bytes. *)
Class Source (T R : Type) := {
  source_round : R -> T -> list Z * list (list Z) * T;
  source_held : T -> list Z;
  source_ok : T -> Prop;
  source_limit : Z }.
Arguments source_limit T R {_}.

(** No byte is lost, repeated or reordered; no payload is empty or larger than
    the source's limit, and that fits a frame. *)
Class SourceLaws (T R : Type) `{Source T R} := {
  source_spec r s got chunks s' :
    source_ok s -> source_round r s = (got, chunks, s') ->
    source_ok s' /\ source_held s ++ got = concat chunks ++ source_held s' /\ Forall (fun p => 0 < zlen p <= source_limit T R) chunks;
  source_fits : source_limit T R < 2 ^ 16 }.

(** [TcpInputServer]'s default frame size. *)
Definition FRAME_SIZE : nat := Z.to_nat 1024.

#[export] Instance tcp_source : Source TcpInput.InputThread TcpInput.round := {
  source_round r t := let '(got, chunks, t) := TcpInput.input_round r t in (concat (snd <$> got), chunks, t);
  source_held t := TcpInput.buffer (TcpInput.server t);
  source_ok t := TcpInput.frame_size (TcpInput.server t) = FRAME_SIZE /\ (length (TcpInput.buffer (TcpInput.server t)) < FRAME_SIZE)%nat;
  source_limit := 1024 }.

#[export] Instance tcp_source_laws : SourceLaws TcpInput.InputThread TcpInput.round.
Proof.
  split; [|done]. intros r s got chunks s' [Hf Hb] E. cbn [source_round tcp_source source_limit] in *. destruct (TcpInput.input_round r s) as [[g ch] t] eqn:Er.
  injection E as <- <- <-. apply (TcpInput.input_round_spec _ _ _ _ _ FRAME_SIZE ltac:(unfold FRAME_SIZE; lia) Hf Hb) in Er as (C & O & F & B & _).
  split; [by split|]. split; [done|]. eapply Forall_impl; [exact O|]. unfold TcpInput.payload_ok, FRAME_SIZE. intros p Hp. lia.
Qed.

#[export] Instance udp_source : Source Udp.UdpInput (option (list Z)) := {
  source_round d u := let '(chunks, u) := Udp.udp_input_round d u in (concat chunks, chunks, u);
  source_held _ := [];
  source_ok _ := True;
  source_limit := 65535 }.

#[export] Instance udp_source_laws : SourceLaws Udp.UdpInput (option (list Z)).
Proof.
  split; [|done]. intros d u got chunks u' _ E. cbn [source_round udp_source source_held source_limit] in *.
  unfold Udp.udp_input_round, Udp.recv_datagram in E. destruct (Udp.in_open u); cbn [negb] in E; [|by injection E as <- <- <-].
  destruct d as [d|]; cbn [fmap option_fmap option_map] in E; [|by injection E as <- <- <-].
  assert (zlen (take (Z.to_nat Udp.MAX_DATAGRAM_SIZE) d) <= 65535) as Hl by (rewrite length_take; unfold Udp.MAX_DATAGRAM_SIZE; lia).
  destruct (take (Z.to_nat Udp.MAX_DATAGRAM_SIZE) d) as [|x l]; injection E as <- <- <-; [done|]. split_and!; [done|symmetry; apply app_nil_r|].
  apply Forall_singleton. cbn [length] in *. lia.
Qed.
End Sources.
