(* ===== verification/Pipeline.v ===== *)
(** * The modem's two directions (the threads of src/main.cpp)

    [TxPath] composes the input thread, the queue and the transmit thread;
    [RxPath] the receive thread, the queue and the output thread. A step is one
    round of one thread, the radio's [send] included; the queue's operations are
    atomic, which is what the interleavings of [Spsc] come to. *)
From S2P Require Import Prelude Float Dsp Fec Frames Modem Codec Radio Spsc Servers.
Import Float Spsc.

(** ** A queue between two threads *)

Module Stage.

(** The payloads are vectors; a vector that was moved from is empty. *)
Abbreviation payload_queue := (SpscQueue (list Z)).

Definition QUEUE_CAPACITY : nat := 64.
Definition new_queue : payload_queue := make_queue [] QUEUE_CAPACITY.

(** An offer: the payload, whether it was queued, and how many were waiting. *)
Record offer := MkOffer { offered : list Z; queued : bool; waiting : nat }.

Definition push (q : payload_queue) (chunk : list Z) : outcome (offer * payload_queue) :=
  '(ok, q') ← try_push q chunk; Ok (MkOffer chunk ok (size q), q').

Fixpoint push_all (q : payload_queue) (chunks : list (list Z)) : outcome (list offer * payload_queue) :=
  match chunks with
  | [] => Ok ([], q)
  | chunk :: chunks' =>
      '(o, q) ← push q chunk;
      '(os, q) ← push_all q chunks';
      Ok (o :: os, q)
  end.

(** [while (try_pop(payload))]; the queue's capacity is fuel enough. *)
Fixpoint pop_all (fuel : nat) (q : payload_queue) : outcome (list (list Z) * payload_queue) :=
  match fuel with
  | O => Err Diverges
  | S fuel' =>
      '(item, q) ← try_pop [] q;
      match item with
      | None => Ok ([], q)
      | Some payload => '(payloads, q) ← pop_all fuel' q; Ok (payload :: payloads, q)
      end
  end.

(** The payloads that were queued. *)
Definition accepted (os : list offer) : list (list Z) := offered <$> filter (fun o => queued o = true) os.

(** A payload is refused exactly when the queue is full. *)
Definition honest (o : offer) : Prop := queued o = bool_decide (S (waiting o) < QUEUE_CAPACITY)%nat.

(** The queue of the capacity above, holding these payloads. *)
Definition holds (q : payload_queue) (items : list (list Z)) : Prop := represents q items /\ capacity q = QUEUE_CAPACITY.

Lemma new_holds : holds new_queue [].
Proof. split; [|done]. apply represents_new. unfold QUEUE_CAPACITY. lia. Qed.

Lemma accepted_app o1 o2 : accepted (o1 ++ o2) = accepted o1 ++ accepted o2.
Proof. unfold accepted. by rewrite filter_app, fmap_app. Qed.

Lemma push_spec q items chunk :
  holds q items ->
  exists o q', push q chunk = Ok (o, q') /\ holds q' (items ++ accepted [o]) /\ offered o = chunk /\ honest o.
Proof.
  intros [Hr Hc]. unfold push. destruct (try_push_spec q items chunk Hr) as (q' & -> & Hc' & Hr'). cbn [mbind outcome_bind].
  eexists _, _. split; [done|]. rewrite Hc in *. unfold fifo_push in *.
  assert (honest (MkOffer chunk (fst (if bool_decide (S (length items) < QUEUE_CAPACITY)%nat then (true, items ++ [chunk]) else (false, items))) (size q))) as Hh.
  { unfold honest. cbn [queued waiting]. rewrite (size_spec q items Hr). by case_bool_decide. }
  revert Hh Hr'. case_bool_decide; cbn [fst snd]; intros Hh Hr'; (split; [|done]); (split; [|done]); unfold accepted.
  - by rewrite filter_cons_True.
  - rewrite filter_cons_False by done. cbn. by rewrite app_nil_r.
Qed.

Lemma push_all_spec chunks : forall q items,
  holds q items ->
  exists os q', push_all q chunks = Ok (os, q') /\ holds q' (items ++ accepted os) /\ offered <$> os = chunks /\ Forall honest os.
Proof.
  induction chunks as [|chunk chunks IH]; intros q items Hq; cbn [push_all].
  - exists [], q. cbn. rewrite app_nil_r. by split_and!.
  - destruct (push_spec q items chunk Hq) as (o & q1 & -> & Hq1 & Ho & Hh). cbn [mbind outcome_bind].
    destruct (IH q1 _ Hq1) as (os & q2 & -> & Hq2 & Hos & Hhs). cbn [mbind outcome_bind]. eexists _, _. split; [done|].
    rewrite <- app_assoc, <- accepted_app in Hq2. split_and!; [done|by rewrite fmap_cons, Ho, Hos|by apply Forall_cons_2].
Qed.

Lemma pop_spec q items :
  holds q items -> exists q', try_pop [] q = Ok (fst (fifo_pop items), q') /\ holds q' (snd (fifo_pop items)).
Proof.
  intros [Hr Hc]. destruct (try_pop_spec [] q items Hr) as (q' & E & Hc' & Hr'). exists q'. split; [done|]. by split; [|rewrite Hc'].
Qed.

(** Nothing arrives while [pop_wait] waits: an arrival is a step of its own. *)
Definition pop_now (q : payload_queue) : outcome (option (list Z) * payload_queue) := pop_wait [] (fun q => q) q.

Lemma pop_now_spec q items :
  holds q items -> exists q', pop_now q = Ok (fst (fifo_pop items), q') /\ holds q' (snd (fifo_pop items)).
Proof.
  intros Hq. unfold pop_now, pop_wait. destruct (pop_spec q items Hq) as (q' & -> & Hq'). cbn [mbind outcome_bind].
  destruct items as [|p items]; cbn [fifo_pop fst snd] in *; [|by exists q']. exists q'. split; [|done].
  rewrite bool_decide_eq_true_2; [done|]. by apply (empty_iff q' [] (proj1 Hq')).
Qed.

Lemma pop_all_spec items : forall q fuel,
  holds q items -> (length items < fuel)%nat -> exists q', pop_all fuel q = Ok (items, q') /\ holds q' [].
Proof.
  induction items as [|x items IH]; intros q fuel Hq Hf; (destruct fuel as [|fuel]; [cbn in Hf; lia|]); cbn [pop_all].
  - destruct (pop_spec q [] Hq) as (q' & -> & Hq'). by exists q'.
  - destruct (pop_spec q (x :: items) Hq) as (q1 & -> & Hq1). cbn [mbind outcome_bind fifo_pop fst snd] in *.
    destruct (IH q1 fuel Hq1) as (q2 & -> & Hq2); [cbn in Hf; lia|]. by exists q2.
Qed.

Lemma holds_bound q items : holds q items -> (length items < QUEUE_CAPACITY)%nat.
Proof. intros [(_ & Hl & _) <-]. done. Qed.
End Stage.

Module TxPath.
Import Stage Sources.
Section path.
Context `{Libm} {T R : Type} `{SourceLaws T R}.

(** [input] is the TCP server's thread or the UDP socket's. [sending] is set
    while the transmit thread is inside [send], whose loop retries as long as
    the driver takes no sample. *)
Record TxPath := MkTxPath {
  input : T; queue : payload_queue; encoder : Codec.TxEncoder; radio : B200.B200Interface; sending : bool }.

(** A round of the input thread with the system's answers, or of the transmit
    thread with the counts that the driver's streamer returns to it. *)
Inductive tx_event := Input (r : R) | Transmit (counts : list Z).

(** What a step shows: the bytes received, the payloads offered to the queue,
    a payload taken off it with the samples given to [send], and what [send]
    made of them. *)
Record tx_log := MkLog {
  got : list Z; offers : list offer; sent : list (list Z * list complex); aired : list (outcome (list B200.chunk)) }.

(** [pop_wait]'s timeout is a step without a payload. An exception of [send]
    is caught and the burst is gone; a [send] that goes on is the thread's last
    round. *)
Definition tx_step (ramp : nat) (ev : tx_event) (s : TxPath) : outcome (tx_log * TxPath) :=
  match ev with
  | Input r =>
      let '(got, chunks, t) := source_round r (input s) in
      '(os, q) ← push_all (queue s) chunks;
      Ok (MkLog got os [] [], MkTxPath t q (encoder s) (radio s) (sending s))
  | Transmit counts =>
      if sending s then Ok (MkLog [] [] [] [], s) else
      '(item, q) ← pop_now (queue s);
      match item with
      | None => Ok (MkLog [] [] [] [], MkTxPath (input s) q (encoder s) (radio s) false)
      | Some payload =>
          '(samples, e) ← Burst.burst ramp (encoder s) payload;
          let answer := B200.send (radio s) counts samples in
          Ok (MkLog [] [] [(payload, samples)] [answer],
              MkTxPath (input s) q e (radio s) (match answer with Err Diverges => true | _ => false end))
      end
  end.

Definition log_app (l1 l2 : tx_log) : tx_log := MkLog (got l1 ++ got l2) (offers l1 ++ offers l2) (sent l1 ++ sent l2) (aired l1 ++ aired l2).

Fixpoint tx_run (ramp : nat) (events : list tx_event) (s : TxPath) : outcome (tx_log * TxPath) :=
  match events with
  | [] => Ok (MkLog [] [] [] [], s)
  | ev :: events' =>
      '(l1, s) ← tx_step ramp ev s;
      '(l2, s) ← tx_run ramp events' s;
      Ok (log_app l1 l2, s)
  end.

Definition tx_start (b : B200.B200Interface) (t : T) (e : Codec.TxEncoder) : TxPath := MkTxPath t new_queue e b false.

(** The bursts of payloads, one after another. *)
Fixpoint bursts (ramp : nat) (e : Codec.TxEncoder) (payloads : list (list Z)) : outcome (list (list complex) * Codec.TxEncoder) :=
  match payloads with
  | [] => Ok ([], e)
  | p :: payloads' =>
      '(samples, e) ← Burst.burst ramp e p;
      '(rest, e) ← bursts ramp e payloads';
      Ok (samples :: rest, e)
  end.

(** ** The path's invariant *)

Definition encoder_fine (e : Codec.TxEncoder) : Prop := Modem.encoder_ok (Codec.symbol_encoder e).

Lemma burst_total ramp e p :
  encoder_fine e -> 0 < zlen p < 2 ^ 16 -> exists samples e', Burst.burst ramp e p = Ok (samples, e') /\ encoder_fine e'.
Proof.
  intros He [_ Hp]. unfold Burst.burst, Codec.encode.
  destruct (Modem.encode_symbols_spec (Codec.symbol_encoder e) p He Hp) as (a & d & pad & -> & _). cbn [mbind outcome_bind].
  eexists _, _. split; [done|]. exact He.
Qed.

(** What became of the bursts: each was given to the driver whole or refused by
    [send]; or it is the last one, and [send] goes on. *)
Definition radio_log (s : TxPath) (sent : list (list Z * list complex)) (aired : list (outcome (list B200.chunk))) : Prop :=
  exists past answers now,
    sent = past ++ now /\ aired = answers ++ ((fun _ => Err Diverges) <$> now) /\
    Forall2 (fun burst answer => B200.sent_whole (radio s) burst.2 answer) past answers /\
    length now = (if sending s then 1 else 0)%nat.

(** What holds between a state, the log since the start and the first
    encoder. *)
Definition path_inv (ramp : nat) (e0 : Codec.TxEncoder) (l : tx_log) (s : TxPath) : Prop :=
  source_ok (input s) /\ got l = concat (offered <$> offers l) ++ source_held (input s) /\
  Forall (fun p => 0 < zlen p <= source_limit T R) (offered <$> offers l) /\ Forall honest (offers l) /\
  (exists waiting, holds (queue s) waiting /\ accepted (offers l) = (fst <$> sent l) ++ waiting) /\
  encoder_fine (encoder s) /\ bursts ramp e0 (fst <$> sent l) = Ok (snd <$> sent l, encoder s) /\
  radio_log s (sent l) (aired l).

Lemma bursts_snoc ramp ps : forall e out e1 p samples e2,
  bursts ramp e ps = Ok (out, e1) -> Burst.burst ramp e1 p = Ok (samples, e2) ->
  bursts ramp e (ps ++ [p]) = Ok (out ++ [samples], e2).
Proof.
  induction ps as [|p0 ps IH]; intros e out e1 p samples e2 E1 E2; cbn [app bursts] in *.
  - injection E1 as <- <-. by rewrite E2.
  - inv_ok E1. destruct r as [s0 e']. inv_ok E1. destruct r as [rest e'']. injection E1 as <- <-. rewrite E. cbn [mbind outcome_bind].
    by rewrite (IH _ _ _ _ _ _ E0 E2).
Qed.

Lemma accepted_ok (P : list Z -> Prop) os : Forall P (offered <$> os) -> Forall P (accepted os).
Proof.
  intros Hos. apply (Forall_fmap offered) in Hos. apply (Forall_fmap offered), Forall_forall. intros o Ho. apply list_elem_of_filter in Ho as [_ Ho].
  pose proof (proj1 (Forall_forall _ _) Hos o Ho) as Hx1. exact Hx1.
Qed.

(** A thread that is not sending: the log says so, and goes on with the answer
    of its next [send]. *)
Lemma radio_idle s sent aired s' :
  radio_log s sent aired -> sending s = false -> radio s' = radio s -> sending s' = false -> radio_log s' sent aired.
Proof. intros (past & ans & now & P1 & P2 & P3 & P4) Es Er Es'. exists past, ans, now. rewrite Es in P4. rewrite Es', Er. by split_and!. Qed.

Lemma radio_sends s sent aired (p : list Z) samples counts t q e :
  radio_log s sent aired -> sending s = false ->
  let answer := B200.send (radio s) counts samples in
  radio_log (MkTxPath t q e (radio s) (match answer with Err Diverges => true | _ => false end)) (sent ++ [(p, samples)]) (aired ++ [answer]).
Proof.
  intros (past & ans & now & -> & -> & P3 & P4) Es answer. rewrite Es in P4. apply length_zero_iff_nil in P4 as ->. cbn [fmap list_fmap]. rewrite !app_nil_r.
  destruct (B200.send_spec (radio s) counts samples) as [Hd|Hw]; [fold answer in Hd|fold answer in Hw].
  - exists past, ans, [(p, samples)]. rewrite Hd. by split_and!.
  - exists (past ++ [(p, samples)]), (ans ++ [answer]), []. cbn [fmap list_fmap]. rewrite !app_nil_r. split; [done|]. split; [done|]. split.
    + apply Forall2_app; [exact P3|]. by repeat constructor.
    + cbn [sending]. by destruct answer as [|[]].
Qed.

Lemma tx_step_inv ramp e0 l s ev :
  path_inv ramp e0 l s -> exists l1 s', tx_step ramp ev s = Ok (l1, s') /\ path_inv ramp e0 (log_app l l1) s'.
Proof.
  intros (Hf & Hg & Hp & Hh & (waiting & Hq & Ha) & He & Hbs & Hrl). destruct ev as [r|counts]; cbn [tx_step].
  - destruct (source_round r (input s)) as [[g chunks] t] eqn:Er. apply (source_spec _ _ _ _ _ Hf) in Er as (F & C & O).
    destruct (push_all_spec chunks (queue s) waiting Hq) as (os & q & -> & Hq' & Hos & Hhs). cbn [mbind outcome_bind].
    eexists _, _. split; [done|]. unfold path_inv, log_app. cbn [got offers sent aired input queue encoder].
    rewrite fmap_app, Hos, concat_app, accepted_app, !app_nil_r. split_and!; [done| |by apply Forall_app|by apply Forall_app| |done|done|exact Hrl].
    + by rewrite Hg, <- !app_assoc, C.
    + exists (waiting ++ accepted os). split; [done|]. by rewrite Ha, app_assoc.
  - destruct (sending s) eqn:Eg.
    { eexists _, _. split; [done|]. unfold path_inv, log_app. cbn [got offers sent aired]. rewrite !app_nil_r. split_and!; try done. by exists waiting. }
    destruct (pop_now_spec (queue s) waiting Hq) as (q & -> & Hq'). cbn [mbind outcome_bind].
    destruct waiting as [|p waiting]; cbn [fifo_pop fst snd] in *.
    + eexists _, _. split; [done|]. unfold path_inv, log_app. cbn [got offers sent aired input queue encoder]. rewrite !app_nil_r.
      split_and!; [done|done|done|done| |done|done|by eapply radio_idle]. exists []. by split.
    + assert (0 < zlen p < 2 ^ 16) as Hpp.
      { pose proof (source_fits (T := T) (R := R)). enough (0 < zlen p <= source_limit T R) by lia. pose proof (accepted_ok _ _ Hp) as Hacc. rewrite Ha in Hacc. apply Forall_app in Hacc as [_ Hacc]. by apply Forall_cons in Hacc as [Hacc _]. }
      destruct (burst_total ramp (encoder s) p He Hpp) as (samples & e' & Eb & He'). rewrite Eb. cbn [mbind outcome_bind].
      eexists _, _. split; [done|]. unfold path_inv, log_app. cbn [got offers sent aired input queue encoder]. rewrite !app_nil_r, !fmap_app.
      split_and!; [done|done|done|done| |done| |].
      * exists waiting. split; [done|]. rewrite Ha, <- app_assoc. done.
      * by eapply bursts_snoc.
      * by apply radio_sends.
Qed.

Lemma tx_run_inv ramp e0 : forall events l s,
  path_inv ramp e0 l s -> exists l1 s', tx_run ramp events s = Ok (l1, s') /\ path_inv ramp e0 (log_app l l1) s'.
Proof.
  induction events as [|ev events IH]; intros l s Hs; cbn [tx_run].
  - exists (MkLog [] [] [] []), s. split; [done|]. unfold log_app. cbn. rewrite !app_nil_r. by destruct l.
  - destruct (tx_step_inv ramp e0 l s ev Hs) as (l1 & s1 & -> & Hx1). cbn [mbind outcome_bind].
    destruct (IH _ _ Hx1) as (l2 & s2 & -> & Hx2). cbn [mbind outcome_bind]. eexists _, _. split; [done|].
    unfold log_app in *. cbn in *. by rewrite !app_assoc.
Qed.

Lemma path_start ramp e b t : encoder_fine e -> source_ok t -> source_held t = [] -> path_inv ramp e (MkLog [] [] [] []) (tx_start b t e).
Proof.
  intros He Ht Hh. unfold path_inv. cbn. rewrite Hh. split_and!; try done.
  - exists []. split; [apply new_holds|done].
  - by exists [], [], [].
Qed.

Lemma accepted_all os : Forall (fun o => queued o = true) os -> accepted os = offered <$> os.
Proof. intros Hall. unfold accepted. f_equal. induction Hall as [|o os Ho Hall IH]; [done|]. by rewrite filter_cons_True, IH. Qed.

(** The interface stays; and who starts sending for good was kept waiting by
    the driver. *)
Definition kept_waiting (ramp : nat) (b : B200.B200Interface) (counts : list Z) : Prop :=
  exists payload e samples e', Burst.burst ramp e payload = Ok (samples, e') /\ B200.send b counts samples = Err Diverges.

Lemma tx_step_radio ramp ev s l s' :
  tx_step ramp ev s = Ok (l, s') ->
  radio s' = radio s /\ (sending s' = sending s \/ match ev with Input _ => False | Transmit counts => kept_waiting ramp (radio s) counts end).
Proof.
  intros E. destruct ev as [r|counts]; cbn [tx_step] in E.
  - destruct (source_round r (input s)) as [[g ch] t]. apply bind_ok in E as ([os q] & _ & E). injection E as _ <-. by split; [|left].
  - destruct (sending s) eqn:Es; [injection E as _ <-; by split; [|left]|].
    apply bind_ok in E as ([[p|] q] & _ & E); [|injection E as _ <-; by split; [|left]].
    apply bind_ok in E as ([samples e] & Eb & E). injection E as _ <-. split; [done|]. cbn [sending].
    destruct (B200.send (radio s) counts samples) as [|[]] eqn:E1; try by left. right. by exists p, (encoder s), samples, e.
Qed.

Lemma tx_run_radio ramp events : forall s l s', tx_run ramp events s = Ok (l, s') -> radio s' = radio s.
Proof.
  induction events as [|ev events IH]; intros s l s' E; cbn [tx_run] in E; [by injection E as _ <-|].
  apply bind_ok in E as ([l1 s1] & E1 & E). apply bind_ok in E as ([l2 s2] & E2 & E). injection E as _ <-. rewrite (IH _ _ _ E2).
  by apply tx_step_radio in E1 as [? _].
Qed.

End path.

#[local] Existing Instance Codec.taylor_libm.

Definition sample_encoder : Codec.TxEncoder :=
  Codec.MkTxEncoder (Modem.make_encoder (Modem.MkConfig Modem.barker true Fec.RATE_1_2 4)) (PulseShaper.MkShaper [float_of_Z 1] 2).

Lemma sample_encoder_fine : encoder_fine sample_encoder.
Proof. by split. Qed.

Definition sample_events : list (tx_event (R := TcpInput.round)) :=
  [Input (TcpInput.MkRound (TcpInput.PollReady (Some 5) false (fun _ => [])) 0 0);
   Input (TcpInput.MkRound (TcpInput.PollReady None true (fun _ => [0x41; 0x42])) 1 1);
   Input (TcpInput.MkRound (TcpInput.PollReady None true (fun _ => [])) 2 2); Transmit []; Transmit [8000; 0; 8000]].

Definition sample_radio : B200.B200Interface := B200.MkB200 true true.

(** Over UDP a payload is a datagram. The driver takes no sample of the second
    burst, so the third round finds the thread inside [send]. *)
Example datagrams_sent :
  match tx_run 0 [Input (Some [0x41; 0x42]); Input None; Input (Some [0x43]); Transmit [10000]; Transmit [0; 0]; Transmit [10000]]
          (tx_start sample_radio (Udp.MkUdpInput true 0 0) sample_encoder) with
  | Ok (l, s) => fst <$> sent l = [[0x41; 0x42]; [0x43]] /\ sending s = true
  | Err _ => False
  end.
Proof. vm_compute. by split. Qed.

End TxPath.

(** ** What the receive direction needs of either output *)

Module Sinks.

(** Where payloads go: whether a round of the thread takes every payload that
    waits or one, what it does before, and the writing of the payloads it took,
    with the system's answers. *)
Class Sink (O A W : Type) := {
  takes_all : O -> bool;
  sink_poll : A -> O -> O;
  sink_write : A -> list (list Z) -> O -> outcome (list W * O) }.

(** Writing does not fail. *)
Class SinkLaws (O A W : Type) `{Sink O A W} := {
  sink_total a payloads o : exists out o', sink_write a payloads o = Ok (out, o') }.

(** An accepted connection, and what [send] answers for the payloads, by their
    index. *)
Definition tcp_answer : Type := option Z * (nat -> Z -> nat -> Z).

Definition tcp_payloads (a : tcp_answer) (payloads : list (list Z)) : list (list Z * (Z -> nat -> Z)) :=
  imap (fun i p => (p, a.2 i)) payloads.

#[export] Instance tcp_sink : Sink TcpOutput.TcpOutputServer tcp_answer (Z * list Z) := {
  takes_all _ := true;
  sink_poll a := TcpOutput.poll_once a.1;
  sink_write a payloads := TcpOutput.drain_loop (tcp_payloads a payloads) }.

#[export] Instance tcp_sink_laws : SinkLaws TcpOutput.TcpOutputServer tcp_answer (Z * list Z).
Proof. split. intros a payloads o. apply TcpOutput.drain_total. Qed.

(** Whether the destination is an address, and what [sendto] answers. *)
Definition udp_answer : Type := bool * (nat -> option Z).

Definition udp_payloads (a : udp_answer) (payloads : list (list Z)) : list (list Z * option Z) := imap (fun i p => (p, a.2 i)) payloads.

#[export] Instance udp_sink : Sink Udp.UdpOutput udp_answer (list Z) := {
  takes_all _ := false;
  sink_poll _ o := o;
  sink_write a payloads o := Ok (Udp.udp_output_loop a.1 (udp_payloads a payloads) o) }.

#[export] Instance udp_sink_laws : SinkLaws Udp.UdpOutput udp_answer (list Z).
Proof. split. intros a payloads o. cbn. destruct (Udp.udp_output_loop _ _ o) as [out o']. by exists out, o'. Qed.

Section rounds.
Context {O A W : Type} `{SinkLaws O A W}.

Definition sink_round (a : A) (payloads : list (list Z)) (o : O) : outcome (list W * O) := sink_write a payloads (sink_poll a o).

Fixpoint sink_rounds (rs : list (A * list (list Z))) (o : O) : outcome (list W * O) :=
  match rs with
  | [] => Ok ([], o)
  | (a, payloads) :: rs' =>
      '(out, o) ← sink_round a payloads o;
      '(out', o) ← sink_rounds rs' o;
      Ok (out ++ out', o)
  end.

Lemma sink_rounds_snoc rs a payloads : forall o o1 s1 o2 s2,
  sink_rounds rs o = Ok (o1, s1) -> sink_round a payloads s1 = Ok (o2, s2) -> sink_rounds (rs ++ [(a, payloads)]) o = Ok (o1 ++ o2, s2).
Proof.
  induction rs as [|[a0 p0] rs IH]; intros o o1 s1 o2 s2 E1 E2; cbn [app sink_rounds] in *.
  - injection E1 as <- <-. rewrite E2. cbn. by rewrite app_nil_r.
  - inv_ok E1. destruct r as [w t]. inv_ok E1. destruct r as [w' t']. injection E1 as <- <-. rewrite E. cbn [mbind outcome_bind].
    rewrite (IH _ _ _ _ _ E0 E2). cbn [mbind outcome_bind]. by rewrite app_assoc.
Qed.
End rounds.
End Sinks.

Module RxPath.
Import Stage Sinks.
Section path.
Context `{Libm} {O A W : Type} `{SinkLaws O A W}.

Record RxPath := MkRxPath { receiver : Receiver.RxThread; queue : payload_queue; output : O }.

(** A round of the receive thread with the samples of the radio, or of the
    output thread with the system's answers. *)
Inductive rx_event := Receive (samples : list complex) | Output (a : A).

(** What a step shows: the payload offered to the queue, the round of the
    output thread with the payloads it took, and what it wrote. *)
Record rx_log := MkLog { offers : list offer; rounds : list (A * list (list Z)); written : list W }.

(** What the receive thread pushes after its round. *)
Definition push_payload (payload : option (list Z)) (q : payload_queue) : outcome (list offer * payload_queue) :=
  push_all q (option_list payload).

(** [while (try_pop(payload))], or [pop_wait]. *)
Definition take_payloads (all : bool) (q : payload_queue) : outcome (list (list Z) * payload_queue) :=
  if all then pop_all QUEUE_CAPACITY q else '(item, q) ← pop_now q; Ok (option_list item, q).

Definition rx_step (fuel : nat) (ev : rx_event) (s : RxPath) : outcome (rx_log * RxPath) :=
  match ev with
  | Receive samples =>
      '(payload, r) ← Receiver.rx_round fuel samples (receiver s);
      '(os, q) ← push_payload payload (queue s);
      Ok (MkLog os [] [], MkRxPath r q (output s))
  | Output a =>
      '(payloads, q) ← take_payloads (takes_all (output s)) (queue s);
      '(out, o) ← sink_round a payloads (output s);
      Ok (MkLog [] [(a, payloads)] out, MkRxPath (receiver s) q o)
  end.

Definition log_app (l1 l2 : rx_log) : rx_log :=
  MkLog (offers l1 ++ offers l2) (rounds l1 ++ rounds l2) (written l1 ++ written l2).

Fixpoint rx_run (fuel : nat) (events : list rx_event) (s : RxPath) : outcome (rx_log * RxPath) :=
  match events with
  | [] => Ok (MkLog [] [] [], s)
  | ev :: events' =>
      '(l1, s) ← rx_step fuel ev s;
      '(l2, s) ← rx_run fuel events' s;
      Ok (log_app l1 l2, s)
  end.

Definition rx_start (d : Codec.Decoder) (o : O) : RxPath := MkRxPath (Receiver.rx_start d) new_queue o.

(** After the last round the output thread empties the queue. *)
Definition rx_drain (a : A) (s : RxPath) : outcome (list (list Z) * list W * RxPath) :=
  '(payloads, q) ← pop_all QUEUE_CAPACITY (queue s);
  '(out, o) ← sink_write a payloads (output s);
  Ok (payloads, out, MkRxPath (receiver s) q o).

(** The payloads the output thread took off the queue in its rounds. *)
Definition taken (l : rx_log) : list (list Z) := concat (snd <$> rounds l).

(** ** The path's invariant *)

Definition path_inv (o0 : O) (l : rx_log) (s : RxPath) : Prop :=
  Codec.decoder_ok (Receiver.decoder (receiver s)) /\ Forall honest (offers l) /\
  (exists waiting, holds (queue s) waiting /\ accepted (offers l) = taken l ++ waiting) /\
  sink_rounds (rounds l) o0 = Ok (written l, output s).

Lemma take_payloads_spec all q items :
  holds q items -> exists ps rest q', take_payloads all q = Ok (ps, q') /\ holds q' rest /\ items = ps ++ rest.
Proof.
  intros Hq. unfold take_payloads. destruct all.
  - destruct (pop_all_spec items q QUEUE_CAPACITY Hq (holds_bound _ _ Hq)) as (q' & -> & Hq'). exists items, [], q'. by rewrite app_nil_r.
  - destruct (pop_now_spec q items Hq) as (q' & -> & Hq'). cbn [mbind outcome_bind]. eexists _, _, q'. split; [done|]. split; [exact Hq'|]. by destruct items.
Qed.

Lemma rx_step_inv fuel o0 l s ev :
  path_inv o0 l s ->
  match rx_step fuel ev s with
  | Ok (l1, s1) => path_inv o0 (log_app l l1) s1
  | Err e => exists d samples, Codec.synchroniser_fails fuel d samples e
  end.
Proof.
  intros (Hd & Hh & (waiting & Hq & Ha) & Ho). destruct ev as [samples|a]; cbn [rx_step].
  - pose proof (Receiver.rx_round_total fuel samples (receiver s) Hd) as Ht.
    destruct (Receiver.rx_round fuel samples (receiver s)) as [[payload r]|e]; cbn [mbind outcome_bind]; [|done].
    destruct (push_all_spec (option_list payload) (queue s) waiting Hq) as (os & q & E & Hq' & _ & Hhs). unfold push_payload. rewrite E.
    cbn [mbind outcome_bind]. unfold path_inv, log_app. cbn [offers rounds written receiver queue output]. rewrite !app_nil_r.
    split_and!; [done|by apply Forall_app| |done]. exists (waiting ++ accepted os). split; [done|]. by rewrite accepted_app, Ha, <- app_assoc.
  - destruct (take_payloads_spec (takes_all (output s)) _ _ Hq) as (ps & rest & q & -> & Hq' & ->). cbn [mbind outcome_bind].
    destruct (sink_total a ps (sink_poll a (output s))) as (out & o' & E). unfold sink_round. rewrite E. cbn [mbind outcome_bind].
    unfold path_inv, log_app. cbn [offers rounds written receiver queue output]. rewrite app_nil_r.
    split_and!; [done|done| |by eapply sink_rounds_snoc]. exists rest. split; [done|]. unfold taken in *. cbn [rounds]. rewrite fmap_app, concat_app, Ha. cbn.
    by rewrite app_nil_r, app_assoc.
Qed.

Lemma rx_run_inv fuel o0 : forall events l s,
  path_inv o0 l s ->
  match rx_run fuel events s with
  | Ok (l1, s1) => path_inv o0 (log_app l l1) s1
  | Err e => exists d samples, Codec.synchroniser_fails fuel d samples e
  end.
Proof.
  induction events as [|ev events IH]; intros l s Hs; cbn [rx_run].
  - unfold log_app. cbn. rewrite !app_nil_r. by destruct l.
  - pose proof (rx_step_inv fuel o0 l s ev Hs) as Hst. destruct (rx_step fuel ev s) as [[l1 s1]|e]; cbn [mbind outcome_bind]; [|done].
    specialize (IH _ _ Hst). destruct (rx_run fuel events s1) as [[l2 s2]|e]; cbn [mbind outcome_bind]; [|done].
    unfold log_app in *. cbn [offers rounds written] in *. by rewrite !app_assoc.
Qed.

Lemma rx_start_inv d o : Codec.decoder_ok d -> path_inv o (MkLog [] [] []) (rx_start d o).
Proof. intros Hd. split; [done|]. split; [done|]. split; [|done]. exists []. split; [apply new_holds|done]. Qed.

(** The queue is empty afterwards, and what waited in it was written. *)
Lemma rx_drain_spec o0 l s a :
  path_inv o0 l s ->
  exists ps out s', rx_drain a s = Ok (ps, out, s') /\ accepted (offers l) = taken l ++ ps /\ holds (queue s') [] /\
    sink_write a ps (output s) = Ok (out, output s') /\ receiver s' = receiver s.
Proof.
  intros (Hd & Hh & (waiting & Hq & Ha) & Ho). unfold rx_drain.
  destruct (pop_all_spec waiting _ _ Hq (holds_bound _ _ Hq)) as (q & -> & Hq'). cbn [mbind outcome_bind].
  destruct (sink_total a waiting (output s)) as (out & o' & E). rewrite E. cbn [mbind outcome_bind]. by exists waiting, out, (MkRxPath (receiver s) q o').
Qed.

(** What a path shows from its start until its output thread ends. *)
Lemma rx_life fuel d o events a :
  Codec.decoder_ok d ->
  match rx_run fuel events (rx_start d o) with
  | Ok (l, s) =>
      Forall honest (offers l) /\ sink_rounds (rounds l) o = Ok (written l, output s) /\
      exists left out s', rx_drain a s = Ok (left, out, s') /\ accepted (offers l) = taken l ++ left /\
        sink_write a left (output s) = Ok (out, output s')
  | Err e => exists d' samples, Codec.synchroniser_fails fuel d' samples e
  end.
Proof.
  intros Hd. pose proof (rx_run_inv fuel o events _ _ (rx_start_inv d o Hd)) as Hrun.
  destruct (rx_run fuel events (rx_start d o)) as [[l s]|e]; [|exact Hrun]. unfold log_app in Hrun. cbn [app offers rounds written] in Hrun.
  pose proof (rx_drain_spec o _ s a Hrun) as (left & out & s' & E & Ha & _ & Ew & _). destruct Hrun as (_ & Hh & _ & Ho).
  cbn [offers rounds written] in *. split; [done|]. split; [done|]. exists left, out, s'. by destruct l.
Qed.
End path.

(** ** To the TCP clients *)

(** The rounds of the server's thread. *)
Definition server_rounds {W} (l : rx_log (A := tcp_answer) (W := W)) : list TcpOutput.round :=
  (fun '(a, ps) => TcpOutput.MkRound (fst a) (tcp_payloads a ps)) <$> rounds l.

(** The descriptors of the connections the events bring. *)
Definition new_fds (events : list (rx_event (A := tcp_answer))) : list Z :=
  omap (fun ev => match ev with Output a => fst a | Receive _ => None end) events.

Lemma imap_fst {B} (payloads : list (list Z)) (f : nat -> B) : fst <$> imap (fun i p => (p, f i)) payloads = payloads.
Proof. rewrite fmap_imap. revert f. induction payloads as [|p l IH]; intros f; [done|]. cbn. f_equal. exact (IH (fun i => f (S i))). Qed.

Section tcp.
Context `{Libm}.

Lemma server_rounds_fds fuel : forall events (s : RxPath (O := TcpOutput.TcpOutputServer)) l s',
  rx_run fuel events s = Ok (l, s') -> TcpOutput.accepted_fds (server_rounds l) = new_fds events.
Proof.
  induction events as [|ev events IH]; intros s l s' E; cbn [rx_run] in E; [by injection E as <- <-|].
  inv_ok E. destruct r as [l1 s1]. inv_ok E. destruct r as [l2 s2]. injection E as <- <-. apply IH in E1.
  unfold server_rounds, TcpOutput.accepted_fds, new_fds, log_app in *. cbn [rounds omap list_omap]. rewrite fmap_app, omap_app, E1.
  destruct ev as [samples|a]; cbn [rx_step] in E0; inv_ok E0; [destruct r as [p r0]|destruct r as [ps q]]; inv_ok E0; destruct r as [os q']; injection E0 as <- <-; cbn; [done|].
  by destruct (a.1).
Qed.

(** The system gives every connection a descriptor that is not open then. *)
Fixpoint fresh_fds (fuel : nat) (events : list (rx_event (A := tcp_answer))) (s : RxPath (O := TcpOutput.TcpOutputServer)) : Prop :=
  match events with
  | [] => True
  | ev :: events' =>
      match ev with Output a => TcpOutput.free (fst a) (output s) | Receive _ => True end /\
      match rx_step fuel ev s with Ok (_, s1) => fresh_fds fuel events' s1 | Err _ => True end
  end.

#[global] Instance fresh_fds_dec fuel events : forall s, Decision (fresh_fds fuel events s).
Proof. induction events as [|ev events IH]; intros s; cbn [fresh_fds]; [apply _|]. destruct ev; destruct (rx_step _ _ _) as [[l s1]|]; apply _. Defined.

Lemma fresh_fds_app fuel e1 e2 : forall s, fresh_fds fuel (e1 ++ e2) s <-> (fresh_fds fuel e1 s /\
  match rx_run fuel e1 s with Ok (_, s1) => fresh_fds fuel e2 s1 | Err _ => True end).
Proof.
  induction e1 as [|ev e1 IH]; intros s; [by cbn; split; [|intros []]|]. cbn [app fresh_fds rx_run].
  destruct (rx_step fuel ev s) as [[l1 s1]|]; cbn [mbind outcome_bind]; [|tauto]. rewrite IH.
  destruct (rx_run fuel e1 s1) as [[l2 s2]|]; cbn [mbind outcome_bind]; tauto.
Qed.

(** The rounds of the output thread are rounds of the server. *)
Lemma server_run fuel : forall events (s : RxPath (O := TcpOutput.TcpOutputServer)) l s',
  rx_run fuel events s = Ok (l, s') ->
  TcpOutput.output_rounds (server_rounds l) (output s) = Ok (written l, output s') /\
  (fresh_fds fuel events s -> TcpOutput.fresh (server_rounds l) (output s)).
Proof.
  induction events as [|ev events IH]; intros s l s' E; cbn [rx_run] in E; [by injection E as <- <-|].
  apply bind_ok in E as ([l1 s1] & E1 & E). apply bind_ok in E as ([l2 s2] & E2 & E). injection E as <- <-.
  cbn [fresh_fds]. rewrite E1. destruct (IH _ _ _ E2) as [H1 H2]. unfold server_rounds, log_app in *. cbn [rounds written] in *.
  destruct ev as [samples|a]; cbn [rx_step] in E1.
  - apply bind_ok in E1 as ([p r] & _ & E1). apply bind_ok in E1 as ([os q] & _ & E1). injection E1 as <- <-. cbn [rounds written output fmap list_fmap app] in *.
    split; [done|]. intros [_ Hf]. by apply H2.
  - apply bind_ok in E1 as ([ps q] & _ & E1). apply bind_ok in E1 as ([out o] & E1 & E). injection E as <- <-.
    cbn [rounds written output fmap list_fmap app TcpOutput.output_rounds TcpOutput.fresh TcpOutput.accepted] in *. unfold TcpOutput.output_round.
    cbn [TcpOutput.accepted TcpOutput.popped]. unfold sink_round in E1. cbn [sink_write sink_poll tcp_sink] in E1. rewrite E1. cbn [mbind outcome_bind].
    rewrite H1. cbn [mbind outcome_bind]. split; [done|]. intros [Hfree Hf]. split; [exact Hfree|by apply H2].
Qed.

Lemma server_rounds_bytes {W} (l : rx_log (A := tcp_answer) (W := W)) : TcpOutput.taken_bytes (server_rounds l) = concat (taken l).
Proof.
  unfold TcpOutput.taken_bytes, server_rounds, taken. induction (rounds l) as [|[a ps] rs IH]; [done|]. cbn [fmap list_fmap concat snd].
  rewrite IH, concat_app. unfold compose, TcpOutput.payload_bytes, tcp_payloads. cbn [TcpOutput.popped]. by rewrite imap_fst.
Qed.

(** A client from the round that accepts it on. *)
Lemma client_served fuel s1 a after l2 s2 f :
  TcpOutput.healthy (output s1) -> fresh_fds fuel (Output a :: after) s1 -> fst a = Some f -> f ∉ new_fds after ->
  rx_run fuel (Output a :: after) s1 = Ok (l2, s2) ->
  TcpOutput.healthy (output s2) /\ TcpOutput.served f (concat (taken l2)) (written l2) (output s2).
Proof.
  intros Hs1 Hf Ha Hnew E2. destruct (server_run _ _ _ _ _ E2) as [R2 F2].
  cbn [rx_run] in E2. apply bind_ok in E2 as ([l3 s3] & E3 & E2). apply bind_ok in E2 as ([l4 s4] & E4 & E2).
  injection E2 as <- <-. pose proof (server_rounds_fds _ _ _ _ _ E4) as Hfds4. cbn [rx_step] in E3. apply bind_ok in E3 as ([ps q] & _ & E3).
  apply bind_ok in E3 as ([out o] & _ & E3). injection E3 as <- <-. set (l2 := log_app _ l4) in *.
  destruct (TcpOutput.connection_spec (TcpOutput.MkRound (fst a) (tcp_payloads a ps)) (server_rounds l4) (output s1) f Hs1 (F2 Hf) Ha) as (o2 & t2 & E & Hs2 & Hd2);
    [by rewrite Hfds4|].
  change (TcpOutput.MkRound a.1 (tcp_payloads a ps) :: server_rounds l4) with (server_rounds l2) in *. rewrite R2 in E. injection E as <- <-.
  by rewrite server_rounds_bytes in Hd2.
Qed.

(** [C13] From the radio to the TCP clients, under every schedule of the two
    threads: a payload is refused only when 63 are waiting; the payloads that
    the output thread takes off the queue in its rounds and then, when it ends,
    all those left are the ones the receive thread queued, in order; and a
    client, from the round that accepts it until its descriptor is given to
    another one, is sent the bytes taken off, in order, those at the end
    included, or a prefix of them if a write to it failed. Nothing but a
    synchroniser can stop the receive thread. *)
Theorem rx_path_delivers fuel d before a after b f :
  Codec.decoder_ok d -> fresh_fds fuel (before ++ Output a :: after) (rx_start d TcpOutput.output_start) ->
  fst a = Some f -> f ∉ new_fds after ->
  match rx_run fuel before (rx_start d TcpOutput.output_start) with
  | Ok (l1, s1) =>
      match rx_run fuel (Output a :: after) s1 with
      | Ok (l2, s2) =>
          Forall honest (offers l1 ++ offers l2) /\ TcpOutput.served f (concat (taken l2)) (written l2) (output s2) /\
          exists left out s', rx_drain b s2 = Ok (left, out, s') /\
            accepted (offers l1 ++ offers l2) = taken l1 ++ taken l2 ++ left /\
            TcpOutput.served f (concat (taken l2 ++ left)) (written l2 ++ out) (output s')
      | Err e => exists d' samples, Codec.synchroniser_fails fuel d' samples e
      end
  | Err e => exists d' samples, Codec.synchroniser_fails fuel d' samples e
  end.
Proof.
  intros Hd [Hf1 Hf2]%fresh_fds_app Ha Hnew. pose proof (rx_run_inv fuel TcpOutput.output_start before _ _ (rx_start_inv d TcpOutput.output_start Hd)) as Hi1.
  destruct (rx_run fuel before _) as [[l1 s1]|e] eqn:E1; [|done]. destruct (server_run _ _ _ _ _ E1) as [R1 F1].
  pose proof (rx_run_inv fuel TcpOutput.output_start (Output a :: after) _ _ Hi1) as Hi2.
  destruct (rx_run fuel (Output a :: after) s1) as [[l2 s2]|e] eqn:E2; [|done].
  destruct (TcpOutput.rounds_spec (server_rounds l1) _ TcpOutput.start_healthy (F1 Hf1)) as (o1 & t1 & E & Hs1 & _).
  change (output (rx_start d TcpOutput.output_start)) with TcpOutput.output_start in R1. rewrite R1 in E. injection E as <- <-.
  destruct (client_served fuel s1 a after l2 s2 f Hs1 Hf2 Ha Hnew E2) as [Hs2 Hd2].
  destruct (rx_drain_spec _ _ _ b Hi2) as (left & out' & s' & E & Hacc & _ & Ew & _).
  destruct Hi2 as (_ & Hh & _ & _). cbn [log_app offers app] in Hh, Hacc. unfold taken in Hacc. cbn [log_app rounds app] in Hacc. rewrite fmap_app, concat_app in Hacc.
  split; [done|]. split; [done|]. exists left, out', s'. split; [done|]. split; [by rewrite Hacc, <- app_assoc|].
  rewrite concat_app. eapply TcpOutput.served_wrote; [exact Hd2|]. cbn [sink_write tcp_sink] in Ew.
  destruct (TcpOutput.drain_loop_spec (tcp_payloads b left) (output s2) (proj2 Hs2)) as (o3 & t3 & E5 & W). rewrite Ew in E5. injection E5 as <- <-.
  unfold TcpOutput.payload_bytes, tcp_payloads in W. by rewrite imap_fst in W.
Qed.

(** ** To the UDP destination *)

(** The answers of [sendto] for the payloads of the rounds, and of the end. *)
Definition round_answers (rs : list (udp_answer * list (list Z))) : list (list Z * option Z) := concat ((fun '(a, ps) => udp_payloads a ps) <$> rs).

Definition sendto_answers (l : rx_log (A := udp_answer) (W := list Z)) (a : udp_answer) (left : list (list Z)) : list (list Z * option Z) :=
  round_answers (rounds l) ++ udp_payloads a left.

Lemma udp_payloads_fst (rs : list (udp_answer * list (list Z))) : fst <$> round_answers rs = concat (snd <$> rs).
Proof. unfold round_answers. induction rs as [|[a ps] rs IH]; [done|]. cbn [fmap list_fmap concat snd]. rewrite fmap_app. f_equal; [apply imap_fst|exact IH]. Qed.

Lemma udp_loop_app b p1 : forall p2 u,
  Udp.udp_output_loop b (p1 ++ p2) u =
  let '(o1, u1) := Udp.udp_output_loop b p1 u in let '(o2, u2) := Udp.udp_output_loop b p2 u1 in (o1 ++ o2, u2).
Proof.
  induction p1 as [|[p n] p1 IH]; intros p2 u; cbn [app Udp.udp_output_loop]; [by destruct (Udp.udp_output_loop b p2 u)|].
  destruct (Udp.send_datagram b n p u) as [[o r] u1]. rewrite IH. destruct (Udp.udp_output_loop b p1 u1) as [o1 u2].
  destruct (Udp.udp_output_loop b p2 u2) as [o2 u3]. by rewrite app_assoc.
Qed.

Lemma udp_rounds rs : forall (o : Udp.UdpOutput) out o',
  Forall (fun r : udp_answer * list (list Z) => r.1.1 = true) rs -> sink_rounds rs o = Ok (out, o') ->
  Udp.udp_output_loop true (round_answers rs) o = (out, o').
Proof.
  unfold round_answers.
  induction rs as [|[a ps] rs IH]; intros o out o' Hv E; cbn [sink_rounds fmap list_fmap concat] in *; [by injection E as <- <-|].
  apply Forall_cons in Hv as [Hv1 Hv]. cbn in Hv1. unfold sink_round in E. cbn [sink_write sink_poll udp_sink] in E. rewrite Hv1 in E. rewrite udp_loop_app.
  destruct (Udp.udp_output_loop true (udp_payloads a ps) o) as [o1 t1]. cbn [mbind outcome_bind] in E. inv_ok E. destruct r as [o2 t2].
  injection E as <- <-. by rewrite (IH t1 _ _ Hv E0).
Qed.

(** Over UDP each payload that is taken off the queue is one datagram, in the
    order of decoding, until the queue is empty at the end; missing are only
    those that [sendto] refuses. *)
Lemma rx_path_datagrams fuel d events a u :
  Codec.decoder_ok d -> Udp.out_open u = true ->
  match rx_run fuel events (rx_start d u) with
  | Ok (l, s) =>
      Forall (fun r => r.1.1 = true) (rounds l) -> a.1 = true ->
      exists left out s', rx_drain a s = Ok (left, out, s') /\ accepted (offers l) = taken l ++ left /\
        fst <$> sendto_answers l a left = taken l ++ left /\
        written l ++ out = fst <$> filter (fun '(p, sendto) => p <> [] /\ is_Some sendto) (sendto_answers l a left)
  | Err e => exists d' samples, Codec.synchroniser_fails fuel d' samples e
  end.
Proof.
  intros Hd Hu. pose proof (rx_life fuel d u events a Hd) as Hl. destruct (rx_run _ _ _) as [[l s]|e]; [|exact Hl].
  destruct Hl as (Hh & Hr & left & out & s' & E & Ha & Hw). intros Hv Hva. exists left, out, s'. split; [done|]. split; [done|]. split.
  - unfold sendto_answers, taken. rewrite fmap_app, udp_payloads_fst. f_equal. apply imap_fst.
  - rewrite <- (Udp.udp_output_payloads u (sendto_answers l a left) Hu). unfold sendto_answers. rewrite udp_loop_app.
    pose proof (udp_rounds _ _ _ _ Hv Hr) as El. destruct (Udp.udp_output_loop true _ u) as [o1 u1]. injection El as -> ->.
    cbn [sink_write udp_sink] in Hw. rewrite Hva in Hw. injection Hw as Hw. by rewrite Hw.
Qed.
End tcp.

#[local] Existing Instance Codec.taylor_libm.

Definition answers_all : nat -> Z -> nat -> Z := fun _ _ _ => 100.
Definition sample_after : list (rx_event (A := tcp_answer)) := [Receive [czero; czero]; Output (None, answers_all)].

Lemma rx_path_delivers_witness :
  match rx_run 10 [Output (Some 5, answers_all)] (rx_start Codec.sample_decoder TcpOutput.output_start) with
  | Ok (l1, s1) =>
      match rx_run 10 (Output (Some 6, answers_all) :: sample_after) s1 with
      | Ok (l2, s2) =>
          Forall honest (offers l1 ++ offers l2) /\ TcpOutput.served 6 (concat (taken l2)) (written l2) (output s2) /\
          exists left out s', rx_drain (None, answers_all) s2 = Ok (left, out, s') /\
            accepted (offers l1 ++ offers l2) = taken l1 ++ taken l2 ++ left /\
            TcpOutput.served 6 (concat (taken l2 ++ left)) (written l2 ++ out) (output s')
      | Err e => exists d' samples, Codec.synchroniser_fails 10 d' samples e
      end
  | Err e => exists d' samples, Codec.synchroniser_fails 10 d' samples e
  end.
Proof.
  assert (Codec.decoder_ok Codec.sample_decoder) as Hd by (split; [by exists 5|reflexivity]).
  assert (fresh_fds 10 ([Output (Some 5, answers_all)] ++ Output (Some 6, answers_all) :: sample_after)
    (rx_start Codec.sample_decoder TcpOutput.output_start)) as Hf by (apply (bool_decide_unpack _); vm_compute; exact I).
  exact (rx_path_delivers 10 Codec.sample_decoder [Output (Some 5, answers_all)] (Some 6, answers_all) sample_after (None, answers_all) 6 Hd Hf eq_refl
    (not_elem_of_nil 6)).
Defined.
End RxPath.
