(* ===== verification/Link.v ===== *)
(** * The link between two daemons (src/ltp_cla/convergence_layer_adapter.cpp
    over the threads of src/main.cpp)

    The adapter of one daemon writes framed segments to its modem's TCP input,
    the modem cuts the bytes into payloads, and the far modem's output server
    writes the payloads it decodes to the other daemon's adapter. What the
    radio does to the payloads is a hypothesis here; the rest is the
    definitions of [Framing], [Servers] and [Pipeline]. *)
From S2P Require Import Prelude Float Spsc Codec Framing Servers Pipeline.
Import Float Spsc Framing Sources.

Module Link.

Section link.
Context `{Libm} {T R : Type} `{Sources.SourceLaws T R}.
Implicit Types (l : TxPath.tx_log) (s : TxPath.TxPath (T := T)).

(** Nothing was refused, and nothing waits in the input or in the queue. *)
Definition all_sent l s : Prop :=
  Forall (fun o => Stage.queued o = true) (TxPath.offers l) /\ empty (TxPath.queue s) = true /\ Sources.source_held (TxPath.input s) = [].

(** The payloads the output server is given. *)
Definition payloads (rs : list TcpOutput.round) : list (list Z) := concat ((fun r => fst <$> TcpOutput.popped r) <$> rs).

Lemma all_sent_bytes ramp e l s :
  TxPath.path_inv ramp e l s -> all_sent l s -> TxPath.got l = concat (fst <$> TxPath.sent l).
Proof.
  intros (_ & Hg & _ & _ & (waiting & Hq & Ha) & _) (Hall & Hemp & Hh). rewrite Hg, Hh, app_nil_r, <- (TxPath.accepted_all _ Hall), Ha.
  assert (waiting = []) as ->; [|by rewrite app_nil_r]. destruct Hq as [Hq _]. apply (empty_iff _ _ Hq). by apply bool_decide_eq_true_1 in Hemp.
Qed.
Lemma frames_carried msgs : Forall sendable msgs -> carried (frames msgs) msgs.
Proof.
  intros Hs. split; [done|]. exists [], []. split; [by rewrite app_nil_r|]. split; [by exists (frame_message [])|done].
Qed.

(** [C14] A link that loses no payload is transparent. Let one adapter's
    connection carry the frames of its messages, in any pieces, through the
    modem's input and transmit threads under any schedule, until nothing is
    left to send; let the far modem's output server be given the payloads that
    were burst, in any rounds, from the one that accepts the other adapter on; and let the
    adapter read what it was written, in any pieces. Neither modem fails, and
    the adapter passes on exactly the messages, in order. *)
Theorem link_transparent ramp radio e t events server f popped rs msgs maxd delay adapter :
  TxPath.encoder_fine e -> Sources.source_ok t -> Sources.source_held t = [] ->
  TcpOutput.healthy server -> TcpOutput.fresh (TcpOutput.MkRound (Some f) popped :: rs) server -> f ∉ TcpOutput.accepted_fds rs ->
  Forall sendable msgs -> Forall stays adapter ->
  match TxPath.tx_run ramp events (TxPath.tx_start radio t e),
        TcpOutput.output_rounds (TcpOutput.MkRound (Some f) popped :: rs) server with
  | Ok (l, s), Ok (out, srv) =>
      TxPath.got l = frames msgs -> all_sent l s ->
      payloads (TcpOutput.MkRound (Some f) popped :: rs) = fst <$> TxPath.sent l ->
      f ∈ TcpOutput.fds srv -> streams adapter = (TcpOutput.sent_to f out, []) ->
      exists buf, run_rx maxd delay [] adapter = Ok (msgs, buf, true)
  | _, _ => False
  end.
Proof.
  intros He Ht Hh Hsrv Hfr Hnot Hm Ha. destruct (TxPath.tx_run_inv ramp e events _ _ (TxPath.path_start ramp e radio t He Ht Hh)) as (l & s & -> & Hinv).
  unfold TxPath.log_app in Hinv. cbn [app TxPath.got TxPath.offers TxPath.sent TxPath.aired] in Hinv.
  destruct (TcpOutput.connection_spec (TcpOutput.MkRound (Some f) popped) rs server f Hsrv Hfr eq_refl Hnot)
    as (out & srv & -> & _ & _ & Hs). intros Hg Hall Hp Hf Hst.
  assert (TcpOutput.sent_to f out = frames msgs) as Eb.
  { rewrite (Hs Hf). pose proof (all_sent_bytes ramp e _ s Hinv Hall) as Ebytes. cbn [TxPath.got TxPath.sent] in Ebytes.
    rewrite <- Hg, Ebytes, <- Hp. unfold TcpOutput.taken_bytes, payloads. clear. generalize (TcpOutput.MkRound (Some f) popped :: rs). intros rs0. induction rs0 as [|r rs1 IH]; [done|].
    cbn [fmap list_fmap concat]. by rewrite concat_app, <- IH. }
  destruct (run_rx_streams maxd delay adapter [] msgs [] Ha) as [buf ->].
  - rewrite Hst. cbn [fst app]. rewrite Eb. by apply frames_carried.
  - destruct msgs; [done|]. cbn. lia.
  - rewrite Hst. constructor.
  - exists buf. by rewrite app_nil_r.
Qed.
End link.

#[local] Existing Instance Codec.taylor_libm.

Definition link_events : list (TxPath.tx_event (R := TcpInput.round)) :=
  [TxPath.Input (TcpInput.MkRound (TcpInput.PollReady (Some 5) false (fun _ => [])) 0 0);
   TxPath.Input (TcpInput.MkRound (TcpInput.PollReady None true (fun _ => [0; 0])) 1 1);
   TxPath.Input (TcpInput.MkRound (TcpInput.PollReady None true (fun _ => [0; 1; 65])) 2 2);
   TxPath.Input (TcpInput.MkRound (TcpInput.PollReady None true (fun _ => [])) 3 3); TxPath.Transmit [10000]].

Lemma link_transparent_witness :
  match TxPath.tx_run 0 link_events (TxPath.tx_start TxPath.sample_radio (TcpInput.input_start Sources.FRAME_SIZE 0) TxPath.sample_encoder),
        TcpOutput.output_rounds [TcpOutput.MkRound (Some 6) [([0; 0; 0; 1; 65], fun _ _ => 3)]] TcpOutput.output_start with
  | Ok (l, s), Ok (out, srv) => exists buf, run_rx 30000 1000 [] [RxRead 3 [0; 0; 0] []; RxRead 2 [1; 65] []] = Ok ([[65]], buf, true)
  | _, _ => False
  end.
Proof.
  pose proof (link_transparent 0 TxPath.sample_radio TxPath.sample_encoder (TcpInput.input_start Sources.FRAME_SIZE 0) link_events TcpOutput.output_start 6
    [([0; 0; 0; 1; 65], fun _ _ => 3)] [] [[65]] 30000 1000 [RxRead 3 [0; 0; 0] []; RxRead 2 [1; 65] []]) as Hl.
  assert (match TxPath.tx_run 0 link_events (TxPath.tx_start TxPath.sample_radio (TcpInput.input_start Sources.FRAME_SIZE 0) TxPath.sample_encoder) with
          | Ok (l, s) => TxPath.got l = [0; 0; 0; 1; 65] /\ all_sent l s /\ fst <$> TxPath.sent l = [[0; 0; 0; 1; 65]] | Err _ => False end) as Htx.
  { unfold all_sent. vm_compute. repeat split. repeat constructor. }
  assert (match TcpOutput.output_rounds [TcpOutput.MkRound (Some 6) [([0; 0; 0; 1; 65], fun _ _ => 3)]] TcpOutput.output_start with
          | Ok (out, srv) => TcpOutput.fds srv = [6] /\ TcpOutput.sent_to 6 out = [0; 0; 0; 1; 65] | Err _ => False end) as Hrx.
  { vm_compute. split; reflexivity. }
  destruct (TxPath.tx_run _ _ _) as [[l s]|]; [|destruct Htx]. destruct (TcpOutput.output_rounds _ _) as [[out srv]|]; [|destruct Hrx].
  destruct Htx as (Hg & Hall & Hp). destruct Hrx as (Hfd & Hs). apply Hl.
  - exact TxPath.sample_encoder_fine.
  - split; [reflexivity|unfold Sources.FRAME_SIZE; cbn; lia].
  - reflexivity.
  - exact TcpOutput.start_healthy.
  - apply (bool_decide_unpack _). vm_compute. exact I.
  - apply not_elem_of_nil.
  - apply Forall_cons_2; [unfold sendable; cbn [length]; lia|apply Forall_nil_2].
  - repeat (apply Forall_cons_2; [left; lia|]). apply Forall_nil_2.
  - exact Hg.
  - exact Hall.
  - rewrite Hp. reflexivity.
  - rewrite Hfd. by left.
  - rewrite Hs. reflexivity.
Defined.

(** ** What the link does not survive *)

(** The payloads a modem makes of a buffered stream that then stays idle. *)
Definition cut (stream : list Z) : list (list Z) :=
  let s := TcpInput.set_buffer stream (TcpInput.make_server Sources.FRAME_SIZE) in
  let '(frames, s) := TcpInput.frames_loop (S (length stream)) s in
  frames ++ fst (TcpInput.flush_chunk s).

(** A message of 1100 bytes takes two payloads. If the first is lost, the
    reader takes the second one's first bytes for a length: it passes on
    messages nobody sent, or reads outside its buffer. *)
Example payload_lost :
  read_chunks [] (drop 1 (cut (frame_message (replicate (Z.to_nat 1100) 0)))) = Ok (replicate 20 [], []) /\
  read_chunks [] (drop 1 (cut (frame_message (replicate (Z.to_nat 1100) 255)))) = Err Undefined.
Proof. vm_compute. split; reflexivity. Qed.

(** The adapter's connection fails after three bytes of a frame, which the
    modem sends on, and the frame is written again from its start on the next
    one: the far reader, whose connection never failed, passes on an empty
    message and waits for 321 bytes. *)
Example reconnection_misaligns :
  let '(conns, _, _) := run_tx [[65]] ([], []) [3; -1; 5] in
  conns = ([[0; 0; 0]], [0; 0; 0; 1; 65]) /\ read_chunks [] (fst conns ++ [snd conns]) = Ok ([[]], [0; 0; 1; 65]).
Proof. vm_compute. split; reflexivity. Qed.

End Link.
