(* ===== verification/Device.v ===== *)
(** * Setting up the radio (src/b200_interface.cpp, src/main.cpp)

    The constructor and the configuration of [B200Interface] as calls of the
    UHD driver, which answers each after the ones before it with an exception
    or a value; the build without UHD; and what [main] makes of their
    failures. The loops over the streamers are in [Radio]. *)
From S2P Require Import Prelude Float Dsp Fec Modem Codec Radio QpskConfig.
Import Float QpskConfig B200.

Module Device.

Inductive direction := Tx | Rx.

(** The calls of the driver, with the arguments they get from the
    configuration. [Make] takes the first device found. *)
Inductive uhd_call :=
  | Find (serial : option string)
  | Make
  | SetRate (d : direction) (rate : double)
  | SetFreq (d : direction) (freq : double)
  | SetGain (d : direction) (gain : double)
  | SetAntenna (d : direction) (antenna : string)
  | GetStream (d : direction)
  | IssueStreamCmd (start : bool).

(** Code that calls the driver: from the calls made so far to those made then
    and an exception or a value. *)
Definition dev (A : Type) : Type := list uhd_call -> list uhd_call * (exn + A).

#[global] Instance dev_ret : MRet dev := fun A a h => (h, inr a).
#[global] Instance dev_bind : MBind dev := fun A B f m h =>
  match m h with (h, inr a) => f a h | (h, inl e) => (h, inl e) end.

Definition throw {A} (e : exn) : dev A := fun h => (h, inl e).

Definition stream (d : direction) (b : B200Interface) : bool := match d with Tx => tx_stream b | Rx => rx_stream b end.

Definition set_stream (d : direction) (b : B200Interface) : B200Interface :=
  match d with Tx => MkB200 true (rx_stream b) | Rx => MkB200 (tx_stream b) true end.

(** Whether a mode uses a direction. *)
Definition uses (d : direction) (m : AppMode) : bool :=
  match d, m with Tx, RX_ONLY | Rx, TX_ONLY => false | _, _ => true end.

Section device.
(** Whether UHD is compiled in, and what its calls answer; [find] tells whether
    there is a device, the other values are not used. *)
Context (with_uhd : bool) (answer : list uhd_call -> uhd_call -> exn + bool).

Definition call (c : uhd_call) : dev bool := fun h => (h ++ [c], answer h c).

Definition serial_hint (c : Config) : option string := if decide (device_serial c = EmptyString) then None else Some (device_serial c).

(** The build without UHD: the constructor only warns, and every method
    throws. *)
Definition stub_construct : dev B200Interface := mret (MkB200 false false).
Definition stub_method {A} : dev A := throw RuntimeError.

Definition construct (c : Config) : dev B200Interface :=
  if with_uhd then
    found ← call (Find (serial_hint c));
    if (found : bool) then _ ← call Make; mret (MkB200 false false) else throw RuntimeError
  else stub_construct.

(** The five calls of either direction; the stream is the last. *)
Definition config_calls (d : direction) (c : Config) : list uhd_call :=
  match d with
  | Tx => [SetRate Tx (sample_rate c); SetFreq Tx (effective_tx_freq c); SetGain Tx (tx_gain c); SetAntenna Tx (tx_antenna c); GetStream Tx]
  | Rx => [SetRate Rx (sample_rate c); SetFreq Rx (effective_rx_freq c); SetGain Rx (rx_gain c); SetAntenna Rx (rx_antenna c); GetStream Rx]
  end.

Fixpoint call_all (cs : list uhd_call) : dev unit :=
  match cs with
  | [] => mret tt
  | c :: cs' => _ ← call c; call_all cs'
  end.

Definition configure (d : direction) (c : Config) (b : B200Interface) : dev B200Interface :=
  if with_uhd then _ ← call_all (config_calls d c); mret (set_stream d b) else stub_method.

Definition configure_tx : Config -> B200Interface -> dev B200Interface := configure Tx.
Definition configure_rx : Config -> B200Interface -> dev B200Interface := configure Rx.

Definition start_rx_stream (b : B200Interface) : dev unit :=
  if with_uhd then if rx_stream b then _ ← call (IssueStreamCmd true); mret tt else throw RuntimeError else stub_method.

Definition stop_rx_stream (b : B200Interface) : dev unit :=
  if with_uhd then if rx_stream b then _ ← call (IssueStreamCmd false); mret tt else throw RuntimeError else stub_method.

(** ** What [main] does *)

(** A configuration that throws leaves the object as it was. *)
Definition try_configure (d : direction) (c : Config) (m : AppMode) (st : list uhd_call * bool * B200Interface) : list uhd_call * bool * B200Interface :=
  let '(h, ok, b) := st in
  if ok && uses d m then
    match configure d c b h with
    | (h, inr b) => (h, true, b)
    | (h, inl _) => (h, false, b)
    end
  else (h, ok, b).

(** The two attempts: the second constructs an interface that is not
    configured, and if it throws, [b200] keeps what it holds. *)
Definition init_b200 (c : Config) (m : AppMode) : list uhd_call * option B200Interface :=
  let '(h, ok, b) :=
    match construct c [] with
    | (h, inl _) => (h, false, None)
    | (h, inr b) => let '(h, ok, b) := try_configure Rx c m (try_configure Tx c m (h, true, b)) in (h, ok, Some b)
    end in
  if (ok : bool) then (h, b) else
  match construct c h with
  | (h, inr b) => (h, Some b)
  | (h, inl _) => (h, b)
  end.

(** The receive thread's loop is entered if the stream starts. *)
Definition streaming (b : option B200Interface) (h : list uhd_call) : list uhd_call * bool :=
  match b with
  | None => (h, false)
  | Some b => match start_rx_stream b h with (h, inr _) => (h, true) | (h, inl _) => (h, false) end
  end.

(** ** The direction that has a stream was configured *)

(** The calls [cs], from the history [h] on, were all answered. *)
Definition answered (h cs : list uhd_call) : Prop :=
  forall i c, cs !! i = Some c -> exists x, answer (h ++ take i cs) c = inr x.

Definition configured (d : direction) (c : Config) (calls : list uhd_call) : Prop :=
  exists pre post, calls = pre ++ config_calls d c ++ post /\ answered pre (config_calls d c).

Lemma call_all_spec cs : forall h,
  match call_all cs h with
  | (h', inr _) => h' = h ++ cs /\ answered h cs
  | (h', inl _) => exists made, h' = h ++ made /\ made `prefix_of` cs
  end.
Proof.
  induction cs as [|c cs IH]; intros h; cbn [call_all].
  - split; [by rewrite app_nil_r|]. intros i c0 Hc. done.
  - unfold mbind, dev_bind, call. destruct (answer h c) as [e|x] eqn:Ea.
    + exists [c]. split; [done|]. by exists cs.
    + specialize (IH (h ++ [c])). destruct (call_all cs (h ++ [c])) as [h' [e|[]]].
      * destruct IH as (made & -> & [t ->]). exists (c :: made). rewrite <- app_assoc. split; [done|]. by exists t.
      * destruct IH as [-> Ha]. rewrite <- app_assoc. split; [done|]. intros [|i] c0 Hc; cbn in Hc.
        { injection Hc as <-. cbn. rewrite app_nil_r. by exists x. }
        destruct (Ha i c0 Hc) as [y Hy]. exists y. cbn [take]. by rewrite <- app_assoc in Hy.
Qed.

(** History only grows, and calls answered stay part of it. *)
Lemma configured_app d c calls more : configured d c calls -> configured d c (calls ++ more).
Proof. intros (pre & post & -> & Ha). exists pre, (post ++ more). by rewrite !app_assoc. Qed.

Lemma construct_spec c h : exists made, fst (construct c h) = h ++ made /\ forall b, snd (construct c h) = inr b -> b = MkB200 false false.
Proof.
  unfold construct. destruct with_uhd; [|exists []; rewrite app_nil_r; split; [done|]; by intros b [= <-]].
  unfold mbind, dev_bind, call. destruct (answer h _) as [e|[]]; [by exists [Find (serial_hint c)]| |by exists [Find (serial_hint c)]].
  destruct (answer _ Make) as [e|x]; (eexists; split; [cbn; by rewrite <- app_assoc|]); intros b [= <-]. done.
Qed.

(** What holds of an interface after the calls [h]. *)
Definition sound (c : Config) (m : AppMode) (h : list uhd_call) (b : B200Interface) : Prop :=
  forall d, stream d b = true -> uses d m = true /\ configured d c h.

Lemma sound_app c m h more b : sound c m h b -> sound c m (h ++ more) b.
Proof. intros Hs d Hd. destruct (Hs d Hd) as [Hu Hc]. split; [done|]. by apply configured_app. Qed.

Lemma try_configure_sound d c m h ok b :
  sound c m h b -> let '(h', _, b') := try_configure d c m (h, ok, b) in sound c m h' b'.
Proof.
  intros Hs. unfold try_configure. destruct (ok && uses d m) eqn:E; [|done]. apply andb_true_iff in E as [_ Hu].
  unfold configure. destruct with_uhd; [|done]. unfold mbind, dev_bind. pose proof (call_all_spec (config_calls d c) h) as Hc.
  destruct (call_all (config_calls d c) h) as [h' [e|u]].
  - destruct Hc as (made & -> & _). by apply sound_app.
  - destruct Hc as [-> Ha]. cbn. assert (configured d c (h ++ config_calls d c)) as Hd by (exists h, []; by rewrite app_nil_r).
    pose proof (sound_app c m h (config_calls d c) b Hs) as Hs'. intros [] Hst; destruct d; first [by split|by apply Hs'].
Qed.

Lemma init_sound c m : let '(h, b) := init_b200 c m in match b with Some b => sound c m h b | None => True end.
Proof.
  unfold init_b200. assert (forall h, sound c m h (MkB200 false false)) as H0 by (by intros h []).
  destruct (construct_spec c []) as (m1 & E1 & B1). destruct (construct c []) as [h1 [e|b1]]; cbn [fst snd] in *.
  - destruct (construct_spec c h1) as (m2 & E2 & B2). destruct (construct c h1) as [h2 [e2|b2]]; cbn [snd] in *; [done|]. rewrite (B2 b2 eq_refl). apply H0.
  - rewrite (B1 b1 eq_refl). pose proof (try_configure_sound Tx c m h1 true _ (H0 h1)) as HT.
    destruct (try_configure Tx c m _) as [[h2 ok2] b2]. pose proof (try_configure_sound Rx c m h2 ok2 b2 HT) as HR.
    destruct (try_configure Rx c m _) as [[h3 ok3] b3]. destruct ok3; [done|].
    destruct (construct_spec c h3) as (m4 & E4 & B4). destruct (construct c h3) as [h4 [e4|b4]]; cbn [fst snd] in *.
    + subst h4. by apply sound_app.
    + rewrite (B4 b4 eq_refl). apply H0.
Qed.

(** ** A driver that answers *)

Definition script (c : Config) (m : AppMode) : list uhd_call :=
  [Find (serial_hint c); Make] ++ (if uses Tx m then config_calls Tx c else []) ++ (if uses Rx m then config_calls Rx c else []).

Definition ready (m : AppMode) : B200Interface := MkB200 (uses Tx m) (uses Rx m).

Lemma call_all_ok cs h : (forall h' c, answer h' c = inr true) -> call_all cs h = (h ++ cs, inr tt).
Proof.
  intros Ha. revert h. induction cs as [|c cs IH]; intros h; cbn [call_all]; [by rewrite app_nil_r|].
  unfold mbind, dev_bind, call. rewrite Ha, IH. by rewrite <- app_assoc.
Qed.

Lemma try_configure_ok d c m h b :
  with_uhd = true -> (forall h' c, answer h' c = inr true) ->
  try_configure d c m (h, true, b) = (h ++ (if uses d m then config_calls d c else []), true, if uses d m then set_stream d b else b).
Proof.
  intros Hu Ha. unfold try_configure, configure. rewrite Hu. destruct (uses d m); cbn [andb]; [|by rewrite app_nil_r].
  unfold mbind, dev_bind. by rewrite call_all_ok.
Qed.

Lemma init_ready c m :
  with_uhd = true -> (forall h' c, answer h' c = inr true) -> init_b200 c m = (script c m, Some (ready m)).
Proof.
  intros Hu Ha. unfold init_b200, construct. rewrite Hu. unfold mbind, dev_bind, call. rewrite !Ha. cbn [app mret dev_ret].
  rewrite !try_configure_ok by done. unfold script, ready. rewrite <- app_assoc. by destruct m.
Qed.

(** [C23] The radio the threads run on was set up as configured. With whatever
    exceptions the driver interrupts [main]'s two attempts, a direction has a
    stream only if the mode uses it and the driver answered, one after another
    and in this order, the calls that set its rate, its frequency (the
    direction's own if there is one), gain and antenna and open the stream,
    with the configuration's values. If the driver throws nothing and finds a
    device, there is one attempt and exactly the directions of the mode have
    streams; without UHD none has. *)
Theorem device_configured c m :
  (let '(calls, b) := init_b200 c m in
   match b with
   | Some b => forall d, stream d b = true -> uses d m = true /\ configured d c calls
   | None => True
   end) /\
  (if with_uhd then (forall h' c', answer h' c' = inr true) -> init_b200 c m = (script c m, Some (ready m))
   else init_b200 c m = ([], Some (MkB200 false false))).
Proof.
  split; [apply init_sound|]. pose proof (init_ready c m) as Hr. revert Hr. unfold init_b200, try_configure, configure, construct.
  destruct with_uhd; [by intros Hr; apply Hr|]. intros _. by destruct m.
Qed.
End device.

Lemma device_configured_witness : init_b200 true (fun _ _ => inr true) defaults TX_RX = (script defaults TX_RX, Some (ready TX_RX)).
Proof. exact (proj2 (device_configured true (fun _ _ => inr true) defaults TX_RX) (fun _ _ => eq_refl)). Defined.

(** The receiver cannot be configured: what was configured of the transmitter
    is discarded with the first interface; but if the device cannot be opened
    twice, [main] reports that the threads will idle, and they run on the
    first interface. *)
Example half_configured :
  let fails := fun h c => match c with GetStream Rx => inl RuntimeError | _ => inr true end in
  let fails_once_open := fun h c => match c with GetStream Rx => inl RuntimeError | Find _ => inr (bool_decide (h = [])) | _ => inr true end in
  snd (init_b200 true fails defaults TX_RX) = Some (MkB200 false false) /\
  snd (init_b200 true fails_once_open defaults TX_RX) = Some (MkB200 true false).
Proof. vm_compute. split; reflexivity. Qed.
End Device.
