(* ===== verification/ModemSockets.v ===== *)
(** * The modem's sockets (src/tcp_input_server.cpp,
    src/tcp_output_server.cpp, src/udp_input.cpp, src/udp_output.cpp)

    The two TCP servers and the two UDP sockets of [Servers] with their
    descriptors: opening, every operation of their threads, and [stop]. [Sockets]
    is what [main] needs of any of them; each module after it is one. *)
From S2P Require Import Prelude Descriptors Servers Pipeline.
Import Descriptors Sources Sinks.

Module Sockets.

(** An object with sockets: the descriptors it holds, what its fields keep to,
    when [start] succeeds, [start] and [stop]. *)
Class Socket (S : Type) := {
  sock_fds : S -> list Z;
  sock_ok : S -> Prop;
  sock_starts : S -> setup -> bool;
  sock_start : setup -> S -> list syscall * outcome () * S;
  sock_stop : S -> list syscall * S }.

(** [start] throws unless every call succeeds, and then holds nothing. [stop]
    leaves nothing open. *)
Class SocketLaws (S : Type) `{Socket S} := {
  start_spec a s :
    sock_ok s -> sock_fds s = [] ->
    let '(calls, result, s') := sock_start a s in
    sock_ok s' /\ result = (if sock_starts s a then Ok () else Err (Throw RuntimeError)) /\
    (sock_starts s a = false -> sock_fds s' = []) /\
    forall rest open, has rest [] open -> legal calls (has rest (sock_fds s')) open;
  stop_spec s :
    sock_ok s ->
    let '(calls, s') := sock_stop s in
    sock_ok s' /\ sock_fds s' = [] /\ forall rest open, has rest (sock_fds s) open -> legal calls (has rest []) open }.

(** One that an input thread reads from: the thread's variables at its start,
    and the calls of a round. *)
Class Reader (T R : Type) `{Source T R} `{Socket T} := {
  spawn : Z -> T -> T;
  round_calls : R -> T -> list syscall }.

Class ReaderLaws (T R : Type) `{Reader T R} := {
  started_fine a t : source_ok t -> source_ok (snd (sock_start a t));
  spawn_spec now t :
    sock_ok t -> source_ok t ->
    sock_ok (spawn now t) /\ source_ok (spawn now t) /\ sock_fds (spawn now t) = sock_fds t /\ source_held (spawn now t) = source_held t;
  start_held a t : source_held (snd (sock_start a t)) = source_held t;
  round_spec r t :
    sock_ok t ->
    let t' := snd (source_round r t) in
    sock_ok t' /\ forall rest open, has rest (sock_fds t) open -> legal (round_calls r t) (has rest (sock_fds t')) open }.

(** One that an output thread writes to. *)
Class Writer (O A W : Type) `{Sink O A W} `{Socket O} := {
  poll_calls : A -> O -> list syscall;
  write_calls : A -> list (list Z) -> O -> list syscall }.

Class WriterLaws (O A W : Type) `{Writer O A W} := {
  poll_spec a o :
    sock_ok o ->
    sock_ok (sink_poll a o) /\ forall rest open, has rest (sock_fds o) open -> legal (poll_calls a o) (has rest (sock_fds (sink_poll a o))) open;
  write_spec a payloads o out o' :
    sock_ok o -> sink_write a payloads o = Ok (out, o') ->
    sock_ok o' /\ forall rest open, has rest (sock_fds o) open -> legal (write_calls a payloads o) (has rest (sock_fds o')) open }.

(** What an object that listens or is bound does, [fd] being its descriptor
    after the calls that open it. *)
Lemma open_spec (b : bool) (calls : list syscall) (fd : Z) :
  (fd <? 0) = negb b -> (forall rest open, has rest [] open -> legal calls (has rest (fd_of fd ++ [])) open) ->
  (if fd <? 0 then Err (Throw RuntimeError) else Ok ()) = (if b then Ok () else Err (Throw RuntimeError)) /\
  (b = false -> fd_of fd = []) /\ forall rest open, has rest [] open -> legal calls (has rest (fd_of fd)) open.
Proof. rewrite app_nil_r. intros Hb Hl. rewrite Hb. split; [by destruct b|]. split; [|exact Hl]. intros ->. by apply fd_of_none. Qed.
End Sockets.
Import Sockets.

Module InputServer.

(** [TcpInputServer]: the listening socket, and the rest of the object with
    the variables of its thread. *)
Record InputSocket := MkSocket { listen_fd : Z; loop : TcpInput.InputThread }.

Definition server (s : InputSocket) : TcpInput.TcpInputServer := TcpInput.server (loop s).

Definition set_listening (b : bool) (s : TcpInput.TcpInputServer) : TcpInput.TcpInputServer :=
  TcpInput.MkInput (TcpInput.frame_size s) b (TcpInput.client_fd s) (TcpInput.client_bytes_received s) (TcpInput.buffer s).

Definition set_server (srv : TcpInput.TcpInputServer) (t : TcpInput.InputThread) : TcpInput.InputThread :=
  TcpInput.MkInputThread srv (TcpInput.was_connected t) (TcpInput.last_data_time t) (TcpInput.last_buffered t).

Definition make (frame_size : nat) : InputSocket :=
  MkSocket (-1) (TcpInput.MkInputThread (TcpInput.MkInput frame_size false None 0 []) false 0 0).

(** [start] throws when a call fails. *)
Definition start (a : setup) (s : InputSocket) : list syscall * outcome () * InputSocket :=
  let '(calls, fd) := open_listener a in
  (calls, if fd <? 0 then Err (Throw RuntimeError) else Ok (),
   MkSocket fd (set_server (set_listening (negb (fd <? 0)) (server s)) (loop s))).

Definition disconnect_calls (s : TcpInput.TcpInputServer) : list syscall := Closes <$> option_list (TcpInput.client_fd s).

(** The calls of [poll_once]: [poll] on the sockets there are; [accept], and
    the end of the client it replaces; [recv], and the end of a client that
    has closed. *)
Definition poll_once_calls (answer : TcpInput.poll_answer) (s : InputSocket) : list syscall :=
  if listen_fd s <? 0 then [] else
  Uses (listen_fd s) :: (Uses <$> option_list (TcpInput.client_fd (server s))) ++
  match answer with
  | TcpInput.PollError | TcpInput.PollTimeout => []
  | TcpInput.PollReady accepted client_ready recv =>
      match accepted with
      | Some new_fd => Opens new_fd :: disconnect_calls (server s)
      | None => []
      end ++
      let had_client := bool_decide (is_Some (TcpInput.client_fd (server s))) in
      match match accepted with Some new_fd => Some new_fd | None => TcpInput.client_fd (server s) end with
      | Some fd => if had_client && client_ready then Uses fd :: (match recv fd with [] => [Closes fd] | _ => [] end) else []
      | None => []
      end
  end.

Definition stop (s : InputSocket) : list syscall * InputSocket :=
  (disconnect_calls (server s) ++ close_fd (listen_fd s), MkSocket (-1) (set_server (TcpInput.stop (server s)) (loop s))).

(** The variables the thread begins with. *)
Definition spawn_thread (now : Z) (s : InputSocket) : InputSocket := MkSocket (listen_fd s) (TcpInput.MkInputThread (server s) false now 0).

Definition client_fds (s : TcpInput.TcpInputServer) : list Z := option_list (TcpInput.client_fd s).

#[global] Instance input_socket : Socket InputSocket := {
  sock_fds s := fd_of (listen_fd s) ++ client_fds (server s);
  sock_ok s := TcpInput.listening (server s) = negb (listen_fd s <? 0) /\ ((listen_fd s <? 0) = true -> TcpInput.client_fd (server s) = None);
  sock_starts _ := setup_succeeds;
  sock_start := start;
  sock_stop := stop }.

#[global] Instance input_source : Source InputSocket TcpInput.round := {
  source_round r s := let '(got, chunks, t) := source_round r (loop s) in (got, chunks, MkSocket (listen_fd s) t);
  source_held s := source_held (loop s);
  source_ok s := source_ok (loop s);
  source_limit := source_limit TcpInput.InputThread TcpInput.round }.

#[global] Instance input_reader : Reader InputSocket TcpInput.round := {
  spawn := spawn_thread;
  round_calls r := poll_once_calls (TcpInput.answer r) }.

#[global] Instance input_source_laws : SourceLaws InputSocket TcpInput.round.
Proof.
  split; [|apply (source_fits (T := TcpInput.InputThread) (R := TcpInput.round))]. intros r s got chunks s' Hok E. cbn [source_round input_source source_held source_ok source_limit] in *.
  destruct (source_round r (loop s)) as [[g ch] t] eqn:Er. injection E as <- <- <-. by apply (source_spec r (loop s)) in Er.
Qed.

#[global] Instance input_socket_laws : SocketLaws InputSocket.
Proof.
  split.
  - intros a s [Hl Hc] Hn. cbn [sock_start input_socket sock_fds sock_ok sock_starts] in *. unfold start.
    pose proof (fun rest => open_listener_legal a rest []) as Hcalls. pose proof (open_listener_fd a) as Hf. destruct (open_listener a) as [calls fd].
    cbn [fst snd] in *. apply app_nil in Hn as [Hn Hcl]. cbn [listen_fd server loop set_server TcpInput.server set_listening TcpInput.client_fd TcpInput.listening].
    unfold client_fds in *. cbn [server loop set_server TcpInput.server set_listening TcpInput.client_fd]. rewrite Hcl, app_nil_r.
    split; [split; [done|intros _; by destruct (TcpInput.client_fd (server s))]|]. by apply open_spec.
  - intros s _. cbn [sock_stop input_socket sock_fds sock_ok] in *. unfold stop, disconnect_calls, close_fd, client_fds in *.
    assert (TcpInput.client_fd (TcpInput.stop (server s)) = None) as Hc by (unfold TcpInput.stop, TcpInput.disconnect_client; by destruct (TcpInput.client_fd (server s)) eqn:E).
    split; [by split|]. split; [unfold server in *; cbn [listen_fd loop set_server TcpInput.server]; by rewrite Hc|]. intros rest open Hh. rewrite <- fmap_app. apply legal_close_all. rewrite app_nil_r. eapply has_perm; [apply Permutation_app_comm|exact Hh].
Qed.

(** A round after its [poll_once] keeps the sockets. *)
Definition same_sockets (s s' : TcpInput.TcpInputServer) : Prop :=
  TcpInput.listening s' = TcpInput.listening s /\ TcpInput.client_fd s' = TcpInput.client_fd s.

Lemma same_trans a b c : same_sockets a b -> same_sockets b c -> same_sockets a c.
Proof. unfold same_sockets. naive_solver congruence. Qed.

Lemma flush_same s : same_sockets s (snd (TcpInput.flush_chunk s)).
Proof. unfold TcpInput.flush_chunk, TcpInput.flush. cbn. by destruct (TcpInput.buffer s). Qed.

Lemma frames_same fuel : forall s, same_sockets s (snd (TcpInput.frames_loop fuel s)).
Proof.
  induction fuel as [|fuel IH]; intros s; cbn [TcpInput.frames_loop]; [done|]. destruct (TcpInput.has_frame s); [|done].
  assert (same_sockets s (snd (TcpInput.read_frame s))) as H1 by (unfold TcpInput.read_frame; by case_bool_decide).
  destruct (TcpInput.read_frame s) as [data s1]. destruct data as [|x data]; [exact H1|]. specialize (IH s1). destruct (TcpInput.frames_loop fuel s1) as [fs s2].
  exact (same_trans _ _ _ H1 IH).
Qed.

Lemma round_same r t :
  same_sockets (snd (TcpInput.poll_once (TcpInput.answer r) (TcpInput.server t))) (TcpInput.server (snd (TcpInput.input_round r t))).
Proof.
  unfold TcpInput.input_round. destruct (TcpInput.poll_once _ _) as [got s]. cbn [snd].
  pose proof (frames_same (S (length (TcpInput.buffer s))) s) as H1. destruct (TcpInput.frames_loop _ s) as [frames s1]. cbn [snd] in H1.
  assert (same_sockets s1 (snd (if TcpInput.was_connected t && negb (TcpInput.connected s1) then TcpInput.flush_chunk s1 else ([], s1)))) as H2.
  { destruct (_ && _); [apply flush_same|done]. }
  destruct (if _ && _ then TcpInput.flush_chunk s1 else _) as [leftover s2]. cbn [snd] in H2.
  pose proof (same_trans _ _ _ H1 H2) as H3. clear H1 H2.
  pose proof (same_trans _ _ _ H3 (flush_same s2)) as H4. destruct (TcpInput.flush_chunk s2) as [data s3]. cbn [snd] in *.
  by repeat case_match; simplify_eq.
Qed.

Lemma poll_listening answer s : TcpInput.listening (snd (TcpInput.poll_once answer s)) = TcpInput.listening s.
Proof.
  unfold TcpInput.poll_once, TcpInput.disconnect_client. destruct (TcpInput.listening s) eqn:E; [|done]. cbn [negb].
  repeat (case_match; cbn [snd TcpInput.set_client TcpInput.listening] in *; simplify_eq; try done).
Qed.

Lemma poll_once_legal answer s rest open :
  TcpInput.listening (server s) = negb (listen_fd s <? 0) -> has rest (fd_of (listen_fd s) ++ client_fds (server s)) open ->
  legal (poll_once_calls answer s) (has rest (fd_of (listen_fd s) ++ client_fds (snd (TcpInput.poll_once answer (server s))))) open.
Proof.
  intros Hok Hh. destruct s as [l [[fs li cf cb bu] wc ld lb]]. unfold server, client_fds in *. cbn in Hok. subst li. unfold poll_once_calls, TcpInput.poll_once.
  unfold server, disconnect_calls. cbn [listen_fd loop TcpInput.server TcpInput.listening TcpInput.client_fd] in *. unfold fd_of in *. destruct (l <? 0) eqn:El; cbn [negb]; [exact Hh|].
  eapply legal_use; [exact Hh|by left|]. rewrite legal_app. apply legal_uses.
  { intros fd Hfd. eapply has_open; [exact Hh|]. by right. }
  destruct answer as [| |[new|] ready recv]; cbn [snd TcpInput.client_fd TcpInput.set_client]; try exact Hh.
  - destruct cf as [old|]; cbn [option_list fmap list_fmap app bool_decide is_Some] in *.
    + eapply legal_open; [exact Hh|]. intros o Ho.
      assert (has rest (old :: [l; new]) o) as Ho' by (eapply has_perm; [exact (Permutation_rev [new; l; old])|exact Ho]).
      eapply legal_close; [exact Ho'|]. intros o1 Ho1. rewrite bool_decide_eq_true_2 by (by eexists). cbn [andb].
      destruct ready; [|exact Ho1]. eapply legal_use; [exact Ho1|by right; left|]. destruct (recv new); [|exact Ho1].
      eapply (has_perm _ _ [new; l]) in Ho1; [|apply Permutation_swap]. eapply legal_close; [exact Ho1|done].
    + eapply legal_open; [exact Hh|]. intros o Ho. rewrite bool_decide_eq_false_2 by (by intros []). cbn [andb legal].
      eapply has_perm; [apply Permutation_swap|exact Ho].
  - destruct cf as [old|]; cbn [option_list fmap list_fmap app] in *.
    + rewrite bool_decide_eq_true_2 by (by eexists). cbn [andb]. destruct ready; [|exact Hh].
      eapply legal_use; [exact Hh|by right; left|]. destruct (recv old); [|exact Hh].
      eapply (has_perm _ _ [old; l]) in Hh; [|apply Permutation_swap]. eapply legal_close; [exact Hh|done].
    + rewrite bool_decide_eq_false_2 by (by intros []). exact Hh.
Qed.

#[global] Instance input_reader_laws : ReaderLaws InputSocket TcpInput.round.
Proof.
  split.
  - intros a s Hs. cbn [sock_start input_socket source_ok input_source] in *. unfold start. by destruct (open_listener a).
  - intros now s Hok Hs. by split_and!.
  - intros a s. cbn [sock_start input_socket source_held input_source]. unfold start. by destruct (open_listener a).
  - intros r s [Hl Hc]. cbn [source_round input_source sock_ok sock_fds input_socket round_calls input_reader snd] in *.
    pose proof (round_same r (loop s)) as [S1 S2]. pose proof (poll_listening (TcpInput.answer r) (server s)) as Hp.
    pose proof (fun rest open => poll_once_legal (TcpInput.answer r) s rest open Hl) as Hg. cbn [tcp_source source_round].
    destruct (TcpInput.input_round r (loop s)) as [[got chunks] t]. unfold server, client_fds in *. cbn [snd listen_fd loop] in *. rewrite S1, S2.
    split; [|exact Hg]. split; [by rewrite Hp|]. intros Hn. rewrite <- Hc by done. unfold TcpInput.poll_once. rewrite Hl, Hn. done.
Qed.
End InputServer.

Module OutputServer.

(** [TcpOutputServer]: the listening socket and the rest of the object. *)
Record OutputSocket := MkSocket { listen_fd : Z; server : TcpOutput.TcpOutputServer }.

Definition make : OutputSocket := MkSocket (-1) (TcpOutput.MkOutput false []).

Definition start (a : setup) (s : OutputSocket) : list syscall * outcome () * OutputSocket :=
  let '(calls, fd) := open_listener a in
  (calls, if fd <? 0 then Err (Throw RuntimeError) else Ok (),
   MkSocket fd (TcpOutput.MkOutput (negb (fd <? 0)) (TcpOutput.clients (server s)))).

Definition poll_once_calls (accepted : option Z) (s : OutputSocket) : list syscall :=
  if listen_fd s <? 0 then [] else Uses (listen_fd s) :: (Opens <$> option_list accepted).

(** The calls of the loop over the clients, from the last down. *)
Fixpoint client_calls (sends : Z -> nat -> Z) (data : list Z) (i : nat) (clients : list TcpOutput.Client) : list syscall :=
  match i with
  | O => []
  | S idx =>
      match clients !! idx with
      | Some c =>
          let '(_, whole) := TcpOutput.send_loop (length data) (sends (TcpOutput.fd c)) (length data) in
          Uses (TcpOutput.fd c) :: (if whole then [] else [Closes (TcpOutput.fd c)]) ++ client_calls sends data idx clients
      | None => []
      end
  end.

Definition write_to_all_calls (sends : Z -> nat -> Z) (data : list Z) (s : TcpOutput.TcpOutputServer) : list syscall :=
  match data with
  | [] => []
  | _ => client_calls sends data (length (TcpOutput.clients s)) (TcpOutput.clients s)
  end.

(** The calls for payloads one after another. *)
Fixpoint drain_calls (popped : list (list Z * (Z -> nat -> Z))) (s : TcpOutput.TcpOutputServer) : list syscall :=
  match popped with
  | [] => []
  | (payload, sends) :: popped' =>
      write_to_all_calls sends payload s ++
      match TcpOutput.write_to_all sends payload s with Ok (_, s) => drain_calls popped' s | Err _ => [] end
  end.

Definition stop (s : OutputSocket) : list syscall * OutputSocket :=
  ((Closes <$> TcpOutput.fds (server s)) ++ close_fd (listen_fd s), MkSocket (-1) (TcpOutput.stop (server s))).

#[global] Instance output_socket : Socket OutputSocket := {
  sock_fds s := fd_of (listen_fd s) ++ TcpOutput.fds (server s);
  sock_ok s := TcpOutput.listening (server s) = negb (listen_fd s <? 0) /\ ((listen_fd s <? 0) = true -> TcpOutput.clients (server s) = []);
  sock_starts _ := setup_succeeds;
  sock_start := start;
  sock_stop := stop }.

#[global] Instance output_sink : Sink OutputSocket tcp_answer (Z * list Z) := {
  takes_all _ := true;
  sink_poll a s := MkSocket (listen_fd s) (sink_poll a (server s));
  sink_write a payloads s := '(out, srv) ← sink_write a payloads (server s); Ok (out, MkSocket (listen_fd s) srv) }.

#[global] Instance output_writer : Writer OutputSocket tcp_answer (Z * list Z) := {
  poll_calls a := poll_once_calls (fst a);
  write_calls a payloads s := drain_calls (tcp_payloads a payloads) (server s) }.

#[global] Instance output_sink_laws : SinkLaws OutputSocket tcp_answer (Z * list Z).
Proof.
  split. intros a payloads o. cbn [sink_write output_sink]. destruct (sink_total a payloads (server o)) as (out & srv & E).
  exists out, (MkSocket (listen_fd o) srv). by rewrite E.
Qed.

#[global] Instance output_socket_laws : SocketLaws OutputSocket.
Proof.
  split.
  - intros a s [Hl Hc] Hn. cbn [sock_start output_socket sock_fds sock_ok sock_starts] in *. unfold start.
    pose proof (fun rest => open_listener_legal a rest []) as Hcalls. pose proof (open_listener_fd a) as Hf. destruct (open_listener a) as [calls fd].
    cbn [fst snd listen_fd server TcpOutput.listening TcpOutput.clients] in *. apply app_nil in Hn as [Hn Hcl].
    assert (TcpOutput.clients (server s) = []) as E by (by apply fmap_nil_inv in Hcl).
    unfold TcpOutput.fds. cbn [TcpOutput.clients]. rewrite E, app_nil_r. split; [by split|]. by apply open_spec.
  - intros s _. cbn [sock_stop output_socket sock_fds sock_ok] in *. unfold stop, close_fd.
    split; [by split|]. split; [done|]. intros rest open Hh. rewrite <- fmap_app. apply legal_close_all. rewrite app_nil_r. eapply has_perm; [apply Permutation_app_comm|exact Hh].
Qed.

Lemma client_calls_legal sends data rest pre : forall front back open,
  has rest (pre ++ (TcpOutput.fd <$> front)) open ->
  legal (client_calls sends data (length front) (front ++ back)) (has rest (pre ++ filter (TcpOutput.takes sends data) (TcpOutput.fd <$> front))) open.
Proof.
  intros front. revert pre. induction front as [|c front IH] using rev_ind; intros pre back open Hh; [exact Hh|].
  rewrite length_app, Nat.add_1_r. cbn [client_calls]. rewrite <- app_assoc. cbn [app]. rewrite list_lookup_middle by done.
  rewrite fmap_app in *. cbn [fmap list_fmap] in *. rewrite filter_app.
  assert (TcpOutput.takes sends data (TcpOutput.fd c) <-> (TcpOutput.send_loop (length data) (sends (TcpOutput.fd c)) (length data)).2 = true) as Ht by done.
  destruct (TcpOutput.send_loop _ _ _) as [sent whole]. cbn [snd] in Ht.
  eapply legal_use; [exact Hh|rewrite !elem_of_app; right; right; by left|].
  assert (pre ++ (TcpOutput.fd <$> front) ++ [TcpOutput.fd c] ≡ₚ TcpOutput.fd c :: pre ++ (TcpOutput.fd <$> front)) as Hp.
  { rewrite app_assoc. apply Permutation_app_comm. }
  destruct whole; cbn [app].
  - rewrite filter_cons_True by (by apply Ht). eapply (has_perm _ _ _ _ Hp) in Hh. apply (IH (TcpOutput.fd c :: pre)) with (back := c :: back) in Hh.
    eapply legal_mono; [exact Hh|]. intros o Ho. eapply has_perm; [|exact Ho]. cbn [app]. rewrite app_assoc. apply (Permutation_app_comm [_]).
  - rewrite filter_cons_False by (intros Hx; by apply Ht in Hx). rewrite filter_nil, app_nil_r. eapply legal_close; [eapply has_perm; [exact Hp|exact Hh]|].
    intros o Ho. by apply IH.
Qed.

Lemma write_to_all_keeps sends data s out srv :
  TcpOutput.write_to_all sends data s = Ok (out, srv) ->
  TcpOutput.listening srv = TcpOutput.listening s /\ TcpOutput.fds srv = match data with [] => TcpOutput.fds s | _ => filter (TcpOutput.takes sends data) (TcpOutput.fds s) end.
Proof.
  unfold TcpOutput.write_to_all. intros E. destruct data as [|x data']; [by injection E as <- <-|].
  destruct (TcpOutput.write_loop_fds sends (x :: data') (TcpOutput.clients s) []) as (o & front' & E' & Hf). rewrite !app_nil_r in E'. rewrite E' in E.
  injection E as <- <-. by split.
Qed.

Lemma drain_keeps popped : forall s out srv,
  TcpOutput.drain_loop popped s = Ok (out, srv) ->
  TcpOutput.listening srv = TcpOutput.listening s /\ (TcpOutput.fds s = [] -> TcpOutput.fds srv = []).
Proof.
  induction popped as [|[payload sends] popped IH]; intros s out srv E; cbn [TcpOutput.drain_loop] in E; [by injection E as <- <-|].
  inv_ok E. destruct r as [o1 s1]. inv_ok E. destruct r as [o2 s2]. injection E as <- <-. apply write_to_all_keeps in E0 as [L1 F1].
  apply IH in E1 as [L2 F2]. split; [congruence|]. intros Hn. apply F2. rewrite F1, Hn. by destruct payload.
Qed.

Lemma write_to_all_legal sends data s rest pre out srv open :
  has rest (pre ++ TcpOutput.fds s) open -> TcpOutput.write_to_all sends data s = Ok (out, srv) ->
  legal (write_to_all_calls sends data s) (has rest (pre ++ TcpOutput.fds srv)) open.
Proof.
  intros Hh E. apply write_to_all_keeps in E as [_ ->]. unfold write_to_all_calls. destruct data as [|x data']; [done|].
  pose proof (client_calls_legal sends (x :: data') rest pre (TcpOutput.clients s) [] open Hh) as Hl. by rewrite app_nil_r in Hl.
Qed.

Lemma drain_calls_legal popped rest pre : forall s out srv open,
  has rest (pre ++ TcpOutput.fds s) open -> TcpOutput.drain_loop popped s = Ok (out, srv) ->
  legal (drain_calls popped s) (has rest (pre ++ TcpOutput.fds srv)) open.
Proof.
  induction popped as [|[payload sends] popped IH]; intros s out srv open Hh E; cbn [TcpOutput.drain_loop drain_calls] in *; [by injection E as <- <-|].
  inv_ok E. destruct r as [o1 s1]. inv_ok E. destruct r as [o2 s2]. injection E as <- <-. rewrite E0.
  eapply legal_seq; [by eapply write_to_all_legal|]. intros o Ho. by eapply IH.
Qed.

Lemma no_clients s : TcpOutput.fds s = [] <-> TcpOutput.clients s = [].
Proof. unfold TcpOutput.fds. split; [apply fmap_nil_inv|by intros ->]. Qed.

#[global] Instance output_writer_laws : WriterLaws OutputSocket tcp_answer (Z * list Z).
Proof.
  split.
  - intros a s [Hl Hc]. cbn [sink_poll output_sink tcp_sink sock_ok sock_fds output_socket poll_calls output_writer listen_fd server] in *.
    unfold poll_once_calls, TcpOutput.poll_once. rewrite Hl. destruct (listen_fd s <? 0) eqn:El; cbn [negb]; [by split|].
    destruct (a.1) as [fd|]; cbn [TcpOutput.listening TcpOutput.clients option_list fmap list_fmap];
      (split; [by split|]); intros rest open Hh; [|eapply legal_use; [exact Hh|rewrite fd_of_some by done; by left|exact Hh]].
    eapply legal_use; [exact Hh|rewrite fd_of_some by done; by left|]. eapply legal_open; [exact Hh|]. intros o Ho.
    unfold TcpOutput.fds. cbn [TcpOutput.clients]. rewrite fmap_app, app_assoc. eapply has_perm; [|exact Ho]. apply (Permutation_app_comm [fd]).
  - intros a payloads s out s' [Hl Hc] E. cbn [sink_write output_sink tcp_sink sock_ok sock_fds output_socket write_calls output_writer] in *.
    inv_ok E. destruct r as [o srv]. injection E as <- <-. cbn [listen_fd server]. pose proof (drain_keeps _ _ _ _ E0) as [L F].
    split; [|intros rest open Hh; by eapply drain_calls_legal]. split; [by rewrite L|]. intros Hn. by apply no_clients, F, no_clients, Hc.
Qed.
End OutputServer.

(** ** UDP *)

Module UdpSockets.

(** [UdpInput] and [UdpOutput], with their descriptors. *)
Record InSocket := MkIn { in_fd : Z; input : Udp.UdpInput }.
Record OutSocket := MkOut { out_fd : Z; output : Udp.UdpOutput }.

Definition make_in : InSocket := MkIn (-1) (Udp.MkUdpInput false 0 0).
Definition make_out : OutSocket := MkOut (-1) (Udp.MkUdpOutput false 0 0).

(** The counters are set once the socket is bound. *)
Definition start_in (a : setup) (u : InSocket) : list syscall * outcome () * InSocket :=
  let '(calls, fd) := open_bound a in
  if fd <? 0 then (calls, Err (Throw RuntimeError), MkIn fd (Udp.MkUdpInput false (Udp.datagrams_received (input u)) (Udp.bytes_received (input u))))
  else (calls, Ok (), MkIn fd (Udp.MkUdpInput true 0 0)).

(** The output is not bound: only [socket] is called. *)
Definition start_out (a : setup) (u : OutSocket) : list syscall * outcome () * OutSocket :=
  let fd := socket_ans a in
  if fd <? 0 then ([], Err (Throw RuntimeError), MkOut fd (Udp.MkUdpOutput false (Udp.datagrams_sent (output u)) (Udp.bytes_sent (output u))))
  else ([Opens fd], Ok (), MkOut fd (Udp.MkUdpOutput true 0 0)).

Definition stop_in (u : InSocket) : list syscall * InSocket :=
  (close_fd (in_fd u), MkIn (-1) (Udp.MkUdpInput false (Udp.datagrams_received (input u)) (Udp.bytes_received (input u)))).

Definition stop_out (u : OutSocket) : list syscall * OutSocket :=
  (close_fd (out_fd u), MkOut (-1) (Udp.MkUdpOutput false (Udp.datagrams_sent (output u)) (Udp.bytes_sent (output u)))).

(** A round: [None] if [poll] finds nothing, else what [recvfrom] returns. *)
Definition udp_round : Type := option (option (list Z)).

Definition recv_calls (r : udp_round) (u : InSocket) : list syscall :=
  if in_fd u <? 0 then [] else Uses (in_fd u) :: match r with Some _ => [Uses (in_fd u)] | None => [] end.

Definition send_calls (valid_addr : bool) (data : list Z) (u : OutSocket) : list syscall :=
  if (out_fd u <? 0) || bool_decide (data = []) || negb valid_addr then [] else [Uses (out_fd u)].

#[global] Instance in_socket : Socket InSocket := {
  sock_fds u := fd_of (in_fd u);
  sock_ok u := Udp.in_open (input u) = negb (in_fd u <? 0);
  sock_starts _ := bind_succeeds;
  sock_start := start_in;
  sock_stop := stop_in }.

#[global] Instance in_source : Source InSocket udp_round := {
  source_round r u := let '(got, chunks, i) := source_round (mjoin r) (input u) in (got, chunks, MkIn (in_fd u) i);
  source_held u := source_held (input u);
  source_ok u := source_ok (input u);
  source_limit := source_limit Udp.UdpInput (option (list Z)) }.

#[global] Instance in_reader : Reader InSocket udp_round := { spawn _ u := u; round_calls := recv_calls }.

#[global] Instance out_socket : Socket OutSocket := {
  sock_fds u := fd_of (out_fd u);
  sock_ok u := Udp.out_open (output u) = negb (out_fd u <? 0);
  sock_starts _ a := 0 <=? socket_ans a;
  sock_start := start_out;
  sock_stop := stop_out }.

#[global] Instance out_sink : Sink OutSocket udp_answer (list Z) := {
  takes_all _ := false;
  sink_poll _ u := u;
  sink_write a payloads u := '(out, o) ← sink_write a payloads (output u); Ok (out, MkOut (out_fd u) o) }.

#[global] Instance out_writer : Writer OutSocket udp_answer (list Z) := {
  poll_calls _ _ := [];
  write_calls a payloads u := concat ((fun p => send_calls (fst a) p u) <$> payloads) }.

#[global] Instance in_source_laws : SourceLaws InSocket udp_round.
Proof.
  split; [|apply (source_fits (T := Udp.UdpInput) (R := option (list Z)))]. intros r u got chunks u' Hok E. cbn [source_round in_source source_held source_ok source_limit] in *.
  destruct (source_round (mjoin r) (input u)) as [[g ch] t] eqn:Er. injection E as <- <- <-. by apply (source_spec (mjoin r) (input u)) in Er.
Qed.

#[global] Instance out_sink_laws : SinkLaws OutSocket udp_answer (list Z).
Proof.
  split. intros a payloads o. cbn [sink_write out_sink]. destruct (sink_total a payloads (output o)) as (out & o' & E).
  exists out, (MkOut (out_fd o) o'). by rewrite E.
Qed.

#[global] Instance in_socket_laws : SocketLaws InSocket.
Proof.
  split.
  - intros a u Hok Hn. cbn [sock_start in_socket sock_fds sock_ok sock_starts] in *. unfold start_in.
    pose proof (fun rest => open_bound_legal a rest []) as Hcalls. pose proof (open_bound_fd a) as Hf. destruct (open_bound a) as [calls fd]. cbn [fst snd] in *.
    pose proof (open_spec _ _ _ Hf Hcalls) as (H1 & H2 & H3). destruct (fd <? 0) eqn:E; cbn [in_fd input Udp.in_open]; rewrite E; by split_and!.
  - intros u _. cbn [sock_stop in_socket sock_fds sock_ok] in *. unfold stop_in, close_fd. split; [done|]. split; [done|].
    intros rest open Hh. apply legal_close_all. by rewrite app_nil_r.
Qed.

#[global] Instance out_socket_laws : SocketLaws OutSocket.
Proof.
  split.
  - intros a u Hok Hn. cbn [sock_start out_socket sock_fds sock_ok sock_starts] in *. unfold start_out.
    destruct (socket_ans a <? 0) eqn:E; cbn [out_fd output Udp.out_open]; rewrite E.
    + destruct (0 <=? socket_ans a) eqn:E2; [lia|]. rewrite fd_of_none by done. by split_and!.
    + destruct (0 <=? socket_ans a) eqn:E2; [|lia]. rewrite fd_of_some by done. split_and!; try done. intros rest open Hh Hfd. by apply has_new.
  - intros u _. cbn [sock_stop out_socket sock_fds sock_ok] in *. unfold stop_out, close_fd. split; [done|]. split; [done|].
    intros rest open Hh. apply legal_close_all. by rewrite app_nil_r.
Qed.

Lemma in_open_kept (d : option (list Z)) (u : Udp.UdpInput) : Udp.in_open (snd (source_round d u)) = Udp.in_open u.
Proof.
  cbn [source_round udp_source]. unfold Udp.udp_input_round, Udp.recv_datagram. destruct (Udp.in_open u) eqn:E; cbn [negb]; [|by cbn].
  by destruct (take _ <$> d) as [[|x l]|].
Qed.

Lemma out_open_kept b popped : forall u, Udp.out_open (snd (Udp.udp_output_loop b popped u)) = Udp.out_open u.
Proof.
  induction popped as [|[p n] popped IH]; intros u; cbn [Udp.udp_output_loop]; [done|].
  assert (Udp.out_open (snd (Udp.send_datagram b n p u)) = Udp.out_open u) as H1 by (unfold Udp.send_datagram; by destruct (_ || _ || _), n).
  destruct (Udp.send_datagram b n p u) as [[o r] u1]. specialize (IH u1). destruct (Udp.udp_output_loop b popped u1). cbn [snd] in *. congruence.
Qed.

#[global] Instance in_reader_laws : ReaderLaws InSocket udp_round.
Proof.
  split; try done. intros r u Hok. cbn [source_round in_source sock_ok sock_fds in_socket round_calls in_reader] in *.
  pose proof (in_open_kept (mjoin r) (input u)) as Hk. destruct (source_round (mjoin r) (input u)) as [[got chunks] i]. cbn [snd in_fd input] in *.
  rewrite Hk. split; [done|]. intros rest open Hh. unfold recv_calls. destruct (in_fd u <? 0) eqn:E; [done|]. rewrite fd_of_some in * by done.
  eapply legal_use; [exact Hh|by left|]. destruct r; [|done]. eapply legal_use; [exact Hh|by left|done].
Qed.

#[global] Instance out_writer_laws : WriterLaws OutSocket udp_answer (list Z).
Proof.
  split; [done|]. intros a payloads u out u' Hok E. cbn [sink_write out_sink udp_sink sock_ok sock_fds out_socket write_calls out_writer mbind outcome_bind] in *.
  pose proof (out_open_kept a.1 (udp_payloads a payloads) (output u)) as Hk. destruct (Udp.udp_output_loop _ _ _) as [o t]. injection E as <- <-. cbn [snd out_fd output] in *.
  rewrite Hk. split; [done|]. intros rest open Hh. induction payloads as [|p payloads IH]; [done|]. cbn [fmap list_fmap concat]. rewrite legal_app. unfold send_calls at 1.
  destruct (out_fd u <? 0) eqn:El; cbn [orb]; [exact IH|]. destruct (_ || _); [exact IH|]. eapply legal_use; [exact Hh|rewrite fd_of_some by done; by left|exact IH].
Qed.
End UdpSockets.
