(* ===== verification/ModemMain.v ===== *)
(** * The modem's [main] (src/main.cpp)

    From the configuration to the exit code: the radio, the codec, the two
    sockets of either transport, the threads of the mode under any schedule,
    and the shutdown, with every call on a descriptor and the threads that a
    call keeps from ending. [run_io] is the part after the codec's construction,
    for any pair of sockets; [main] the whole. *)
From S2P Require Import Prelude Float Text Json Dsp Fec Modem Codec Radio QpskConfig Servers Pipeline Descriptors ModemSockets Device.
Import Float Text Json Fec Descriptors Sources Sinks Sockets Device.

Module ModemMain.
Section threads.
Context `{Libm} {T R O A W : Type} `{!Source T R, !SourceLaws T R, !Socket T, !SocketLaws T, !Reader T R, !ReaderLaws T R}.
Context `{!Sink O A W, !SinkLaws O A W, !Socket O, !SocketLaws O, !Writer O A W, !WriterLaws O A W}.

Inductive thread := InputThread | TxThread | RxThread | OutputThread.

#[global] Instance thread_eq_dec : EqDecision thread.
Proof. solve_decision. Defined.

(** The four threads' variables, the queues between them, and the threads that
    are in a call that does not return. The interface is that of the transmit
    direction: the radio's threads share it. *)
Record threads := MkThreads { tx : TxPath.TxPath (T := T); rx : RxPath.RxPath (O := O); blocked : list thread }.

(** A round of a thread: of the input or the transmit thread; of the receive
    thread, with what the driver answers to [recv]; of the output thread. And a
    call of the system or the driver that does not return: the [recv] on a
    client that was not polled, the [send] to one that does not read. *)
Inductive event :=
  | OnTx (ev : TxPath.tx_event (R := R))
  | Recv (answers : list (B200.rx_error * list complex))
  | OnOutput (a : A)
  | Blocks (th : thread).

Definition thread_of (ev : event) : thread :=
  match ev with
  | OnTx (TxPath.Input _) => InputThread
  | OnTx (TxPath.Transmit _) => TxThread
  | Recv _ => RxThread
  | OnOutput _ => OutputThread
  | Blocks th => th
  end.

(** Which threads run: the radio's need an interface, and the receive thread
    one whose stream has started; otherwise it idles. *)
Definition spawned (m : QpskConfig.AppMode) (radio streams : bool) (ev : event) : bool :=
  match thread_of ev with
  | InputThread => uses Tx m
  | TxThread => uses Tx m && radio
  | RxThread => uses Rx m && streams
  | OutputThread => uses Rx m
  end.

Record log := MkLog { calls : list syscall; on_tx : TxPath.tx_log; on_rx : RxPath.rx_log (A := A) (W := W) }.

Definition no_tx : TxPath.tx_log := TxPath.MkLog [] [] [] [].
Definition no_rx : RxPath.rx_log (A := A) (W := W) := RxPath.MkLog [] [] [].

Definition log_app (l1 l2 : log) : log :=
  MkLog (calls l1 ++ calls l2) (TxPath.log_app (on_tx l1) (on_tx l2)) (RxPath.log_app (on_rx l1) (on_rx l2)).

(** The calls of the output thread's round. *)
Definition output_calls (l : RxPath.rx_log (A := A) (W := W)) (o : O) : list syscall :=
  concat ((fun '(a, payloads) => poll_calls a o ++ write_calls a payloads (sink_poll a o)) <$> RxPath.rounds l).

Definition RX_BATCH_SIZE : nat := Z.to_nat 4096.

(** A round of the receive or the output thread. *)
Definition rx_round (fuel : nat) (ev : RxPath.rx_event (A := A)) (s : threads) : outcome (log * threads) :=
  '(l, r) ← RxPath.rx_step fuel ev (rx s);
  Ok (MkLog (output_calls l (RxPath.output (rx s))) no_tx l, MkThreads (tx s) r (blocked s)).

(** A thread that is blocked has no further round. An exception of [recv] is
    caught, and the thread sleeps and goes on. *)
Definition step (ramp fuel : nat) (ev : event) (s : threads) : outcome (log * threads) :=
  if bool_decide (thread_of ev ∈ blocked s) then Ok (MkLog [] no_tx no_rx, s) else
  match ev with
  | OnTx ev =>
      '(l, t) ← TxPath.tx_step ramp ev (tx s);
      Ok (MkLog (match ev with TxPath.Input r => round_calls r (TxPath.input (tx s)) | TxPath.Transmit _ => [] end) l no_rx,
          MkThreads t (rx s) (blocked s))
  | Recv answers =>
      match B200.recv (TxPath.radio (tx s)) answers RX_BATCH_SIZE with
      | Ok samples => rx_round fuel (RxPath.Receive samples) s
      | Err Diverges => Ok (MkLog [] no_tx no_rx, MkThreads (tx s) (rx s) (RxThread :: blocked s))
      | Err _ => Ok (MkLog [] no_tx no_rx, s)
      end
  | OnOutput a => rx_round fuel (RxPath.Output a) s
  | Blocks th => Ok (MkLog [] no_tx no_rx, MkThreads (tx s) (rx s) (th :: blocked s))
  end.

Fixpoint run (ramp fuel : nat) (events : list event) (s : threads) : outcome (log * threads) :=
  match events with
  | [] => Ok (MkLog [] no_tx no_rx, s)
  | ev :: events' =>
      '(l1, s) ← step ramp fuel ev s;
      '(l2, s) ← run ramp fuel events' s;
      Ok (log_app l1 l2, s)
  end.

(** ** Start and shutdown *)

(** The sockets of the mode's directions; if the second fails, the first is
    stopped. An object that is not constructed is one that is not started:
    stopping it makes no call. *)
Definition start_io (m : QpskConfig.AppMode) (ain aout : setup) (t : T) (o : O) : list syscall * outcome () * T * O :=
  let '(c1, r1, t) := if uses Tx m then sock_start ain t else ([], Ok (), t) in
  match r1 with
  | Err e => (c1, Err e, t, o)
  | Ok _ =>
      let '(c2, r2, o) := if uses Rx m then sock_start aout o else ([], Ok (), o) in
      match r2 with
      | Err e => let '(c3, t) := if uses Tx m then sock_stop t else ([], t) in (c1 ++ c2 ++ c3, Err e, t, o)
      | Ok _ => (c1 ++ c2, Ok (), t, o)
      end
  end.

(** What the end shows: the payloads left in the queue, what the sink made of
    them, and the rounds after that. *)
Record ending := MkEnding { left : list (list Z); final : list W; last_rounds : log }.

(** The threads end when they next look at the flag. The output thread then
    empties the queue; [late] are rounds of the other threads that end after
    that. (Those that end before are events like the others.) The joins wait
    for every thread, and one that is in a call does not look at the flag. *)
Definition runs_late (ev : event) : bool := match ev with OnOutput _ => false | _ => true end.

Definition joinable (s : threads) : bool := negb (TxPath.sending (tx s)) && bool_decide (blocked s = []).

Definition finish (ramp fuel : nat) (m : QpskConfig.AppMode) (radio streams : bool) (a : A) (late : list event) (s : threads)
  : outcome (list syscall * ending * threads) :=
  '(c, payloads, out, r) ←
    (if uses Rx m then
       '(payloads, out, r) ← RxPath.rx_drain a (rx s);
       Ok (write_calls a payloads (RxPath.output (rx s)), payloads, out, r)
     else Ok ([], [], [], rx s));
  '(l, s) ← run ramp fuel (filter (fun ev => spawned m radio streams ev && runs_late ev = true) late) (MkThreads (tx s) r (blocked s));
  if negb (joinable s) then Err Diverges else
  Ok (c ++ calls l, MkEnding payloads out l, s).

(** [main]'s stops, and then the destructors'. *)
Definition destroy (t : T) (o : O) : list syscall :=
  let '(c1, o) := sock_stop o in let '(c2, t) := sock_stop t in c1 ++ c2.

Definition stop_io (t : T) (o : O) : list syscall :=
  let '(c1, t) := sock_stop t in let '(c2, o) := sock_stop o in c1 ++ c2 ++ destroy t o.

(** What happens outside: the answers to the calls that open the sockets, the
    time the input thread starts, the schedule, and the end of it. *)
Record world := MkWorld {
  input_setup : setup; output_setup : setup; now : Z; events : list event; last_answer : A; late_events : list event }.

Record result := MkResult { exit_code : Z; made : list syscall; shown : option (log * ending) }.

(** [ramp] is the transmit thread's constant, [b200] the radio's interface, and
    [streams] tells whether the receive stream started. *)
Definition run_io (ramp : outcome nat) (fuel : nat) (m : QpskConfig.AppMode) (b200 : option B200.B200Interface) (streams : bool) (t : T) (o : O) (e : Codec.TxEncoder) (d : Codec.Decoder) (w : world)
  : outcome result :=
  let radio := bool_decide (is_Some b200) in
  let '(c1, started, t, o) := start_io m (input_setup w) (output_setup w) t o in
  match started with
  | Err _ => Ok (MkResult 1 (c1 ++ destroy t o) None)
  | Ok _ =>
      ramp ← ramp;
      '(l, s) ← run ramp fuel (filter (fun ev => spawned m radio streams ev = true) (events w))
                  (MkThreads (TxPath.tx_start (default (B200.MkB200 false false) b200) (spawn (now w) t) e) (RxPath.rx_start d o) []);
      '(c2, e, s) ← finish ramp fuel m radio streams (last_answer w) (late_events w) s;
      Ok (MkResult 0 (c1 ++ calls l ++ c2 ++ stop_io (TxPath.input (tx s)) (RxPath.output (rx s))) (Some (l, e)))
  end.

(** ** The invariant of the threads *)

(** The process holds what the two objects hold. *)
Abbreviation holding s := (sock_fds (TxPath.input (tx s)) ++ sock_fds (RxPath.output (rx s))).

Definition threads_inv (ramp : nat) (e0 : Codec.TxEncoder) (o0 : O) (l : log) (s : threads) : Prop :=
  TxPath.path_inv ramp e0 (on_tx l) (tx s) /\ RxPath.path_inv o0 (on_rx l) (rx s) /\
  sock_ok (TxPath.input (tx s)) /\ sock_ok (RxPath.output (rx s)).

Lemma tx_log_nil l : TxPath.log_app l no_tx = l.
Proof. unfold TxPath.log_app. cbn. rewrite !app_nil_r. by destruct l. Qed.

Lemma rx_log_nil l : RxPath.log_app l no_rx = l.
Proof. unfold RxPath.log_app. cbn. rewrite !app_nil_r. by destruct l. Qed.

Lemma tx_step_input ramp ev s l s' :
  TxPath.tx_step ramp ev s = Ok (l, s') ->
  TxPath.input s' = match ev with TxPath.Input r => snd (source_round r (TxPath.input s)) | TxPath.Transmit _ => TxPath.input s end.
Proof.
  destruct ev as [r|]; cbn [TxPath.tx_step]; intros E.
  - destruct (source_round r (TxPath.input s)) as [[g ch] t]. inv_ok E. destruct r0. by injection E as <- <-.
  - destruct (TxPath.sending s); [by injection E as <- <-|].
    inv_ok E. destruct r as [[p|] q]; [|by injection E as <- <-]. inv_ok E. destruct r. by injection E as <- <-.
Qed.

Lemma rx_step_output fuel ev s l s' :
  RxPath.rx_step fuel ev s = Ok (l, s') ->
  match ev with
  | RxPath.Receive _ => RxPath.rounds l = [] /\ RxPath.output s' = RxPath.output s
  | RxPath.Output a => exists payloads out, RxPath.rounds l = [(a, payloads)] /\ sink_write a payloads (sink_poll a (RxPath.output s)) = Ok (out, RxPath.output s')
  end.
Proof.
  destruct ev as [samples|a]; cbn [RxPath.rx_step]; intros E; inv_ok E; destruct r as [x y]; inv_ok E; destruct r as [z w]; injection E as <- <-.
  - by split.
  - by exists x, z.
Qed.

(** What a step keeps: the invariant, and that it calls on what is open. *)
Definition step_keeps ramp fuel e0 o0 l s (res : outcome (log * threads)) : Prop :=
  match res with
  | Ok (l1, s1) =>
      threads_inv ramp e0 o0 (log_app l l1) s1 /\
      forall rest open, has rest (holding s) open -> legal (calls l1) (has rest (holding s1)) open
  | Err e => exists d samples, Codec.synchroniser_fails fuel d samples e
  end.

Lemma log_nil l : log_app l (MkLog [] no_tx no_rx) = l.
Proof. unfold log_app. cbn [calls on_tx on_rx]. rewrite tx_log_nil, rx_log_nil, app_nil_r. by destruct l. Qed.

(** Only who is blocked changes. *)
Lemma stall_keeps ramp fuel e0 o0 l s bs :
  threads_inv ramp e0 o0 l s -> step_keeps ramp fuel e0 o0 l s (Ok (MkLog [] no_tx no_rx, MkThreads (tx s) (rx s) bs)).
Proof. intros Hs. cbn [step_keeps]. by rewrite log_nil. Qed.

Lemma rx_round_keeps ramp fuel e0 o0 l s ev :
  threads_inv ramp e0 o0 l s -> step_keeps ramp fuel e0 o0 l s (rx_round fuel ev s).
Proof.
  intros (Ht & Hr & St & So). unfold rx_round, step_keeps. pose proof (RxPath.rx_step_inv fuel o0 _ _ ev Hr) as Hi.
  destruct (RxPath.rx_step fuel ev (rx s)) as [[l1 r']|e] eqn:E; cbn [mbind outcome_bind]; [|done].
  apply rx_step_output in E. unfold threads_inv, log_app. cbn [on_tx on_rx calls tx rx]. rewrite tx_log_nil. unfold output_calls. destruct ev as [samples|a].
  - destruct E as [-> ->]. by split; [split_and!|].
  - destruct E as (payloads & out & -> & E). destruct (poll_spec a _ So) as [So1 Hc1]. destruct (write_spec a payloads _ _ _ So1 E) as [So2 Hc2].
    split; [by split_and!|]. intros rest open Hh. cbn [fmap list_fmap concat]. rewrite app_nil_r. eapply legal_seq; [by eapply legal_right|].
    intros o Ho. by eapply legal_right.
Qed.

Lemma threads_step_inv ramp fuel e0 o0 l s ev :
  threads_inv ramp e0 o0 l s -> step_keeps ramp fuel e0 o0 l s (step ramp fuel ev s).
Proof.
  intros Hs. assert (MkThreads (tx s) (rx s) (blocked s) = s) as Eta by (by destruct s).
  pose proof (stall_keeps ramp fuel e0 o0 l s (blocked s) Hs) as Hidle. rewrite Eta in Hidle.
  unfold step. case_bool_decide; [exact Hidle|]. destruct ev as [ev|answers|a|th].
  - destruct Hs as (Ht & Hr & St & So). unfold step_keeps. destruct (TxPath.tx_step_inv ramp e0 _ _ ev Ht) as (l1 & t' & E & Hi). rewrite E. cbn [mbind outcome_bind].
    apply tx_step_input in E. unfold threads_inv, log_app. cbn [on_tx on_rx calls tx rx]. rewrite rx_log_nil, E. destruct ev as [r|counts]; [|by split; [split_and!|]].
    destruct (round_spec r _ St) as [St' Hc]. split; [by split_and!|]. intros rest open Hh. by eapply legal_left.
  - destruct (B200.recv _ answers _) as [samples|[]]; [by apply rx_round_keeps|first [exact Hidle|exact (stall_keeps ramp fuel e0 o0 l s _ Hs)]..].
  - by apply rx_round_keeps.
  - exact (stall_keeps ramp fuel e0 o0 l s _ Hs).
Qed.

Lemma log_app_assoc l1 l2 l3 : log_app l1 (log_app l2 l3) = log_app (log_app l1 l2) l3.
Proof. unfold log_app, TxPath.log_app, RxPath.log_app. cbn. by rewrite !app_assoc. Qed.

Lemma threads_run_inv ramp fuel e0 o0 : forall evs l s,
  threads_inv ramp e0 o0 l s -> step_keeps ramp fuel e0 o0 l s (run ramp fuel evs s).
Proof.
  induction evs as [|ev evs IH]; intros l s Hs; cbn [run]; unfold step_keeps.
  - by rewrite log_nil.
  - pose proof (threads_step_inv ramp fuel e0 o0 l s ev Hs) as Hst. destruct (step ramp fuel ev s) as [[l1 s1]|e]; cbn [mbind outcome_bind]; [|done].
    destruct Hst as [Hi Hc]. specialize (IH _ _ Hi). destruct (run ramp fuel evs s1) as [[l2 s2]|e]; cbn [mbind outcome_bind]; [|exact IH].
    destruct IH as [Hi' Hc']. rewrite log_app_assoc. split; [done|]. intros rest open Hh. cbn [calls log_app]. eapply legal_seq; [by apply Hc|].
    intros o Ho. by apply Hc'.
Qed.

(** ** What [main] opens it closes *)

Definition io_starts (m : QpskConfig.AppMode) (ain aout : setup) (t : T) (o : O) : bool :=
  (negb (uses Tx m) || sock_starts t ain) && (negb (uses Rx m) || sock_starts o aout).

(** An object as it is constructed. *)
Record idle (t : T) (o : O) : Prop := {
  i_in : sock_ok t /\ sock_fds t = []; i_out : sock_ok o /\ sock_fds o = []; i_source : source_ok t /\ source_held t = [] }.

Lemma start_io_spec m ain aout t o :
  idle t o ->
  let '(calls, started, t', o') := start_io m ain aout t o in
  sock_ok t' /\ sock_ok o' /\
  match started with
  | Ok _ => io_starts m ain aout t o = true /\ source_ok t' /\ source_held t' = []
  | Err _ => io_starts m ain aout t o = false
  end /\
  forall rest open, has rest [] open -> legal calls (has rest (sock_fds t' ++ sock_fds o')) open.
Proof.
  intros [[It Ft] [Io Fo] [Is Hs]]. unfold start_io, io_starts. destruct (uses Tx m) eqn:Em; cbn [negb orb].
  - pose proof (start_spec ain t It Ft) as H1. pose proof (started_fine ain t Is) as Hf. pose proof (start_held ain t) as Hh.
    destruct (sock_start ain t) as [[c1 r1] t1]. cbn [snd] in *. destruct H1 as (It1 & -> & Ft1 & Hc1). destruct (sock_starts t ain); cbn [andb].
    + destruct (uses Rx m); cbn [negb orb].
      * pose proof (start_spec aout o Io Fo) as H2. destruct (sock_start aout o) as [[c2 r2] o2]. destruct H2 as (Io2 & -> & Fo2 & Hc2).
        destruct (sock_starts o aout).
        -- split_and!; try done; [congruence|]. intros rest open Hh0. eapply legal_seq; [by apply Hc1|]. intros o' Ho. rewrite <- (app_nil_r (sock_fds t1)) in Ho.
           eapply legal_right; [|exact Ho]. intros rest' o'' Ho''. by apply Hc2.
        -- pose proof (stop_spec t1 It1) as H3. destruct (sock_stop t1) as [c3 t3]. destruct H3 as (It3 & Ft3 & Hc3). rewrite Ft3, (Fo2 eq_refl). cbn [app].
           split_and!; try done. intros rest open Hh0. eapply legal_seq; [by apply Hc1|]. intros o1 Ho1. rewrite <- (app_nil_r (sock_fds t1)) in Ho1.
           eapply (legal_seq c2); [eapply (legal_right _ _ [] (sock_fds o2)); [|exact Ho1]; intros rest' o'' Ho''; by apply Hc2|].
           intros o4 Ho4. apply Hc3. by rewrite (Fo2 eq_refl), app_nil_r in Ho4.
      * split_and!; try done; [congruence|]. rewrite app_nil_r, Fo, app_nil_r. intros rest open Hh0. by apply Hc1.
    + split_and!; try done. intros rest open Hh0. rewrite Fo, app_nil_r. by apply Hc1.
  - destruct (uses Rx m); cbn [negb orb andb].
    + pose proof (start_spec aout o Io Fo) as H2. destruct (sock_start aout o) as [[c2 r2] o2]. destruct H2 as (Io2 & -> & Fo2 & Hc2).
      destruct (sock_starts o aout); cbn [app]; rewrite Ft; [by split_and!|]. rewrite app_nil_r. by split_and!.
    + rewrite Ft, Fo. by split_and!.
Qed.

Lemma destroy_legal t o rest open :
  sock_ok t -> sock_ok o -> has rest (sock_fds t ++ sock_fds o) open -> legal (destroy t o) (has rest []) open.
Proof.
  intros It Io Hh. unfold destroy. pose proof (stop_spec o Io) as H1. destruct (sock_stop o) as [c1 o1]. destruct H1 as (_ & _ & Hc1).
  pose proof (stop_spec t It) as H2. destruct (sock_stop t) as [c2 t2]. destruct H2 as (_ & _ & Hc2).
  eapply legal_seq; [eapply legal_right; [exact Hc1|exact Hh]|]. intros o' Ho. apply Hc2. by rewrite app_nil_r in Ho.
Qed.

Lemma stop_io_legal t o rest open :
  sock_ok t -> sock_ok o -> has rest (sock_fds t ++ sock_fds o) open -> legal (stop_io t o) (has rest []) open.
Proof.
  intros It Io Hh. unfold stop_io. pose proof (stop_spec t It) as H1. destruct (sock_stop t) as [c1 t1]. destruct H1 as (It1 & Ft1 & Hc1).
  pose proof (stop_spec o Io) as H2. destruct (sock_stop o) as [c2 o1]. destruct H2 as (Io1 & Fo1 & Hc2).
  eapply legal_seq; [eapply legal_left; [exact Hc1|exact Hh]|]. intros o2 Ho2. eapply legal_seq; [by apply Hc2|].
  intros o3 Ho3. apply destroy_legal; [done|done|]. by rewrite Ft1, Fo1.
Qed.

(** A round of the receive thread offers at most one payload, the others
    none; so what is offered late is at most what those rounds decode. *)
Definition receives (ev : event) : bool := match ev with Recv _ => true | _ => false end.
Definition payloads_offered (l : log) : nat := length (RxPath.offers (on_rx l)).
Definition lost (e : ending) : list (list Z) := Stage.offered <$> RxPath.offers (on_rx (last_rounds e)).

Lemma push_all_length chunks : forall q os q', Stage.push_all q chunks = Ok (os, q') -> length os = length chunks.
Proof.
  induction chunks as [|chunk chunks IH]; intros q os q' E; cbn [Stage.push_all] in E; [by injection E as <- <-|].
  apply bind_ok in E as ([o q1] & _ & E). apply bind_ok in E as ([os1 q2] & E & E1). injection E1 as <- <-. cbn [length]. by rewrite (IH _ _ _ E).
Qed.

Lemma step_offers ramp fuel ev s l s' :
  step ramp fuel ev s = Ok (l, s') -> (payloads_offered l <= if receives ev then 1 else 0)%nat.
Proof.
  unfold payloads_offered, step. case_bool_decide; [intros E; injection E as <- <-; cbn; lia|].
  destruct ev as [ev|answers|a|th]; cbn [receives]; intros E.
  - apply bind_ok in E as ([l1 t1] & E & E1). injection E1 as <- <-. cbn. lia.
  - destruct (B200.recv _ _ _) as [samples|[]]; [|injection E as <- <-; cbn; lia..]. cbn [rx_round RxPath.rx_step] in E.
    apply bind_ok in E as ([l1 t1] & E & E1). injection E1 as <- <-. cbn [on_rx].
    apply bind_ok in E as ([payload r] & _ & E). apply bind_ok in E as ([os q] & E & E1). injection E1 as <- <-.
    cbn [RxPath.offers]. rewrite (push_all_length _ _ _ _ E). by destruct payload; cbn; lia.
  - cbn [rx_round RxPath.rx_step] in E. apply bind_ok in E as ([l1 t1] & E & E1). injection E1 as <- <-. cbn [on_rx].
    apply bind_ok in E as ([payloads q] & _ & E). apply bind_ok in E as ([out o] & _ & E). injection E as <- <-. cbn. lia.
  - injection E as <- <-. cbn. lia.
Qed.

Lemma run_offers ramp fuel evs : forall s l s',
  run ramp fuel evs s = Ok (l, s') -> (payloads_offered l <= length (filter (fun ev => receives ev = true) evs))%nat.
Proof.
  induction evs as [|ev evs IH]; intros s l s' E; cbn [run] in E; [by injection E as <- <-|].
  inv_ok E. destruct r as [l1 s1]. inv_ok E. destruct r as [l2 s2]. injection E as <- <-. apply step_offers in E0. apply IH in E1.
  unfold payloads_offered in *. cbn [on_rx log_app RxPath.log_app RxPath.offers]. rewrite length_app, filter_cons. destruct (receives ev); case_decide; cbn [length]; try done; lia.
Qed.

Lemma filter_receives (P : event -> bool) evs :
  (length (filter (fun ev => receives ev = true) (filter (fun ev => P ev = true) evs)) <= length (filter (fun ev => receives ev = true) evs))%nat.
Proof.
  induction evs as [|ev evs IH]; [done|]. rewrite !(filter_cons _ ev). case_decide; [rewrite filter_cons|]; (case_decide; cbn [length]; lia).
Qed.

Lemma none_received (P : event -> bool) evs :
  (forall ev, P ev = true -> receives ev = false) -> filter (fun ev => receives ev = true) (filter (fun ev => P ev = true) evs) = [].
Proof.
  intros HP. induction evs as [|ev evs IH]; [done|]. rewrite (filter_cons _ ev). case_decide as Hev; [|done].
  rewrite filter_cons. case_decide as Hr; [|done]. by rewrite HP in Hr.
Qed.

(** A mode that does not receive offers nothing. *)
Lemma run_quiet ramp fuel (P : event -> bool) : (forall ev, P ev = true -> receives ev = false) -> forall evs s l s',
  run ramp fuel (filter (fun ev => P ev = true) evs) s = Ok (l, s') -> RxPath.offers (on_rx l) = [].
Proof.
  intros HP evs s l s' E. apply run_offers in E. unfold payloads_offered in E. rewrite none_received in E by done.
  apply length_zero_iff_nil. cbn in E. lia.
Qed.

Lemma silent m radio streams ev : uses Rx m = false -> spawned m radio streams ev = true -> receives ev = false.
Proof. intros Hm Hs. destruct ev; unfold spawned in Hs; cbn [thread_of receives] in *; try done. by rewrite Hm in Hs. Qed.

(** ** Who does not end *)

(** A round that does not end: the driver takes no sample of a burst, or
    delivers none; or another call that does not return. *)
Definition stalls (ramp : nat) (b : B200.B200Interface) (ev : event) : Prop :=
  match ev with
  | OnTx (TxPath.Transmit counts) => TxPath.kept_waiting ramp b counts
  | Recv answers => B200.recv b answers RX_BATCH_SIZE = Err Diverges
  | Blocks _ => True
  | _ => False
  end.

Definition stalled (P : event -> bool) (ramp : nat) (b : B200.B200Interface) (evs : list event) : Prop :=
  exists ev, ev ∈ evs /\ P ev = true /\ stalls ramp b ev.

Lemma step_stalls ramp fuel ev s l s' :
  step ramp fuel ev s = Ok (l, s') ->
  TxPath.radio (tx s') = TxPath.radio (tx s) /\ (joinable s' = joinable s \/ stalls ramp (TxPath.radio (tx s)) ev).
Proof.
  unfold step, joinable. case_bool_decide; [intros E; injection E as _ <-; by split; [|left]|]. destruct ev as [ev|answers|a|th]; intros E.
  - apply bind_ok in E as ([l1 t1] & E & E1). injection E1 as _ <-. cbn [tx blocked]. apply TxPath.tx_step_radio in E as [Er [-> |Hs]]; (split; [done|]); [by left|].
    right. by destruct ev.
  - destruct (B200.recv _ _ _) as [samples|[]] eqn:Er; [|injection E as _ <-; (split; [done|]); first [by left|by right]..].
    apply bind_ok in E as ([l1 t1] & _ & E1). injection E1 as _ <-. by split; [|left].
  - apply bind_ok in E as ([l1 t1] & _ & E1). injection E1 as _ <-. by split; [|left].
  - injection E as _ <-. by split; [|right].
Qed.

Lemma run_stalls ramp fuel (P : event -> bool) evs : forall s l s',
  run ramp fuel (filter (fun ev => P ev = true) evs) s = Ok (l, s') ->
  TxPath.radio (tx s') = TxPath.radio (tx s) /\ (joinable s' = joinable s \/ stalled P ramp (TxPath.radio (tx s)) evs).
Proof.
  induction evs as [|ev evs IH]; intros s l s' E; [injection E as _ <-; by split; [|left]|].
  assert (forall b, stalled P ramp b evs -> stalled P ramp b (ev :: evs)) as Hmore by (intros b (x & Hx & Hs); exists x; by split; [right|]).
  rewrite filter_cons in E. case_decide as HP; cbn [run] in E; [|destruct (IH _ _ _ E) as [-> [->|Hs]]; (split; [done|]); [by left|by right; auto]].
  apply bind_ok in E as ([l1 s1] & E1 & E). apply bind_ok in E as ([l2 s2] & E2 & E). injection E as _ <-.
  destruct (step_stalls _ _ _ _ _ _ E1) as [R1 J1]. destruct (IH _ _ _ E2) as [R2 J2]. rewrite R2, R1. split; [done|]. rewrite R1 in J2.
  destruct J1 as [<- |J1]; [destruct J2 as [-> |J2]; [by left|by right; auto]|]. right. exists ev. by split; [left|].
Qed.

(** ** The end *)

(** Only what the late rounds offer can be lost, and what was left was written. *)
Lemma finish_loses_late ramp fuel e0 o0 m radio streams a late l s :
  threads_inv ramp e0 o0 l s -> (uses Rx m = false -> RxPath.offers (on_rx l) = []) ->
  match finish ramp fuel m radio streams a late s with
  | Ok (c, e, s') =>
      sock_ok (TxPath.input (tx s')) /\ sock_ok (RxPath.output (rx s')) /\
      Stage.accepted (RxPath.offers (on_rx l)) = (if uses Rx m then RxPath.taken (on_rx l) ++ left e else []) /\
      (uses Rx m = true -> exists o2, sink_write a (left e) (RxPath.output (rx s)) = Ok (final e, o2)) /\
      (length (lost e) <= length (filter (fun ev => receives ev = true) late))%nat /\
      forall rest open, has rest (holding s) open -> legal c (has rest (holding s')) open
  | Err e =>
      (exists d samples, Codec.synchroniser_fails fuel d samples e) \/
      (e = Diverges /\ (joinable s = false \/ stalled (spawned m radio streams) ramp (TxPath.radio (tx s)) late))
  end.
Proof.
  intros (Ht & Hr & St & So) Hno. unfold finish.
  assert (exists c ps out r o1 lr, (if uses Rx m then '(payloads, out, r) ← RxPath.rx_drain a (rx s); Ok (write_calls a payloads (RxPath.output (rx s)), payloads, out, r)
      else Ok ([], [], [], rx s)) = Ok (c, ps, out, r) /\ RxPath.path_inv o1 lr r /\ sock_ok (RxPath.output r) /\
      Stage.accepted (RxPath.offers (on_rx l)) = (if uses Rx m then RxPath.taken (on_rx l) ++ ps else []) /\
      (uses Rx m = true -> exists o2, sink_write a ps (RxPath.output (rx s)) = Ok (out, o2)) /\
      forall rest open, has rest (holding s) open -> legal c (has rest (holding (MkThreads (tx s) r (blocked s)))) open) as (c & ps & out & r & o1 & lr & -> & Hr1 & So1 & Ha & Hw & Hc).
  { destruct (uses Rx m).
    - destruct (RxPath.rx_drain_spec o0 _ _ a Hr) as (ps & out & r & -> & Ha & Hq & Ew & Er). cbn [mbind outcome_bind].
      destruct (write_spec a ps _ _ _ So Ew) as [So' Hc]. eexists _, ps, out, r, (RxPath.output r), no_rx. split_and!; try done.
      + split; [rewrite Er; by destruct Hr|]. split; [done|]. split; [|done]. by exists [].
      + intros _. by eexists.
      + intros rest open Hh. by eapply legal_right.
    - eexists [], [], [], (rx s), o0, (on_rx l). split_and!; try done. by rewrite (Hno eq_refl). }
  cbn [mbind outcome_bind]. set (s1 := MkThreads (tx s) r (blocked s)) in *. set (evs := filter _ late).
  assert (threads_inv ramp e0 o1 (MkLog [] (on_tx l) lr) s1) as Hinv by (by split_and!).
  pose proof (threads_run_inv ramp fuel e0 o1 evs _ _ Hinv) as Hrun. pose proof (run_offers ramp fuel evs s1) as Hoff.
  pose proof (run_stalls ramp fuel (fun ev => spawned m radio streams ev && runs_late ev) late s1) as Hst. fold evs in Hst.
  destruct (run ramp fuel evs s1) as [[l2 s2]|e] eqn:Er; cbn [mbind outcome_bind]; [|by left]. destruct Hrun as [(_ & _ & St2 & So2) Hc2].
  destruct (Hst _ _ Er) as [_ Hj]. destruct (joinable s2) eqn:Ej; cbn [negb].
  - unfold lost. cbn [left final last_rounds]. rewrite length_fmap. split_and!; try done.
    + etrans; [exact (Hoff l2 s2 eq_refl)|]. apply filter_receives.
    + intros rest open Hh. eapply legal_seq; [by apply Hc|]. intros o Ho. by apply Hc2.
  - right. split; [done|]. destruct Hj as [Hj|(ev & Hev & HP & Hs)]; [by left|]. right. exists ev. apply andb_true_iff in HP as [HP _]. by split_and!.
Qed.

(** Why [main] waits in a join: a round of a thread of the mode did not end. *)
Definition held_up (ramp : outcome nat) (m : QpskConfig.AppMode) (b200 : option B200.B200Interface) (streams : bool) (w : world) : Prop :=
  exists rp, ramp = Ok rp /\
    stalled (spawned m (bool_decide (is_Some b200)) streams) rp (default (B200.MkB200 false false) b200) (events w ++ late_events w).

(** What the output direction was given is what was written, round by round
    and at the end. *)
Definition all_written (m : QpskConfig.AppMode) (o0 : O) (a : A) (l : RxPath.rx_log (A := A) (W := W)) (e : ending) : Prop :=
  Stage.accepted (RxPath.offers l) = (if uses Rx m then RxPath.taken l ++ left e else []) /\
  exists o1, sink_rounds (RxPath.rounds l) o0 = Ok (RxPath.written l, o1) /\
    (uses Rx m = true -> exists o2, sink_write a (left e) o1 = Ok (final e, o2)).

Lemma shutdown_spec ramp fuel m b200 streams t o e d w inherited :
  idle t o -> TxPath.encoder_fine e -> Codec.decoder_ok d ->
  match run_io ramp fuel m b200 streams t o e d w with
  | Ok r =>
      legal (made r) (fun open => open = inherited) inherited /\
      exit_code r = (if io_starts m (input_setup w) (output_setup w) t o then 0 else 1) /\
      match shown r with
      | None => exit_code r = 1
      | Some (l, e) =>
          exit_code r = 0 /\
          all_written m (snd (start_io m (input_setup w) (output_setup w) t o)) (last_answer w) (on_rx l) e /\
          (length (lost e) <= length (filter (fun ev => receives ev = true) (late_events w)))%nat
      end
  | Err e =>
      (exists d samples, Codec.synchroniser_fails fuel d samples e) \/ ramp = Err e \/ (e = Diverges /\ held_up ramp m b200 streams w)
  end.
Proof.
  intros Hi He Hd. unfold run_io. pose proof (start_io_spec m (input_setup w) (output_setup w) t o Hi) as Hs.
  destruct (start_io m _ _ t o) as [[[c1 started] t1] o1]. destruct Hs as (It & Io & Hst & Hc1).
  assert (has inherited [] inherited) as H0 by (split; [apply NoDup_nil_2|]; split; [by intros fd ?%elem_of_nil|set_solver]).
  assert (forall open, has inherited [] open -> open = inherited) as Hend by (intros open (_ & _ & ->); set_solver).
  destruct started as [[]|ex].
  - destruct Hst as (Hok & Hs & Hh). rewrite Hok. destruct (spawn_spec (now w) t1 It Hs) as (It' & Hs' & Ft' & Hh').
    destruct ramp as [rp|ex] eqn:Erp; cbn [mbind outcome_bind]; [|by right; left]. set (radio := bool_decide _). set (s0 := MkThreads _ _ _). set (evs := filter _ _).
    assert (threads_inv rp e o1 (MkLog [] no_tx no_rx) s0) as Hinv.
    { unfold threads_inv. split_and!; [by apply TxPath.path_start; congruence|by apply RxPath.rx_start_inv|done|done]. }
    pose proof (threads_run_inv rp fuel e o1 evs _ _ Hinv) as Hrun. pose proof (fun Hm => run_quiet rp fuel (spawned m radio streams) (fun ev => silent m radio streams ev Hm) (events w) s0) as Hq.
    pose proof (run_stalls rp fuel (spawned m radio streams) (events w) s0) as Hst. fold evs in Hq, Hst.
    destruct (run rp fuel evs s0) as [[l s]|ex] eqn:Er; cbn [mbind outcome_bind]; [|by left]. destruct Hrun as [Hinv' Hc2].
    assert (log_app (MkLog [] no_tx no_rx) l = l) as El by (by destruct l as [? [] []]). rewrite El in Hinv'.
    pose proof (finish_loses_late rp fuel e o1 m radio streams (last_answer w) (late_events w) l s Hinv' (fun Hm => Hq Hm l s eq_refl)) as Hf.
    destruct (Hst _ _ eq_refl) as [Hradio Hj].
    destruct (finish _ _ _ _ _ _ _ s) as [[[c3 en] s']|ex]; cbn [mbind outcome_bind made exit_code shown].
    + destruct Hf as (It3 & Io3 & Ha & Hw & Hl1 & Hc3). destruct Hinv' as (_ & (_ & _ & _ & Hrounds) & _).
      split; [|split; [done|]; split; [done|]; split; [|done]; split; [done|]; by exists (RxPath.output (rx s))].
      eapply legal_seq; [by apply Hc1|]. intros open1 Ho1. rewrite <- Ft' in Ho1. eapply legal_seq; [by apply Hc2|]. intros open2 Ho2.
      eapply legal_seq; [by apply Hc3|]. intros open3 Ho3. eapply legal_mono; [by eapply stop_io_legal|exact Hend].
    + destruct Hf as [Hf|[-> Hf]]; [by left|]. right. right. split; [done|]. exists rp. split; [done|]. rewrite Hradio in Hf. cbn [s0 tx] in *.
      assert (forall evs', (forall ev, ev ∈ evs' -> ev ∈ events w ++ late_events w) -> stalled (spawned m radio streams) rp (TxPath.radio (tx s0)) evs' ->
        stalled (spawned m radio streams) rp (TxPath.radio (tx s0)) (events w ++ late_events w)) as Hmore by (intros evs' Hin (ev & Hev & Hs2); exists ev; auto).
      destruct Hf as [Hf|Hf]; [destruct Hj as [Hj|Hj]; [by rewrite Hj in Hf|]|]; (eapply Hmore; [|done]); intros ev Hev; apply elem_of_app; auto.
  - rewrite Hst. cbn [made exit_code shown]. split; [|done]. eapply legal_seq; [by apply Hc1|]. intros open1 Ho1.
    eapply legal_mono; [by eapply destroy_legal|exact Hend].
Qed.

End threads.
Arguments threads : clear implicits.
Arguments event : clear implicits.
Arguments world : clear implicits.

(** ** The whole of [main] *)

Section main.
Context `{Libm} `{JsonLaws} (stod : string -> outcome double) (files : string -> option text).
Context (with_uhd : bool) (answer : list uhd_call -> uhd_call -> exn + bool).

(** What the codec reads of the configuration. *)
Definition codec_config (c : QpskConfig.Config) : Codec.CodecConfig :=
  Codec.MkCodec
    (Modem.MkConfig (QpskConfig.preamble c) (QpskConfig.fec_enabled c) (if QpskConfig.fec_code_rate c =? 1 then RATE_3_4 else RATE_1_2) (QpskConfig.acquisition_symbols c))
    (QpskConfig.samples_per_symbol c) (QpskConfig.rrc_rolloff c) (QpskConfig.rrc_span_symbols c).

(** What happens outside, for the transport that is configured. *)
Record surroundings := MkSurroundings { over_tcp : world TcpInput.round tcp_answer; over_udp : world UdpSockets.udp_round udp_answer }.

(** The transmit thread's constant. *)
Definition ramp (c : QpskConfig.Config) (m : QpskConfig.AppMode) (radio : bool) : outcome nat :=
  if uses Tx m && radio then Burst.ramp_samples (QpskConfig.ramp_symbols c) (QpskConfig.samples_per_symbol c) else Ok 0%nat.

(** The sockets' part, for either transport: the calls on descriptors and the
    exit code. *)
Definition io (fuel : nat) (c : QpskConfig.Config) (m : QpskConfig.AppMode) (b200 : option B200.B200Interface) (streams : bool) (e : Codec.TxEncoder) (d : Codec.Decoder) (w : surroundings)
  : outcome (list syscall * Z) :=
  let r := ramp c m (bool_decide (is_Some b200)) in
  if QpskConfig.use_udp c
  then res ← run_io r fuel m b200 streams UdpSockets.make_in UdpSockets.make_out e d (over_udp w); Ok (made res, exit_code res)
  else res ← run_io r fuel m b200 streams (InputServer.make FRAME_SIZE) OutputServer.make e d (over_tcp w); Ok (made res, exit_code res).

(** The calls on descriptors, those of the driver, and the exit code. An
    exception of [parse_args] is caught; [Err (Throw _)] would be one that
    leaves [main]. *)
Definition main (fuel : nat) (args : list string) (w : surroundings) : outcome (list syscall * list uhd_call * Z) :=
  match QpskConfig.parse_args stod files args with
  | Err (Throw _) => Ok ([], [], 1)
  | Err e => Err e
  | Ok (inr code) => Ok ([], [], code)
  | Ok (inl opts) =>
      let c := QpskConfig.config opts in let m := QpskConfig.mode opts in
      let '(h, b200) := init_b200 with_uhd answer c m in
      encoder ← Codec.make_tx_encoder fuel (codec_config c);
      decoder ← Codec.make_decoder fuel (codec_config c);
      let '(h1, streams) := if uses Rx m then streaming with_uhd answer b200 h else (h, false) in
      '(calls, code) ← io fuel c m b200 streams encoder decoder w;
      let h2 := match b200 with Some b => if streams then fst (stop_rx_stream with_uhd answer b h1) else h1 | None => h1 end in
      Ok (calls, if code =? 0 then h2 else h, code)
  end.

(** ** No exception leaves it *)

Lemma int_no_throw x : no_throw (Codec.int x).
Proof. unfold Codec.int. by destruct (_ && _). Qed.

Lemma valid_ranges c :
  QpskConfig.validate c = Ok None ->
  (dle (QpskConfig.rrc_rolloff c) (S754_zero false) || dlt (double_of_Z 1) (QpskConfig.rrc_rolloff c)) = false /\
  2 <= QpskConfig.samples_per_symbol c /\ 1 <= QpskConfig.rrc_span_symbols c /\ 0 <= QpskConfig.acquisition_symbols c /\ 0 <= QpskConfig.ramp_symbols c.
Proof.
  unfold QpskConfig.validate. intros E.
  repeat match type of E with
  | (if ?b then _ else _) = _ => let Hb := fresh "Hb" in destruct b eqn:Hb; [by first [discriminate E|inv_ok E]|]
  end.
  split_and!; [done|lia..].
Qed.

Lemma shaper_no_throw fuel c : QpskConfig.validate c = Ok None -> no_throw (Codec.make_codec_shaper fuel (codec_config c)).
Proof.
  intros (Hr & Hs & Hp & _)%valid_ranges. unfold Codec.make_codec_shaper, Codec.num_taps. cbn [codec_config Codec.rrc_span_symbols Codec.samples_per_symbol Codec.rrc_rolloff].
  apply no_throw_bind; [apply no_throw_bind; intros; apply int_no_throw|]. intros n E. inv_ok E.
  unfold Codec.int in E0, E. destruct (_ && _) in E0; [|done]. destruct (_ && _) in E; [|done]. injection E0 as <-. injection E as <-.
  apply PulseShaper.make_shaper_no_throw; [exact Hr|lia|nia].
Qed.

Lemma codec_no_throw fuel c :
  QpskConfig.validate c = Ok None -> no_throw (Codec.make_tx_encoder fuel (codec_config c)) /\ no_throw (Codec.make_decoder fuel (codec_config c)).
Proof.
  intros Hv. pose proof (shaper_no_throw fuel c Hv) as Hs. apply valid_ranges in Hv as (_ & Hsps & _). split; (apply no_throw_bind; [exact Hs|]); [done|].
  intros p _. assert (exists k, CarrierSync.make_sync Codec.LOOP_GAIN = Ok k) as [k ->] by (vm_compute; by eexists). cbn [mbind outcome_bind].
  unfold TimingRecovery.make_timing. cbn [codec_config Codec.samples_per_symbol]. destruct (Z.ltb_spec (QpskConfig.samples_per_symbol c) 2); [lia|].
  assert ((dle Codec.LOOP_GAIN (S754_zero false) || dle (double_of_Z 1) Codec.LOOP_GAIN) = false) as -> by (vm_compute; reflexivity). done.
Qed.

Lemma synchroniser_no_throw fuel d samples e : Codec.synchroniser_fails fuel d samples e -> forall x, e <> Throw x.
Proof.
  intros [E|(synced & c & _ & [E|E])]; eapply no_throw_err; try exact E; [apply CarrierSync.synchronize_no_throw|apply TimingRecovery.recover_no_throw|apply CarrierSync.synchronize_no_throw].
Qed.

Lemma tcp_idle : idle (InputServer.make FRAME_SIZE) OutputServer.make.
Proof. split; [by split|by split|]. split; [|done]. split; [done|]. cbn. unfold FRAME_SIZE. lia. Qed.

Lemma udp_idle : idle UdpSockets.make_in UdpSockets.make_out.
Proof. by split. Qed.

Lemma main_io fuel c m b200 streams e d w inherited :
  TxPath.encoder_fine e -> Codec.decoder_ok d ->
  match io fuel c m b200 streams e d w with
  | Ok (calls, code) => legal calls (fun open => open = inherited) inherited /\ (code = 0 \/ code = 1)
  | Err e => forall x, e <> Throw x
  end.
Proof.
  intros He Hd. assert (no_throw (ramp c m (bool_decide (is_Some b200)))) as Hr.
  { unfold ramp. destruct (_ && _); [|done]. by apply no_throw_bind; [apply int_no_throw|]. }
  unfold io. destruct (QpskConfig.use_udp c).
  - pose proof (shutdown_spec (ramp c m (bool_decide (is_Some b200))) fuel m b200 streams _ _ e d (over_udp w) inherited udp_idle He Hd) as Hm.
    destruct (run_io _ _ _ _ _ _ _ _ _ _) as [r|ex]; cbn [mbind outcome_bind].
    + destruct Hm as (Hl & Hc & _). split; [done|]. rewrite Hc. destruct (io_starts _ _ _ _ _); [by left|by right].
    + destruct Hm as [(d' & samples & Hf)|[Hf|[-> _]]]; [by eapply synchroniser_no_throw|by eapply no_throw_err|done].
  - pose proof (shutdown_spec (ramp c m (bool_decide (is_Some b200))) fuel m b200 streams _ _ e d (over_tcp w) inherited tcp_idle He Hd) as Hm.
    destruct (run_io _ _ _ _ _ _ _ _ _ _) as [r|ex]; cbn [mbind outcome_bind].
    + destruct Hm as (Hl & Hc & _). split; [done|]. rewrite Hc. destruct (io_starts _ _ _ _ _); [by left|by right].
    + destruct Hm as [(d' & samples & Hf)|[Hf|[-> _]]]; [by eapply synchroniser_no_throw|by eapply no_throw_err|done].
Qed.

(** The parser's exits. *)
Lemma set_option_exit arg val opts code : QpskConfig.set_option stod files arg val opts = Ok (inr code) -> code = 1.
Proof.
  unfold QpskConfig.set_option. destruct opts as [[] m]. intros E.
  repeat match type of E with (if ?b then _ else _) = _ => destruct b end; try inv_ok E; congruence.
Qed.

Lemma parse_exit args code : QpskConfig.parse_args stod files args = Ok (inr code) -> code = 0 \/ code = 1.
Proof.
  unfold QpskConfig.parse_args. intros E. inv_ok E. destruct r as [o|z]; [by inv_ok E|]. injection E as <-.
  revert E0. generalize (QpskConfig.MkOptions QpskConfig.defaults QpskConfig.TX_RX). 
  enough (forall n args opts, (length args <= n)%nat -> QpskConfig.parse_loop stod files args opts = Ok (inr z) -> z = 0 \/ z = 1) as Hn by (intros o; by eapply Hn).
  clear. induction n as [|n IH]; intros [|arg args] opts Hl E; cbn [QpskConfig.parse_loop length] in *; try done; [lia|].
  destruct (decide _); [injection E as <-; by left|]. destruct (decide _); [eapply IH; [|exact E]; lia|].
  destruct args as [|val args]; [injection E as <-; by right|]. inv_ok E. destruct r as [o|z'].
  - eapply IH; [|exact E]. cbn [length] in Hl. lia.
  - injection E as <-. right. by eapply set_option_exit.
Qed.

End main.

#[local] Existing Instance Codec.taylor_libm.

Definition opens (fd : Z) : setup := MkSetup fd 1 0 0 0 0.
Definition batch : list (B200.rx_error * list complex) := [(B200.ERROR_CODE_NONE, replicate RX_BATCH_SIZE czero)].

(** A datagram arrives, and the signal before the transmit thread's next round:
    what was queued for the radio is dropped, while the receive direction's
    queue is emptied. *)
Example queued_dropped :
  match run_io (Ok 0%nat) 10 QpskConfig.TX_RX (Some TxPath.sample_radio) true UdpSockets.make_in UdpSockets.make_out TxPath.sample_encoder Codec.sample_decoder
          (MkWorld (opens 3) (opens 4) 0 [OnTx (TxPath.Input (Some (Some [0x41])))] (true, fun _ => None) []) with
  | Ok (MkResult code made (Some (l, e))) =>
      code = 0 /\ made = [Opens 3; Uses 3; Uses 3; Opens 4; Uses 3; Uses 3; Closes 3; Closes 4] /\
      Stage.accepted (TxPath.offers (on_tx l)) = [[0x41]] /\ TxPath.sent (on_tx l) = []
  | _ => False
  end.
Proof. vm_compute. repeat split. Qed.

(** The device delivers nothing: the receive thread does not look at the flag,
    and [main] waits for it. *)
Example no_samples_no_end :
  run_io (Ok 0%nat) 10 QpskConfig.TX_RX (Some TxPath.sample_radio) true UdpSockets.make_in UdpSockets.make_out TxPath.sample_encoder Codec.sample_decoder
    (MkWorld (opens 3) (opens 4) 0 [Recv (replicate 100 (B200.ERROR_CODE_TIMEOUT, []))] (true, fun _ => None) []) = Err Diverges.
Proof. vm_compute. reflexivity. Qed.

Definition sample_world : world TcpInput.round tcp_answer :=
  MkWorld (opens 3) (opens 4) 0
    [OnOutput (Some 5, fun _ _ _ => 100); OnTx (TxPath.Input (TcpInput.MkRound (TcpInput.PollReady (Some 6) false (fun _ => [])) 0 0));
     OnTx (TxPath.Transmit []); Recv batch]
    (None, fun _ _ _ => 100) [].


(** It returns there. *)
Example sample_returns :
  match run_io (Ok 0%nat) 10 QpskConfig.TX_RX (Some TxPath.sample_radio) true (InputServer.make FRAME_SIZE) OutputServer.make TxPath.sample_encoder Codec.sample_decoder sample_world with
  | Ok (MkResult code _ (Some _)) => code = 0
  | _ => False
  end.
Proof. vm_compute. reflexivity. Qed.

Definition sample_surroundings : surroundings :=
  MkSurroundings sample_world (MkWorld (opens 3) (opens 4) 0 [] (true, fun _ => None) []).


(** Without a radio the receive mode serves until the signal, and ends with 0. *)
Example main_ends :
  match main QpskConfig.binary_stod (fun _ => None) false (fun _ _ => inr true) 100 ["--mode"; "rx"]%string sample_surroundings with
  | Ok (calls, _, code) => code = 0 /\ calls <> []
  | Err _ => False
  end.
Proof. vm_compute. by split. Qed.
End ModemMain.
